(* ===== verification/_CoqProject ===== *)
-Q . S2P
Prelude.v
Types.v
Validators.v
Rotation.v
Concrete.v
Auth.v
Commits.v
VoteSet.v
OwnVotes.v
Evidence.v
Timeout.v
PeerState.v
BlockSync.v
Wal.v
Codec.v
FileWal.v
WalCodec.v
WalLog.v
WalRecovery.v
WalSearch.v
WalSessions.v
WalTheorems.v
Privval.v
BlockParts.v
Consensus.v
Safety.v
Network.v
Termination.v
Runs.v
Progress.v
Polka.v
Agreement.v
Replay.v
ReplayTheorems.v
Engine.v
Schema.v
CodecLaws.v
CodecMessages.v
SchemaMessages.v
CodecRuntime.v
CodecTheorems.v
