(* ===== verification/Prelude.v ===== *)
(** * Leaderberry: verification of a BFT consensus engine

    Leaderberry is a Tendermint-style consensus engine in Go. Validators vote in rounds on one block
    per height; a block is committed when precommits of more than two thirds of the voting power
    name it. This library models the engine and proves what makes its parts correct, alone and
    together.

    ** How to read the model

    Go functions are Rocq functions. A pointer is an [option]; where the code shares an object, the
    model has a position or a small heap ([Validators], [VoteSet], [PeerState]). Integers are [Z],
    with the wrap-around of their width written out ([wrap64], [wrap32], [u16], [u32] below). A
    fallible function returns [res]: a value, a Go error, or a panic. Code that changes state takes
    the state and returns it; the consensus engine uses a monad whose outcomes are a result, a panic
    with the state it leaves, and the end of the fuel. Methods that hold a mutex from start to end
    are atomic steps, and concurrency is the interleaving of such steps in a step relation.

    Code outside the repository is a class: [Crypto] (SHA-256 and Ed25519) and [Runtime] (the writer
    and reader of the Cramberry serializer). So are the interfaces of the code: [PrivValidator],
    [BlockExecutor], [WAL], [BlockProvider], [BlockStore]; and [Cramberry] and [WalCodec], what the
    engine needs of the generated encoders, which [Codec] implements over a [Runtime]. [MapOrder]
    and [PeerOrder] are the arbitrary order in which Go iterates a map; the theorems hold for every
    order. Classes of laws ([CryptoLaws], [ExecutorLaws], [RuntimeLaws], [RuntimeProgress], [failed_tag_zero])
    state documented behaviour, such as the length of a hash, and are assumed only where a theorem names
    them. [Concrete] has executable instances, which only examples and witnesses use.

    ** The parts

    - [Types] (types/hash.go, block.go, proposal.go, vote.go, account.go and the records of
      types/generated): data, deep copies, hashes, and the bytes that are signed.
    - [Validators], [Rotation] (types/validator.go): validator sets, their hash, proposer selection.
      [Rotation] follows the weighted round robin over many heights.
    - [Commits] (types/vote.go): [VerifyCommit] and [VerifyCommitLight].
    - [Auth] (types/account.go): weights of signatures and delegated accounts.
    - [BlockParts] (types/block_parts.go): blocks in parts, with Merkle proofs.
    - [VoteSet] (engine/vote_tracker.go): the tally of one height, round and type, and the vote sets
      of a height. [OwnVotes]: which votes a node finds recorded there, and that none is dropped.
    - [Evidence] (evidence/pool.go): evidence of equivocation.
    - [Timeout] (engine/timeout.go, config.go): the ticker as a state machine.
    - [Privval] (privval/signer.go, file_pv.go): the file signer, with every call of the operating
      system that may fail, crashes, and the lock file.
    - [Wal], [FileWal] (wal/wal.go, file_wal.go): messages and the segmented log. Proofs about it
      are in [WalCodec] (records), [WalLog] (the writer, by Hoare triples over an abstract log of
      messages), [WalRecovery] (crashes, reading back, starting), [WalSearch] (search and
      checkpoints), [WalSessions] (sequences of sessions and crashes), and [WalTheorems].
    - [Codec] (types/generated): the generated encoders and decoders of the messages that the engine
      sends, signs, hashes and logs; [Schema]: the rest of the generated code. [CodecLaws] has the laws of
      the runtime and what follows for each kind of field, [CodecMessages] and [SchemaMessages]
      the tokens of each message, [CodecRuntime] a runtime, [CodecTheorems] the theorems.
    - [Consensus] (engine/state.go): all handlers of the state machine and its event loop. [Safety]
      has its invariant, [Termination] its fuel, [Runs] the theorems on runs, [Progress] and [Polka]
      what a node does when the votes arrive, [Network] several nodes that exchange messages,
      [Agreement] that they agree.
    - [Replay], [ReplayTheorems] (engine/replay.go): recovery from the log.
    - [PeerState] (engine/peer_state.go) and [BlockSync] (engine/blocksync.go): what peers have, and
      catching up.
    - [Engine] (engine/engine.go, errors.go): the life cycle and the messages from the network; it
      puts the node, the signer, the log and the executor together.

    ** What is proved

    Safety of one node: in every run ([reach] in [Runs]), whatever messages and timeouts arrive, the
    state is well-formed ([Consensus_invariant]), each commit is of the block it names and verifies
    ([commit_safety]), each precommit has a quorum of prevotes, and after a precommit the node
    prevotes another block in a later round only after a quorum of prevotes for something else, of a
    round since ([lock_discipline]). [Engine_runs_safely] carries this over to the node inside a
    started engine.

    Safety of the network: if validators with at most a third of the power deviate from the code, two
    certificates of a height are for the same block, unless a round between theirs has a quorum of
    prevotes for nil ([agreement_unless_nil]). The correct validators are nodes in any state they
    reach; quorums meet in one of them, and [lock_discipline] does the rest. Without the exception
    the claim is false ([agreement_fails]).

    Liveness of one node, when the calls it makes work: a node that waits for prevotes with the block at
    hand locks the block and precommits it as soon as the prevotes that arrive are a quorum, and
    commits it as soon as the precommits of the others are one together with its own, without a
    panic ([round_decides]); a node that only listens commits in the same way ([precommits_commit]).
    The votes may arrive in any order within each of the two steps; their timestamps must be within
    the drift of the clock whenever they arrive.

    Signatures and certificates: no schedule of calls, faults, crashes, restarts and closings makes
    the file signer hand out two different signatures for one height, round and step, as long as
    no object signs after its own [Close] ([FilePV_no_double_sign]; if one does, it can happen:
    [SignVote_after_Close]); [VerifyCommit] accepts exactly the commits with enough power of
    distinct valid signers ([VerifyCommit_spec]), so that two certificates for different blocks of
    one height name the validators who signed both, more than a third of the power
    ([VerifyCommit_accountable]).

    Refinement: a vote set is the log of the votes it has accepted ([AddVote_refines_log]), and its
    commits verify ([MakeCommit_verifies]); a vote bitmap is a finite set; the file log is a list of
    messages of which a crash keeps a prefix with all that was synced and no checkpoint covers,
    over any number of sessions ([synced_messages_survive_crash]). The conditions are those of
    [used] in [WalSessions]: sessions start at the end of a whole record in a directory they can
    list, messages are below the limit of the decoder, and a crash keeps the names of the
    segments. For each of them a theorem shows that the code needs it:
    [restart_after_torn_record_loses_synced], [Start_without_ReadDir_reorders],
    [oversized_message_hides_log], [lost_names_lose_synced].

    Integrity of blocks: what a part set yields is the data of its header ([GetData_integrity]),
    unless two different strings with one digest are among those that were hashed, which the
    theorem lists.

    Encoding: all generated messages round-trip ([generated_roundtrip]), decoding ends on every input
    ([decoding_ends]), and what is signed fixes the vote or the proposal ([sign_bytes_bind]).

    Round trips of block parts, records of the log, network messages, sign state and validator sets;
    bounds of weights and proposer priorities; liveness of evidence and of block sync.

    Termination: [handlers_terminate], [ReplayWAL_reads_log], [requestMissingBlocks_ends].

    Some theorems show where the code falls short of what it means to do: [agreement_fails] (a
    quorum of nil prevotes unlocks correct nodes, and they commit two blocks),
    [commit_without_block_panics], [SignVote_after_Close],
    [restart_after_torn_record_loses_synced], [lost_names_lose_synced],
    [ReplayWAL_misses_next_segment], [oversized_message_hides_log], [ReplayCatchup_forgets_lock],
    [duplicate_delegation_counts_twice], [metadata_order_shows], [oversized_count_panics] (a peer can make a node panic), and
    the second part of [requestMissingBlocks_ends].

    ** Fuel

    Where Go recursion or a loop is not structural, the function has fuel. The handlers of
    [Consensus] take the depth of own votes within a handler: 2 is enough, and more changes nothing,
    unless [SkipTimeoutCommit] is set, with which the code itself does not return on a single
    validator. The decoder of a segment has fuel one above its length in bytes, and a record takes
    at least eight. Replay needs one unit per message of the log; a reader of the whole log one per
    byte. The decoders of [Codec] take one above the length of the input; for what the encoders
    write, 12 is enough, and for nested authorizations their depth. The tick of [BlockSync] needs one
    per missing height. The Merkle loops take the number of leaves.

    ** What is not modelled

    - The Cramberry runtime, which is not in the repository.
    - The methods of [ConsensusState] that lock the mutex and call the method of the same name with
      the suffix [Locked]; nothing calls them.
    - Logging, contexts and wait groups, buffer pools, the real clock (it is an argument), and the
      scheduling of goroutines beyond the interleaving of atomic steps. A Stop of the block syncer
      does not interrupt a tick.
    - The wire between nodes: broadcasts are recorded in a trace, and received messages are
      arbitrary.
    - In a crash of the log, bytes that were not synced may be lost from the end of a file, but not
      reordered, and the names of segments may be lost, but a segment that was removed does not
      come back. A checkpoint whose removals fail removes nothing; the code may remove some
      segments before one fails. Sizes of segments do not overflow 64 bits. *)

From stdpp Require Export base tactics list gmap strings pretty sorting.
From Stdlib Require Export ZArith Lia.
From Stdlib Require Strings.Byte Strings.String.

#[global] Open Scope Z_scope.
#[global] Set Default Proof Using "Type".

(** ** Go values: bytes, fixed-width integers *)

Abbreviation byte := Corelib.Init.Byte.byte.
Abbreviation bytes := (list Corelib.Init.Byte.byte).

#[export] Instance byte_eq_dec : EqDecision byte := Byte.byte_eq_dec.

#[export] Instance byte_inhabited : Inhabited byte := populate Byte.x00.

(** [string(bs)] and [[]byte(s)]: a Go string is a sequence of bytes. *)
Definition bytes_of_string (s : string) : bytes := String.list_byte_of_string s.
Definition string_of_bytes (b : bytes) : string := String.string_of_list_byte b.

(** An unsigned value of a byte, and truncation of an integer to a byte. *)
Definition byte_val (b : byte) : Z := Z.of_N (Byte.to_N b).
Definition byte_of_Z (z : Z) : byte :=
  match Byte.of_N (Z.to_N (z `mod` 256)) with Some b => b | None => Byte.x00 end.

Definition MaxInt64 : Z := 2 ^ 63 - 1.
Definition MinInt64 : Z := - 2 ^ 63.
Definition MaxInt32 : Z := 2 ^ 31 - 1.

(** Two's complement wrap-around of the signed Go integers. *)
Definition wrap64 (z : Z) : Z := (z + 2 ^ 63) `mod` 2 ^ 64 - 2 ^ 63.
Definition wrap32 (z : Z) : Z := (z + 2 ^ 31) `mod` 2 ^ 32 - 2 ^ 31.

(** Truncation to the unsigned Go integers. *)
Definition u16 (z : Z) : Z := z `mod` 2 ^ 16.
Definition u32 (z : Z) : Z := z `mod` 2 ^ 32.
Definition u64 (z : Z) : Z := z `mod` 2 ^ 64.

Definition in_i64 (z : Z) : Prop := MinInt64 <= z <= MaxInt64.
Definition in_u16 (z : Z) : Prop := 0 <= z < 2 ^ 16.

(** ** Go errors and outcomes

    A sentinel error (a package variable built by [errors.New]) is named by its
    variable; [fmt.Errorf("%w: ...", e)] wraps it; any other error value carries
    its message (format arguments dropped). *)
Inductive error : Type :=
| sentinel (name : string)
| wrapf (e : error) (msg : string)
| errorf (msg : string).

#[export] Instance error_eq_dec : EqDecision error.
Proof. solve_decision. Defined.

(** [errors.Is(e, target)] for a sentinel target. *)
Fixpoint errors_Is (e target : error) : bool :=
  bool_decide (e = target) ||
  match e with wrapf e' _ => errors_Is e' target | _ => false end.

(** The outcome of a Go call that returns [(A, error)] and may panic. *)
Inductive res (A : Type) : Type :=
| Ret (a : A)
| Err (e : error)
| Panic (msg : string).
Arguments Ret {A} a.
Arguments Err {A} e.
Arguments Panic {A} msg.

#[export] Instance res_eq_dec {A} `{EqDecision A} : EqDecision (res A).
Proof. solve_decision. Defined.

Definition rbind {A B} (m : res A) (k : A -> res B) : res B :=
  match m with Ret a => k a | Err e => Err e | Panic msg => Panic msg end.

(** [errors] returned by a callee that the caller re-wraps with [%w]. *)
Definition rwrap {A} (m : res A) (f : error -> error) : res A :=
  match m with Ret a => Ret a | Err e => Err (f e) | Panic msg => Panic msg end.

Definition is_Ret {A} (m : res A) : bool := match m with Ret _ => true | _ => false end.

Declare Scope go_scope.
Delimit Scope go_scope with go.
Notation "'let!' x ':=' m 'in' k" := (rbind m (fun x => k))
  (at level 10, x pattern, m at level 100, k at level 200) : go_scope.
(** [if b { return e }; k] *)
Notation "'if!' b 'return' e 'in' k" := (if b then e else k)
  (at level 10, b at level 100, e at level 100, k at level 200) : go_scope.
#[global] Open Scope go_scope.

(** ** Sums of a weight over a list *)

Fixpoint sumZ {A} (f : A -> Z) (l : list A) : Z :=
  match l with [] => 0 | x :: l' => f x + sumZ f l' end.

(** ** Tactics *)

(** Case analysis on every [match] in sight, then clean up. *)
Ltac go_cases := repeat (case_match; simplify_eq/=; try done).

(** Inversion of a monadic hypothesis [rbind m k = Ret b]. *)
Ltac inv_bind H :=
  match type of H with
  | rbind ?m ?k = Ret _ =>
      let E := fresh "E" in destruct m eqn:E; cbn [rbind] in H; [|discriminate H|discriminate H]
  | rbind ?m ?k = Err _ =>
      let E := fresh "E" in destruct m eqn:E; cbn [rbind] in H; [| |discriminate H]
  end.

(** Reflect the boolean comparisons in all hypotheses into [Prop]. *)
Ltac bool_to_prop :=
  repeat match goal with
  | H : andb _ _ = true |- _ => apply andb_prop in H as [? ?]
  | H : orb _ _ = false |- _ => apply orb_false_elim in H as [? ?]
  | H : negb _ = true |- _ => apply negb_true_iff in H
  | H : negb _ = false |- _ => apply negb_false_iff in H
  | H : (_ <? _) = true |- _ => apply Z.ltb_lt in H
  | H : (_ <? _) = false |- _ => apply Z.ltb_ge in H
  | H : (_ <=? _) = true |- _ => apply Z.leb_le in H
  | H : (_ <=? _) = false |- _ => apply Z.leb_gt in H
  | H : (_ >? _) = _ |- _ => rewrite Z.gtb_ltb in H
  | H : (_ >=? _) = _ |- _ => rewrite Z.geb_leb in H
  | H : (_ =? _) = true |- _ => apply Z.eqb_eq in H
  | H : (_ =? _) = false |- _ => apply Z.eqb_neq in H
  | H : bool_decide _ = true |- _ => apply bool_decide_eq_true_1 in H
  | H : bool_decide _ = false |- _ => apply bool_decide_eq_false_1 in H
  end.

Create HintDb go discriminated.
Create Rewrite HintDb copy.
Create Rewrite HintDb sums.

(** ** Lemmas: integers *)

Lemma wrap64_small z : in_i64 z -> wrap64 z = z.
Proof.
  unfold in_i64, wrap64, MinInt64, MaxInt64. intros H.
  rewrite Z.mod_small; lia.
Qed.

Lemma wrap64_range z : in_i64 (wrap64 z).
Proof.
  unfold in_i64, wrap64, MinInt64, MaxInt64.
  pose proof (Z.mod_pos_bound (z + 2 ^ 63) (2 ^ 64) ltac:(lia)). lia.
Qed.

Lemma wrap64_add_l a b : wrap64 (wrap64 a + b) = wrap64 (a + b).
Proof.
  unfold wrap64. f_equal.
  replace ((a + 2 ^ 63) `mod` 2 ^ 64 - 2 ^ 63 + b + 2 ^ 63)
    with ((a + 2 ^ 63) `mod` 2 ^ 64 + b) by lia.
  rewrite Zplus_mod_idemp_l. f_equal. lia.
Qed.

Lemma wrap32_small z : - 2 ^ 31 <= z < 2 ^ 31 -> wrap32 z = z.
Proof. unfold wrap32. intros H. rewrite Z.mod_small; lia. Qed.

Lemma wrap32_succ_ne z : wrap32 (z + 1) <> z.
Proof. unfold wrap32. intros H. pose proof (Z.div_mod (z + 1 + 2 ^ 31) (2 ^ 32)). lia. Qed.

Lemma u16_small z : in_u16 z -> u16 z = z.
Proof. unfold in_u16, u16. intros H. by apply Z.mod_small. Qed.

Lemma u16_range z : in_u16 (u16 z).
Proof. unfold in_u16, u16. apply Z.mod_pos_bound. lia. Qed.

#[export] Hint Resolve wrap64_range u16_range : go.

(** ** Lemmas: bytes *)

Lemma byte_val_range b : 0 <= byte_val b < 256.
Proof. destruct b; vm_compute; split; congruence. Qed.

Lemma byte_of_Z_val b : byte_of_Z (byte_val b) = b.
Proof. destruct b; reflexivity. Qed.

Lemma byte_val_of_Z z : byte_val (byte_of_Z z) = z `mod` 256.
Proof.
  unfold byte_of_Z, byte_val.
  pose proof (Z.mod_pos_bound z 256 ltac:(lia)) as Hb.
  destruct (Byte.of_N (Z.to_N (z `mod` 256))) as [b|] eqn:E.
  - apply Byte.to_of_N in E. rewrite E. lia.
  - apply Byte.of_N_None_iff in E. lia.
Qed.

Lemma string_of_bytes_inj b1 b2 : string_of_bytes b1 = string_of_bytes b2 -> b1 = b2.
Proof.
  intros H. rewrite <- (String.list_byte_of_string_of_list_byte b1),
    <- (String.list_byte_of_string_of_list_byte b2).
  unfold string_of_bytes in H. by rewrite H.
Qed.

(** ** Lemmas: outcomes *)

Lemma rbind_Ret {A B} (m : res A) (k : A -> res B) b :
  rbind m k = Ret b <-> exists a, m = Ret a /\ k a = Ret b.
Proof. destruct m; cbn; naive_solver. Qed.

Lemma rwrap_Ret {A} (m : res A) f a : rwrap m f = Ret a <-> m = Ret a.
Proof. destruct m; cbn; naive_solver. Qed.

Lemma errors_Is_refl e : errors_Is e e = true.
Proof. destruct e; cbn; by rewrite bool_decide_eq_true_2. Qed.

(** ** Lemmas: lists *)

Lemma list_filter_all {A} (P : A -> Prop) `{!forall x, Decision (P x)} (l : list A) :
  (forall x, x ∈ l -> P x) -> filter P l = l.
Proof.
  induction l as [|x l IH]; intros Hl; [done|].
  rewrite filter_cons, decide_True by (apply Hl; left). f_equal. apply IH. intros y Hy. apply Hl. by right.
Qed.

Lemma elem_of_concat_lookup {A} (ls : list (list A)) p l x :
  ls !! p = Some l -> x ∈ l -> x ∈ concat ls.
Proof.
  revert p. induction ls as [|k ls IH]; intros [|p] Hp Hx; cbn in *; try done;
    apply elem_of_app; [left; congruence|right; by eapply IH].
Qed.

(** ** Lemmas: weighted sums *)

Section Sums.
Context {A : Type}.
Implicit Types (f g : A -> Z) (l k : list A).

Lemma sumZ_app f l k : sumZ f (l ++ k) = sumZ f l + sumZ f k.
Proof. induction l; cbn; lia. Qed.

Lemma sumZ_Permutation f l k : l ≡ₚ k -> sumZ f l = sumZ f k.
Proof. induction 1; cbn; lia. Qed.

Lemma sumZ_ext f g l : (forall x, x ∈ l -> f x = g x) -> sumZ f l = sumZ g l.
Proof.
  induction l as [|x l IH]; intros H; [done|]. cbn.
  rewrite (H x), IH by set_solver. done.
Qed.

Lemma sumZ_nonneg f l : (forall x, x ∈ l -> 0 <= f x) -> 0 <= sumZ f l.
Proof.
  induction l as [|x l IH]; intros H; cbn; [lia|].
  pose proof (H x ltac:(set_solver)). specialize (IH ltac:(set_solver)). lia.
Qed.

Lemma sumZ_le f g l : (forall x, x ∈ l -> f x <= g x) -> sumZ f l <= sumZ g l.
Proof.
  induction l as [|x l IH]; intros H; cbn; [lia|].
  pose proof (H x ltac:(set_solver)). specialize (IH ltac:(set_solver)). lia.
Qed.

Lemma sumZ_add f g l : sumZ (fun x => f x + g x) l = sumZ f l + sumZ g l.
Proof. induction l; cbn; lia. Qed.

Lemma sumZ_const c l : sumZ (fun _ => c) l = c * Z.of_nat (length l).
Proof. induction l; cbn [sumZ length]; lia. Qed.

Lemma sumZ_map {B} (h : B -> A) f (l : list B) : sumZ f (h <$> l) = sumZ (fun x => f (h x)) l.
Proof. induction l; cbn; [done|by f_equal]. Qed.

Lemma sumZ_filter_split (P : A -> Prop) `{!forall x, Decision (P x)} f l :
  sumZ f l = sumZ f (filter P l) + sumZ f (filter (fun x => ~ P x) l).
Proof.
  induction l as [|x l IH]; [done|]. rewrite !filter_cons.
  destruct (decide (P x)); destruct (decide (~ P x)); try tauto; cbn; lia.
Qed.

Lemma sumZ_elem_le f l x : (forall y, y ∈ l -> 0 <= f y) -> x ∈ l -> f x <= sumZ f l.
Proof.
  intros H Hx. apply list_elem_of_split in Hx as (l1 & l2 & ->).
  rewrite sumZ_app. cbn.
  pose proof (sumZ_nonneg f l1 ltac:(set_solver)).
  pose proof (sumZ_nonneg f l2 ltac:(set_solver)). lia.
Qed.

Lemma sumZ_submseteq f l k :
  (forall x, x ∈ k -> 0 <= f x) -> l ⊆+ k -> sumZ f l <= sumZ f k.
Proof.
  intros Hf [k' Hk]%submseteq_Permutation. rewrite (sumZ_Permutation f k _ Hk), sumZ_app.
  enough (0 <= sumZ f k') by lia.
  apply sumZ_nonneg. intros x Hx. apply Hf. rewrite Hk. set_solver.
Qed.

Lemma sumZ_subset f l k :
  (forall x, x ∈ k -> 0 <= f x) -> NoDup l -> l ⊆ k -> sumZ f l <= sumZ f k.
Proof. intros Hf Hl Hs. apply sumZ_submseteq; [done|]. by apply NoDup_submseteq. Qed.

(** Two sub-collections of [k] overlap at least in the excess of their sum over [k]. *)
Lemma sumZ_overlap `{EqDecision A} f l1 l2 k :
  (forall x, x ∈ k -> 0 <= f x) -> NoDup l1 -> NoDup l2 -> l1 ⊆ k -> l2 ⊆ k ->
  sumZ f l1 + sumZ f l2 <= sumZ f k + sumZ f (filter (fun x => x ∈ l2) l1).
Proof.
  intros Hf H1 H2 S1 S2.
  rewrite (sumZ_filter_split (fun x => x ∈ l2) f l1).
  enough (sumZ f (filter (fun x => x ∉ l2) l1) + sumZ f l2 <= sumZ f k) by lia.
  rewrite <- sumZ_app. apply sumZ_subset; [done| |].
  - apply NoDup_app. split_and!; [by apply NoDup_filter| |done].
    intros x [? ?]%list_elem_of_filter. done.
  - intros x [[_ ?]%list_elem_of_filter|?]%elem_of_app; auto.
Qed.
End Sums.

#[export] Hint Rewrite @sumZ_app @sumZ_add @sumZ_const @sumZ_map : sums.
