(* ===== verification/Types.v ===== *)
(** * Consensus data types (src/types, src/types/generated)

    The records of the cramberry schemas with the source's fields, the hash, key and
    account-name helpers of hash.go and account.go, the deep-copy functions of block.go,
    vote.go, proposal.go and validator.go, and the sign-bytes/hash functions, over the
    interfaces [Crypto], of code that is not in the repository, and [Cramberry], which [Codec]
    implements. *)

From S2P Require Export Prelude.

(** ** Data (types/generated/*.go)

    A pointer field is an [option]; an enum is its [int32] value; nil and empty
    slices are identified except in [b_Evidence], where the code tells them apart. *)

Record Hash := mkHash { h_Data : bytes }.
Record Signature := mkSignature { sig_Data : bytes }.
Record PublicKey := mkPublicKey { pk_Data : bytes }.
Record AccountName := mkAccountName { an_Name : option string }.

Definition VoteTypeUnknown : Z := 0.
Definition VoteTypePrevote : Z := 1.
Definition VoteTypePrecommit : Z := 2.

Record Vote := mkVote {
  vt_Type : Z;
  vt_Height : Z;
  vt_Round : Z;
  vt_BlockHash : option Hash;
  vt_Timestamp : Z;
  vt_Validator : AccountName;
  vt_ValidatorIndex : Z;
  vt_Signature : Signature }.

Record CommitSig := mkCommitSig {
  cs_ValidatorIndex : Z;
  cs_Signature : Signature;
  cs_Timestamp : Z;
  cs_BlockHash : option Hash }.

Record Commit := mkCommit {
  cm_Height : Z;
  cm_Round : Z;
  cm_BlockHash : Hash;
  cm_Signatures : list CommitSig }.

Record BatchCertRef := mkBatchCertRef {
  bcr_CertificateDigest : Hash;
  bcr_Round : Z;
  bcr_Validator : AccountName }.

Record BlockHeader := mkBlockHeader {
  bh_ChainId : string;
  bh_Height : Z;
  bh_Time : Z;
  bh_LastBlockHash : option Hash;
  bh_LastCommitHash : option Hash;
  bh_ValidatorsHash : option Hash;
  bh_AppHash : option Hash;
  bh_ConsensusHash : option Hash;
  bh_DagRound : Z;
  bh_BatchCertRefs : list BatchCertRef;
  bh_Proposer : AccountName }.

Record BlockData := mkBlockData { bd_BatchDigests : list Hash }.

Record Block := mkBlock {
  b_Header : BlockHeader;
  b_Data : BlockData;
  b_Evidence : option (list bytes);
  b_LastCommit : option Commit }.

Record Proposal := mkProposal {
  p_Height : Z;
  p_Round : Z;
  p_Timestamp : Z;
  p_Block : Block;
  p_PolRound : Z;
  p_PolVotes : list Vote;
  p_Proposer : AccountName;
  p_Signature : Signature }.

Record NamedValidator := mkNamedValidator {
  nv_Name : AccountName;
  nv_Index : Z;
  nv_PublicKey : PublicKey;
  nv_VotingPower : Z;
  nv_ProposerPriority : Z }.

Record ValidatorSetData := mkValidatorSetData {
  vsd_Validators : list NamedValidator;
  vsd_ProposerIndex : Z;
  vsd_TotalPower : Z }.

Record DuplicateVoteEvidence := mkDuplicateVoteEvidence {
  dve_VoteA : Vote;
  dve_VoteB : Vote;
  dve_TotalVotingPower : Z;
  dve_ValidatorPower : Z;
  dve_Timestamp : Z }.

Record Evidence := mkEvidence {
  ev_Type : Z;
  ev_Height : Z;
  ev_Time : Z;
  ev_Data : bytes }.

(** The consensus state written to the write-ahead log. *)
Record ConsensusStateData := mkConsensusStateData {
  csd_Height : Z;
  csd_Round : Z;
  csd_Step : Z;
  csd_LockedRound : Z;
  csd_LockedBlockHash : option Hash;
  csd_ValidRound : Z;
  csd_ValidBlockHash : option Hash }.

#[export] Instance Hash_eq_dec : EqDecision Hash.
Proof. solve_decision. Defined.
#[export] Instance Signature_eq_dec : EqDecision Signature.
Proof. solve_decision. Defined.
#[export] Instance PublicKey_eq_dec : EqDecision PublicKey.
Proof. solve_decision. Defined.
#[export] Instance AccountName_eq_dec : EqDecision AccountName.
Proof. solve_decision. Defined.
#[export] Instance Vote_eq_dec : EqDecision Vote.
Proof. solve_decision. Defined.
#[export] Instance CommitSig_eq_dec : EqDecision CommitSig.
Proof. solve_decision. Defined.
#[export] Instance Commit_eq_dec : EqDecision Commit.
Proof. solve_decision. Defined.
#[export] Instance BatchCertRef_eq_dec : EqDecision BatchCertRef.
Proof. solve_decision. Defined.
#[export] Instance BlockHeader_eq_dec : EqDecision BlockHeader.
Proof. solve_decision. Defined.
#[export] Instance BlockData_eq_dec : EqDecision BlockData.
Proof. solve_decision. Defined.
#[export] Instance Block_eq_dec : EqDecision Block.
Proof. solve_decision. Defined.
#[export] Instance Proposal_eq_dec : EqDecision Proposal.
Proof. solve_decision. Defined.
#[export] Instance NamedValidator_eq_dec : EqDecision NamedValidator.
Proof. solve_decision. Defined.
#[export] Instance DuplicateVoteEvidence_eq_dec : EqDecision DuplicateVoteEvidence.
Proof. solve_decision. Defined.
#[export] Instance Evidence_eq_dec : EqDecision Evidence.
Proof. solve_decision. Defined.

(** ** Interfaces

    [crypto/sha256] and [crypto/ed25519]; and the [MarshalCramberry] and [UnmarshalCramberry]
    methods, which are generated, and call a third-party runtime. Nothing is assumed here: the theorems that need the
    documented lengths take [CryptoLaws]. *)
Class Crypto := {
  sha256_Sum256 : bytes -> bytes;
  ed25519_Verify : bytes -> bytes -> bytes -> bool;   (* public key, message, signature *)
  ed25519_Sign : bytes -> bytes -> bytes              (* private key, message *)
}.

Class CryptoLaws `{Crypto} : Prop := {
  sha256_length : forall m, length (sha256_Sum256 m) = 32%nat;
  ed25519_Sign_length : forall k m, length (ed25519_Sign k m) = 64%nat
}.

Class Cramberry := {
  marshal_BlockHeader : BlockHeader -> res bytes;
  marshal_Block : Block -> res bytes;
  marshal_Commit : Commit -> res bytes;
  marshal_Vote : Vote -> res bytes;
  marshal_Proposal : Proposal -> res bytes;
  marshal_ValidatorSetData : ValidatorSetData -> res bytes;
  marshal_DuplicateVoteEvidence : DuplicateVoteEvidence -> res bytes;
  marshal_ConsensusStateData : ConsensusStateData -> res bytes;
  unmarshal_Block : bytes -> res Block;
  unmarshal_Vote : bytes -> res Vote;
  unmarshal_Proposal : bytes -> res Proposal
}.

(** ** hash.go *)

Definition HashSize : Z := 32.
Definition SignatureSize : Z := 64.
Definition PublicKeySize : Z := 32.

Definition len {A} (l : list A) : Z := Z.of_nat (length l).

(** [copied := make([]byte, len(d)); copy(copied, d)]: a fresh slice of the same bytes. *)
Definition clone {A} (d : list A) : list A := (fun x => x) <$> d.

Definition NewHash (data : bytes) : res Hash :=
  if negb (len data =? HashSize) then Err (errorf "hash must be %d bytes, got %d")
  else Ret (mkHash (clone data)).

Definition MustNewHash (data : bytes) : res Hash :=
  match NewHash data with
  | Err _ => Panic "hash must be %d bytes, got %d"
  | r => r
  end.

Definition HashEmpty : Hash := mkHash (replicate 32 Byte.x00).

Definition IsHashEmpty (h : option Hash) : bool :=
  match h with
  | None => true
  | Some h => forallb (fun b => bool_decide (b = Byte.x00)) (h_Data h)
  end.

Definition HashEqual (a b : Hash) : bool := bool_decide (h_Data a = h_Data b).

Definition hex_digit (n : Z) : Ascii.ascii :=
  match String.get (Z.to_nat n) "0123456789abcdef" with Some c => c | None => Ascii.zero end.

(** [hex.EncodeToString] *)
Fixpoint hex_EncodeToString (b : bytes) : string :=
  match b with
  | [] => ""
  | x :: b' => String (hex_digit (byte_val x / 16))
                 (String (hex_digit (byte_val x `mod` 16)) (hex_EncodeToString b'))
  end.

Definition HashString (h : Hash) : string := hex_EncodeToString (h_Data h).

Definition NewSignature (data : bytes) : res Signature :=
  if negb (len data =? SignatureSize) then Err (errorf "signature must be %d bytes, got %d")
  else Ret (mkSignature (clone data)).

Definition MustNewSignature (data : bytes) : res Signature :=
  match NewSignature data with
  | Err _ => Panic "signature must be %d bytes, got %d"
  | r => r
  end.

Definition NewPublicKey (data : bytes) : res PublicKey :=
  if negb (len data =? PublicKeySize) then Err (errorf "public key must be %d bytes, got %d")
  else Ret (mkPublicKey (clone data)).

Definition MustNewPublicKey (data : bytes) : res PublicKey :=
  match NewPublicKey data with
  | Err _ => Panic "public key must be %d bytes, got %d"
  | r => r
  end.

Definition PublicKeyEqual (a b : PublicKey) : bool := bool_decide (pk_Data a = pk_Data b).

Definition CopySignature (s : Signature) : Signature :=
  if len (sig_Data s) =? 0 then mkSignature [] else mkSignature (clone (sig_Data s)).

Definition CopyPublicKey (pk : PublicKey) : PublicKey :=
  if len (pk_Data pk) =? 0 then mkPublicKey [] else mkPublicKey (clone (pk_Data pk)).

(** ** account.go: names *)

Definition NewAccountName (name : string) : AccountName := mkAccountName (Some name).

Definition AccountNameString (a : AccountName) : string :=
  match an_Name a with None => "" | Some s => s end.

Definition IsAccountNameEmpty (a : AccountName) : bool :=
  match an_Name a with None => true | Some s => bool_decide (s = "") end.

Definition AccountNameEqual (a b : AccountName) : bool :=
  match an_Name a, an_Name b with
  | None, None => true
  | None, _ | _, None => false
  | Some x, Some y => bool_decide (x = y)
  end.

Definition CopyAccountName (a : AccountName) : AccountName :=
  match an_Name a with None => mkAccountName None | Some s => mkAccountName (Some s) end.

(** Go's [<] on strings: byte-wise lexicographic order. *)
Definition string_ltb (a b : string) : bool := String.ltb a b.

(** ** Deep copies (block.go, vote.go, proposal.go, validator.go) *)

Definition copy_data (d : bytes) : bytes := if 0 <? len d then clone d else [].

Definition CopyHash (h : option Hash) : option Hash :=
  match h with None => None | Some h => Some (mkHash (copy_data (h_Data h))) end.

Definition CopyCommitSig (sig : option CommitSig) : CommitSig :=
  match sig with
  | None => mkCommitSig 0 (mkSignature []) 0 None
  | Some sig =>
      {| cs_ValidatorIndex := cs_ValidatorIndex sig;
         cs_Signature := mkSignature (copy_data (sig_Data (cs_Signature sig)));
         cs_Timestamp := cs_Timestamp sig;
         cs_BlockHash := CopyHash (cs_BlockHash sig) |}
  end.

Definition CopyCommit (c : option Commit) : option Commit :=
  match c with
  | None => None
  | Some c => Some
      {| cm_Height := cm_Height c;
         cm_Round := cm_Round c;
         cm_BlockHash := mkHash (copy_data (h_Data (cm_BlockHash c)));
         cm_Signatures := (fun sig => CopyCommitSig (Some sig)) <$> cm_Signatures c |}
  end.

Definition CopyBatchCertRef (ref : option BatchCertRef) : BatchCertRef :=
  match ref with
  | None => mkBatchCertRef (mkHash []) 0 (mkAccountName None)
  | Some ref =>
      {| bcr_CertificateDigest := mkHash (copy_data (h_Data (bcr_CertificateDigest ref)));
         bcr_Round := bcr_Round ref;
         bcr_Validator := CopyAccountName (bcr_Validator ref) |}
  end.

Definition zeroBlockHeader : BlockHeader :=
  mkBlockHeader "" 0 0 None None None None None 0 [] (mkAccountName None).

Definition CopyBlockHeader (h : option BlockHeader) : BlockHeader :=
  match h with
  | None => zeroBlockHeader
  | Some h =>
      {| bh_ChainId := bh_ChainId h;
         bh_Height := bh_Height h;
         bh_Time := bh_Time h;
         bh_LastBlockHash := CopyHash (bh_LastBlockHash h);
         bh_LastCommitHash := CopyHash (bh_LastCommitHash h);
         bh_ValidatorsHash := CopyHash (bh_ValidatorsHash h);
         bh_AppHash := CopyHash (bh_AppHash h);
         bh_ConsensusHash := CopyHash (bh_ConsensusHash h);
         bh_DagRound := bh_DagRound h;
         bh_BatchCertRefs := (fun ref => CopyBatchCertRef (Some ref)) <$> bh_BatchCertRefs h;
         bh_Proposer := CopyAccountName (bh_Proposer h) |}
  end.

Definition CopyBlockData (d : option BlockData) : BlockData :=
  match d with
  | None => mkBlockData []
  | Some d => mkBlockData ((fun digest => mkHash (copy_data (h_Data digest))) <$> bd_BatchDigests d)
  end.

Definition CopyBlock (b : option Block) : option Block :=
  match b with
  | None => None
  | Some b => Some
      {| b_Header := CopyBlockHeader (Some (b_Header b));
         b_Data := CopyBlockData (Some (b_Data b));
         b_Evidence := match b_Evidence b with
                       | None => None
                       | Some evs => Some (copy_data <$> evs)
                       end;
         b_LastCommit := CopyCommit (b_LastCommit b) |}
  end.

Definition CopyVote (v : option Vote) : option Vote :=
  match v with
  | None => None
  | Some v => Some
      {| vt_Type := vt_Type v;
         vt_Height := vt_Height v;
         vt_Round := vt_Round v;
         vt_BlockHash := match vt_BlockHash v with
                         | None => None
                         | Some h => Some (mkHash (copy_data (h_Data h)))
                         end;
         vt_Timestamp := vt_Timestamp v;
         vt_Validator := CopyAccountName (vt_Validator v);
         vt_ValidatorIndex := vt_ValidatorIndex v;
         vt_Signature := mkSignature (copy_data (sig_Data (vt_Signature v))) |}
  end.

Definition zeroVote : Vote :=
  mkVote 0 0 0 None 0 (mkAccountName None) 0 (mkSignature []).

Definition zeroBlock : Block := mkBlock zeroBlockHeader (mkBlockData []) None None.

Definition CopyProposal (p : option Proposal) : option Proposal :=
  match p with
  | None => None
  | Some p => Some
      {| p_Height := p_Height p;
         p_Round := p_Round p;
         p_Timestamp := p_Timestamp p;
         p_Block := default zeroBlock (CopyBlock (Some (p_Block p)));
         p_PolRound := p_PolRound p;
         p_PolVotes := (fun vote => default zeroVote (CopyVote (Some vote))) <$> p_PolVotes p;
         p_Proposer := CopyAccountName (p_Proposer p);
         p_Signature := mkSignature (copy_data (sig_Data (p_Signature p))) |}
  end.

Definition CopyValidator (v : option NamedValidator) : option NamedValidator :=
  match v with
  | None => None
  | Some v => Some
      {| nv_Name := CopyAccountName (nv_Name v);
         nv_Index := nv_Index v;
         nv_PublicKey := mkPublicKey (copy_data (pk_Data (nv_PublicKey v)));
         nv_VotingPower := nv_VotingPower v;
         nv_ProposerPriority := nv_ProposerPriority v |}
  end.

(** ** Constructors (block.go, proposal.go) *)

Definition NewBlock (header : option BlockHeader) (data : option BlockData)
    (lastCommit : option Commit) : res Block :=
  match header with
  | None => Panic "invalid memory address or nil pointer dereference"
  | Some header => Ret (mkBlock header (default (mkBlockData []) data) None lastCommit)
  end.

Definition NewBlockHeader (chainID : string) (height timestamp : Z)
    (lastBlockHash lastCommitHash validatorsHash appHash : option Hash) (proposer : AccountName)
    : BlockHeader :=
  {| bh_ChainId := chainID; bh_Height := height; bh_Time := timestamp;
     bh_LastBlockHash := lastBlockHash; bh_LastCommitHash := lastCommitHash;
     bh_ValidatorsHash := validatorsHash; bh_AppHash := appHash; bh_ConsensusHash := None;
     bh_DagRound := 0; bh_BatchCertRefs := []; bh_Proposer := proposer |}.

Definition NewProposal (height round timestamp : Z) (block : Block) (polRound : Z)
    (polVotes : list Vote) (proposer : AccountName) : Proposal :=
  mkProposal height round timestamp block polRound polVotes proposer (mkSignature []).

(** ** Hashes, sign bytes and signature checks *)

Section Signing.
Context `{Crypto} `{Cramberry}.

(** A [MarshalCramberry] error in a consensus-critical hash panics. *)
Definition must_marshal (m : res bytes) (msg : string) : res bytes :=
  match m with
  | Err _ => Panic msg
  | r => r
  end.

Definition HashBytes (data : bytes) : Hash := mkHash (sha256_Sum256 data).

Definition BlockHeaderHash (h : option BlockHeader) : res Hash :=
  match h with
  | None => Ret HashEmpty
  | Some h =>
      let! data := must_marshal (marshal_BlockHeader h)
        "CONSENSUS CRITICAL: failed to marshal block header: %v" in
      Ret (HashBytes data)
  end.

Definition BlockHash (b : option Block) : res Hash :=
  match b with
  | None => Ret HashEmpty
  | Some b =>
      let! data := must_marshal (marshal_BlockHeader (b_Header b))
        "CONSENSUS CRITICAL: failed to marshal block header for hash: %v" in
      Ret (HashBytes data)
  end.

Definition CommitHash (c : option Commit) : res Hash :=
  match c with
  | None => Ret HashEmpty
  | Some c =>
      let! data := must_marshal (marshal_Commit c)
        "CONSENSUS CRITICAL: failed to marshal commit for hash: %v" in
      Ret (HashBytes data)
  end.

Definition VerifySignature (pubKey : PublicKey) (message : bytes) (sig : Signature) : bool :=
  if negb (len (pk_Data pubKey) =? 32) then false
  else if negb (len (sig_Data sig) =? 64) then false
  else ed25519_Verify (pk_Data pubKey) message (sig_Data sig).

(** The vote that is serialized for signing: the signature is zeroed. *)
Definition canonical_vote (v : Vote) : Vote :=
  {| vt_Type := vt_Type v;
     vt_Height := vt_Height v;
     vt_Round := vt_Round v;
     vt_BlockHash := vt_BlockHash v;
     vt_Timestamp := vt_Timestamp v;
     vt_Validator := vt_Validator v;
     vt_ValidatorIndex := vt_ValidatorIndex v;
     vt_Signature := mkSignature [] |}.

Definition VoteSignBytes (chainID : string) (v : option Vote) : res bytes :=
  match v with
  | None => Panic "CONSENSUS CRITICAL: nil vote in VoteSignBytes"
  | Some v =>
      let! data := must_marshal (marshal_Vote (canonical_vote v))
        "CONSENSUS CRITICAL: failed to marshal vote for signing: %v" in
      Ret (bytes_of_string chainID ++ data)
  end.

Definition IsNilVote (v : option Vote) : bool :=
  match v with
  | None => true
  | Some v => bool_decide (vt_BlockHash v = None) || IsHashEmpty (vt_BlockHash v)
  end.

Definition types_ErrInvalidVote : error := sentinel "types.ErrInvalidVote".

Definition VerifyVoteSignature (chainID : string) (vote : option Vote) (pubKey : PublicKey)
    : res unit :=
  match vote with
  | None => Err types_ErrInvalidVote
  | Some v =>
      if! len (sig_Data (vt_Signature v)) =? 0 return Err (errorf "vote has no signature") in
      if! negb (len (pk_Data pubKey) =? 32) return Err (errorf "invalid public key size") in
      let! signBytes := VoteSignBytes chainID (Some v) in
      if negb (ed25519_Verify (pk_Data pubKey) signBytes (sig_Data (vt_Signature v)))
      then Err (errorf "invalid vote signature")
      else Ret tt
  end.

Definition canonical_proposal (p : Proposal) : Proposal :=
  {| p_Height := p_Height p;
     p_Round := p_Round p;
     p_Timestamp := p_Timestamp p;
     p_Block := p_Block p;
     p_PolRound := p_PolRound p;
     p_PolVotes := p_PolVotes p;
     p_Proposer := p_Proposer p;
     p_Signature := mkSignature [] |}.

Definition ProposalSignBytes (chainID : string) (p : option Proposal) : res bytes :=
  match p with
  | None => Panic "CONSENSUS CRITICAL: nil proposal in ProposalSignBytes"
  | Some p =>
      let! data := must_marshal (marshal_Proposal (canonical_proposal p))
        "CONSENSUS CRITICAL: failed to marshal proposal for signing: %v" in
      Ret (bytes_of_string chainID ++ data)
  end.

Definition HasPOL (p : option Proposal) : bool :=
  match p with
  | None => false
  | Some p => (p_PolRound p >=? 0) && (len (p_PolVotes p) >? 0)
  end.

Definition ProposalBlockHash (p : option Proposal) : res Hash :=
  match p with
  | None => Ret HashEmpty
  | Some p => BlockHash (Some (p_Block p))
  end.
End Signing.

Arguments VerifyVoteSignature : simpl never.
Arguments VoteSignBytes : simpl never.

(** ** Lemmas *)

Lemma clone_id {A} (d : list A) : clone d = d.
Proof. apply list_fmap_id. Qed.

Lemma len_nil_0 {A} : (len (@nil A) =? 0) = true.
Proof. done. Qed.

Lemma len_cons_0 {A} (x : A) l : (len (x :: l) =? 0) = false.
Proof. apply Z.eqb_neq. unfold len. cbn. lia. Qed.

Lemma len_0 {A} (l : list A) : (len l =? 0) = true <-> l = [].
Proof. destruct l; [done|]. by rewrite len_cons_0. Qed.

Lemma copy_data_id d : copy_data d = d.
Proof. unfold copy_data. rewrite clone_id. by destruct d. Qed.

#[export] Hint Rewrite @clone_id copy_data_id : copy.

Lemma CopyAccountName_id a : CopyAccountName a = a.
Proof. by destruct a as [[]]. Qed.

Lemma CopyHash_id h : CopyHash h = h.
Proof. destruct h as [[]|]; cbn; by autorewrite with copy. Qed.

Lemma fmap_id_ext {A} (f : A -> A) (l : list A) : (forall x, f x = x) -> f <$> l = l.
Proof. intros H. induction l; csimpl; [done|]. by rewrite H, IHl. Qed.

Lemma CopySignature_id s : CopySignature s = s.
Proof. destruct s as [[|b d]]; [done|]. unfold CopySignature. cbn -[clone]. by rewrite clone_id. Qed.

Lemma CopyPublicKey_id s : CopyPublicKey s = s.
Proof. destruct s as [[|b d]]; [done|]. unfold CopyPublicKey. cbn -[clone]. by rewrite clone_id. Qed.

#[export] Hint Rewrite CopyAccountName_id CopyHash_id CopySignature_id CopyPublicKey_id : copy.

Lemma CopyCommitSig_id s : CopyCommitSig (Some s) = s.
Proof. destruct s as [? [] ? ?]; cbn. by autorewrite with copy. Qed.

Lemma CopyCommit_id c : CopyCommit c = c.
Proof.
  destruct c as [[? ? [] ?]|]; cbn; [|done]. autorewrite with copy.
  by rewrite fmap_id_ext by apply CopyCommitSig_id.
Qed.

Lemma CopyBatchCertRef_id r : CopyBatchCertRef (Some r) = r.
Proof. destruct r as [[] ? ?]; cbn. by autorewrite with copy. Qed.

#[export] Hint Rewrite CopyCommitSig_id CopyCommit_id CopyBatchCertRef_id : copy.

Lemma CopyBlock_id b : CopyBlock b = b.
Proof.
  destruct b as [[[] [] ev ?]|]; [|done]. cbn. autorewrite with copy.
  rewrite fmap_id_ext by apply CopyBatchCertRef_id.
  rewrite (fmap_id_ext (fun _ => mkHash _))
    by (intros [?]; cbn; by autorewrite with copy).
  destruct ev as [evs|]; [|done]. by rewrite fmap_id_ext by apply copy_data_id.
Qed.

Lemma CopyVote_id v : CopyVote v = v.
Proof.
  destruct v as [[? ? ? h ? ? ? []]|]; [|done]. cbn. autorewrite with copy.
  destruct h as [[]|]; cbn; by autorewrite with copy.
Qed.

Lemma CopyValidator_id v : CopyValidator v = v.
Proof. destruct v as [[? ? [] ? ?]|]; [|done]. cbn. by autorewrite with copy. Qed.

#[export] Hint Rewrite CopyBlock_id CopyVote_id CopyValidator_id : copy.

Lemma CopyProposal_id p : CopyProposal p = p.
Proof.
  destruct p as [[? ? ? ? ? ? ? []]|]; [|done]. cbn -[CopyBlock CopyVote]. autorewrite with copy.
  cbn -[CopyVote]. rewrite fmap_id_ext; [done|]. intros x. by autorewrite with copy.
Qed.

#[export] Hint Rewrite CopyProposal_id : copy.

Lemma HashEqual_true a b : HashEqual a b = true <-> a = b.
Proof.
  unfold HashEqual. rewrite bool_decide_eq_true. destruct a, b; cbn. split; congruence.
Qed.

Lemma HashEqual_refl a : HashEqual a a = true.
Proof. by apply HashEqual_true. Qed.

Lemma HashEqual_sym a b : HashEqual a b = HashEqual b a.
Proof. apply bool_decide_ext. naive_solver. Qed.

Lemma AccountNameEqual_true a b : AccountNameEqual a b = true <-> a = b.
Proof.
  destruct a as [[x|]], b as [[y|]]; cbn; rewrite ?bool_decide_eq_true; split; congruence.
Qed.

Lemma IsAccountNameEmpty_false a :
  IsAccountNameEmpty a = false -> exists s, an_Name a = Some s /\ s <> "".
Proof.
  destruct a as [[s|]]; cbn; [|done]. rewrite bool_decide_eq_false. eauto.
Qed.

Lemma NewHash_Ret d h : NewHash d = Ret h <-> h = mkHash d /\ length d = 32%nat.
Proof.
  unfold NewHash, len, HashSize. rewrite clone_id.
  destruct (Z.eqb_spec (Z.of_nat (length d)) 32); cbn; split; intros; simplify_eq; eauto.
  - split; [done|]. lia.
  - destruct_and!. simplify_eq. done.
  - lia.
Qed.

Lemma MustNewHash_32 d : length d = 32%nat -> MustNewHash d = Ret (mkHash d).
Proof. intros Hd. unfold MustNewHash. by rewrite (proj2 (NewHash_Ret d (mkHash d))). Qed.

Lemma MustNewSignature_64 d : length d = 64%nat -> MustNewSignature d = Ret (mkSignature d).
Proof.
  intros Hd. unfold MustNewSignature, NewSignature, len, SignatureSize.
  rewrite Hd, clone_id. done.
Qed.

Lemma canonical_vote_idemp v : canonical_vote (canonical_vote v) = canonical_vote v.
Proof. done. Qed.

(** Hex encoding is injective, so block hash keys and hash strings identify hashes. *)

Definition hex_value (c : Ascii.ascii) : Z :=
  let n := Z.of_nat (Ascii.nat_of_ascii c) in if n <? 58 then n - 48 else n - 87.

Lemma hex_digits_value b :
  16 * hex_value (hex_digit (byte_val b / 16)) + hex_value (hex_digit (byte_val b `mod` 16)) =
  byte_val b.
Proof. destruct b; vm_compute; reflexivity. Qed.

Lemma hex_inj a b : hex_EncodeToString a = hex_EncodeToString b -> a = b.
Proof.
  revert b. induction a as [|x a IH]; intros [|y b] E; try done.
  cbn [hex_EncodeToString] in E. injection E as E1 E2 E3. f_equal; [|by apply IH].
  rewrite <- (byte_of_Z_val x), <- (byte_of_Z_val y), <- (hex_digits_value x), <- (hex_digits_value y).
  by rewrite E1, E2.
Qed.

Lemma hex_not_nil d : hex_EncodeToString d <> "nil".
Proof.
  destruct d as [|x d]; [done|]. cbn [hex_EncodeToString]. intros [= E _ _].
  revert E. destruct x; vm_compute; discriminate.
Qed.
