(* ===== verification/Validators.v ===== *)
(** * Validator sets and proposer rotation (src/types/validator.go)

    A [*NamedValidator] inside a set is an alias: [Proposer], [byName] and [byIndex] point
    into [Validators], and the priority updates write through those pointers. A pointer is
    modelled as the position of its target in [vals_Validators]. *)

From S2P Require Export Types.

Definition MaxValidators : Z := 65535.
Definition MaxTotalVotingPower : Z := 2 ^ 60.
Definition PriorityWindowSize : Z := MaxTotalVotingPower * 2.

Definition ErrEmptyValidatorSet : error := sentinel "types.ErrEmptyValidatorSet".
Definition ErrInvalidVotingPower : error := sentinel "types.ErrInvalidVotingPower".
Definition ErrTooManyValidators : error := sentinel "types.ErrTooManyValidators".
Definition ErrTotalPowerOverflow : error := sentinel "types.ErrTotalPowerOverflow".
Definition ErrEmptyValidatorName : error := sentinel "types.ErrEmptyValidatorName".
Definition ErrDuplicateValidator : error := sentinel "types.ErrDuplicateValidator".

Record ValidatorSet := mkValidatorSet {
  vals_Validators : list NamedValidator;
  vals_Proposer : option nat;
  vals_TotalPower : Z;
  vals_byName : gmap string nat;
  vals_byIndex : gmap Z nat }.

Implicit Types (vs : ValidatorSet) (v : NamedValidator).

Definition emptyValidatorSet : ValidatorSet := mkValidatorSet [] None 0 ∅ ∅.

Definition nv_name (v : NamedValidator) : string := AccountNameString (nv_Name v).

(** [v.ProposerPriority = p] through a pointer to [v]. *)
Definition set_priority (p : Z) (v : NamedValidator) : NamedValidator :=
  mkNamedValidator (nv_Name v) (nv_Index v) (nv_PublicKey v) (nv_VotingPower v) p.

Definition with_Validators (f : list NamedValidator -> list NamedValidator) (vs : ValidatorSet)
    : ValidatorSet :=
  mkValidatorSet (f (vals_Validators vs)) (vals_Proposer vs) (vals_TotalPower vs)
    (vals_byName vs) (vals_byIndex vs).

Definition with_Proposer (p : option nat) (vs : ValidatorSet) : ValidatorSet :=
  mkValidatorSet (vals_Validators vs) p (vals_TotalPower vs) (vals_byName vs) (vals_byIndex vs).

(** ** centerPriorities *)

(** The overflow-checked summation loop: the sum, and whether it overflowed. *)
Fixpoint sum_priorities (l : list NamedValidator) (sum : Z) : Z * bool :=
  match l with
  | [] => (sum, false)
  | v :: l' =>
      let p := nv_ProposerPriority v in
      if (p >? 0) && (sum >? wrap64 (MaxInt64 - p)) then (MaxInt64, true)
      else if (p <? 0) && (sum <? wrap64 (MinInt64 - p)) then (MinInt64, true)
      else sum_priorities l' (wrap64 (sum + p))
  end.

Definition priority_avg (l : list NamedValidator) : Z :=
  let '(sum, overflow) := sum_priorities l 0 in
  if (overflow : bool) then 0 else Z.quot sum (len l).

Definition centerPriorities (vs : ValidatorSet) : ValidatorSet :=
  if len (vals_Validators vs) =? 0 then vs else
  let avg := priority_avg (vals_Validators vs) in
  with_Validators (fmap (fun v => set_priority (wrap64 (nv_ProposerPriority v - avg)) v)) vs.

Definition initProposerPriorities (vs : ValidatorSet) : ValidatorSet :=
  centerPriorities (with_Validators (fmap (fun v => set_priority (nv_VotingPower v) v)) vs).

(** ** getProposer *)

(** The loop test: [v] replaces the current candidate. *)
Definition better (v proposer : NamedValidator) : bool :=
  (nv_ProposerPriority v >? nv_ProposerPriority proposer) ||
  ((nv_ProposerPriority v =? nv_ProposerPriority proposer) &&
   string_ltb (nv_name v) (nv_name proposer)).

Fixpoint getProposer_loop (i : nat) (l : list NamedValidator)
    (proposer : option (nat * NamedValidator)) : option (nat * NamedValidator) :=
  match l with
  | [] => proposer
  | v :: l' =>
      getProposer_loop (S i) l'
        (match proposer with
         | None => Some (i, v)
         | Some (j, p) => if better v p then Some (i, v) else Some (j, p)
         end)
  end.

Definition getProposer (vs : ValidatorSet) : option nat :=
  if len (vals_Validators vs) =? 0 then None
  else fst <$> getProposer_loop 0 (vals_Validators vs) None.

(** ** NewValidatorSet *)

(** One iteration of the copy-and-validate loop, for the element at index [i]. *)
Definition add_validator (i : nat) (v : option NamedValidator) (vs : ValidatorSet)
    : res ValidatorSet :=
  match v with
  | None => Err (wrapf ErrInvalidVotingPower "validator %d is nil")
  | Some v =>
      if! IsAccountNameEmpty (nv_Name v) return
        Err (wrapf ErrEmptyValidatorName "validator %d") in
      if! nv_VotingPower v <=? 0 return Err ErrInvalidVotingPower in
      let name := AccountNameString (nv_Name v) in
      if! bool_decide (is_Some (vals_byName vs !! name)) return Err ErrDuplicateValidator in
      if! vals_TotalPower vs >? wrap64 (MaxTotalVotingPower - nv_VotingPower v) return
        Err (wrapf ErrTotalPowerOverflow "exceeds %d") in
      let val := {| nv_Name := CopyAccountName (nv_Name v);
                    nv_Index := u16 (Z.of_nat i);
                    nv_PublicKey := mkPublicKey (copy_data (pk_Data (nv_PublicKey v)));
                    nv_VotingPower := nv_VotingPower v;
                    nv_ProposerPriority := nv_ProposerPriority v |} in
      Ret {| vals_Validators := vals_Validators vs ++ [val];
             vals_Proposer := vals_Proposer vs;
             vals_TotalPower := wrap64 (vals_TotalPower vs + nv_VotingPower v);
             vals_byName := <[name := i]> (vals_byName vs);
             vals_byIndex := <[u16 (Z.of_nat i) := i]> (vals_byIndex vs) |}
  end.

Fixpoint add_validators (i : nat) (l : list (option NamedValidator)) (vs : ValidatorSet)
    : res ValidatorSet :=
  match l with
  | [] => Ret vs
  | v :: l' => let! vs' := add_validator i v vs in add_validators (S i) l' vs'
  end.

Definition allZero (l : list NamedValidator) : bool :=
  forallb (fun v => nv_ProposerPriority v =? 0) l.

Definition NewValidatorSet (validators : list (option NamedValidator)) : res ValidatorSet :=
  if! len validators =? 0 return Err ErrEmptyValidatorSet in
  if! len validators >? MaxValidators return
    Err (wrapf ErrTooManyValidators "%d (max %d)") in
  let! vs := add_validators 0 validators emptyValidatorSet in
  let vs := if allZero (vals_Validators vs) then initProposerPriorities vs else vs in
  Ret (with_Proposer (getProposer vs) vs).

(** ** Accessors *)

Definition deref (vs : ValidatorSet) (p : option nat) : option NamedValidator :=
  p ≫= fun i => vals_Validators vs !! i.

Definition GetByName (vs : ValidatorSet) (name : string) : option NamedValidator :=
  CopyValidator (deref vs (vals_byName vs !! name)).

Definition GetByIndex (vs : ValidatorSet) (index : Z) : option NamedValidator :=
  CopyValidator (deref vs (vals_byIndex vs !! index)).

Definition vals_Size (vs : ValidatorSet) : Z := len (vals_Validators vs).

Definition TwoThirdsMajority (vs : ValidatorSet) : Z :=
  if vals_TotalPower vs <=? 0 then 0 else
  let third := Z.quot (vals_TotalPower vs) 3 in
  let remainder := Z.rem (vals_TotalPower vs) 3 in
  let twoThirds := wrap64 (third + third) in
  let twoThirds := if remainder =? 2 then wrap64 (twoThirds + 1) else twoThirds in
  wrap64 (twoThirds + 1).

(** ** IncrementProposerPriority *)

Definition maxPriority : Z := Z.quot PriorityWindowSize 2.
Definition minPriority : Z := Z.quot (- PriorityWindowSize) 2.

Definition increase_priority (v : NamedValidator) : NamedValidator :=
  if (nv_VotingPower v >? 0) &&
     (nv_ProposerPriority v >? wrap64 (maxPriority - nv_VotingPower v))
  then set_priority maxPriority v
  else
    let p := wrap64 (nv_ProposerPriority v + nv_VotingPower v) in
    set_priority (if p >? maxPriority then maxPriority else p) v.

Definition decrease_priority (total : Z) (v : NamedValidator) : NamedValidator :=
  if (total >? 0) && (nv_ProposerPriority v <? wrap64 (minPriority + total))
  then set_priority minPriority v
  else
    let p := wrap64 (nv_ProposerPriority v - total) in
    set_priority (if p <? minPriority then minPriority else p) v.

(** The body of the [for i < times] loop: every priority goes up by its power, the
    highest goes down by the total. *)
Definition increment_once (vs : ValidatorSet) : ValidatorSet :=
  let vs := with_Validators (fmap increase_priority) vs in
  match getProposer vs with
  | None => vs
  | Some i => with_Validators (alter (decrease_priority (vals_TotalPower vs)) i) vs
  end.

Definition IncrementProposerPriority (times : Z) (vs : ValidatorSet) : ValidatorSet :=
  if len (vals_Validators vs) =? 0 then vs else
  let vs := Nat.iter (Z.to_nat times) increment_once vs in
  let vs := centerPriorities vs in
  with_Proposer (getProposer vs) vs.

(** ** Copy, WithIncrementedPriority, GetProposerForRound *)

Fixpoint index_validators (i : nat) (l : list NamedValidator)
    (byName : gmap string nat) (byIndex : gmap Z nat) : gmap string nat * gmap Z nat :=
  match l with
  | [] => (byName, byIndex)
  | v :: l' => index_validators (S i) l'
                 (<[AccountNameString (nv_Name v) := i]> byName) (<[nv_Index v := i]> byIndex)
  end.

Definition ValidatorSet_Copy (vs : ValidatorSet) : res ValidatorSet :=
  let validators := omap (fun v => CopyValidator (Some v)) (vals_Validators vs) in
  let '(byName, byIndex) := index_validators 0 validators ∅ ∅ in
  let newVS := mkValidatorSet validators None (vals_TotalPower vs) byName byIndex in
  Ret (match deref vs (vals_Proposer vs) with
       | None => newVS
       | Some p =>
           match byIndex !! nv_Index p with
           | Some i => with_Proposer (Some i) newVS
           | None => with_Proposer (getProposer newVS) newVS
           end
       end).

Definition WithIncrementedPriority (times : Z) (vs : ValidatorSet) : res ValidatorSet :=
  let! newVS := ValidatorSet_Copy vs in
  Ret (IncrementProposerPriority times newVS).

Definition GetProposerForRound (vs : ValidatorSet) (round : Z) : option NamedValidator :=
  if round <=? 0 then CopyValidator (deref vs (vals_Proposer vs)) else
  match WithIncrementedPriority round vs with
  | Ret tempVS => CopyValidator (deref tempVS (vals_Proposer tempVS))
  | _ => CopyValidator (deref vs (vals_Proposer vs))
  end.

(** ** Serialization and hash *)

Definition ToData (vs : ValidatorSet) : ValidatorSetData :=
  {| vsd_Validators := vals_Validators vs;
     vsd_ProposerIndex := match deref vs (vals_Proposer vs) with
                          | Some p => nv_Index p
                          | None => 0
                          end;
     vsd_TotalPower := vals_TotalPower vs |}.

Definition ValidatorSetFromData (data : ValidatorSetData) : res ValidatorSet :=
  let! vs := NewValidatorSet (Some <$> vsd_Validators data) in
  Ret (if vsd_ProposerIndex data <? len (vals_Validators vs)
       then with_Proposer (Some (Z.to_nat (vsd_ProposerIndex data))) vs
       else vs).

Definition name_le (v w : NamedValidator) : Prop := String.le (nv_name v) (nv_name w).

#[export] Instance name_le_dec : RelDecision name_le.
Proof. unfold name_le. intros v w. apply _. Defined.

Definition sorted_validators (vs : ValidatorSet) : list NamedValidator :=
  merge_sort name_le (vals_Validators vs).

(** [for i, v := range sorted { if v.Name == proposerName { ...; break } }] *)
Fixpoint find_name (i : nat) (name : string) (l : list NamedValidator) : Z :=
  match l with
  | [] => 0
  | v :: l' => if bool_decide (nv_name v = name) then u16 (Z.of_nat i) else find_name (S i) name l'
  end.

(** The struct that [Hash] serializes. *)
Definition hash_data (vs : ValidatorSet) : ValidatorSetData :=
  let sorted := sorted_validators vs in
  {| vsd_Validators := set_priority 0 <$> sorted;
     vsd_ProposerIndex := match deref vs (vals_Proposer vs) with
                          | Some p => find_name 0 (nv_name p) sorted
                          | None => 0
                          end;
     vsd_TotalPower := vals_TotalPower vs |}.

Definition ValidatorSet_Hash `{Crypto} `{Cramberry} (vs : ValidatorSet) : res Hash :=
  let! data := must_marshal (marshal_ValidatorSetData (hash_data vs))
    "CONSENSUS CRITICAL: failed to marshal validator set for hash: %v" in
  Ret (HashBytes data).

(** ** Well-formedness *)

(** What [NewValidatorSet] establishes for the validators added so far ... *)
Record ValidatorSet_core (vs : ValidatorSet) : Prop := {
  core_size : len (vals_Validators vs) <= MaxValidators;
  core_entry : forall i v, vals_Validators vs !! i = Some v ->
    nv_Index v = Z.of_nat i /\ 0 < nv_VotingPower v /\ IsAccountNameEmpty (nv_Name v) = false;
  core_names : NoDup (nv_name <$> vals_Validators vs);
  core_byName : forall s i, vals_byName vs !! s = Some i <->
    exists v, vals_Validators vs !! i = Some v /\ nv_name v = s;
  core_byIndex : forall z i, vals_byIndex vs !! z = Some i <->
    z = Z.of_nat i /\ (i < length (vals_Validators vs))%nat;
  core_total : vals_TotalPower vs = sumZ nv_VotingPower (vals_Validators vs);
  core_bound : vals_TotalPower vs <= MaxTotalVotingPower }.

(** ... and what every set it returns satisfies. *)
Record ValidatorSet_wf (vs : ValidatorSet) : Prop := {
  wf_core : ValidatorSet_core vs;
  wf_nonempty : (0 < length (vals_Validators vs))%nat;
  wf_proposer : exists p, vals_Proposer vs = Some p /\ (p < length (vals_Validators vs))%nat }.

(** Two validator lists that differ in priorities only. *)
Definition shape (l : list NamedValidator) : list NamedValidator := set_priority 0 <$> l.

(** ** Lemmas: shape *)

Lemma shape_length l l' : shape l = shape l' -> length l = length l'.
Proof. unfold shape. intros H. apply (f_equal length) in H. by rewrite !length_fmap in H. Qed.

Lemma shape_fmap (f : NamedValidator -> NamedValidator) l :
  (forall v, set_priority 0 (f v) = set_priority 0 v) -> shape (f <$> l) = shape l.
Proof. intros H. unfold shape. rewrite <- list_fmap_compose. apply list_fmap_ext. intros. apply H. Qed.

Lemma shape_alter (f : NamedValidator -> NamedValidator) i l :
  (forall v, set_priority 0 (f v) = set_priority 0 v) -> shape (alter f i l) = shape l.
Proof.
  intros H. unfold shape. apply list_eq. intros j. rewrite !list_lookup_fmap.
  destruct (decide (i = j)) as [->|]; [|by rewrite list_lookup_alter_ne].
  rewrite list_lookup_alter_eq. destruct (l !! j); cbn; [|done]. by rewrite H.
Qed.

Lemma shape_lookup l l' i v :
  shape l = shape l' -> l !! i = Some v ->
  exists v', l' !! i = Some v' /\ set_priority 0 v' = set_priority 0 v.
Proof.
  intros H Hv. assert (shape l !! i = Some (set_priority 0 v)) as Hs.
  { unfold shape. by rewrite list_lookup_fmap, Hv. }
  rewrite H in Hs. unfold shape in Hs. rewrite list_lookup_fmap in Hs.
  destruct (l' !! i) as [v'|]; cbn in Hs; [|done]. exists v'. split; congruence.
Qed.

Lemma set_priority_shape p v : set_priority 0 (set_priority p v) = set_priority 0 v.
Proof. done. Qed.

Lemma increase_priority_shape v : set_priority 0 (increase_priority v) = set_priority 0 v.
Proof. unfold increase_priority. by case_match. Qed.

Lemma decrease_priority_shape t v : set_priority 0 (decrease_priority t v) = set_priority 0 v.
Proof. unfold decrease_priority. by case_match. Qed.

#[export] Hint Resolve set_priority_shape increase_priority_shape decrease_priority_shape : go.

(** A projection that does not read the priority agrees on lists of the same shape. *)
Lemma shape_proj {B} (f : NamedValidator -> B) l l' :
  (forall v, f (set_priority 0 v) = f v) -> shape l = shape l' -> f <$> l = f <$> l'.
Proof.
  intros Hf H. enough (forall k, f <$> k = f <$> shape k) as E by by rewrite (E l), H, <- E.
  intros k. unfold shape. rewrite <- list_fmap_compose. apply list_fmap_ext.
  intros. cbn. by rewrite Hf.
Qed.

Lemma sumZ_fmap_eq {A} (f : A -> Z) l l' : f <$> l = f <$> l' -> sumZ f l = sumZ f l'.
Proof.
  revert l'. induction l as [|x l IH]; intros [|y l'] H; csimpl in H; try done.
  injection H as Hx Hl. cbn. by rewrite Hx, (IH l').
Qed.

Lemma core_transfer vs vs' :
  ValidatorSet_core vs ->
  shape (vals_Validators vs') = shape (vals_Validators vs) ->
  vals_TotalPower vs' = vals_TotalPower vs ->
  vals_byName vs' = vals_byName vs -> vals_byIndex vs' = vals_byIndex vs ->
  ValidatorSet_core vs'.
Proof.
  intros [Hs He Hn HN HI HT HB] Hsh ET EN EI.
  pose proof (shape_length _ _ Hsh) as Hl. unfold len in Hs.
  split; unfold len; rewrite ?Hl, ?ET, ?EN, ?EI; auto.
  - intros i v Hv. destruct (shape_lookup _ _ _ _ Hsh Hv) as (v' & Hv' & Heq).
    destruct v, v'. unfold set_priority in Heq. cbn in *. simplify_eq. by apply He in Hv'.
  - by rewrite (shape_proj nv_name _ _ (fun _ => eq_refl) Hsh).
  - intros s i. rewrite HN. split; intros (v & Hv & <-).
    + destruct (shape_lookup _ _ _ _ (eq_sym Hsh) Hv) as (v' & Hv' & Heq).
      exists v'. split; [done|]. by apply (f_equal nv_name) in Heq.
    + destruct (shape_lookup _ _ _ _ Hsh Hv) as (v' & Hv' & Heq).
      exists v'. split; [done|]. by apply (f_equal nv_name) in Heq.
  - rewrite HT. by apply sumZ_fmap_eq, shape_proj.
Qed.

Lemma core_with_Validators f vs :
  (forall l, shape (f l) = shape l) -> ValidatorSet_core vs -> ValidatorSet_core (with_Validators f vs).
Proof. intros Hf Hc. eapply core_transfer; eauto. apply Hf. Qed.

Lemma core_with_Proposer p vs : ValidatorSet_core vs -> ValidatorSet_core (with_Proposer p vs).
Proof. intros Hc. by eapply core_transfer. Qed.

Lemma core_positive vs v :
  ValidatorSet_core vs -> v ∈ vals_Validators vs -> 0 < nv_VotingPower v.
Proof. intros Hc [i Hi]%list_elem_of_lookup. by apply (core_entry _ Hc) in Hi as (_ & ? & _). Qed.

#[export] Hint Resolve core_with_Proposer core_positive wf_core : go.

(** ** Lemmas: the candidate order of getProposer *)

Lemma string_ltb_spec a b : string_ltb a b = true <-> String.le a b /\ a <> b.
Proof.
  unfold string_ltb, String.ltb, String.le, String.leb.
  destruct (String.compare a b) eqn:E; cbn.
  - apply String.compare_eq_iff in E. naive_solver.
  - split; [|done]. intros _. split; [done|]. intros ->.
    pose proof (String.compare_antisym b b) as Ha. by rewrite E in Ha.
  - naive_solver.
Qed.

Lemma better_spec v p :
  better v p = true <->
  nv_ProposerPriority p < nv_ProposerPriority v \/
  (nv_ProposerPriority v = nv_ProposerPriority p /\
   String.le (nv_name v) (nv_name p) /\ nv_name v <> nv_name p).
Proof.
  unfold better.
  rewrite orb_true_iff, andb_true_iff, Z.gtb_lt, Z.eqb_eq, string_ltb_spec. tauto.
Qed.

Lemma better_false v p :
  better v p = false <->
  nv_ProposerPriority v < nv_ProposerPriority p \/
  (nv_ProposerPriority v = nv_ProposerPriority p /\ String.le (nv_name p) (nv_name v)).
Proof.
  rewrite <- not_true_iff_false, better_spec. split.
  - intros Hn. destruct (Z.lt_trichotomy (nv_ProposerPriority v) (nv_ProposerPriority p))
      as [?|[E|?]]; [by left| |exfalso; apply Hn; by left].
    right. split; [done|].
    destruct (total String.le (nv_name p) (nv_name v)) as [|Hle]; [done|].
    destruct (decide (nv_name v = nv_name p)) as [<-|]; [done|].
    exfalso. apply Hn. right. done.
  - intros [?|[? Hle]] [?|(? & Hle' & Hne)]; try lia. apply Hne. by apply (anti_symm String.le).
Qed.

(** "not better" is a total preorder. *)
Lemma better_false_trans u v w : better u v = false -> better v w = false -> better u w = false.
Proof.
  rewrite !better_false. intros [?|[? H1]] [?|[? H2]]; [left; lia..|].
  right. split; [lia|]. by transitivity (nv_name v).
Qed.

Lemma better_asym v p : better v p = true -> better p v = false.
Proof.
  rewrite better_spec, better_false. intros [?|(? & ? & ?)]; [by left|right; split; [lia|done]].
Qed.

Lemma better_irrefl v : better v v = false.
Proof. rewrite better_false. right. by split. Qed.

Lemma getProposer_loop_spec i l j p k q :
  getProposer_loop i l (Some (j, p)) = Some (k, q) ->
  better p q = false /\ (forall w, w ∈ l -> better w q = false) /\
  ((k, q) = (j, p) \/ exists m, k = (i + m)%nat /\ l !! m = Some q).
Proof.
  revert i j p. induction l as [|v l IH]; intros i j p H; cbn in H.
  - simplify_eq. rewrite better_irrefl. split_and!; [done|set_solver|by left].
  - destruct (better v p) eqn:Hb; apply IH in H as (H1 & H2 & H3).
    + split_and!.
      * eapply better_false_trans; [|exact H1]. by apply better_asym.
      * intros w [->|?]%elem_of_cons; auto.
      * destruct H3 as [[= -> ->]|(m & -> & Hm)]; right.
        -- exists 0%nat. split; [lia|done].
        -- exists (S m). split; [lia|done].
    + split_and!; [done| |].
      * intros w [->|?]%elem_of_cons; [by eapply better_false_trans|auto].
      * destruct H3 as [?|(m & -> & Hm)]; [by left|].
        right. exists (S m). split; [lia|done].
Qed.

Lemma getProposer_loop_Some i l x : exists y, getProposer_loop i l (Some x) = Some y.
Proof.
  revert i x. induction l as [|v l IH]; intros i [j p]; cbn; [by eexists|].
  destruct (better v p); apply IH.
Qed.

Lemma getProposer_spec vs i :
  getProposer vs = Some i ->
  exists q, vals_Validators vs !! i = Some q /\
    forall w, w ∈ vals_Validators vs -> better w q = false.
Proof.
  unfold getProposer, len. destruct (vals_Validators vs) as [|v l]; [done|].
  cbn [length]. destruct (Z.eqb_spec (Z.of_nat (S (length l))) 0); [lia|].
  cbn [getProposer_loop]. intros H. apply fmap_Some in H as ((k & q) & H & ->).
  apply getProposer_loop_spec in H as (H1 & H2 & H3). cbn.
  exists q. split.
  - destruct H3 as [[= -> ->]|(m & -> & Hm)]; [done|]. by replace (1 + m)%nat with (S m) by lia.
  - intros w [->|?]%elem_of_cons; auto.
Qed.

Lemma getProposer_is_Some vs :
  (0 < length (vals_Validators vs))%nat ->
  exists i, getProposer vs = Some i /\ (i < length (vals_Validators vs))%nat.
Proof.
  intros Hl. destruct (getProposer vs) as [i|] eqn:E.
  - apply getProposer_spec in E as (q & Hq & _). eauto using lookup_lt_Some.
  - exfalso. revert E Hl. unfold getProposer, len.
    destruct (vals_Validators vs) as [|v l]; cbn [length]; [lia|].
    destruct (Z.eqb_spec (Z.of_nat (S (length l))) 0); [lia|].
    cbn [getProposer_loop]. destruct (getProposer_loop_Some 1 l (0%nat, v)) as [y ->]. done.
Qed.

(** Distinct names make the best validator unique. *)
Lemma best_unique l v w :
  NoDup (nv_name <$> l) -> v ∈ l -> w ∈ l -> better v w = false -> better w v = false -> v = w.
Proof.
  intros Hn [i Hi]%list_elem_of_lookup [j Hj]%list_elem_of_lookup H1 H2.
  rewrite better_false in H1, H2.
  assert (nv_name v = nv_name w) as E.
  { destruct H1 as [|[? ?]], H2 as [|[? ?]]; try lia. by apply (anti_symm String.le). }
  assert (i = j) as ->; [|congruence].
  eapply (NoDup_lookup _ i j (nv_name v)); [done| |]; rewrite list_lookup_fmap.
  - by rewrite Hi.
  - rewrite Hj. cbn. by rewrite E.
Qed.

(** ** Lemmas: Copy *)

Lemma index_validators_spec i l bn bi :
  NoDup (nv_name <$> l) ->
  (forall j v, l !! j = Some v -> nv_Index v = Z.of_nat (i + j)) ->
  let '(bn', bi') := index_validators i l bn bi in
  (forall j v, l !! j = Some v ->
     bn' !! nv_name v = Some (i + j)%nat /\ bi' !! Z.of_nat (i + j) = Some (i + j)%nat) /\
  (forall s, s ∉ nv_name <$> l -> bn' !! s = bn !! s) /\
  (forall z, (forall j, (j < length l)%nat -> z <> Z.of_nat (i + j)) -> bi' !! z = bi !! z).
Proof.
  revert i bn bi. induction l as [|v l IH]; intros i bn bi Hn Hi; csimpl in *.
  { split_and!; [set_solver|done..]. }
  apply NoDup_cons in Hn as [Hv Hn].
  specialize (IH (S i) (<[nv_name v := i]> bn) (<[nv_Index v := i]> bi) Hn).
  change (AccountNameString (nv_Name v)) with (nv_name v).
  destruct (index_validators _ _ _ _) as [bn' bi'].
  destruct IH as (H1 & H2 & H3).
  { intros j w Hj. rewrite (Hi (S j) w Hj). lia. }
  assert (Hi0 := Hi 0%nat v eq_refl). rewrite Nat.add_0_r in Hi0.
  split_and!.
  - intros [|j] w Hw; cbn in Hw; simplify_eq.
    + rewrite Nat.add_0_r. split.
      * rewrite H2 by done. by rewrite lookup_insert_eq.
      * rewrite H3 by lia. rewrite Hi0. by rewrite lookup_insert_eq.
    + destruct (H1 _ _ Hw) as [? ?]. by rewrite <- !Nat.add_succ_comm.
  - intros s Hs. apply not_elem_of_cons in Hs as [? ?].
    rewrite H2 by done. by rewrite lookup_insert_ne.
  - intros z Hz. rewrite H3.
    + rewrite lookup_insert_ne; [done|]. rewrite Hi0. intros <-. apply (Hz 0%nat); lia.
    + intros j Hj Hzj. apply (Hz (S j)); lia.
Qed.

Lemma index_validators_core vs :
  ValidatorSet_core vs ->
  index_validators 0 (vals_Validators vs) ∅ ∅ = (vals_byName vs, vals_byIndex vs).
Proof.
  intros Hc. pose proof (index_validators_spec 0 (vals_Validators vs) ∅ ∅ (core_names _ Hc)) as H.
  destruct (index_validators _ _ _ _) as [bn bi].
  destruct H as (H1 & H2 & H3); [intros j v Hj; by apply (core_entry _ Hc)|].
  f_equal; apply map_eq.
  - intros s. destruct (decide (s ∈ nv_name <$> vals_Validators vs)) as [Hs|Hs].
    + apply list_elem_of_fmap in Hs as (v & -> & [j Hj]%list_elem_of_lookup).
      rewrite (proj1 (H1 _ _ Hj)). symmetry. apply (core_byName _ Hc). eauto.
    + rewrite H2 by done. rewrite lookup_empty. symmetry. apply eq_None_not_Some.
      intros [i (v & Hv & <-)%(core_byName _ Hc)]. apply Hs, list_elem_of_fmap.
      eexists. split; [done|]. by eapply list_elem_of_lookup_2.
  - intros z. destruct (decide (0 <= z < Z.of_nat (length (vals_Validators vs)))) as [Hz|Hz].
    + assert (is_Some (vals_Validators vs !! Z.to_nat z)) as [v Hv]
        by (apply lookup_lt_is_Some_2; lia).
      destruct (H1 _ _ Hv) as [_ Hb]. replace (Z.of_nat (0 + Z.to_nat z)) with z in Hb by lia.
      rewrite Hb. symmetry. apply (core_byIndex _ Hc). split; lia.
    + rewrite H3 by lia. rewrite lookup_empty. symmetry. apply eq_None_not_Some.
      intros [i [? ?]%(core_byIndex _ Hc)]. lia.
Qed.

Lemma omap_Some_id {A} (f : A -> option A) (l : list A) :
  (forall x, f x = Some x) -> omap f l = l.
Proof. intros H. induction l as [|x l IH]; csimpl; [done|]. by rewrite H, IH. Qed.

Lemma omap_Copy (l : list NamedValidator) : omap (fun v => CopyValidator (Some v)) l = l.
Proof. apply omap_Some_id. intros v. by rewrite CopyValidator_id. Qed.

(** A copy of a well-formed set is equal to it: same validators, pointers and lookup maps. *)
Lemma Copy_wf vs : ValidatorSet_wf vs -> ValidatorSet_Copy vs = Ret vs.
Proof.
  intros [Hc _ (p & Hp & Hlt)]. unfold ValidatorSet_Copy.
  rewrite omap_Copy, (index_validators_core _ Hc). cbn zeta beta.
  apply lookup_lt_is_Some_2 in Hlt as [v Hv]. unfold deref. rewrite Hp. cbn. rewrite Hv.
  rewrite (proj2 (core_byIndex _ Hc (nv_Index v) p)).
  - destruct vs; unfold with_Proposer; cbn in *. congruence.
  - split; [by apply (core_entry _ Hc)|by eapply lookup_lt_Some].
Qed.

(** ** Lemmas: NewValidatorSet *)

(** The entry stored for the input [w] at index [i]. *)
Definition stored (i : nat) (w : NamedValidator) : NamedValidator :=
  mkNamedValidator (nv_Name w) (Z.of_nat i) (nv_PublicKey w) (nv_VotingPower w)
    (nv_ProposerPriority w).

(** What the loop checks of the next validator. *)
Definition acceptable (vs : ValidatorSet) (w : NamedValidator) : Prop :=
  IsAccountNameEmpty (nv_Name w) = false /\ 0 < nv_VotingPower w /\
  (nv_name w ∉ (nv_name <$> vals_Validators vs)) /\
  vals_TotalPower vs + nv_VotingPower w <= MaxTotalVotingPower.

Lemma byName_None vs s :
  ValidatorSet_core vs ->
  vals_byName vs !! s = None <-> s ∉ (nv_name <$> vals_Validators vs).
Proof.
  intros Hc. rewrite eq_None_not_Some. split.
  - intros Hn (v & -> & [i Hi]%list_elem_of_lookup)%list_elem_of_fmap.
    apply Hn. exists i. apply (core_byName _ Hc). eauto.
  - intros Hn [i (v & Hv & <-)%(core_byName _ Hc)]. apply Hn, list_elem_of_fmap.
    eexists. split; [done|]. by eapply list_elem_of_lookup_2.
Qed.

Lemma core_total_nonneg vs : ValidatorSet_core vs -> 0 <= vals_TotalPower vs.
Proof.
  intros Hc. rewrite (core_total _ Hc). apply sumZ_nonneg.
  intros v Hv. pose proof (core_positive _ _ Hc Hv). lia.
Qed.

Lemma add_validator_cases i w vs :
  ValidatorSet_core vs -> length (vals_Validators vs) = i -> Z.of_nat i < 65535 ->
  in_i64 (nv_VotingPower w) ->
  (acceptable vs w /\ exists vs',
     add_validator i (Some w) vs = Ret vs' /\ ValidatorSet_core vs' /\
     vals_Validators vs' = vals_Validators vs ++ [stored i w]) \/
  (~ acceptable vs w /\ exists e, add_validator i (Some w) vs = Err e).
Proof.
  intros Hc Hl Hi Hw. pose proof (core_total_nonneg _ Hc) as H0.
  pose proof (core_bound _ Hc) as HB.
  cbn [add_validator]. unfold acceptable, MaxTotalVotingPower in *.
  destruct (IsAccountNameEmpty (nv_Name w)) eqn:En; [right; split; [naive_solver|eauto]|].
  destruct (Z.leb_spec (nv_VotingPower w) 0); [right; split; [lia|eauto]|].
  case_bool_decide as Hd.
  { right. split; [|eauto]. intros (_ & _ & Hn & _).
    apply (byName_None _ _ Hc) in Hn. unfold nv_name in Hn. rewrite Hn in Hd. by destruct Hd. }
  assert (nv_name w ∉ (nv_name <$> vals_Validators vs)) as Hn.
  { apply (byName_None _ _ Hc). by apply eq_None_not_Some. }
  unfold in_i64, MaxInt64, MinInt64 in Hw.
  rewrite (wrap64_small (_ - _)) by (unfold in_i64, MaxInt64, MinInt64; lia).
  rewrite Z.gtb_ltb.
  destruct (Z.ltb_spec (2 ^ 60 - nv_VotingPower w) (vals_TotalPower vs));
    [right; split; [lia|eauto]|].
  left. split; [split_and!; auto; lia|]. eexists. split; [reflexivity|].
  rewrite (u16_small (Z.of_nat i)) by (unfold in_u16; lia).
  rewrite CopyAccountName_id, copy_data_id.
  replace (mkPublicKey (pk_Data (nv_PublicKey w))) with (nv_PublicKey w) by by destruct w as [? ? []].
  split; [|done].
  split; cbn [vals_Validators vals_TotalPower vals_byName vals_byIndex].
  - unfold len. rewrite length_app. cbn. unfold MaxValidators. lia.
  - intros j v Hv. apply lookup_app_Some in Hv as [Hv|[Hge Hv]].
    + by apply (core_entry _ Hc).
    + apply list_lookup_singleton_Some in Hv as [? <-]. cbn. split_and!; [lia|done..].
  - rewrite fmap_app. apply NoDup_app. split_and!; [apply (core_names _ Hc)| |apply NoDup_singleton].
    intros s Hs ->%list_elem_of_singleton. done.
  - intros s j. destruct (decide (s = nv_name w)) as [->|Hne].
    + unfold nv_name at 1. rewrite lookup_insert_eq. split.
      * intros [= <-]. exists (stored i w). split; [|done].
        rewrite lookup_app_r, Hl, Nat.sub_diag by lia. done.
      * intros (v & Hv & Hnv). apply lookup_app_Some in Hv as [Hv|[Hge Hv]].
        -- exfalso. apply Hn, list_elem_of_fmap. exists v. split; [done|].
           by eapply list_elem_of_lookup_2.
        -- apply list_lookup_singleton_Some in Hv as [? _]. f_equal. lia.
    + rewrite lookup_insert_ne by (intros <-; done). rewrite (core_byName _ Hc). split.
      * intros (v & Hv & ?). exists v. split; [|done]. by apply lookup_app_l_Some.
      * intros (v & Hv & Hnv). apply lookup_app_Some in Hv as [Hv|[Hge Hv]]; [eauto|].
        apply list_lookup_singleton_Some in Hv as [? <-]. by rewrite <- Hnv in Hne.
  - intros z j. rewrite length_app. cbn. destruct (decide (z = Z.of_nat i)) as [->|Hne].
    + rewrite lookup_insert_eq. split; [intros [= <-]; lia|]. intros [? ?]. f_equal. lia.
    + rewrite lookup_insert_ne by done. rewrite (core_byIndex _ Hc). lia.
  - rewrite sumZ_app, wrap64_small by (unfold in_i64, MaxInt64, MinInt64; lia).
    rewrite (core_total _ Hc). cbn. lia.
  - rewrite wrap64_small by (unfold in_i64, MaxInt64, MinInt64; lia). unfold MaxTotalVotingPower. lia.
Qed.

(** The inputs [NewValidatorSet] accepts, declaratively. *)
Record valid_validators (ws : list NamedValidator) : Prop := {
  vv_nonempty : 0 < len ws <= 65535;
  vv_entry : forall w, w ∈ ws -> IsAccountNameEmpty (nv_Name w) = false /\ 0 < nv_VotingPower w;
  vv_names : NoDup (nv_name <$> ws);
  vv_total : sumZ nv_VotingPower ws <= MaxTotalVotingPower }.

Lemma add_validators_cases i ws vs :
  ValidatorSet_core vs -> length (vals_Validators vs) = i -> Z.of_nat i + len ws <= 65535 ->
  (forall w, w ∈ ws -> in_i64 (nv_VotingPower w)) ->
  match add_validators i (Some <$> ws) vs with
  | Ret vs' =>
      (forall w, w ∈ ws -> IsAccountNameEmpty (nv_Name w) = false /\ 0 < nv_VotingPower w) /\
      ValidatorSet_core vs' /\
      vals_Validators vs' = vals_Validators vs ++ imap (fun j w => stored (i + j) w) ws
  | Err _ =>
      ~ ((forall w, w ∈ ws -> IsAccountNameEmpty (nv_Name w) = false /\ 0 < nv_VotingPower w) /\
         NoDup (nv_name <$> vals_Validators vs ++ ws) /\
         vals_TotalPower vs + sumZ nv_VotingPower ws <= MaxTotalVotingPower)
  | Panic _ => False
  end.
Proof.
  revert i vs. induction ws as [|w ws IH]; intros i vs Hc Hl Hi Hw.
  { cbn. rewrite app_nil_r. split_and!; [set_solver|done..]. }
  unfold len in *. cbn [length] in Hi. rewrite fmap_cons. cbn [add_validators]. unfold rbind.
  destruct (add_validator_cases i w vs Hc Hl ltac:(lia) (Hw w ltac:(set_solver)))
    as [(Ha & vs' & -> & Hc' & Hv)|[Hn [e ->]]].
  - destruct Ha as (? & ? & ? & ?).
    specialize (IH (S i) vs' Hc'). rewrite Hv, length_app in IH. cbn in IH.
    specialize (IH ltac:(lia) ltac:(lia) ltac:(set_solver)).
    destruct (add_validators (S i) (Some <$> ws) vs') as [vs''|e|].
    + destruct IH as (He & Hc'' & Hv''). split_and!; [|done|].
      * intros x [->|?]%elem_of_cons; auto.
      * rewrite Hv'', <- app_assoc. cbn. rewrite Nat.add_0_r. do 2 f_equal.
        apply imap_ext. intros. cbn. f_equal. lia.
    + intros (He & Hn & Ht). apply IH. split_and!; [set_solver| |].
      * rewrite !fmap_app in *. cbn. by rewrite <- app_assoc.
      * rewrite (core_total _ Hc'), Hv, sumZ_app, <- (core_total _ Hc). cbn in *. lia.
    + done.
  - intros (He & Hd & Ht). apply Hn. split_and!; [apply He; set_solver..| |].
    + rewrite fmap_app in Hd. csimpl. intros Hin.
      apply NoDup_app in Hd as (_ & Hd & _). by apply (Hd _ Hin), list_elem_of_here.
    + cbn in Ht. enough (0 <= sumZ nv_VotingPower ws) by lia.
      apply sumZ_nonneg. intros x Hx. destruct (He x); [set_solver|lia].
Qed.

Lemma emptyValidatorSet_core : ValidatorSet_core emptyValidatorSet.
Proof.
  split; cbn; try done.
  - constructor.
  - intros s i. rewrite lookup_empty. split; [done|]. intros (v & ? & _). done.
  - intros z i. rewrite lookup_empty. split; [done|lia].
Qed.

Lemma centerPriorities_cases vs :
  centerPriorities vs = vs \/
  centerPriorities vs = with_Validators
    (fmap (fun v => set_priority
       (wrap64 (nv_ProposerPriority v - priority_avg (vals_Validators vs))) v)) vs.
Proof. unfold centerPriorities. case_match; auto. Qed.

Lemma centerPriorities_core vs : ValidatorSet_core vs -> ValidatorSet_core (centerPriorities vs).
Proof.
  intros Hc. destruct (centerPriorities_cases vs) as [->| ->]; [done|].
  apply core_with_Validators; [|done]. intros l. by apply shape_fmap.
Qed.

Lemma centerPriorities_shape vs :
  shape (vals_Validators (centerPriorities vs)) = shape (vals_Validators vs).
Proof. destruct (centerPriorities_cases vs) as [->| ->]; [done|]. by apply shape_fmap. Qed.

Lemma initProposerPriorities_core vs :
  ValidatorSet_core vs -> ValidatorSet_core (initProposerPriorities vs).
Proof.
  intros Hc. apply centerPriorities_core, core_with_Validators; [|done].
  intros l. by apply shape_fmap.
Qed.

Lemma initProposerPriorities_shape vs :
  shape (vals_Validators (initProposerPriorities vs)) = shape (vals_Validators vs).
Proof. unfold initProposerPriorities. rewrite centerPriorities_shape. by apply shape_fmap. Qed.

Lemma with_getProposer_wf vs :
  ValidatorSet_core vs -> (0 < length (vals_Validators vs))%nat ->
  ValidatorSet_wf (with_Proposer (getProposer vs) vs).
Proof.
  intros Hc Hl. split; [by apply core_with_Proposer|done|].
  by destruct (getProposer_is_Some _ Hl) as (i & ? & ?); exists i.
Qed.

Lemma imap_length' {A B} (f : nat -> A -> B) l : length (imap f l) = length l.
Proof. apply length_imap. Qed.

Lemma stored_names (i : nat) ws : nv_name <$> imap (fun j w => stored (i + j) w) ws = nv_name <$> ws.
Proof.
  revert i. induction ws as [|w ws IH]; intros i; [done|]. csimpl. f_equal.
  rewrite <- (IH (S i)). f_equal. apply imap_ext. intros. cbn. f_equal. lia.
Qed.

Lemma stored_power (i : nat) ws :
  sumZ nv_VotingPower (imap (fun j w => stored (i + j) w) ws) = sumZ nv_VotingPower ws.
Proof.
  revert i. induction ws as [|w ws IH]; intros i; [done|]. cbn. f_equal.
  rewrite <- (IH (S i)). f_equal. apply imap_ext. intros. cbn. f_equal. lia.
Qed.

Lemma NewValidatorSet_cases ws :
  (forall w, w ∈ ws -> in_i64 (nv_VotingPower w)) ->
  match NewValidatorSet (Some <$> ws) with
  | Ret vs => valid_validators ws /\ ValidatorSet_wf vs /\
              shape (vals_Validators vs) = shape (imap stored ws)
  | Err _ => ~ valid_validators ws
  | Panic _ => False
  end.
Proof.
  intros Hw. unfold NewValidatorSet, len. rewrite length_fmap.
  destruct (Z.eqb_spec (Z.of_nat (length ws)) 0) as [H0|H0].
  { intros [Hv _ _ _]. unfold len in Hv. lia. }
  rewrite Z.gtb_ltb.
  destruct (Z.ltb_spec MaxValidators (Z.of_nat (length ws))) as [H1|H1]; unfold MaxValidators in H1.
  { intros [Hv _ _ _]. unfold len in Hv. lia. }
  pose proof (add_validators_cases 0 ws emptyValidatorSet emptyValidatorSet_core eq_refl) as H.
  unfold len in H. specialize (H ltac:(lia) Hw).
  destruct (add_validators 0 (Some <$> ws) emptyValidatorSet) as [vs|e|]; cbn [rbind].
  - destruct H as (He & Hc & Hv).
    change (vals_Validators vs = imap (fun j w => stored (0 + j) w) ws) in Hv.
    assert (forall vs', ValidatorSet_core vs' -> shape (vals_Validators vs') = shape (vals_Validators vs) ->
      valid_validators ws /\ ValidatorSet_wf (with_Proposer (getProposer vs') vs') /\
      shape (vals_Validators (with_Proposer (getProposer vs') vs')) = shape (imap stored ws)) as Hgo.
    { intros vs' Hc' Hs. split_and!.
      - split; [unfold len; lia|done| |].
        + rewrite <- (stored_names 0), <- Hv. apply (core_names _ Hc).
        + rewrite <- (stored_power 0), <- Hv, <- (core_total _ Hc). apply (core_bound _ Hc).
      - apply with_getProposer_wf; [done|].
        rewrite (shape_length _ _ Hs), Hv, length_imap. lia.
      - change (shape (vals_Validators vs') = shape (imap stored ws)). rewrite Hs, Hv. reflexivity. }
    case_match; [|by apply Hgo].
    apply Hgo; [by apply initProposerPriorities_core|apply initProposerPriorities_shape].
  - intros [Hv He Hn Ht]. apply H. cbn. split_and!; [done..|lia].
  - done.
Qed.

Lemma add_validators_nil i l vs : None ∈ l -> ~ exists vs', add_validators i l vs = Ret vs'.
Proof.
  revert i vs. induction l as [|[v|] l IH]; intros i vs Hin [vs' H]; [set_solver| |].
  - cbn [add_validators] in H. apply rbind_Ret in H as (vs1 & _ & H).
    eapply IH; [set_solver|by eexists].
  - done.
Qed.

(** ** Lemmas: IncrementProposerPriority *)

Lemma increment_once_core vs :
  ValidatorSet_core vs -> ValidatorSet_core (increment_once vs).
Proof.
  intros Hc. unfold increment_once.
  assert (ValidatorSet_core (with_Validators (fmap increase_priority) vs)) as Hc1.
  { apply core_with_Validators; [|done]. intros l. apply shape_fmap. auto with go. }
  case_match; [|done]. apply core_with_Validators; [|done].
  intros l. apply shape_alter. auto with go.
Qed.

Lemma increment_once_shape vs :
  shape (vals_Validators (increment_once vs)) = shape (vals_Validators vs).
Proof.
  unfold increment_once. case_match; cbn; rewrite ?shape_alter, shape_fmap; auto with go.
Qed.

Lemma increment_iter_core n vs :
  ValidatorSet_core vs -> ValidatorSet_core (Nat.iter n increment_once vs).
Proof. intros Hc. induction n; cbn; [done|by apply increment_once_core]. Qed.

Lemma increment_iter_shape n vs :
  shape (vals_Validators (Nat.iter n increment_once vs)) = shape (vals_Validators vs).
Proof. induction n; cbn; [done|]. by rewrite increment_once_shape. Qed.

Lemma Increment_shape t vs :
  shape (vals_Validators (IncrementProposerPriority t vs)) = shape (vals_Validators vs).
Proof.
  unfold IncrementProposerPriority. case_match; [done|]. cbn.
  by rewrite centerPriorities_shape, increment_iter_shape.
Qed.

Lemma Increment_wf t vs : ValidatorSet_wf vs -> ValidatorSet_wf (IncrementProposerPriority t vs).
Proof.
  intros [Hc Hl Hp]. unfold IncrementProposerPriority. case_match; [done|].
  apply with_getProposer_wf.
  - by apply centerPriorities_core, increment_iter_core.
  - by rewrite (shape_length _ (vals_Validators vs))
      by by rewrite centerPriorities_shape, increment_iter_shape.
Qed.

Lemma WithIncrementedPriority_wf t vs :
  ValidatorSet_wf vs -> WithIncrementedPriority t vs = Ret (IncrementProposerPriority t vs).
Proof. intros Hw. unfold WithIncrementedPriority. by rewrite Copy_wf. Qed.

(** ** Lemmas: lookups and quorum *)

Lemma GetByIndex_lookup vs i :
  ValidatorSet_core vs ->
  GetByIndex vs i = if decide (0 <= i) then vals_Validators vs !! Z.to_nat i else None.
Proof.
  intros Hc. unfold GetByIndex, deref. rewrite CopyValidator_id.
  destruct (vals_byIndex vs !! i) as [j|] eqn:E; cbn.
  - apply (core_byIndex _ Hc) in E as [-> Hj]. rewrite decide_True by lia.
    by rewrite Nat2Z.id.
  - case_decide; [|done]. symmetry. apply lookup_ge_None.
    destruct (decide (length (vals_Validators vs) <= Z.to_nat i)%nat); [done|].
    rewrite (proj2 (core_byIndex _ Hc i (Z.to_nat i))) in E; [done|]. lia.
Qed.

Lemma GetByIndex_Some vs i v :
  ValidatorSet_core vs -> GetByIndex vs i = Some v ->
  v ∈ vals_Validators vs /\ nv_Index v = i /\ 0 < nv_VotingPower v.
Proof.
  intros Hc. rewrite (GetByIndex_lookup _ _ Hc). case_decide; [|done]. intros Hv.
  pose proof (core_entry _ Hc _ _ Hv) as (-> & ? & _).
  split_and!; [by eapply list_elem_of_lookup_2|lia|done].
Qed.

Lemma GetByName_Some vs s v :
  ValidatorSet_core vs -> GetByName vs s = Some v -> v ∈ vals_Validators vs /\ nv_name v = s.
Proof.
  intros Hc. unfold GetByName, deref. rewrite CopyValidator_id.
  destruct (vals_byName vs !! s) as [j|] eqn:E; cbn; [|done].
  apply (core_byName _ Hc) in E as (w & Hw & Hs). rewrite Hw. intros [= <-].
  split; [by eapply list_elem_of_lookup_2|done].
Qed.

Lemma TwoThirds_value vs :
  0 < vals_TotalPower vs <= MaxTotalVotingPower ->
  TwoThirdsMajority vs = 2 * vals_TotalPower vs / 3 + 1.
Proof.
  unfold MaxTotalVotingPower, TwoThirdsMajority. intros H.
  destruct (Z.leb_spec (vals_TotalPower vs) 0); [lia|].
  rewrite Z.quot_div_nonneg, Z.rem_mod_nonneg by lia.
  generalize dependent (vals_TotalPower vs). intros T H _.
  assert (in_i64 (T / 3 + T / 3 + 1) /\ in_i64 (T / 3 + T / 3 + 1 + 1) /\ in_i64 (T / 3 + T / 3))
    as (H1 & H2 & H3) by (unfold in_i64, MinInt64, MaxInt64; Z.to_euclidean_division_equations; lia).
  rewrite (wrap64_small (T / 3 + T / 3)) by done.
  destruct (Z.eqb_spec (T `mod` 3) 2);
    rewrite (wrap64_small (T / 3 + T / 3 + 1)), ?wrap64_small by done;
    Z.to_euclidean_division_equations; lia.
Qed.

Lemma TwoThirds_quorum vs p :
  0 < vals_TotalPower vs <= MaxTotalVotingPower ->
  TwoThirdsMajority vs <= p <-> 2 * vals_TotalPower vs < 3 * p.
Proof. intros H. rewrite (TwoThirds_value _ H). Z.to_euclidean_division_equations. lia. Qed.

Lemma wf_total_pos vs : ValidatorSet_wf vs -> 0 < vals_TotalPower vs <= MaxTotalVotingPower.
Proof.
  intros [Hc Hl _]. split; [|apply (core_bound _ Hc)]. rewrite (core_total _ Hc).
  destruct (vals_Validators vs) as [|v l] eqn:E; cbn in Hl; [lia|]. cbn.
  pose proof (core_positive vs v Hc ltac:(rewrite E; set_solver)).
  enough (0 <= sumZ nv_VotingPower l) by lia. apply sumZ_nonneg. intros w Hw.
  pose proof (core_positive vs w Hc ltac:(rewrite E; set_solver)). lia.
Qed.

(** ** Properties *)

(** Two validators "a" and "b" of powers 1 and 3, used by the examples. *)
Definition pk32 (b : byte) : PublicKey := mkPublicKey (replicate 32 b).

Definition val_a : NamedValidator :=
  mkNamedValidator (NewAccountName "a") 0 (pk32 Byte.x0a) 1 0.
Definition val_b : NamedValidator :=
  mkNamedValidator (NewAccountName "b") 0 (pk32 Byte.x0b) 3 0.

Definition set_ab : ValidatorSet :=
  match NewValidatorSet [Some val_a; Some val_b] with Ret vs => vs | _ => emptyValidatorSet end.

Lemma add_validators_no_panic i l vs msg : add_validators i l vs <> Panic msg.
Proof.
  revert i vs. induction l as [|v l IH]; intros i vs; cbn [add_validators]; [done|].
  destruct (add_validator i v vs) eqn:E; cbn [rbind]; [apply IH|done|].
  destruct v; cbn [add_validator] in E; [|done]. by repeat case_match.
Qed.

Lemma NewValidatorSet_None l : None ∈ l -> exists e, NewValidatorSet l = Err e.
Proof.
  intros Hl. unfold NewValidatorSet. repeat (case_match; [by eexists|]).
  destruct (add_validators 0 l emptyValidatorSet) eqn:E; cbn [rbind].
  - exfalso. eapply add_validators_nil; eauto.
  - by eexists.
  - by apply add_validators_no_panic in E.
Qed.

Lemma all_Some_or_None {A} (l : list (option A)) : None ∈ l \/ exists ws, l = Some <$> ws.
Proof.
  induction l as [|[x|] l [IH|[ws ->]]].
  - right. by exists [].
  - left. by constructor.
  - right. by exists (x :: ws).
  - left. constructor.
  - left. constructor.
Qed.

(** C40: [NewValidatorSet] accepts exactly the valid inputs (between 1 and 65535 validators,
    none nil, names non-empty and distinct, positive powers, total at most 2^60); what it
    returns is well-formed (indices, lookup maps, total and proposer agree with the list)
    and holds the inputs in order; otherwise it returns an error, and it never panics. *)
Theorem NewValidatorSet_spec l :
  (forall w, Some w ∈ l -> in_i64 (nv_VotingPower w)) ->
  match NewValidatorSet l with
  | Ret vs => exists ws, l = Some <$> ws /\ valid_validators ws /\ ValidatorSet_wf vs /\
                         shape (vals_Validators vs) = shape (imap stored ws)
  | Err _ => ~ exists ws, l = Some <$> ws /\ valid_validators ws
  | Panic _ => False
  end.
Proof.
  intros Hl. destruct (all_Some_or_None l) as [Hn|[ws ->]].
  - destruct (NewValidatorSet_None _ Hn) as [e ->]. intros (ws & -> & _). set_solver.
  - pose proof (NewValidatorSet_cases ws) as H.
    destruct (NewValidatorSet (Some <$> ws)); [exists ws|intros (ws' & E & Hv)|].
    + split; [done|]. apply H. intros w Hw. apply Hl. set_solver.
    + apply (inj (fmap Some)) in E as <-. apply H in Hv; [done|].
      intros w Hw. apply Hl. set_solver.
    + apply H. intros w Hw. apply Hl. set_solver.
Qed.

Lemma NewValidatorSet_spec_witness :
  exists ws, [Some val_a; Some val_b] = Some <$> ws /\ valid_validators ws /\
    ValidatorSet_wf set_ab /\ shape (vals_Validators set_ab) = shape (imap stored ws).
Proof.
  apply (NewValidatorSet_spec [Some val_a; Some val_b]).
  intros w Hw. repeat (apply elem_of_cons in Hw as [[= ->]|Hw]; [vm_compute; intuition congruence|]).
  by apply not_elem_of_nil in Hw.
Defined.

Lemma NewValidatorSet_wf ws vs :
  Forall (fun w => in_i64 (nv_VotingPower w)) ws -> NewValidatorSet (Some <$> ws) = Ret vs -> ValidatorSet_wf vs.
Proof.
  rewrite Forall_forall. intros Hw E. pose proof (NewValidatorSet_cases ws Hw) as H. rewrite E in H. apply H.
Qed.

Lemma set_ab_wf : ValidatorSet_wf set_ab.
Proof.
  apply (NewValidatorSet_wf [val_a; val_b]); [|reflexivity].
  repeat constructor; vm_compute; congruence.
Qed.

(** The quorum threshold is strict: for the totals a validator set can have,
    [TwoThirdsMajority] is the least voting power above two thirds of the total, computed
    without overflow. *)
Theorem TwoThirdsMajority_spec vs p :
  ValidatorSet_wf vs -> TwoThirdsMajority vs <= p <-> 2 * vals_TotalPower vs < 3 * p.
Proof. intros Hw. by apply TwoThirds_quorum, wf_total_pos. Qed.

Lemma TwoThirdsMajority_spec_witness :
  TwoThirdsMajority set_ab <= 3 <-> 2 * vals_TotalPower set_ab < 3 * 3.
Proof. apply (TwoThirdsMajority_spec set_ab 3). exact set_ab_wf. Defined.

(** The set [round] increments ahead, from which the proposer of [round] is read. *)
Definition advanced (vs : ValidatorSet) (round : Z) : ValidatorSet :=
  if round <=? 0 then vs else IncrementProposerPriority round vs.

(** Every round of a well-formed set has a proposer: [GetProposerForRound] never
    returns nil, and for a positive round it returns the validator of highest priority
    (smallest name on ties) of the set advanced [round] times, which is well-formed and has
    the same validators. *)
Theorem GetProposerForRound_spec vs round :
  ValidatorSet_wf vs ->
  exists i v, vals_Proposer (advanced vs round) = Some i /\
    vals_Validators (advanced vs round) !! i = Some v /\
    GetProposerForRound vs round = Some v /\
    ValidatorSet_wf (advanced vs round) /\
    shape (vals_Validators (advanced vs round)) = shape (vals_Validators vs) /\
    (0 < round -> forall w, w ∈ vals_Validators (advanced vs round) -> better w v = false).
Proof.
  intros Hw. unfold GetProposerForRound, advanced.
  destruct (Z.leb_spec round 0) as [Hr|Hr].
  - destruct (wf_proposer _ Hw) as (i & Hi & Hlt). apply lookup_lt_is_Some_2 in Hlt as [v Hv].
    exists i, v. unfold deref. rewrite Hi. cbn. rewrite Hv, CopyValidator_id. split_and!; auto. lia.
  - rewrite (WithIncrementedPriority_wf _ _ Hw). pose proof (Increment_wf round _ Hw) as Hw'.
    destruct (wf_proposer _ Hw') as (i & Hi & Hlt). apply lookup_lt_is_Some_2 in Hlt as [v Hv].
    exists i, v. unfold deref. rewrite Hi. cbn. rewrite Hv, CopyValidator_id.
    split_and!; auto using Increment_shape. intros _. revert Hi Hv.
    unfold IncrementProposerPriority. pose proof (wf_nonempty _ Hw).
    destruct (Z.eqb_spec (len (vals_Validators vs)) 0) as [E|E]; [unfold len in E; lia|].
    cbn. intros (q & Hq & Hb)%getProposer_spec Hv.
    assert (q = v) as -> by congruence. exact Hb.
Qed.

Lemma GetProposerForRound_spec_witness :
  exists i v, vals_Proposer (advanced set_ab 2) = Some i /\
    vals_Validators (advanced set_ab 2) !! i = Some v /\
    GetProposerForRound set_ab 2 = Some v /\
    ValidatorSet_wf (advanced set_ab 2) /\
    shape (vals_Validators (advanced set_ab 2)) = shape (vals_Validators set_ab) /\
    (0 < 2 -> forall w, w ∈ vals_Validators (advanced set_ab 2) -> better w v = false).
Proof. apply (GetProposerForRound_spec set_ab 2). exact set_ab_wf. Defined.

(** The proposer does not depend on the order of the validators: two sets with the
    same validators (names distinct) in different orders select the same one, so every node
    agrees on it. *)
Theorem getProposer_order_independent vs1 vs2 :
  NoDup (nv_name <$> vals_Validators vs1) ->
  vals_Validators vs1 ≡ₚ vals_Validators vs2 ->
  deref vs1 (getProposer vs1) = deref vs2 (getProposer vs2).
Proof.
  intros Hn Hp. destruct (decide (0 < length (vals_Validators vs1))%nat) as [Hl|Hl].
  - destruct (getProposer_is_Some vs1 Hl) as (i & Hi & _).
    destruct (getProposer_is_Some vs2) as (j & Hj & _); [by rewrite <- Hp|].
    rewrite Hi, Hj. apply getProposer_spec in Hi as (v & Hv & Hbv).
    apply getProposer_spec in Hj as (w & Hw & Hbw). unfold deref. cbn. rewrite Hv, Hw. f_equal.
    apply list_elem_of_lookup_2 in Hv, Hw. rewrite <- Hp in Hw.
    apply (best_unique (vals_Validators vs1)); auto. apply Hbw. by rewrite <- Hp.
  - assert (vals_Validators vs1 = []) as E by (destruct (vals_Validators vs1); cbn in *; [done|lia]).
    rewrite E in Hp. symmetry in Hp. apply Permutation_nil_r in Hp.
    unfold getProposer. by rewrite E, Hp.
Qed.

Definition reversed_ab : ValidatorSet := with_Validators reverse set_ab.

Lemma getProposer_order_independent_witness :
  deref set_ab (getProposer set_ab) = deref reversed_ab (getProposer reversed_ab).
Proof.
  apply (getProposer_order_independent set_ab reversed_ab).
  - apply (bool_decide_unpack _). vm_compute. exact I.
  - cbn. by rewrite reverse_Permutation.
Defined.

(** ** Serialization *)

Lemma core_ext vs1 vs2 :
  ValidatorSet_core vs1 -> ValidatorSet_core vs2 ->
  vals_Validators vs1 = vals_Validators vs2 -> vals_Proposer vs1 = vals_Proposer vs2 -> vs1 = vs2.
Proof.
  intros H1 H2 EV EP. pose proof (core_total _ H1) as T1. pose proof (core_total _ H2) as T2.
  pose proof (core_byName _ H1) as N1. pose proof (core_byName _ H2) as N2.
  pose proof (core_byIndex _ H1) as I1. pose proof (core_byIndex _ H2) as I2.
  destruct vs1 as [l1 p1 t1 n1 i1], vs2 as [l2 p2 t2 n2 i2]. cbn in *. subst. f_equal.
  - apply map_eq. intros s. apply option_eq. intros i. by rewrite N1, N2.
  - apply map_eq. intros s. apply option_eq. intros i. by rewrite I1, I2.
Qed.

Lemma imap_stored_id vs :
  ValidatorSet_core vs -> imap stored (vals_Validators vs) = vals_Validators vs.
Proof.
  intros Hc. apply list_eq. intros i. rewrite list_lookup_imap.
  destruct (vals_Validators vs !! i) as [v|] eqn:Hv; cbn; [|done].
  apply (core_entry _ Hc) in Hv as (Hi & _). destruct v. cbn in *. unfold stored. cbn. by subst.
Qed.

Lemma core_power_i64 vs w :
  ValidatorSet_core vs -> w ∈ vals_Validators vs -> in_i64 (nv_VotingPower w).
Proof.
  intros Hc Hw. pose proof (core_positive _ _ Hc Hw).
  assert (nv_VotingPower w <= vals_TotalPower vs).
  { rewrite (core_total _ Hc). apply sumZ_elem_le; [|done].
    intros y Hy. pose proof (core_positive _ _ Hc Hy). lia. }
  pose proof (core_bound _ Hc). unfold in_i64, MaxInt64, MinInt64, MaxTotalVotingPower in *. lia.
Qed.

(** The additions of [NewValidatorSet] applied to the validators of a set. *)
Lemma add_validators_core vs :
  ValidatorSet_core vs ->
  exists vs', add_validators 0 (Some <$> vals_Validators vs) emptyValidatorSet = Ret vs' /\
    ValidatorSet_core vs' /\ vals_Validators vs' = vals_Validators vs.
Proof.
  intros Hc. pose proof (core_size _ Hc) as Hsz. unfold MaxValidators in Hsz.
  pose proof (add_validators_cases 0 (vals_Validators vs) _ emptyValidatorSet_core eq_refl) as H.
  specialize (H ltac:(lia) (fun w => core_power_i64 vs w Hc)).
  destruct (add_validators 0 (Some <$> vals_Validators vs) emptyValidatorSet) as [vs1|e|].
  - destruct H as (_ & Hc1 & HV1). exists vs1. split_and!; [done..|].
    change (vals_Validators vs1 = imap stored (vals_Validators vs)) in HV1.
    by rewrite (imap_stored_id _ Hc) in HV1.
  - exfalso. apply H. split_and!.
    + intros w [j Hj]%list_elem_of_lookup. apply (core_entry _ Hc) in Hj as (_ & ? & ?). done.
    + apply (core_names _ Hc).
    + cbn. rewrite <- (core_total _ Hc). apply (core_bound _ Hc).
  - done.
Qed.

(** Restoring a serialized set gives back the same set, validators, priorities,
    proposer and lookup maps, whenever some priority is not zero. *)
Theorem FromData_ToData vs :
  ValidatorSet_wf vs -> allZero (vals_Validators vs) = false ->
  ValidatorSetFromData (ToData vs) = Ret vs.
Proof.
  intros Hw Hz. pose proof (wf_core _ Hw) as Hc. pose proof (wf_nonempty _ Hw) as Hne.
  pose proof (core_size _ Hc) as Hsz. destruct (wf_proposer _ Hw) as (p & Hp & Hlt).
  destruct (add_validators_core vs Hc) as (vs1 & Ha & Hc1 & HV).
  unfold ValidatorSetFromData, ToData, NewValidatorSet. cbn [vsd_Validators vsd_ProposerIndex].
  unfold len in *. rewrite length_fmap.
  destruct (Z.eqb_spec (Z.of_nat (length (vals_Validators vs))) 0); [lia|].
  rewrite Z.gtb_ltb, (proj2 (Z.ltb_ge _ _)) by lia. rewrite Ha. cbn [rbind].
  rewrite HV, Hz. cbn [rbind]. f_equal.
  apply lookup_lt_is_Some_2 in Hlt as [v Hv]. unfold deref. rewrite Hp. cbn. rewrite Hv.
  pose proof (core_entry _ Hc _ _ Hv) as (-> & _). rewrite HV.
  apply lookup_lt_Some in Hv. rewrite (proj2 (Z.ltb_lt _ _)) by lia.
  rewrite Nat2Z.id. apply core_ext; [by repeat apply core_with_Proposer|done..].
Qed.

Lemma FromData_ToData_witness : ValidatorSetFromData (ToData set_ab) = Ret set_ab.
Proof. apply (FromData_ToData set_ab set_ab_wf). vm_compute. reflexivity. Defined.

(** [set_ab] after one rotation: both priorities are 0 again. *)
Definition rotated_ab : ValidatorSet := IncrementProposerPriority 1 set_ab.

Definition restored_ab : ValidatorSet :=
  match ValidatorSetFromData (ToData rotated_ab) with Ret vs => vs | _ => emptyValidatorSet end.

(** A set whose priorities are all zero is not restored: [NewValidatorSet]
    re-initializes them, and the restored set elects another proposer in round 2 than the set
    that was serialized. *)
Theorem FromData_loses_zero_priorities :
  ValidatorSetFromData (ToData rotated_ab) = Ret restored_ab /\
  (nv_ProposerPriority <$> vals_Validators rotated_ab) = [0; 0] /\
  (nv_ProposerPriority <$> vals_Validators restored_ab) = [-1; 1] /\
  (nv_name <$> GetProposerForRound rotated_ab 2) = Some "b" /\
  (nv_name <$> GetProposerForRound restored_ab 2) = Some "a".
Proof. repeat split; vm_compute; reflexivity. Qed.

(** ** The set hash *)

Lemma find_name_fmap i s l l' : nv_name <$> l = nv_name <$> l' -> find_name i s l = find_name i s l'.
Proof.
  revert i l'. induction l as [|v l IH]; intros i [|v' l'] E; try done. cbn in *.
  injection E as -> E. by rewrite (IH (S i) l' E).
Qed.

#[export] Instance name_le_trans : Transitive name_le.
Proof. intros u v w. unfold name_le. apply (transitivity (R := String.le)). Qed.

#[export] Instance name_le_total : Total name_le.
Proof. intros v w. unfold name_le. apply (total String.le). Qed.

Lemma name_le_shape l : Sorted name_le l -> Sorted name_le (shape l).
Proof.
  induction 1 as [|v l Hs IH Hd]; [constructor|]. constructor; [done|].
  destruct Hd; constructor. done.
Qed.

Lemma sorted_validators_shape vs1 vs2 :
  NoDup (nv_name <$> vals_Validators vs1) ->
  shape (vals_Validators vs1) ≡ₚ shape (vals_Validators vs2) ->
  shape (sorted_validators vs1) = shape (sorted_validators vs2).
Proof.
  intros Hn Hp.
  assert (P1 : shape (sorted_validators vs1) ≡ₚ shape (vals_Validators vs1))
    by (apply fmap_Permutation, merge_sort_Permutation).
  assert (P2 : shape (sorted_validators vs2) ≡ₚ shape (vals_Validators vs2))
    by (apply fmap_Permutation, merge_sort_Permutation).
  assert (N : NoDup (nv_name <$> shape (vals_Validators vs1))).
  { rewrite (shape_proj nv_name _ (vals_Validators vs1)); [done|done|].
    unfold shape. by rewrite <- list_fmap_compose. }
  apply (Sorted_unique_strong name_le); [|apply name_le_shape, Sorted_merge_sort, _..|].
  - intros x1 x2 H1 H2 L1 L2. rewrite P1 in H1. rewrite P2, <- Hp in H2.
    assert (nv_name x1 = nv_name x2) as E by (by apply (anti_symm String.le)).
    apply list_elem_of_lookup in H1 as [i Hi], H2 as [j Hj].
    assert (i = j) as ->; [|congruence].
    eapply (NoDup_lookup _ _ _ (nv_name x1) N); rewrite list_lookup_fmap; [by rewrite Hi|].
    rewrite Hj. cbn. by rewrite E.
  - by rewrite P1, P2.
Qed.

Lemma hash_data_shape vs1 vs2 :
  NoDup (nv_name <$> vals_Validators vs1) ->
  shape (vals_Validators vs1) ≡ₚ shape (vals_Validators vs2) ->
  nv_name <$> deref vs1 (vals_Proposer vs1) = nv_name <$> deref vs2 (vals_Proposer vs2) ->
  vals_TotalPower vs1 = vals_TotalPower vs2 -> hash_data vs1 = hash_data vs2.
Proof.
  intros Hn Hp Ho Ht. pose proof (sorted_validators_shape vs1 vs2 Hn Hp) as E.
  unfold hash_data. rewrite Ht. f_equal; [exact E|].
  assert (Hf : forall s, find_name 0 s (sorted_validators vs1) = find_name 0 s (sorted_validators vs2)).
  { intros s. apply find_name_fmap, shape_proj; [|exact E]. done. }
  destruct (deref vs1 (vals_Proposer vs1)), (deref vs2 (vals_Proposer vs2)); try done.
  cbn in Ho. injection Ho as ->. apply Hf.
Qed.

(** The set hash does not depend on the order in which the validators are held nor on
    their priorities: two sets with the same members, total and proposer hash alike, under
    every serializer and hash function. *)
Theorem ValidatorSet_Hash_deterministic `{Crypto} `{Cramberry} vs1 vs2 :
  ValidatorSet_core vs1 ->
  shape (vals_Validators vs1) ≡ₚ shape (vals_Validators vs2) ->
  nv_name <$> deref vs1 (vals_Proposer vs1) = nv_name <$> deref vs2 (vals_Proposer vs2) ->
  vals_TotalPower vs1 = vals_TotalPower vs2 ->
  ValidatorSet_Hash vs1 = ValidatorSet_Hash vs2.
Proof.
  intros Hc Hp Ho Ht. unfold ValidatorSet_Hash.
  by rewrite (hash_data_shape vs1 vs2 (core_names _ Hc) Hp Ho Ht).
Qed.

(** [set_ab] with the members stored in the other order and other priorities. *)
Definition shuffled_ab : ValidatorSet :=
  with_Proposer (Some 0%nat) (with_Validators (fun l => set_priority 7 <$> reverse l) set_ab).

(** The hash of a set changes when only its proposer rotates: [Hash] serializes
    the position of the current proposer (for [set_ab] the serialized index goes from 1 to 0
    in two rounds), with the same validators and total power. *)
Theorem Hash_depends_on_proposer :
  shape (vals_Validators (advanced set_ab 2)) = shape (vals_Validators set_ab) /\
  vals_TotalPower (advanced set_ab 2) = vals_TotalPower set_ab /\
  vsd_ProposerIndex (hash_data set_ab) <> vsd_ProposerIndex (hash_data (advanced set_ab 2)).
Proof. split_and!; vm_compute; congruence. Qed.
