(* ===== verification/Rotation.v ===== *)
(** * Weighted round-robin proposer rotation (src/types/validator.go)

    How [IncrementProposerPriority] behaves over many heights. [finalizeCommitLocked]
    applies [WithIncrementedPriority(1)] once per height; [rotate k] is [k] heights with no
    validator updates. At each height one validator is charged the total power; the
    priorities stay balanced, so the charges are proportional to the voting power. *)

From S2P Require Export Validators.

Implicit Types (vs : ValidatorSet) (v : NamedValidator).

(** [k] heights. *)
Definition rotate (k : nat) (vs : ValidatorSet) : ValidatorSet :=
  Nat.iter k (IncrementProposerPriority 1) vs.

(** The validator whose priority the loop body lowers by the total power. *)
Definition charged (vs : ValidatorSet) : option nat :=
  getProposer (with_Validators (fmap increase_priority) vs).

(** How often the validator at index [i] is charged in [k] heights. *)
Fixpoint charges (k : nat) (i : nat) (vs : ValidatorSet) : Z :=
  match k with
  | O => 0
  | S k => charges k i vs + (if bool_decide (charged (rotate k vs) = Some i) then 1 else 0)
  end.

(** At how many of [k] heights the validator at index [i] is the set's [Proposer]. *)
Fixpoint proposals (k : nat) (i : nat) (vs : ValidatorSet) : Z :=
  match k with
  | O => 0
  | S k => proposals k i vs + (if bool_decide (vals_Proposer (rotate k vs) = Some i) then 1 else 0)
  end.

Definition sum_prio (l : list NamedValidator) : Z := sumZ nv_ProposerPriority l.

(** Priorities that sum to less than one unit per validator, none below minus the total,
    and enough room below the clamping threshold. *)
Record balanced (vs : ValidatorSet) : Prop := {
  bal_core : ValidatorSet_core vs;
  bal_nonempty : 0 < len (vals_Validators vs);
  bal_sum : - len (vals_Validators vs) < sum_prio (vals_Validators vs) < len (vals_Validators vs);
  bal_low : forall v, v ∈ vals_Validators vs -> - vals_TotalPower vs <= nv_ProposerPriority v;
  bal_room : len (vals_Validators vs) * (vals_TotalPower vs + 1) <= MaxTotalVotingPower }.

(** ** Balanced sets are never clamped *)

Lemma balanced_high vs v :
  balanced vs -> v ∈ vals_Validators vs ->
  nv_ProposerPriority v <= (len (vals_Validators vs) - 1) * (vals_TotalPower vs + 1).
Proof.
  intros [Hc _ Hs Hl _] (l1 & l2 & E)%list_elem_of_split. rewrite E in *. unfold sum_prio in Hs.
  rewrite sumZ_app in Hs. cbn [sumZ] in Hs.
  assert (forall l, l ⊆ l1 ++ v :: l2 -> - vals_TotalPower vs * len l <= sumZ nv_ProposerPriority l).
  { intros l Hsub. unfold len. rewrite <- sumZ_const. apply sumZ_le. intros x Hx. by apply Hl, Hsub. }
  pose proof (H l1 ltac:(set_solver)). pose proof (H l2 ltac:(set_solver)).
  unfold len in *. rewrite length_app in *. cbn [length] in *. nia.
Qed.

Lemma balanced_power_le vs v :
  ValidatorSet_core vs -> v ∈ vals_Validators vs -> nv_VotingPower v <= vals_TotalPower vs.
Proof.
  intros Hc Hv. rewrite (core_total _ Hc). apply sumZ_elem_le; [|done].
  intros y Hy. pose proof (core_positive _ _ Hc Hy). lia.
Qed.

Lemma increase_exact vs v :
  balanced vs -> v ∈ vals_Validators vs ->
  increase_priority v = set_priority (nv_ProposerPriority v + nv_VotingPower v) v.
Proof.
  intros Hb Hv. pose proof (balanced_high _ _ Hb Hv). pose proof (bal_low _ Hb _ Hv).
  pose proof (bal_room _ Hb). pose proof (bal_nonempty _ Hb).
  pose proof (core_positive _ _ (bal_core _ Hb) Hv).
  pose proof (balanced_power_le _ _ (bal_core _ Hb) Hv).
  pose proof (core_bound _ (bal_core _ Hb)). unfold MaxTotalVotingPower in *.
  set (T := vals_TotalPower vs) in *. set (n := len (vals_Validators vs)) in *.
  assert (nv_ProposerPriority v + nv_VotingPower v <= 2 ^ 60) by nia.
  unfold increase_priority. change maxPriority with (2 ^ 60).
  rewrite !wrap64_small by (unfold in_i64, MinInt64, MaxInt64; lia).
  destruct (Z.gtb_spec (nv_VotingPower v) 0), (Z.gtb_spec (nv_ProposerPriority v) (2 ^ 60 - nv_VotingPower v));
    cbn; try lia;
    destruct (Z.gtb_spec (nv_ProposerPriority v + nv_VotingPower v) (2 ^ 60)); by try lia.
Qed.

(** The set after the increase half of the loop body. *)
Lemma increased_prio vs i v :
  balanced vs -> vals_Validators vs !! i = Some v ->
  (increase_priority <$> vals_Validators vs) !! i =
    Some (set_priority (nv_ProposerPriority v + nv_VotingPower v) v).
Proof.
  intros Hb Hv. rewrite list_lookup_fmap, Hv. cbn. f_equal.
  apply (increase_exact vs); [done|by eapply list_elem_of_lookup_2].
Qed.

Lemma increased_sum vs :
  balanced vs ->
  sum_prio (increase_priority <$> vals_Validators vs) =
    sum_prio (vals_Validators vs) + vals_TotalPower vs.
Proof.
  intros Hb. unfold sum_prio. rewrite sumZ_map, (core_total _ (bal_core _ Hb)), <- sumZ_add.
  apply sumZ_ext. intros v Hv. by rewrite (increase_exact vs).
Qed.

Lemma sum_le_max l m :
  (forall v, v ∈ l -> nv_ProposerPriority v <= m) -> sum_prio l <= m * len l.
Proof. intros H. unfold sum_prio, len. rewrite <- sumZ_const. by apply sumZ_le. Qed.

(** The charged validator exists, and its raised priority is not negative. *)
Lemma charged_spec vs :
  balanced vs ->
  exists i v, charged vs = Some i /\ vals_Validators vs !! i = Some v /\
    0 <= nv_ProposerPriority v + nv_VotingPower v.
Proof.
  intros Hb. unfold charged. set (vs' := with_Validators (fmap increase_priority) vs).
  assert (len (vals_Validators vs') = len (vals_Validators vs)) as Hlen
    by (unfold len; cbn; by rewrite length_fmap).
  destruct (getProposer_is_Some vs') as (i & Hi & Hlt).
  { pose proof (bal_nonempty _ Hb). rewrite <- Hlen in H. unfold len in H. lia. }
  destruct (getProposer_spec _ _ Hi) as (q & Hq & Hmax).
  assert (is_Some (vals_Validators vs !! i)) as [v Hv].
  { apply lookup_lt_is_Some_2. cbn in Hlt. by rewrite length_fmap in Hlt. }
  exists i, v. split_and!; [done..|]. cbn in Hq. rewrite (increased_prio _ _ _ Hb Hv) in Hq.
  simplify_eq. pose proof (increased_sum _ Hb) as Hsum.
  pose proof (sum_le_max (vals_Validators vs') (nv_ProposerPriority v + nv_VotingPower v)) as Hle.
  rewrite Hlen in Hle. cbn [vals_Validators vs' with_Validators] in Hle. rewrite Hsum in Hle.
  pose proof (bal_sum _ Hb). pose proof (bal_nonempty _ Hb).
  pose proof (core_total_nonneg _ (bal_core _ Hb)).
  enough (sum_prio (vals_Validators vs) + vals_TotalPower vs <=
    (nv_ProposerPriority v + nv_VotingPower v) * len (vals_Validators vs)) by nia.
  apply Hle. intros w Hw. specialize (Hmax w Hw). apply better_false in Hmax. cbn in Hmax. lia.
Qed.

Lemma decrease_exact vs v :
  balanced vs -> 0 <= nv_ProposerPriority v <= MaxTotalVotingPower ->
  decrease_priority (vals_TotalPower vs) v =
    set_priority (nv_ProposerPriority v - vals_TotalPower vs) v.
Proof.
  intros Hb Hv. pose proof (core_total_nonneg _ (bal_core _ Hb)).
  pose proof (core_bound _ (bal_core _ Hb)). unfold MaxTotalVotingPower in *.
  unfold decrease_priority. change minPriority with (- 2 ^ 60).
  set (T := vals_TotalPower vs) in *.
  rewrite !wrap64_small by (unfold in_i64, MinInt64, MaxInt64; lia).
  destruct (Z.gtb_spec T 0), (Z.ltb_spec (nv_ProposerPriority v) (- 2 ^ 60 + T));
    cbn; try lia; destruct (Z.ltb_spec (nv_ProposerPriority v - T) (- 2 ^ 60)); by try lia.
Qed.

(** One loop iteration, exactly: every priority rises by the power, the charged one falls
    by the total. *)
Definition charge_of (vs : ValidatorSet) (i : nat) : Z :=
  if bool_decide (charged vs = Some i) then vals_TotalPower vs else 0.

Lemma increment_once_exact vs i v :
  balanced vs -> vals_Validators vs !! i = Some v ->
  vals_Validators (increment_once vs) !! i =
    Some (set_priority (nv_ProposerPriority v + nv_VotingPower v - charge_of vs i) v).
Proof.
  intros Hb Hv. destruct (charged_spec _ Hb) as (j & w & Hj & Hw & Hpos).
  unfold increment_once, charge_of. unfold charged in *. rewrite Hj. cbn [vals_Validators with_Validators].
  case_bool_decide as E; simplify_eq.
  - rewrite list_lookup_alter_eq, (increased_prio _ _ _ Hb Hv). cbn. f_equal.
    change (vals_TotalPower (with_Validators _ vs)) with (vals_TotalPower vs).
    rewrite (decrease_exact _ _ Hb); [done|]. cbn. split; [done|].
    assert (v ∈ vals_Validators vs) as Hin by by eapply list_elem_of_lookup_2.
    pose proof (balanced_high _ _ Hb Hin). pose proof (bal_room _ Hb).
    pose proof (balanced_power_le _ _ (bal_core _ Hb) Hin). unfold MaxTotalVotingPower in *. nia.
  - rewrite list_lookup_alter_ne by congruence. rewrite (increased_prio _ _ _ Hb Hv).
    do 2 f_equal. lia.
Qed.

Lemma sumZ_alter {A} (f : A -> Z) (g : A -> A) i x l :
  l !! i = Some x -> sumZ f (alter g i l) = sumZ f l - f x + f (g x).
Proof.
  revert i. induction l as [|y l IH]; intros [|i] H; cbn in H; simplify_eq; csimpl; [lia|].
  rewrite (IH _ H). lia.
Qed.

Lemma increment_once_sum vs :
  balanced vs -> sum_prio (vals_Validators (increment_once vs)) = sum_prio (vals_Validators vs).
Proof.
  intros Hb. destruct (charged_spec _ Hb) as (j & w & Hj & Hw & Hpos).
  pose proof (increment_once_exact _ _ _ Hb Hw) as Hex. unfold charge_of in Hex.
  rewrite bool_decide_eq_true_2 in Hex by done. revert Hex.
  unfold increment_once. unfold charged in Hj. rewrite Hj. cbn [vals_Validators with_Validators].
  change (vals_TotalPower (with_Validators _ vs)) with (vals_TotalPower vs).
  rewrite list_lookup_alter_eq, (increased_prio _ _ _ Hb Hw). cbn [fmap option_fmap option_map].
  intros [= Hex]. unfold sum_prio.
  rewrite (sumZ_alter _ _ _ _ _ (increased_prio _ _ _ Hb Hw)), Hex.
  fold (sum_prio (increase_priority <$> vals_Validators vs)). rewrite (increased_sum _ Hb).
  cbn. unfold sum_prio. lia.
Qed.

Lemma increment_once_total vs : vals_TotalPower (increment_once vs) = vals_TotalPower vs.
Proof. unfold increment_once. by case_match. Qed.

Lemma increment_once_len vs : len (vals_Validators (increment_once vs)) = len (vals_Validators vs).
Proof. unfold len. by rewrite (shape_length _ _ (increment_once_shape vs)). Qed.

Lemma increment_once_balanced vs : balanced vs -> balanced (increment_once vs).
Proof.
  intros Hb. split.
  - apply increment_once_core, Hb.
  - rewrite increment_once_len. apply Hb.
  - rewrite increment_once_len, (increment_once_sum _ Hb). apply Hb.
  - intros v' [i Hi]%list_elem_of_lookup. rewrite increment_once_total.
    assert (is_Some (vals_Validators vs !! i)) as [v Hv].
    { apply lookup_lt_is_Some. rewrite <- (shape_length _ _ (increment_once_shape vs)).
      by eapply lookup_lt_Some. }
    rewrite (increment_once_exact _ _ _ Hb Hv) in Hi. simplify_eq. cbn.
    assert (v ∈ vals_Validators vs) as Hin by by eapply list_elem_of_lookup_2.
    pose proof (bal_low _ Hb _ Hin). pose proof (core_positive _ _ (bal_core _ Hb) Hin).
    unfold charge_of. case_bool_decide as E; [|lia].
    destruct (charged_spec _ Hb) as (j & w & Hj & Hw & Hpos). simplify_eq. lia.
  - rewrite increment_once_len, increment_once_total. apply Hb.
Qed.

(** ** Centering a balanced set changes nothing *)

Lemma sum_priorities_spec l s r :
  in_i64 s -> (forall v, v ∈ l -> in_i64 (nv_ProposerPriority v)) ->
  sum_priorities l s = (r, false) -> r = s + sum_prio l.
Proof.
  unfold sum_prio. revert s. induction l as [|v l IH]; intros s Hs Hl H; cbn in *; [naive_solver lia|].
  pose proof (Hl v ltac:(set_solver)) as Hv. unfold in_i64, MaxInt64, MinInt64 in *.
  rewrite Z.gtb_ltb in H. destruct (Z.ltb_spec 0 (nv_ProposerPriority v)); cbn in H.
  - rewrite (wrap64_small (_ - _)) in H by (unfold in_i64, MaxInt64, MinInt64; lia).
    rewrite Z.gtb_ltb in H. case_match; [done|]. bool_to_prop.
    destruct (Z.ltb_spec (nv_ProposerPriority v) 0); [lia|]. cbn in H.
    rewrite wrap64_small in H by (unfold in_i64, MaxInt64, MinInt64; lia).
    apply IH in H; [lia|lia|set_solver].
  - destruct (Z.ltb_spec (nv_ProposerPriority v) 0); cbn in H.
    + rewrite (wrap64_small (_ - _)) in H by (unfold in_i64, MaxInt64, MinInt64; lia).
      case_match; [done|]. bool_to_prop.
      rewrite wrap64_small in H by (unfold in_i64, MaxInt64, MinInt64; lia).
      apply IH in H; [lia|lia|set_solver].
    + rewrite wrap64_small in H by (unfold in_i64, MaxInt64, MinInt64; lia).
      apply IH in H; [lia|lia|set_solver].
Qed.

Lemma balanced_in_i64 vs v :
  balanced vs -> v ∈ vals_Validators vs -> in_i64 (nv_ProposerPriority v).
Proof.
  intros Hb Hv. pose proof (balanced_high _ _ Hb Hv). pose proof (bal_low _ Hb _ Hv).
  pose proof (bal_room _ Hb). pose proof (bal_nonempty _ Hb).
  pose proof (core_total_nonneg _ (bal_core _ Hb)).
  unfold in_i64, MinInt64, MaxInt64, MaxTotalVotingPower in *. nia.
Qed.

Lemma priority_avg_balanced vs : balanced vs -> priority_avg (vals_Validators vs) = 0.
Proof.
  intros Hb. unfold priority_avg. destruct (sum_priorities _ 0) as [s o] eqn:E.
  destruct o; [done|].
  apply sum_priorities_spec in E; [|done|eauto using balanced_in_i64].
  pose proof (bal_sum _ Hb). rewrite E. apply Z.quot_small_iff; lia.
Qed.

Lemma set_priority_id v : set_priority (nv_ProposerPriority v) v = v.
Proof. by destruct v. Qed.

Lemma centerPriorities_balanced vs : balanced vs -> centerPriorities vs = vs.
Proof.
  intros Hb. destruct (centerPriorities_cases vs) as [->| ->]; [done|].
  rewrite (priority_avg_balanced _ Hb). unfold with_Validators.
  replace (_ <$> vals_Validators vs) with (vals_Validators vs); [by destruct vs|].
  symmetry. rewrite <- (list_fmap_id (vals_Validators vs)) at 2.
  apply list_fmap_ext. intros i v Hv. cbn.
  rewrite Z.sub_0_r, wrap64_small, set_priority_id; [done|].
  apply (balanced_in_i64 vs); [done|by eapply list_elem_of_lookup_2].
Qed.

Lemma Increment_balanced vs :
  balanced vs ->
  vals_Validators (IncrementProposerPriority 1 vs) = vals_Validators (increment_once vs) /\
  vals_TotalPower (IncrementProposerPriority 1 vs) = vals_TotalPower vs /\
  balanced (IncrementProposerPriority 1 vs).
Proof.
  intros Hb. pose proof (increment_once_balanced _ Hb) as Hb'.
  unfold IncrementProposerPriority. pose proof (bal_nonempty _ Hb).
  destruct (Z.eqb_spec (len (vals_Validators vs)) 0); [lia|].
  change (Nat.iter (Z.to_nat 1) increment_once vs) with (increment_once vs).
  rewrite (centerPriorities_balanced _ Hb'). split_and!; [done|apply increment_once_total|].
  destruct Hb'. split; [by apply core_with_Proposer|done..].
Qed.

(** ** Fairness over [k] heights *)

Lemma rotate_spec k vs i v :
  balanced vs -> vals_Validators vs !! i = Some v ->
  balanced (rotate k vs) /\ vals_TotalPower (rotate k vs) = vals_TotalPower vs /\
  len (vals_Validators (rotate k vs)) = len (vals_Validators vs) /\
  vals_Validators (rotate k vs) !! i = Some (set_priority
    (nv_ProposerPriority v + Z.of_nat k * nv_VotingPower v - charges k i vs * vals_TotalPower vs) v).
Proof.
  intros Hb Hv. induction k as [|k (IHb & IHt & IHn & IHv)].
  - cbn. split_and!; [done..|]. rewrite Hv. destruct v. unfold set_priority. cbn. do 2 f_equal. lia.
  - destruct (Increment_balanced _ IHb) as (HV & HT & HB).
    change (rotate (S k) vs) with (IncrementProposerPriority 1 (rotate k vs)).
    split_and!; [done|congruence| |].
    + by rewrite HV, increment_once_len.
    + rewrite HV, (increment_once_exact _ _ _ IHb IHv). cbn [charges].
      unfold charge_of. rewrite IHt. unfold set_priority. cbn [nv_Name nv_Index nv_PublicKey nv_VotingPower nv_ProposerPriority].
      do 2 f_equal. case_bool_decide; lia.
Qed.

(** The deviation of a balanced set from the exact proportion is bounded. *)
Lemma charges_bound k vs i v :
  balanced vs -> vals_Validators vs !! i = Some v ->
  Z.abs (charges k i vs * vals_TotalPower vs - Z.of_nat k * nv_VotingPower v) <=
    len (vals_Validators vs) * (vals_TotalPower vs + 1).
Proof.
  intros Hb Hv. destruct (rotate_spec k _ _ _ Hb Hv) as (Hb' & Ht & Hn & Hv').
  pose proof (list_elem_of_lookup_2 _ _ _ Hv) as Hin.
  pose proof (list_elem_of_lookup_2 _ _ _ Hv') as Hin'.
  pose proof (balanced_high _ _ Hb Hin). pose proof (bal_low _ Hb _ Hin).
  pose proof (balanced_high _ _ Hb' Hin') as H1. pose proof (bal_low _ Hb' _ Hin') as H2.
  rewrite Ht, ?Hn in H1, H2. cbn in H1, H2.
  pose proof (core_total_nonneg _ (bal_core _ Hb)). lia.
Qed.

(** ** Fresh sets are balanced *)

Lemma sum_priorities_nonneg l s :
  0 <= s -> (forall v, v ∈ l -> 0 <= nv_ProposerPriority v) -> s + sum_prio l <= MaxInt64 ->
  sum_priorities l s = (s + sum_prio l, false).
Proof.
  unfold sum_prio. revert s. induction l as [|v l IH]; intros s Hs Hl Hm; cbn in *; [by rewrite Z.add_0_r|].
  pose proof (Hl v ltac:(set_solver)) as Hv.
  assert (0 <= sumZ nv_ProposerPriority l) by (apply sumZ_nonneg; set_solver).
  unfold MaxInt64 in *.
  rewrite (wrap64_small (2 ^ 63 - 1 - _)) by (unfold in_i64, MaxInt64, MinInt64; lia).
  rewrite (wrap64_small (s + _)) by (unfold in_i64, MaxInt64, MinInt64; lia).
  rewrite (proj2 (Z.ltb_ge _ 0)) by lia. cbn [andb].
  rewrite andb_comm, Z.gtb_ltb, (proj2 (Z.ltb_ge _ _)) by lia. cbn [andb].
  rewrite IH; [f_equal; lia|lia|set_solver|lia].
Qed.

Lemma initProposerPriorities_balanced vs :
  ValidatorSet_core vs -> 0 < len (vals_Validators vs) ->
  len (vals_Validators vs) * (vals_TotalPower vs + 1) <= MaxTotalVotingPower ->
  balanced (initProposerPriorities vs).
Proof.
  intros Hc Hn Hroom.
  set (n := len (vals_Validators vs)) in *. set (T := vals_TotalPower vs) in *.
  set (vs1 := with_Validators (fmap (fun v => set_priority (nv_VotingPower v) v)) vs).
  assert (sum_prio (vals_Validators vs1) = T) as Hs1.
  { unfold sum_prio. cbn. rewrite sumZ_map. symmetry. apply (core_total _ Hc). }
  assert (len (vals_Validators vs1) = n) as Hn1 by (unfold len; cbn; by rewrite length_fmap).
  assert (0 <= T) as HT by apply (core_total_nonneg _ Hc).
  assert (T <= MaxTotalVotingPower) as HTb by apply (core_bound _ Hc).
  assert (priority_avg (vals_Validators vs1) = T / n) as Havg.
  { unfold priority_avg. rewrite sum_priorities_nonneg.
    - rewrite Hs1, Hn1. apply Z.quot_div_nonneg; lia.
    - lia.
    - cbn. intros v (w & -> & Hw)%list_elem_of_fmap. cbn. pose proof (core_positive _ _ Hc Hw). lia.
    - rewrite Hs1. unfold MaxInt64, MaxTotalVotingPower in *. lia. }
  assert (vals_Validators (initProposerPriorities vs) =
    (fun v => set_priority (nv_VotingPower v - T / n) v) <$> vals_Validators vs) as HV.
  { unfold initProposerPriorities. fold vs1. unfold centerPriorities. rewrite Hn1.
    destruct (Z.eqb_spec n 0); [lia|]. rewrite Havg. cbn. rewrite <- list_fmap_compose.
    apply list_fmap_ext. intros i v Hv. cbn. rewrite wrap64_small; [done|].
    assert (v ∈ vals_Validators vs) as Hin by by eapply list_elem_of_lookup_2.
    pose proof (core_positive _ _ Hc Hin). pose proof (balanced_power_le _ _ Hc Hin).
    assert (0 <= T / n <= T) by (split; [apply Z.div_pos|apply Z.div_le_upper_bound]; nia).
    unfold in_i64, MinInt64, MaxInt64, MaxTotalVotingPower in *. fold T in H0. lia. }
  assert (vals_TotalPower (initProposerPriorities vs) = T) as HT'.
  { unfold initProposerPriorities. fold vs1. by destruct (centerPriorities_cases vs1) as [->| ->]. }
  assert (len (vals_Validators (initProposerPriorities vs)) = n) as Hn'.
  { unfold len. rewrite HV, length_fmap. done. }
  split; rewrite ?Hn', ?HT'; [by apply initProposerPriorities_core|done| | |done].
  - rewrite HV. unfold sum_prio. rewrite sumZ_map. cbn.
    rewrite (sumZ_ext _ (fun v => nv_VotingPower v + - (T / n))) by (intros; lia).
    rewrite sumZ_add, sumZ_const.
    replace (sumZ nv_VotingPower (vals_Validators vs)) with T by apply (core_total _ Hc).
    change (Z.of_nat (length (vals_Validators vs))) with n.
    pose proof (Z.div_mod T n ltac:(lia)). pose proof (Z.mod_pos_bound T n ltac:(lia)). lia.
  - rewrite HV. intros v (w & -> & Hw)%list_elem_of_fmap. cbn.
    pose proof (core_positive _ _ Hc Hw).
    assert (T / n <= T) by (apply Z.div_le_upper_bound; nia). lia.
Qed.

Lemma imap_stored_prio (i : nat) ws :
  nv_ProposerPriority <$> imap (fun j w => stored (i + j) w) ws = nv_ProposerPriority <$> ws.
Proof.
  revert i. induction ws as [|w ws IH]; intros i; [done|]. csimpl. f_equal.
  rewrite <- (IH (S i)). f_equal. apply imap_ext. intros. cbn. f_equal. lia.
Qed.

Lemma NewValidatorSet_balanced ws vs :
  (forall w, w ∈ ws -> in_i64 (nv_VotingPower w) /\ nv_ProposerPriority w = 0) ->
  len ws * (sumZ nv_VotingPower ws + 1) <= MaxTotalVotingPower ->
  NewValidatorSet (Some <$> ws) = Ret vs -> balanced vs.
Proof.
  intros Hw Hroom. unfold NewValidatorSet, len. rewrite length_fmap.
  destruct (Z.eqb_spec (Z.of_nat (length ws)) 0) as [H0|H0]; [done|].
  rewrite Z.gtb_ltb.
  destruct (Z.ltb_spec MaxValidators (Z.of_nat (length ws))) as [H1|H1]; [done|].
  unfold MaxValidators in H1.
  pose proof (add_validators_cases 0 ws emptyValidatorSet emptyValidatorSet_core eq_refl) as H.
  unfold len in H. specialize (H ltac:(lia) ltac:(intros w Hin; by apply Hw)).
  destruct (add_validators 0 (Some <$> ws) emptyValidatorSet) as [vs1|e|]; cbn [rbind]; [|done..].
  destruct H as (_ & Hc & Hv).
  change (vals_Validators vs1 = imap (fun j w => stored (0 + j) w) ws) in Hv.
  assert (allZero (vals_Validators vs1) = true) as ->.
  { apply forallb_forall. intros v Hin%list_elem_of_In. apply Z.eqb_eq.
    assert (nv_ProposerPriority v ∈ nv_ProposerPriority <$> vals_Validators vs1) as Hp
      by by apply list_elem_of_fmap_2.
    rewrite Hv, imap_stored_prio in Hp. apply list_elem_of_fmap in Hp as (w & -> & Hin').
    by apply Hw. }
  intros [= <-].
  assert (len (vals_Validators vs1) = len ws) as Hlen by (unfold len; by rewrite Hv, length_imap).
  assert (balanced (initProposerPriorities vs1)) as [? ? ? ? ?].
  { apply initProposerPriorities_balanced; [done|rewrite Hlen; unfold len; lia|].
    rewrite Hlen, (core_total _ Hc), Hv, (stored_power 0). done. }
  split; [by apply core_with_Proposer|done..].
Qed.

(** ** Properties *)

(** C39: the rotation charges validators in proportion to their voting power. For a set
    of [n] validators built by [NewValidatorSet] with no initial priorities, small enough for
    [n * (total + 1)] to be within the bound of the total power, after any number [k] of heights
    the number of times a validator has been charged for proposing differs from
    [k * power / total] by at most [n * (total + 1) / total], whatever [k] is. *)
Theorem charges_proportional ws vs k i v :
  (forall w, w ∈ ws -> in_i64 (nv_VotingPower w) /\ nv_ProposerPriority w = 0) ->
  len ws * (sumZ nv_VotingPower ws + 1) <= MaxTotalVotingPower ->
  NewValidatorSet (Some <$> ws) = Ret vs ->
  vals_Validators vs !! i = Some v ->
  Z.abs (charges k i vs * vals_TotalPower vs - Z.of_nat k * nv_VotingPower v) <=
    len (vals_Validators vs) * (vals_TotalPower vs + 1).
Proof. intros Hw Hr Hn Hv. apply charges_bound; [by eapply NewValidatorSet_balanced|done]. Qed.

Definition stored_b : NamedValidator :=
  mkNamedValidator (NewAccountName "b") 1 (pk32 Byte.x0b) 3 1.

Lemma charges_proportional_witness :
  Z.abs (charges 10 1 set_ab * vals_TotalPower set_ab - Z.of_nat 10 * nv_VotingPower stored_b) <=
    len (vals_Validators set_ab) * (vals_TotalPower set_ab + 1).
Proof.
  apply (charges_proportional [val_a; val_b] set_ab 10 1 stored_b).
  - intros w Hw. repeat (apply elem_of_cons in Hw as [->|Hw]; [vm_compute; intuition congruence|]).
    by apply not_elem_of_nil in Hw.
  - vm_compute. congruence.
  - vm_compute. reflexivity.
  - vm_compute. reflexivity.
Defined.

Lemma set_ab_period : rotate 4 set_ab = set_ab.
Proof. vm_compute. reflexivity. Qed.

Lemma rotate_period m j : rotate (4 * m + j) set_ab = rotate j set_ab.
Proof.
  induction m as [|m IH]; [done|].
  replace (4 * S m + j)%nat with ((4 * m + j) + 4)%nat by lia.
  unfold rotate in *. rewrite Nat.iter_add. fold (rotate 4 set_ab). by rewrite set_ab_period.
Qed.

(** The [Proposer] field does not follow that proportion. For powers 1 and 3 the
    validator of power 1 is [Proposer] at two of every four heights (and is charged at one
    of them): [Proposer] is recomputed after the charge instead of being the validator that
    was charged. *)
Theorem proposer_not_proportional :
  NewValidatorSet [Some val_a; Some val_b] = Ret set_ab /\
  nv_VotingPower val_b = 3 * nv_VotingPower val_a /\
  forall m, proposals (4 * m) 0 set_ab = 2 * Z.of_nat m /\
            proposals (4 * m) 1 set_ab = 2 * Z.of_nat m /\
            charges (4 * m) 0 set_ab = Z.of_nat m.
Proof.
  split_and!; [reflexivity|reflexivity|]. induction m as [|m (IH1 & IH2 & IH3)]; [done|].
  replace (4 * S m)%nat with (S (S (S (S (4 * m + 0))))) by lia.
  cbn [proposals charges].
  rewrite <- !Nat.add_succ_r, !rotate_period, Nat.add_0_r, IH1, IH2, IH3.
  split_and!; vm_compute (bool_decide _); lia.
Qed.
