(* ===== verification/Concrete.v ===== *)
(** * Concrete parameters for the examples

    Executable functions for the interfaces [Crypto] and [Cramberry], with which the
    witnesses evaluate: the hash is a padded prefix, a signature is the prefix of the key
    (8 bytes) followed by the signed bytes, and the serializer writes the fields in order. Nothing
    outside the witnesses uses them. *)

From S2P Require Export Validators.

(** ** Toy cryptography *)

Definition pad (n : nat) (m : bytes) : bytes := take n (m ++ replicate n Byte.x00).

Definition toy_sign (key m : bytes) : bytes := pad 64 (take 8 key ++ m).

#[export] Instance toy_crypto : Crypto := {|
  sha256_Sum256 := pad 32;
  ed25519_Sign := toy_sign;
  ed25519_Verify := fun pk m s => bool_decide (s = toy_sign pk m) |}.

Lemma pad_length n m : length (pad n m) = n.
Proof. unfold pad. rewrite length_take, length_app, length_replicate. lia. Qed.

#[export] Instance toy_crypto_laws : CryptoLaws.
Proof. split; intros; apply pad_length. Qed.

(** ** Toy serializer *)

Definition put_Z (z : Z) : bytes := [byte_of_Z z; byte_of_Z (Z.shiftr z 8)].
Definition put_bytes (b : bytes) : bytes := put_Z (len b) ++ b.
Definition put_list {A} (f : A -> bytes) (l : list A) : bytes := put_Z (len l) ++ concat (f <$> l).
Definition put_option {A} (f : A -> bytes) (o : option A) : bytes :=
  match o with None => [Byte.x00] | Some a => Byte.x01 :: f a end.
Definition put_string (s : string) : bytes := put_bytes (bytes_of_string s).
Definition put_hash (h : Hash) : bytes := put_bytes (h_Data h).
Definition put_name (a : AccountName) : bytes := put_option put_string (an_Name a).

Definition put_vote (v : Vote) : bytes :=
  put_Z (vt_Type v) ++ put_Z (vt_Height v) ++ put_Z (vt_Round v) ++
  put_option put_hash (vt_BlockHash v) ++ put_Z (vt_Timestamp v) ++ put_name (vt_Validator v) ++
  put_Z (vt_ValidatorIndex v) ++ put_bytes (sig_Data (vt_Signature v)).

Definition put_commit_sig (s : CommitSig) : bytes :=
  put_Z (cs_ValidatorIndex s) ++ put_bytes (sig_Data (cs_Signature s)) ++
  put_Z (cs_Timestamp s) ++ put_option put_hash (cs_BlockHash s).

Definition put_commit (c : Commit) : bytes :=
  put_Z (cm_Height c) ++ put_Z (cm_Round c) ++ put_hash (cm_BlockHash c) ++
  put_list put_commit_sig (cm_Signatures c).

Definition put_header (h : BlockHeader) : bytes :=
  put_Z (bh_Height h) ++ put_Z (bh_Time h) ++ put_string (bh_ChainId h) ++
  put_option put_hash (bh_LastBlockHash h) ++ put_option put_hash (bh_AppHash h) ++
  put_name (bh_Proposer h).

Definition put_block (b : Block) : bytes :=
  put_header (b_Header b) ++ put_list put_hash (bd_BatchDigests (b_Data b)) ++
  put_option put_commit (b_LastCommit b).

Definition put_proposal (p : Proposal) : bytes :=
  put_Z (p_Height p) ++ put_Z (p_Round p) ++ put_Z (p_Timestamp p) ++ put_block (p_Block p) ++
  put_Z (p_PolRound p) ++ put_list put_vote (p_PolVotes p) ++ put_name (p_Proposer p) ++
  put_bytes (sig_Data (p_Signature p)).

Definition put_validator (v : NamedValidator) : bytes :=
  put_name (nv_Name v) ++ put_Z (nv_Index v) ++ put_bytes (pk_Data (nv_PublicKey v)) ++
  put_Z (nv_VotingPower v) ++ put_Z (nv_ProposerPriority v).

#[export] Instance toy_cramberry : Cramberry := {|
  marshal_BlockHeader := fun h => Ret (put_header h);
  marshal_Block := fun b => Ret (put_block b);
  marshal_Commit := fun c => Ret (put_commit c);
  marshal_Vote := fun v => Ret (put_vote v);
  marshal_Proposal := fun p => Ret (put_proposal p);
  marshal_ValidatorSetData := fun d =>
    Ret (put_list put_validator (vsd_Validators d) ++ put_Z (vsd_ProposerIndex d) ++
         put_Z (vsd_TotalPower d));
  marshal_DuplicateVoteEvidence := fun d => Ret (put_vote (dve_VoteA d) ++ put_vote (dve_VoteB d));
  marshal_ConsensusStateData := fun s =>
    Ret (put_Z (csd_Height s) ++ put_Z (csd_Round s) ++ put_Z (csd_Step s) ++
         put_Z (csd_LockedRound s) ++ put_option put_hash (csd_LockedBlockHash s) ++
         put_Z (csd_ValidRound s) ++ put_option put_hash (csd_ValidBlockHash s));
  unmarshal_Block := fun _ => Err (errorf "not used");
  unmarshal_Vote := fun _ => Err (errorf "not used");
  unmarshal_Proposal := fun _ => Err (errorf "not used") |}.

(** ** Example data *)

Definition hash_of (b : byte) : Hash := mkHash (replicate 32 b).
Definition hash_1 : Hash := hash_of Byte.x01.
Definition hash_2 : Hash := hash_of Byte.x02.
Definition chain_c : string := "c".

(** Signs a vote with a key: the toy public key is the private key. *)
Definition sign_vote (pk : PublicKey) (v : Vote) : Vote :=
  match VoteSignBytes chain_c (Some v) with
  | Ret m => mkVote (vt_Type v) (vt_Height v) (vt_Round v) (vt_BlockHash v) (vt_Timestamp v)
               (vt_Validator v) (vt_ValidatorIndex v) (mkSignature (toy_sign (pk_Data pk) m))
  | _ => v
  end.

Definition vote_of (v : NamedValidator) (typ height round : Z) (h : option Hash) : Vote :=
  sign_vote (nv_PublicKey v)
    (mkVote typ height round h 5 (nv_Name v) (nv_Index v) (mkSignature [])).

(** The validators of [set_ab] with their indices. *)
Definition at_0 : NamedValidator := stored 0 val_a.
Definition at_1 : NamedValidator := stored 1 val_b.

Lemma ValidatorSet_Hash_deterministic_witness :
  ValidatorSet_Hash set_ab = ValidatorSet_Hash shuffled_ab.
Proof.
  apply (ValidatorSet_Hash_deterministic set_ab shuffled_ab).
  - apply wf_core, set_ab_wf.
  - change (shape (vals_Validators shuffled_ab)) with (reverse (shape (vals_Validators set_ab))).
    by rewrite reverse_Permutation.
  - vm_compute. reflexivity.
  - reflexivity.
Defined.
