(* ===== verification/Auth.v ===== *)
(** * Authorizations (src/types/account.go)

    Weights of signatures and of delegated accounts, and the threshold of an authority. The
    accounts are looked up by a function of the caller. *)

From S2P Require Export Concrete.

(** ** Definitions *)

(** *** Wire records (src/types/generated/account.go, transaction.go) *)

Record KeyWeight := mkKeyWeight {
  kw_PublicKey : PublicKey;
  kw_Weight : Z }.

Record AccountWeight := mkAccountWeight {
  aw_Account : AccountName;
  aw_Weight : Z }.

Record Authority := mkAuthority {
  au_Threshold : Z;
  au_Keys : list KeyWeight;
  au_Accounts : list AccountWeight }.

(** The metadata is a map, which may be nil. *)
Record Account := mkAccount {
  ac_Name : AccountName;
  ac_Id : Z;
  ac_Authority : Authority;
  ac_CreatedAt : Z;
  ac_UpdatedAt : Z;
  ac_Metadata : option (gmap string bytes) }.

Record SignatureProof := mkSignatureProof {
  sp_PublicKey : PublicKey;
  sp_Signature : Signature }.

Inductive Authorization := mkAuthorization {
  az_Signatures : list SignatureProof;
  az_AccountAuthorizations : list AccountAuthorization }
with AccountAuthorization := mkAccountAuthorization {
  aa_Account : AccountName;
  aa_Authorization : Authorization }.

(** *** Operations *)

Definition types_ErrInsufficientWeight : error := sentinel "types.ErrInsufficientWeight".
Definition types_ErrCycleDetected : error := sentinel "types.ErrCycleDetected".
Definition types_ErrAccountNotFound : error := sentinel "types.ErrAccountNotFound".

Definition MaxAuthWeight : Z := 2 ^ 31 - 1.

(** The sum, in unsigned 32-bit arithmetic. *)
Definition safeAddWeight (total add : Z) : Z :=
  if add >? u32 (MaxAuthWeight - total) then MaxAuthWeight else u32 (total + add).

Section Auth.
Context `{Crypto}.

(** The search for the key of a signature: the first key with the same bytes, if the signature is
    valid under it. *)
Definition signed_key (signBytes : bytes) (keys : list KeyWeight) (sig : SignatureProof) : option KeyWeight :=
  match List.find (fun kw => bool_decide (pk_Data (sp_PublicKey sig) = pk_Data (kw_PublicKey kw))) keys with
  | Some kw => if VerifySignature (kw_PublicKey kw) signBytes (sp_Signature sig) then Some kw else None
  | None => None
  end.

(** The loop over the signatures. *)
Fixpoint direct_weight (signBytes : bytes) (keys : list KeyWeight) (sigs : list SignatureProof) (seenKeys : gset string)
    (totalWeight : Z) : Z :=
  match sigs with
  | [] => totalWeight
  | sig :: sigs =>
      let keyID := string_of_bytes (pk_Data (sp_PublicKey sig)) in
      if bool_decide (keyID ∈ seenKeys) then direct_weight signBytes keys sigs seenKeys totalWeight else
      match signed_key signBytes keys sig with
      | Some kw => direct_weight signBytes keys sigs ({[keyID]} ∪ seenKeys) (safeAddWeight totalWeight (kw_Weight kw))
      | None => direct_weight signBytes keys sigs seenKeys totalWeight
      end
  end.

(** [getAccount] returns an account, maybe nil, or an error. *)
Variable getAccount : AccountName -> res (option Account).

Section Delegation.
(** The recursive call, on the authorization of the account, with its authority. *)
Variable verify : Authority -> res Z.

(** The loop over [authority.Accounts] for one delegated authorization. *)
Fixpoint delegated_weight (account : AccountName) (accounts : list AccountWeight) (totalWeight : Z) : res Z :=
  match accounts with
  | [] => Ret totalWeight
  | aw :: accounts =>
      if! negb (AccountNameEqual (aw_Account aw) account) return delegated_weight account accounts totalWeight in
      match getAccount (aw_Account aw) with
      | Err _ => delegated_weight account accounts totalWeight
      | Panic m => Panic m
      | Ret None => Panic "invalid memory address or nil pointer dereference"
      | Ret (Some acc) =>
          match verify (ac_Authority acc) with
          | Err _ => delegated_weight account accounts totalWeight
          | Panic m => Panic m
          | Ret weight =>
              Ret (if weight >=? au_Threshold (ac_Authority acc) then safeAddWeight totalWeight (aw_Weight aw) else totalWeight)
          end
      end
  end.
End Delegation.

(** [VerifyAuthorization] of an authorization and an authority that are not nil. *)
Fixpoint verify_authorization (signBytes : bytes) (auth : Authorization) (authority : Authority) (visited : gset string) {struct auth}
    : res Z :=
  let fix delegations (l : list AccountAuthorization) (totalWeight : Z) {struct l} : res Z :=
    match l with
    | [] => Ret totalWeight
    | mkAccountAuthorization account authorization :: l =>
        let accName := AccountNameString account in
        if bool_decide (accName ∈ visited) then delegations l totalWeight else
        let! totalWeight :=
          delegated_weight (fun a => verify_authorization signBytes authorization a ({[accName]} ∪ visited))
            account (au_Accounts authority) totalWeight in
        delegations l totalWeight
    end in
  match auth with
  | mkAuthorization sigs accs => delegations accs (direct_weight signBytes (au_Keys authority) sigs ∅ 0)
  end.

Definition VerifyAuthorization (auth : option Authorization) (authority : option Authority) (signBytes : bytes)
    (visited : gset string) : res Z :=
  match auth, authority with
  | Some auth, Some authority => verify_authorization signBytes auth authority visited
  | _, _ => Err types_ErrInsufficientWeight
  end.

(** A nil authority is dereferenced only after the call has failed. *)
Definition IsAuthoritySatisfied (auth : option Authorization) (authority : option Authority) (signBytes : bytes) : res bool :=
  let! weight := VerifyAuthorization auth authority signBytes ∅ in
  match authority with
  | None => Panic "invalid memory address or nil pointer dereference"
  | Some authority => Ret (weight >=? au_Threshold authority)
  end.
End Auth.

(** ** Lemmas *)

(** The weights of an authority are unsigned 32-bit integers. *)
Definition weights_ok (authority : Authority) : Prop :=
  Forall (fun kw => 0 <= kw_Weight kw < 2 ^ 32) (au_Keys authority) /\
  Forall (fun aw => 0 <= aw_Weight aw < 2 ^ 32) (au_Accounts authority).

Lemma safeAddWeight_min total add :
  0 <= total <= MaxAuthWeight -> 0 <= add < 2 ^ 32 -> safeAddWeight total add = Z.min MaxAuthWeight (total + add).
Proof.
  unfold safeAddWeight, MaxAuthWeight, u32. intros Ht Ha. rewrite Z.gtb_ltb, (Z.mod_small (_ - _)) by lia.
  destruct (Z.ltb_spec (2 ^ 31 - 1 - total) add); [lia|]. rewrite Z.mod_small by lia. lia.
Qed.

Section Weights.
Context `{Crypto}.
Implicit Types (keys : list KeyWeight) (sigs : list SignatureProof).

Lemma signed_key_Some signBytes keys sig kw :
  signed_key signBytes keys sig = Some kw ->
  kw ∈ keys /\ pk_Data (kw_PublicKey kw) = pk_Data (sp_PublicKey sig) /\
  VerifySignature (kw_PublicKey kw) signBytes (sp_Signature sig) = true.
Proof.
  unfold signed_key. destruct (List.find _ keys) as [kw'|] eqn:E; [|done]. case_match; [|done]. intros [= ->].
  apply List.find_some in E as [Hin He]. apply bool_decide_eq_true in He. by rewrite list_elem_of_In.
Qed.

(** The key is one of a signature that is valid. *)
Definition signs (signBytes : bytes) (kw : KeyWeight) (sig : SignatureProof) : bool :=
  bool_decide (pk_Data (sp_PublicKey sig) = pk_Data (kw_PublicKey kw)) && VerifySignature (kw_PublicKey kw) signBytes (sp_Signature sig).

(** The weight of the keys that have signed, each counted once. *)
Definition signed_weight (signBytes : bytes) (sigs : list SignatureProof) (keys : list KeyWeight) : Z :=
  sumZ (fun kw => if existsb (signs signBytes kw) sigs then kw_Weight kw else 0) keys.

Definition distinct_keys (keys : list KeyWeight) : Prop := NoDup ((fun kw => pk_Data (kw_PublicKey kw)) <$> keys).

Lemma signed_key_distinct signBytes keys sig kw :
  distinct_keys keys -> kw ∈ keys -> signs signBytes kw sig = true -> signed_key signBytes keys sig = Some kw.
Proof.
  intros Hn Hin [Hp Hv]%andb_prop. apply bool_decide_eq_true in Hp. unfold signed_key.
  induction keys as [|k keys IH]; [by apply not_elem_of_nil in Hin|]. apply NoDup_cons in Hn as [Hk Hn]. cbn.
  case_bool_decide as Hd.
  - assert (kw = k) as ->; [|by rewrite Hv]. apply elem_of_cons in Hin as [->|Hin]; [done|]. destruct Hk.
    apply list_elem_of_fmap. exists kw. split; [congruence|done].
  - apply elem_of_cons in Hin as [->|Hin]; [congruence|]. by apply IH.
Qed.

(** Counting one key among distinct ones. *)
Lemma sumZ_one keys kw :
  distinct_keys keys -> kw ∈ keys ->
  sumZ (fun k => if bool_decide (pk_Data (kw_PublicKey k) = pk_Data (kw_PublicKey kw)) then kw_Weight k else 0) keys = kw_Weight kw.
Proof.
  induction keys as [|k keys IH]; intros Hn Hin; [by apply not_elem_of_nil in Hin|]. apply NoDup_cons in Hn as [Hk Hn]. cbn.
  case_bool_decide as Hd.
  - assert (kw = k) as ->.
    { apply elem_of_cons in Hin as [->|Hin]; [done|]. destruct Hk. apply list_elem_of_fmap. exists kw. split; [congruence|done]. }
    enough (sumZ (fun k0 => if bool_decide (pk_Data (kw_PublicKey k0) = pk_Data (kw_PublicKey k)) then kw_Weight k0 else 0) keys = 0) by lia.
    rewrite (sumZ_ext _ (fun _ => 0)); [by rewrite sumZ_const|]. intros x Hx. rewrite bool_decide_eq_false_2; [done|].
    intros E. destruct Hk. apply list_elem_of_fmap. by exists x.
  - apply elem_of_cons in Hin as [->|Hin]; [congruence|]. rewrite IH by done. lia.
Qed.

Definition key_id (kw : KeyWeight) : string := string_of_bytes (pk_Data (kw_PublicKey kw)).

(** The weight that the loop has still to add. *)
Definition unseen_weight (signBytes : bytes) (sigs : list SignatureProof) (seen : gset string) (keys : list KeyWeight) : Z :=
  sumZ (fun kw => if negb (bool_decide (key_id kw ∈ seen)) && existsb (signs signBytes kw) sigs then kw_Weight kw else 0) keys.

Lemma unseen_weight_nonneg signBytes sigs seen keys :
  Forall (fun kw => 0 <= kw_Weight kw < 2 ^ 32) keys -> 0 <= unseen_weight signBytes sigs seen keys.
Proof.
  intros Hw. apply sumZ_nonneg. intros kw Hin. pose proof (proj1 (Forall_forall _ _) Hw kw Hin). cbv beta in *. case_match; lia.
Qed.

Lemma direct_weight_spec signBytes keys sigs seen total :
  distinct_keys keys -> Forall (fun kw => 0 <= kw_Weight kw < 2 ^ 32) keys -> 0 <= total <= MaxAuthWeight ->
  direct_weight signBytes keys sigs seen total = Z.min MaxAuthWeight (total + unseen_weight signBytes sigs seen keys).
Proof.
  intros Hn Hw. revert seen total. induction sigs as [|sig sigs IH]; intros seen total Ht; cbn [direct_weight].
  { unfold unseen_weight. rewrite (sumZ_ext _ (fun _ => 0)); [rewrite sumZ_const; lia|].
    intros kw _. cbn. by rewrite andb_false_r. }
  cbv zeta. case_bool_decide as Hs.
  { rewrite IH by done. do 2 f_equal. apply sumZ_ext. intros kw _. cbn [existsb].
    destruct (signs signBytes kw sig) eqn:E; [|done]. apply andb_prop in E as [E _]. apply bool_decide_eq_true in E.
    rewrite bool_decide_eq_true_2; [done|]. unfold key_id. by rewrite <- E. }
  destruct (signed_key signBytes keys sig) as [kw|] eqn:E.
  - apply signed_key_Some in E as (Hin & Hpk & Hv). pose proof (proj1 (Forall_forall _ _) Hw kw Hin) as Hkw. cbv beta in Hkw.
    rewrite safeAddWeight_min by done. rewrite IH by (unfold MaxAuthWeight in *; lia).
    assert (Hsum : unseen_weight signBytes (sig :: sigs) seen keys =
      kw_Weight kw + unseen_weight signBytes sigs ({[string_of_bytes (pk_Data (sp_PublicKey sig))]} ∪ seen) keys).
    { rewrite <- (sumZ_one keys kw Hn Hin). unfold unseen_weight. rewrite <- sumZ_add. apply sumZ_ext. intros k Hk. cbn [existsb].
      destruct (decide (pk_Data (kw_PublicKey k) = pk_Data (kw_PublicKey kw))) as [Hd|Hd];
        [rewrite (bool_decide_eq_true_2 _ Hd)|rewrite (bool_decide_eq_false_2 _ Hd)].
      - assert (Hkid : key_id k = string_of_bytes (pk_Data (sp_PublicKey sig))) by (unfold key_id; by rewrite Hd, Hpk).
        rewrite Hkid. rewrite bool_decide_eq_false_2 by done. rewrite bool_decide_eq_true_2 by set_solver.
        assert (Hs' : signs signBytes k sig = true).
        { unfold signs. rewrite bool_decide_eq_true_2 by (by rewrite Hd, Hpk). cbn. destruct k as [[pk] ?], kw as [[pk'] ?]. cbn in *. by subst. }
        rewrite Hs'. cbn. lia.
      - assert (Hs' : signs signBytes k sig = false) by (unfold signs; rewrite bool_decide_eq_false_2; [done|by rewrite <- Hpk]).
        rewrite Hs'. cbn [orb]. rewrite Z.add_0_l.
        rewrite (bool_decide_ext (key_id k ∈ seen) (key_id k ∈ {[string_of_bytes (pk_Data (sp_PublicKey sig))]} ∪ seen)); [done|].
        rewrite elem_of_union, elem_of_singleton. unfold key_id. split; [by right|]. intros [Hk'|]; [|done].
        apply string_of_bytes_inj in Hk'. congruence. }
    rewrite Hsum.
    pose proof (unseen_weight_nonneg signBytes sigs ({[string_of_bytes (pk_Data (sp_PublicKey sig))]} ∪ seen) keys Hw). lia.
  - rewrite IH by done. do 2 f_equal. apply sumZ_ext. intros kw Hin. cbn [existsb].
    destruct (signs signBytes kw sig) eqn:Es; [|done]. by rewrite (signed_key_distinct _ _ _ _ Hn Hin Es) in E.
Qed.
End Weights.

Lemma direct_weight_bounds `{Crypto} signBytes keys sigs seen total :
  Forall (fun kw => 0 <= kw_Weight kw < 2 ^ 32) keys -> 0 <= total <= MaxAuthWeight ->
  0 <= direct_weight signBytes keys sigs seen total <= MaxAuthWeight.
Proof.
  intros Hw. revert seen total. induction sigs as [|sig sigs IH]; intros seen total Ht; cbn; [done|]. case_bool_decide; [by apply IH|].
  destruct (signed_key _ _ _) as [kw|] eqn:E; [|by apply IH]. apply IH. apply signed_key_Some in E as (Hin & _).
  pose proof (proj1 (Forall_forall _ _) Hw kw Hin) as Hkw. cbv beta in Hkw. rewrite safeAddWeight_min by done. unfold MaxAuthWeight in *. lia.
Qed.

Lemma delegated_weight_bounds getAccount verify account accounts total w :
  Forall (fun aw => 0 <= aw_Weight aw < 2 ^ 32) accounts -> 0 <= total <= MaxAuthWeight ->
  delegated_weight getAccount verify account accounts total = Ret w -> 0 <= w <= MaxAuthWeight.
Proof.
  intros Hw. revert total. induction Hw as [|aw accounts Haw Hw IH]; intros total Ht; cbn; [by intros [= <-]|].
  case_match; [by apply IH|]. case_match; [|by apply IH|done]. case_match; [|done]. case_match; [|by apply IH|done].
  intros [= <-]. case_match; [|done]. rewrite safeAddWeight_min by done. unfold MaxAuthWeight in *. lia.
Qed.

(** ** Properties *)

(** C33: the weight an authorization reaches is never above [MaxAuthWeight]: the sums do not wrap
    around. *)
Theorem VerifyAuthorization_bounded `{Crypto} (getAccount : AccountName -> res (option Account)) (auth : option Authorization)
    (authority : Authority) (signBytes : bytes) (visited : gset string) (w : Z)
    (Hw : weights_ok authority) (E : VerifyAuthorization getAccount auth (Some authority) signBytes visited = Ret w) :
  0 <= w <= MaxAuthWeight.
Proof.
  destruct auth as [[sigs accs]|]; [|done]. destruct Hw as [Hk Ha]. cbn in E.
  pose proof (direct_weight_bounds signBytes _ sigs ∅ 0 Hk ltac:(done)) as Ht.
  revert Ht E. generalize (direct_weight signBytes (au_Keys authority) sigs ∅ 0).
  induction accs as [|[account az] accs IH]; intros total Ht E; [by injection E as <-|]. case_bool_decide; [by eapply IH|].
  apply rbind_Ret in E as (total' & E1 & E2). eapply IH; [|exact E2]. by eapply delegated_weight_bounds.
Qed.

(** C28: without delegations, an authorization reaches the sum of the weights of the keys that have a
    valid signature, up to [MaxAuthWeight]: the order of the signatures does not matter, and a
    key that signs several times counts once. *)
Theorem VerifyAuthorization_counts_keys_once `{Crypto} (getAccount : AccountName -> res (option Account))
    (sigs : list SignatureProof) (authority : Authority) (signBytes : bytes) (visited : gset string)
    (Hw : weights_ok authority) (Hn : distinct_keys (au_Keys authority)) :
  VerifyAuthorization getAccount (Some (mkAuthorization sigs [])) (Some authority) signBytes visited =
  Ret (Z.min MaxAuthWeight (signed_weight signBytes sigs (au_Keys authority))).
Proof.
  destruct Hw as [Hk _]. cbn. rewrite (direct_weight_spec signBytes _ sigs ∅ 0 Hn Hk) by done. done.
Qed.

(** *** Witnesses *)

Definition toy_key (b : byte) : PublicKey := mkPublicKey (replicate 32 b).
Definition proof_of (b : byte) (m : bytes) : SignatureProof :=
  mkSignatureProof (toy_key b) (mkSignature (toy_sign (replicate 32 b) m)).

(** Two keys of weight 1 and 2. *)
Definition two_keys : Authority := mkAuthority 3 [mkKeyWeight (toy_key Byte.x01) 1; mkKeyWeight (toy_key Byte.x02) 2] [].

Lemma VerifyAuthorization_bounded_witness :
  0 <= 1 <= MaxAuthWeight.
Proof.
  apply (VerifyAuthorization_bounded (fun _ => Err types_ErrAccountNotFound)
    (Some (mkAuthorization [proof_of Byte.x01 [Byte.x09]; proof_of Byte.x01 [Byte.x09]] [])) two_keys [Byte.x09] ∅).
  - split; repeat constructor; cbn; lia.
  - vm_compute. reflexivity.
Defined.

Lemma VerifyAuthorization_counts_keys_once_witness :
  VerifyAuthorization (fun _ => Err types_ErrAccountNotFound)
    (Some (mkAuthorization [proof_of Byte.x01 [Byte.x09]; proof_of Byte.x01 [Byte.x09]] [])) (Some two_keys) [Byte.x09] ∅ =
  Ret (Z.min MaxAuthWeight (signed_weight [Byte.x09] [proof_of Byte.x01 [Byte.x09]; proof_of Byte.x01 [Byte.x09]] (au_Keys two_keys))).
Proof.
  apply VerifyAuthorization_counts_keys_once.
  - split; repeat constructor; cbn; lia.
  - repeat constructor; vm_compute; set_solver.
Defined.

(** *** Delegations count as often as they are given *)

(** Account "a" needs two of "b" and "c", each of weight 1; both have a key. *)
Definition account_a : Authority :=
  mkAuthority 2 [] [mkAccountWeight (NewAccountName "b") 1; mkAccountWeight (NewAccountName "c") 1].
Definition account_b : Account :=
  mkAccount (NewAccountName "b") 2 (mkAuthority 1 [mkKeyWeight (toy_key Byte.x01) 1] []) 0 0 None.
Definition only_b (a : AccountName) : res (option Account) :=
  if AccountNameEqual a (NewAccountName "b") then Ret (Some account_b) else Err types_ErrAccountNotFound.

(** An account that authorizes twice counts twice: the authority of an account that needs two
    others is satisfied by one of them. *)
Theorem duplicate_delegation_counts_twice :
  let by_b := mkAccountAuthorization (NewAccountName "b") (mkAuthorization [proof_of Byte.x01 [Byte.x09]] []) in
  IsAuthoritySatisfied only_b (Some (mkAuthorization [] [by_b])) (Some account_a) [Byte.x09] = Ret false /\
  IsAuthoritySatisfied only_b (Some (mkAuthorization [] [by_b; by_b])) (Some account_a) [Byte.x09] = Ret true.
Proof. vm_compute. done. Qed.
