(* ===== verification/Commits.v ===== *)
(** * Commit certificates (src/types/vote.go)

    [VerifyCommit] and [VerifyCommitLight], the certificate checks of light clients, block
    sync and evidence, with the quorum argument: two certificates for different blocks of
    one height share validators of more than a third of the voting power. *)

From S2P Require Export Concrete.

Definition ErrInvalidCommit : error := sentinel "types.ErrInvalidCommit".
Definition ErrCommitHeightMismatch : error := sentinel "types.ErrCommitHeightMismatch".
Definition ErrCommitBlockHashMismatch : error := sentinel "types.ErrCommitBlockHashMismatch".
Definition ErrInsufficientVotePower : error := sentinel "types.ErrInsufficientVotePower".
Definition ErrInvalidCommitSignature : error := sentinel "types.ErrInvalidCommitSignature".
Definition ErrDuplicateCommitSig : error := sentinel "types.ErrDuplicateCommitSig".
Definition ErrUnknownCommitValidator : error := sentinel "types.ErrUnknownCommitValidator".

Section Commits.
Context `{Crypto} `{Cramberry}.

(** The vote rebuilt from a signature of the commit. *)
Definition commit_vote (commit : Commit) (sig : CommitSig) (val : NamedValidator) : Vote :=
  {| vt_Type := VoteTypePrecommit;
     vt_Height := cm_Height commit;
     vt_Round := cm_Round commit;
     vt_BlockHash := cs_BlockHash sig;
     vt_Timestamp := cs_Timestamp sig;
     vt_Validator := nv_Name val;
     vt_ValidatorIndex := cs_ValidatorIndex sig;
     vt_Signature := cs_Signature sig |}.

(** A signature entry that is neither nil nor for another block. *)
Definition for_block (blockHash : Hash) (sig : CommitSig) : bool :=
  match cs_BlockHash sig with
  | None => false
  | Some h => negb (IsHashEmpty (Some h)) && HashEqual h blockHash
  end.

(** The loop over the signatures: [seen] is the map of indices, [power] the sum so far. *)
Fixpoint VerifyCommit_loop (chainID : string) (valSet : ValidatorSet) (blockHash : Hash)
    (commit : Commit) (sigs : list CommitSig) (seen : gset Z) (power : Z) : res Z :=
  match sigs with
  | [] => Ret power
  | sig :: sigs =>
      let continue := VerifyCommit_loop chainID valSet blockHash commit sigs
                        ({[cs_ValidatorIndex sig]} ∪ seen) in
      if! bool_decide (cs_ValidatorIndex sig ∈ seen)
        return Err (wrapf ErrDuplicateCommitSig "validator %d appears twice") in
      if! len (sig_Data (cs_Signature sig)) =? 0 return continue power in
      if! negb (for_block blockHash sig) return continue power in
      match GetByIndex valSet (cs_ValidatorIndex sig) with
      | None => Err (wrapf ErrUnknownCommitValidator "index %d")
      | Some val =>
          let! _ := rwrap (VerifyVoteSignature chainID (Some (commit_vote commit sig val))
                             (nv_PublicKey val))
                          (fun e => wrapf ErrInvalidCommitSignature "validator %d: %v") in
          continue (wrap64 (power + nv_VotingPower val))
      end
  end.

Definition VerifyCommit (chainID : string) (valSet : option ValidatorSet) (blockHash : Hash)
    (height : Z) (commit : option Commit) : res unit :=
  match valSet, commit with
  | None, _ => Err (errorf "nil validator set")
  | Some _, None => Err ErrInvalidCommit
  | Some valSet, Some commit =>
      if! negb (cm_Height commit =? height)
        return Err (wrapf ErrCommitHeightMismatch "expected %d, got %d") in
      if! negb (HashEqual (cm_BlockHash commit) blockHash)
        return Err ErrCommitBlockHashMismatch in
      if! len (cm_Signatures commit) =? 0 return Err (wrapf ErrInvalidCommit "no signatures") in
      let! votingPower :=
        VerifyCommit_loop chainID valSet blockHash commit (cm_Signatures commit) ∅ 0 in
      if! votingPower <? TwoThirdsMajority valSet
        return Err (wrapf ErrInsufficientVotePower "got %d, need %d") in
      Ret tt
  end.

Fixpoint VerifyCommitLight_loop (valSet : ValidatorSet) (blockHash : Hash)
    (sigs : list CommitSig) (seen : gset Z) (power : Z) : res Z :=
  match sigs with
  | [] => Ret power
  | sig :: sigs =>
      let continue := VerifyCommitLight_loop valSet blockHash sigs
                        ({[cs_ValidatorIndex sig]} ∪ seen) in
      if! bool_decide (cs_ValidatorIndex sig ∈ seen)
        return Err (wrapf ErrDuplicateCommitSig "validator %d") in
      if! negb (for_block blockHash sig) return continue power in
      match GetByIndex valSet (cs_ValidatorIndex sig) with
      | None => Err (wrapf ErrUnknownCommitValidator "index %d")
      | Some val => continue (wrap64 (power + nv_VotingPower val))
      end
  end.

Definition VerifyCommitLight (valSet : option ValidatorSet) (blockHash : Hash) (height : Z)
    (commit : option Commit) : res unit :=
  match valSet, commit with
  | None, _ => Err (errorf "nil validator set")
  | Some _, None => Err ErrInvalidCommit
  | Some valSet, Some commit =>
      if! negb (cm_Height commit =? height)
        return Err (wrapf ErrCommitHeightMismatch "expected %d, got %d") in
      if! negb (HashEqual (cm_BlockHash commit) blockHash)
        return Err ErrCommitBlockHashMismatch in
      let! votingPower := VerifyCommitLight_loop valSet blockHash (cm_Signatures commit) ∅ 0 in
      if! votingPower <? TwoThirdsMajority valSet
        return Err (wrapf ErrInsufficientVotePower "got %d, need %d") in
      Ret tt
  end.

(** ** Specification *)

(** The entries whose power counts. *)
Definition counted (blockHash : Hash) (sigs : list CommitSig) : list CommitSig :=
  filter (fun sig => for_block blockHash sig = true /\ sig_Data (cs_Signature sig) <> []) sigs.

Definition counted_light (blockHash : Hash) (sigs : list CommitSig) : list CommitSig :=
  filter (fun sig => for_block blockHash sig = true) sigs.

(** The validators behind a list of entries. *)
Definition signers (valSet : ValidatorSet) (sigs : list CommitSig) : list NamedValidator :=
  omap (fun sig => GetByIndex valSet (cs_ValidatorIndex sig)) sigs.

Definition signature_valid (chainID : string) (valSet : ValidatorSet) (commit : Commit)
    (sig : CommitSig) : Prop :=
  exists val, GetByIndex valSet (cs_ValidatorIndex sig) = Some val /\
    VerifyVoteSignature chainID (Some (commit_vote commit sig val)) (nv_PublicKey val) = Ret tt.

(** A precommit of [val] for [h] in the commit's round, with a valid signature. *)
Definition precommitted (chainID : string) (commit : Commit) (h : Hash) (val : NamedValidator)
    : Prop :=
  exists sig, sig ∈ cm_Signatures commit /\ cs_ValidatorIndex sig = nv_Index val /\
    cs_BlockHash sig = Some h /\
    VerifyVoteSignature chainID (Some (commit_vote commit sig val)) (nv_PublicKey val) = Ret tt.

Lemma signers_elem vs sigs v :
  v ∈ signers vs sigs <-> exists s, s ∈ sigs /\ GetByIndex vs (cs_ValidatorIndex s) = Some v.
Proof. unfold signers. rewrite list_elem_of_omap. naive_solver. Qed.

Lemma signers_subset vs sigs :
  ValidatorSet_core vs -> signers vs sigs ⊆ vals_Validators vs.
Proof. intros Hc v (s & _ & Hs)%signers_elem. by eapply GetByIndex_Some. Qed.

Lemma signers_NoDup vs sigs :
  ValidatorSet_core vs -> NoDup (cs_ValidatorIndex <$> sigs) -> NoDup (signers vs sigs).
Proof.
  intros Hc. unfold signers. induction sigs as [|s sigs IH]; csimpl; [constructor|].
  intros [Hn Hd]%NoDup_cons. destruct (GetByIndex vs (cs_ValidatorIndex s)) as [v|] eqn:E; [|auto].
  apply NoDup_cons. split; [|auto]. intros (s' & Hs' & E')%signers_elem. apply Hn.
  apply (GetByIndex_Some _ _ _ Hc) in E as (_ & <- & _), E' as (_ & -> & _).
  by apply list_elem_of_fmap_2.
Qed.

Lemma counted_NoDup h sigs :
  NoDup (cs_ValidatorIndex <$> sigs) -> NoDup (cs_ValidatorIndex <$> counted h sigs).
Proof. intros Hn. eapply sublist_NoDup; [exact Hn|]. apply fmap_sublist, sublist_filter. Qed.

Lemma counted_light_NoDup h sigs :
  NoDup (cs_ValidatorIndex <$> sigs) -> NoDup (cs_ValidatorIndex <$> counted_light h sigs).
Proof. intros Hn. eapply sublist_NoDup; [exact Hn|]. apply fmap_sublist, sublist_filter. Qed.

(** The power of distinct signers fits an [int64]: the sum in the loops does not wrap. *)
Lemma signers_power_bound vs sigs :
  ValidatorSet_core vs -> NoDup (cs_ValidatorIndex <$> sigs) ->
  in_i64 (sumZ nv_VotingPower (signers vs sigs)).
Proof.
  intros Hc Hn.
  assert (Hpos : forall v, v ∈ vals_Validators vs -> 0 <= nv_VotingPower v)
    by (intros v Hv; pose proof (core_positive _ _ Hc Hv); lia).
  pose proof (sumZ_subset nv_VotingPower (signers vs sigs) (vals_Validators vs) Hpos
    (signers_NoDup _ _ Hc Hn) (signers_subset _ _ Hc)) as Hle.
  pose proof (sumZ_nonneg nv_VotingPower (signers vs sigs)) as Hge.
  rewrite <- (core_total _ Hc) in Hle. pose proof (core_bound _ Hc).
  specialize (Hge (fun v Hv => Hpos v (signers_subset _ _ Hc v Hv))).
  unfold in_i64, MinInt64, MaxInt64, MaxTotalVotingPower in *. lia.
Qed.

(** The condition under which both loops reject a repeated index. *)
Lemma seen_cons (i : Z) (l : list Z) (seen : gset Z) :
  NoDup (i :: l) /\ (forall j, j ∈ i :: l -> (j ∉ seen)) <->
  (i ∉ seen) /\ NoDup l /\ (forall j, j ∈ l -> j ∉ ({[i]} ∪ seen : gset Z)).
Proof. rewrite NoDup_cons. set_solver. Qed.

Lemma VerifyCommit_loop_spec chainID vs h c sigs seen p p' :
  in_i64 p ->
  VerifyCommit_loop chainID vs h c sigs seen p = Ret p' <->
  (NoDup (cs_ValidatorIndex <$> sigs) /\ (forall i, i ∈ (cs_ValidatorIndex <$> sigs) -> (i ∉ seen))) /\
  (forall s, s ∈ counted h sigs -> signature_valid chainID vs c s) /\
  p' = wrap64 (p + sumZ nv_VotingPower (signers vs (counted h sigs))).
Proof.
  revert seen p. induction sigs as [|s sigs IH]; intros seen p Hp;
    rewrite ?fmap_cons; cbn [VerifyCommit_loop].
  { cbn. rewrite Z.add_0_r, (wrap64_small _ Hp). set_unfold. naive_solver (constructor). }
  rewrite seen_cons. case_bool_decide as Hs; [naive_solver|].
  unfold counted in *. rewrite filter_cons.
  destruct (sig_Data (cs_Signature s)) as [|b d] eqn:Ed; rewrite ?len_nil_0, ?len_cons_0.
  { rewrite decide_False by tauto. rewrite IH by done. naive_solver. }
  destruct (for_block h s) eqn:Ef; cbn [negb].
  2: { rewrite decide_False by naive_solver. rewrite IH by done. naive_solver. }
  rewrite decide_True by done. unfold signers in *. csimpl.
  setoid_rewrite elem_of_cons. unfold signature_valid at 1.
  destruct (GetByIndex vs (cs_ValidatorIndex s)) as [v|] eqn:Ev.
  2: { split; [done|]. intros (_ & Hv & _). destruct (Hv s ltac:(by left)) as (? & ? & _). congruence. }
  destruct (VerifyVoteSignature _ _ _) as [[]|e|m] eqn:Es; cbn [rwrap rbind].
  2,3: split; [done|]; intros (_ & Hv & _); destruct (Hv s ltac:(by left)) as (? & ? & ?); congruence.
  rewrite IH by apply wrap64_range. rewrite wrap64_add_l. cbn [sumZ]. rewrite Z.add_assoc.
  split.
  - intros ([? ?] & Hv & ->). split_and!; [done..| |done]. intros s' [->|?]; [by eauto|by apply Hv].
  - intros ((? & ? & ?) & Hv & ->). split_and!; try done; intros; apply Hv; by right.
Qed.


Lemma VerifyCommitLight_loop_spec vs h sigs seen p p' :
  in_i64 p ->
  VerifyCommitLight_loop vs h sigs seen p = Ret p' <->
  (NoDup (cs_ValidatorIndex <$> sigs) /\ (forall i, i ∈ (cs_ValidatorIndex <$> sigs) -> (i ∉ seen))) /\
  (forall s, s ∈ counted_light h sigs -> is_Some (GetByIndex vs (cs_ValidatorIndex s))) /\
  p' = wrap64 (p + sumZ nv_VotingPower (signers vs (counted_light h sigs))).
Proof.
  revert seen p. induction sigs as [|s sigs IH]; intros seen p Hp;
    rewrite ?fmap_cons; cbn [VerifyCommitLight_loop].
  { cbn. rewrite Z.add_0_r, (wrap64_small _ Hp). set_unfold. naive_solver (constructor). }
  rewrite seen_cons. case_bool_decide as Hs; [naive_solver|].
  unfold counted_light in *. rewrite filter_cons.
  destruct (for_block h s) eqn:Ef; cbn [negb].
  2: { rewrite decide_False by naive_solver. rewrite IH by done. naive_solver. }
  rewrite decide_True by done. unfold signers in *. csimpl.
  setoid_rewrite elem_of_cons.
  destruct (GetByIndex vs (cs_ValidatorIndex s)) as [v|] eqn:Ev.
  2: { split; [done|]. intros (_ & Hv & _). destruct (Hv s ltac:(by left)). congruence. }
  rewrite IH by apply wrap64_range. rewrite wrap64_add_l. cbn [sumZ]. rewrite Z.add_assoc.
  split.
  - intros ([? ?] & Hv & ->). split_and!; [done..| |done]. intros s' [->|?]; [by eauto|by apply Hv].
  - intros ((? & ? & ?) & Hv & ->). split_and!; try done; intros; apply Hv; by right.
Qed.

(** What [VerifyCommit] accepts. *)
Record commit_ok (chainID : string) (vs : ValidatorSet) (h : Hash) (height : Z) (c : Commit)
    : Prop := {
  ok_height : cm_Height c = height;
  ok_hash : cm_BlockHash c = h;
  ok_distinct : NoDup (cs_ValidatorIndex <$> cm_Signatures c);
  ok_valid : forall s, s ∈ counted h (cm_Signatures c) -> signature_valid chainID vs c s;
  ok_power : 2 * vals_TotalPower vs <
             3 * sumZ nv_VotingPower (signers vs (counted h (cm_Signatures c))) }.

Record commit_light_ok (vs : ValidatorSet) (h : Hash) (height : Z) (c : Commit) : Prop := {
  light_height : cm_Height c = height;
  light_hash : cm_BlockHash c = h;
  light_distinct : NoDup (cs_ValidatorIndex <$> cm_Signatures c);
  light_known : forall s, s ∈ counted_light h (cm_Signatures c) ->
    is_Some (GetByIndex vs (cs_ValidatorIndex s));
  light_power : 2 * vals_TotalPower vs <
    3 * sumZ nv_VotingPower (signers vs (counted_light h (cm_Signatures c))) }.

Lemma quorum_reached vs sigs :
  ValidatorSet_wf vs -> NoDup (cs_ValidatorIndex <$> sigs) ->
  (wrap64 (0 + sumZ nv_VotingPower (signers vs sigs)) <? TwoThirdsMajority vs) = false <->
  2 * vals_TotalPower vs < 3 * sumZ nv_VotingPower (signers vs sigs).
Proof.
  intros Hw Hn.
  rewrite Z.add_0_l, (wrap64_small _ (signers_power_bound _ _ (wf_core _ Hw) Hn)), Z.ltb_ge.
  by apply TwoThirds_quorum, wf_total_pos.
Qed.

Lemma zero_in_i64 : in_i64 0.
Proof. done. Qed.

Lemma VerifyCommit_ok chainID vs h height c :
  ValidatorSet_wf vs ->
  VerifyCommit chainID (Some vs) h height (Some c) = Ret tt <->
  commit_ok chainID vs h height c.
Proof.
  intros Hw. unfold VerifyCommit. destruct (Z.eqb_spec (cm_Height c) height) as [<-|]; cbn [negb].
  2: { split; [done|]. by intros []. }
  destruct (HashEqual _ _) eqn:E; cbn [negb].
  2: { split; [done|]. intros []. by rewrite ok_hash0, HashEqual_refl in E. }
  apply HashEqual_true in E as <-.
  destruct (cm_Signatures c) as [|s sigs] eqn:Es; rewrite ?len_nil_0, ?len_cons_0.
  { split; [done|]. intros [_ _ _ _ Hp]. rewrite Es in Hp. cbn in Hp.
    pose proof (wf_total_pos _ Hw). lia. }
  rewrite <- Es. rewrite rbind_Ret. split.
  - intros (p & Hl & Hq). apply VerifyCommit_loop_spec in Hl as ([Hn _] & Hv & ->); [|done].
    case_match eqn:Hlt; [done|]. apply quorum_reached in Hlt; [by split|done|by apply counted_NoDup].
  - intros [_ _ Hn Hv Hp].
    eexists. split; [apply VerifyCommit_loop_spec; [done|]; split_and!; [done|set_solver|done..]|].
    by rewrite (proj2 (quorum_reached _ _ Hw (counted_NoDup _ _ Hn))).
Qed.

Lemma VerifyCommitLight_ok vs h height c :
  ValidatorSet_wf vs ->
  VerifyCommitLight (Some vs) h height (Some c) = Ret tt <-> commit_light_ok vs h height c.
Proof.
  intros Hw. unfold VerifyCommitLight. destruct (Z.eqb_spec (cm_Height c) height) as [<-|]; cbn [negb].
  2: { split; [done|]. by intros []. }
  destruct (HashEqual _ _) eqn:E; cbn [negb].
  2: { split; [done|]. intros []. by rewrite light_hash0, HashEqual_refl in E. }
  apply HashEqual_true in E as <-. rewrite rbind_Ret. split.
  - intros (p & Hl & Hq). apply VerifyCommitLight_loop_spec in Hl as ([Hn _] & Hv & ->); [|done].
    case_match eqn:Hlt; [done|]. apply quorum_reached in Hlt; [by split|done|by apply counted_light_NoDup].
  - intros [_ _ Hn Hv Hp].
    eexists. split; [apply VerifyCommitLight_loop_spec; [done|]; split_and!; [done|set_solver|done..]|].
    by rewrite (proj2 (quorum_reached _ _ Hw (counted_light_NoDup _ _ Hn))).
Qed.

Lemma signers_precommitted chainID vs h c v :
  ValidatorSet_core vs ->
  (forall s, s ∈ counted h (cm_Signatures c) -> signature_valid chainID vs c s) ->
  v ∈ signers vs (counted h (cm_Signatures c)) -> precommitted chainID c h v.
Proof.
  intros Hc Hv (s & Hs & Hg)%signers_elem. destruct (Hv s Hs) as (w & Hw & Hsig).
  assert (w = v) as -> by congruence.
  apply list_elem_of_filter in Hs as [[Hf _] Hs]. exists s.
  apply (GetByIndex_Some _ _ _ Hc) in Hg as (_ & -> & _). split_and!; [done..| |done].
  unfold for_block in Hf. destruct (cs_BlockHash s) as [h'|]; [|done].
  apply andb_prop in Hf as [_ ->%HashEqual_true]. done.
Qed.

Lemma signers_overlap vs sigs1 sigs2 :
  ValidatorSet_core vs ->
  NoDup (cs_ValidatorIndex <$> sigs1) -> NoDup (cs_ValidatorIndex <$> sigs2) ->
  2 * vals_TotalPower vs < 3 * sumZ nv_VotingPower (signers vs sigs1) ->
  2 * vals_TotalPower vs < 3 * sumZ nv_VotingPower (signers vs sigs2) ->
  vals_TotalPower vs <
    3 * sumZ nv_VotingPower (filter (fun v => v ∈ signers vs sigs2) (signers vs sigs1)).
Proof.
  intros Hc N1 N2 P1 P2.
  pose proof (sumZ_overlap nv_VotingPower (signers vs sigs1) (signers vs sigs2)
    (vals_Validators vs)) as Ho. rewrite <- (core_total _ Hc) in Ho.
  specialize (Ho ltac:(intros v Hv; pose proof (core_positive _ _ Hc Hv); lia)
    (signers_NoDup _ _ Hc N1) (signers_NoDup _ _ Hc N2)
    (signers_subset _ _ Hc) (signers_subset _ _ Hc)). lia.
Qed.

Lemma counted_all_signed h sigs :
  (forall s, s ∈ sigs -> sig_Data (cs_Signature s) <> []) ->
  counted_light h sigs = counted h sigs.
Proof.
  unfold counted_light, counted. induction sigs as [|s sigs IH]; intros Hs; [done|].
  rewrite !filter_cons, IH by set_solver. pose proof (Hs s ltac:(set_solver)).
  repeat case_decide; tauto.
Qed.

(** C15: [VerifyCommit] accepts exactly the certificates with the expected height and
    hash, pairwise distinct validator indices, a valid precommit signature by the validator
    for each entry that counts, and signers of more than two thirds of the total voting
    power; the power sum does not overflow. *)
Theorem VerifyCommit_spec chainID vs h height c :
  ValidatorSet_wf vs ->
  VerifyCommit chainID (Some vs) h height (Some c) = Ret tt <->
  commit_ok chainID vs h height c.
Proof. apply VerifyCommit_ok. Qed.

(** C7: accountable safety: if certificates for two blocks of a height are both
    accepted, there is a set of distinct validators holding more than a third of the voting
    power, each of whose members signed a precommit in both. *)
Theorem VerifyCommit_accountable chainID vs h1 h2 height c1 c2 :
  ValidatorSet_wf vs ->
  VerifyCommit chainID (Some vs) h1 height (Some c1) = Ret tt ->
  VerifyCommit chainID (Some vs) h2 height (Some c2) = Ret tt ->
  exists culprits, NoDup culprits /\ culprits ⊆ vals_Validators vs /\
    (forall v, v ∈ culprits -> precommitted chainID c1 h1 v /\ precommitted chainID c2 h2 v) /\
    vals_TotalPower vs < 3 * sumZ nv_VotingPower culprits.
Proof.
  intros Hw O1%VerifyCommit_ok O2%VerifyCommit_ok; [|done..]. pose proof (wf_core _ Hw) as Hc.
  eexists. split_and!; [..|eapply (signers_overlap vs); [done|..|apply O1|apply O2]].
  - apply NoDup_filter, signers_NoDup; [done|]. apply counted_NoDup, O1.
  - intros v [_ Hv]%list_elem_of_filter. by eapply signers_subset.
  - intros v [Hv2 Hv1]%list_elem_of_filter.
    split; [eapply signers_precommitted|eapply signers_precommitted]; try done; apply O1 || apply O2.
  - apply counted_NoDup, O1.
  - apply counted_NoDup, O2.
Qed.

(** For certificates whose entries all carry a signature, the light check accepts
    whatever the full check accepts. *)
Theorem VerifyCommit_implies_Light chainID vs h height c :
  ValidatorSet_wf vs ->
  (forall s, s ∈ cm_Signatures c -> sig_Data (cs_Signature s) <> []) ->
  VerifyCommit chainID (Some vs) h height (Some c) = Ret tt ->
  VerifyCommitLight (Some vs) h height (Some c) = Ret tt.
Proof.
  intros Hw Hs. rewrite VerifyCommit_ok, VerifyCommitLight_ok by done. intros [? ? ? Hv Hp].
  pose proof (counted_all_signed h _ Hs) as E. split; rewrite ?E; try done. intros s (v & Hg & _)%Hv. by eexists.
Qed.

End Commits.

(** ** Examples *)

Definition sig_of (v : NamedValidator) (height round : Z) (h : Hash) : CommitSig :=
  let vote := vote_of v VoteTypePrecommit height round (Some h) in
  mkCommitSig (nv_Index v) (vt_Signature vote) (vt_Timestamp vote) (vt_BlockHash vote).

(** Certificates of the validator "b" for two blocks of height 1. *)
Definition commit_1 : Commit := mkCommit 1 0 hash_1 [sig_of at_0 1 0 hash_1; sig_of at_1 1 0 hash_1].
Definition commit_2 : Commit := mkCommit 1 1 hash_2 [sig_of at_1 1 1 hash_2].

Lemma VerifyCommit_spec_witness :
  VerifyCommit chain_c (Some set_ab) hash_1 1 (Some commit_1) = Ret tt <->
  commit_ok chain_c set_ab hash_1 1 commit_1.
Proof. apply VerifyCommit_spec. exact set_ab_wf. Defined.

Lemma VerifyCommit_accountable_witness :
  exists culprits, NoDup culprits /\ culprits ⊆ vals_Validators set_ab /\
    (forall v, v ∈ culprits ->
       precommitted chain_c commit_1 hash_1 v /\ precommitted chain_c commit_2 hash_2 v) /\
    vals_TotalPower set_ab < 3 * sumZ nv_VotingPower culprits.
Proof.
  apply (VerifyCommit_accountable chain_c set_ab hash_1 hash_2 1 commit_1 commit_2 set_ab_wf);
    vm_compute; reflexivity.
Defined.

Lemma VerifyCommit_implies_Light_witness :
  VerifyCommitLight (Some set_ab) hash_1 1 (Some commit_1) = Ret tt.
Proof.
  apply (VerifyCommit_implies_Light chain_c set_ab hash_1 1 commit_1 set_ab_wf);
    [|vm_compute; reflexivity].
  intros s Hs. cbn [cm_Signatures commit_1] in Hs.
  repeat (apply elem_of_cons in Hs as [->|Hs]; [vm_compute; discriminate|]).
  by apply not_elem_of_nil in Hs.
Defined.

(** An unsigned entry for the block, of an index no validator has. *)
Definition commit_unsigned : Commit :=
  mkCommit 1 0 hash_1 [mkCommitSig 9 (mkSignature []) 0 (Some hash_1); sig_of at_1 1 0 hash_1].

(** An unsigned entry with an unknown index is skipped by the full check and
    rejected by the light check: acceptance by [VerifyCommit] does not imply acceptance by
    [VerifyCommitLight]. And an unsigned entry of a known validator counts in the light check
    only. *)
Theorem VerifyCommitLight_differs :
  VerifyCommit chain_c (Some set_ab) hash_1 1 (Some commit_unsigned) = Ret tt /\
  VerifyCommitLight (Some set_ab) hash_1 1 (Some commit_unsigned) =
    Err (wrapf ErrUnknownCommitValidator "index %d") /\
  VerifyCommitLight (Some set_ab) hash_1 1
    (Some (mkCommit 1 0 hash_1 [mkCommitSig 1 (mkSignature []) 0 (Some hash_1)])) = Ret tt.
Proof. split_and!; vm_compute; reflexivity. Qed.
