(* ===== verification/VoteSet.v ===== *)
(** * Vote tracking (src/engine/vote_tracker.go)

    [VoteSet] tallies the votes of one height, round and type; [HeightVoteSet] holds the
    vote sets of a height and invalidates them by a generation counter. The refinement
    relation [represents] abstracts a vote set to the log of the votes it accepted. *)

From S2P Require Export Commits.

Definition ErrInvalidVote : error := sentinel "engine.ErrInvalidVote".
Definition ErrInvalidHeight : error := sentinel "engine.ErrInvalidHeight".
Definition ErrInvalidSignature : error := sentinel "engine.ErrInvalidSignature".
Definition ErrUnknownValidator : error := sentinel "engine.ErrUnknownValidator".
Definition ErrConflictingVote : error := sentinel "engine.ErrConflictingVote".
Definition ErrStaleVoteSet : error := sentinel "engine.ErrStaleVoteSet".

(** 10 minutes in nanoseconds. *)
Definition MaxTimestampDrift : Z := 10 * 60 * 10 ^ 9.

(** ** Keys *)

Definition blockHashKey (h : option Hash) : string :=
  match h with
  | None => "nil"
  | Some d => if IsHashEmpty h then "nil" else hex_EncodeToString (h_Data d)
  end.

Definition votesEqual (a b : Vote) : bool :=
  if! negb (vt_Type a =? vt_Type b) || negb (vt_Height a =? vt_Height b) ||
      negb (vt_Round a =? vt_Round b) return false in
  if! negb (vt_ValidatorIndex a =? vt_ValidatorIndex b) return false in
  match vt_BlockHash a, vt_BlockHash b with
  | None, None => true
  | None, _ | _, None => false
  | Some x, Some y => HashEqual x y
  end.

(** ** VoteSet *)

Record blockVotes := mkBlockVotes {
  bv_blockHash : option Hash;
  bv_votes : list Vote;
  bv_totalPower : Z }.

(** [vset_maj23] is the key in [votesByBlock] of the entry the pointer refers to;
    [vset_parent] tells whether the set belongs to a [HeightVoteSet]. *)
Record VoteSet := mkVoteSet {
  vset_chainID : string;
  vset_height : Z;
  vset_round : Z;
  vset_voteType : Z;
  vset_validatorSet : ValidatorSet;
  vset_votes : gmap Z Vote;
  vset_votesByBlock : gmap string blockVotes;
  vset_sum : Z;
  vset_maj23 : option string;
  vset_peerMaj23 : option (gmap string (option Hash));
  vset_parent : bool;
  vset_myGeneration : Z }.

Definition NewVoteSet (chainID : string) (height round voteType : Z) (valSet : ValidatorSet)
    : VoteSet :=
  mkVoteSet chainID height round voteType valSet ∅ ∅ 0 None None false 0.

Definition blockVotes_at (vset : VoteSet) (key : string) : option blockVotes :=
  vset_votesByBlock vset !! key.

Section VoteSets.
Context `{Crypto} `{Cramberry}.

(** The state changes of [addVoteInternal], all checks passed. *)
Definition store_vote (vset : VoteSet) (vote : Vote) (power : Z) : VoteSet :=
  let voteCopy := default vote (CopyVote (Some vote)) in
  let key := blockHashKey (vt_BlockHash vote) in
  let bv := match vset_votesByBlock vset !! key with
            | Some bv => bv
            | None => mkBlockVotes (vt_BlockHash voteCopy) [] 0
            end in
  let bv' := {| bv_blockHash := bv_blockHash bv;
                bv_votes := bv_votes bv ++ [voteCopy];
                bv_totalPower := wrap64 (bv_totalPower bv + power) |} in
  {| vset_chainID := vset_chainID vset;
     vset_height := vset_height vset;
     vset_round := vset_round vset;
     vset_voteType := vset_voteType vset;
     vset_validatorSet := vset_validatorSet vset;
     vset_votes := <[vt_ValidatorIndex voteCopy := voteCopy]> (vset_votes vset);
     vset_votesByBlock := <[key := bv']> (vset_votesByBlock vset);
     vset_sum := wrap64 (vset_sum vset + power);
     vset_maj23 := match vset_maj23 vset with
                   | None => if bv_totalPower bv' >=? TwoThirdsMajority (vset_validatorSet vset)
                             then Some key else None
                   | Some k => Some k
                   end;
     vset_peerMaj23 := vset_peerMaj23 vset;
     vset_parent := vset_parent vset;
     vset_myGeneration := vset_myGeneration vset |}.

Definition addVoteInternal (vset : VoteSet) (vote : Vote) : VoteSet * res bool :=
  match GetByIndex (vset_validatorSet vset) (vt_ValidatorIndex vote) with
  | None => (vset, Err ErrUnknownValidator)
  | Some val =>
      if! negb (AccountNameEqual (nv_Name val) (vt_Validator vote))
        return (vset, Err ErrUnknownValidator) in
      match VoteSignBytes (vset_chainID vset) (Some vote) with
      | Panic msg => (vset, Panic msg)
      | Err e => (vset, Err e)
      | Ret signBytes =>
          if! negb (VerifySignature (nv_PublicKey val) signBytes (vt_Signature vote))
            return (vset, Err ErrInvalidSignature) in
          match vset_votes vset !! vt_ValidatorIndex vote with
          | Some existing =>
              if votesEqual existing vote then (vset, Ret false)
              else (vset, Err ErrConflictingVote)
          | None =>
              if! (nv_VotingPower val >? 0) &&
                  (vset_sum vset >? wrap64 (MaxInt64 - nv_VotingPower val))
                return (vset, Err (errorf "voting power sum would overflow (current: %d, adding: %d)")) in
              let total := match vset_votesByBlock vset !! blockHashKey (vt_BlockHash vote) with
                           | Some bv => bv_totalPower bv
                           | None => 0
                           end in
              if! (nv_VotingPower val >? 0) && (total >? wrap64 (MaxInt64 - nv_VotingPower val))
                return (vset, Err (errorf "block voting power would overflow (current: %d, adding: %d)")) in
              (store_vote vset vote (nv_VotingPower val), Ret true)
          end
      end
  end.

(** [gen] is the current value of [parent.generation]. *)
Definition is_stale (gen : Z) (vset : VoteSet) : bool :=
  vset_parent vset && negb (gen =? vset_myGeneration vset).

Definition vote_matches (vset : VoteSet) (vote : Vote) : bool :=
  (vt_Height vote =? vset_height vset) && (vt_Round vote =? vset_round vset) &&
  (vt_Type vote =? vset_voteType vset).

Definition VoteSet_AddVote (now gen : Z) (vset : VoteSet) (vote : Vote) : VoteSet * res bool :=
  if! is_stale gen vset return (vset, Err ErrStaleVoteSet) in
  if! negb (vote_matches vset vote) return (vset, Err ErrInvalidVote) in
  if! vt_Timestamp vote >? now + MaxTimestampDrift
    return (vset, Err (wrapf ErrInvalidVote "timestamp too far in future")) in
  if! vt_Timestamp vote <? now - MaxTimestampDrift
    return (vset, Err (wrapf ErrInvalidVote "timestamp too far in past")) in
  addVoteInternal vset vote.

Definition addVoteForReplay (gen : Z) (vset : VoteSet) (vote : Vote) : VoteSet * res bool :=
  if! is_stale gen vset return (vset, Err ErrStaleVoteSet) in
  if! negb (vote_matches vset vote) return (vset, Err ErrInvalidVote) in
  addVoteInternal vset vote.
End VoteSets.

Definition VoteSet_TwoThirdsMajority (vset : VoteSet) : option Hash * bool :=
  match vset_maj23 vset with
  | Some k => (CopyHash (blockVotes_at vset k ≫= bv_blockHash), true)
  | None => (None, false)
  end.

Definition HasTwoThirdsMajority (vset : VoteSet) : bool := bool_decide (is_Some (vset_maj23 vset)).

Definition HasTwoThirdsAny (vset : VoteSet) : bool :=
  vset_sum vset >=? TwoThirdsMajority (vset_validatorSet vset).

Definition HasAll (vset : VoteSet) : bool :=
  Z.of_nat (size (vset_votes vset)) =? vals_Size (vset_validatorSet vset).

Definition GetVote (vset : VoteSet) (valIndex : Z) : option Vote :=
  CopyVote (vset_votes vset !! valIndex).

Definition VoteSet_Size (vset : VoteSet) : Z := Z.of_nat (size (vset_votes vset)).

Definition VoteSet_VotingPower (vset : VoteSet) : Z := vset_sum vset.

Definition index_le (a b : Vote) : Prop := vt_ValidatorIndex a <= vt_ValidatorIndex b.

#[export] Instance index_le_dec : RelDecision index_le.
Proof. intros a b. unfold index_le. apply _. Defined.

(** The map is iterated in some order, then sorted by validator index. *)
Definition VoteSet_GetVotes (vset : VoteSet) : list Vote :=
  merge_sort index_le ((fun v => default v (CopyVote (Some v))) <$> (map_to_list (vset_votes vset)).*2).

Definition GetVotesForBlock (vset : VoteSet) (blockHash : option Hash) : list Vote :=
  match vset_votesByBlock vset !! blockHashKey blockHash with
  | None => []
  | Some bv => (fun v => default v (CopyVote (Some v))) <$> bv_votes bv
  end.

Definition set_peerMaj23 (m : option (gmap string (option Hash))) (vset : VoteSet) : VoteSet :=
  mkVoteSet (vset_chainID vset) (vset_height vset) (vset_round vset) (vset_voteType vset)
    (vset_validatorSet vset) (vset_votes vset) (vset_votesByBlock vset) (vset_sum vset)
    (vset_maj23 vset) m (vset_parent vset) (vset_myGeneration vset).

Definition VoteSet_SetPeerMaj23 (peerID : string) (blockHash : option Hash) (vset : VoteSet)
    : VoteSet :=
  set_peerMaj23 (Some (<[peerID := CopyHash blockHash]> (default ∅ (vset_peerMaj23 vset)))) vset.

Definition GetPeerMaj23Claims (vset : VoteSet) : option (gmap string (option Hash)) :=
  match vset_peerMaj23 vset with None => None | Some m => Some (CopyHash <$> m) end.

Definition HasPeerMaj23 (vset : VoteSet) : bool :=
  0 <? Z.of_nat (size (default ∅ (vset_peerMaj23 vset))).

Definition commit_sig_of (vote : Vote) : CommitSig :=
  {| cs_ValidatorIndex := vt_ValidatorIndex vote;
     cs_Signature := mkSignature (copy_data (sig_Data (vt_Signature vote)));
     cs_Timestamp := vt_Timestamp vote;
     cs_BlockHash := CopyHash (vt_BlockHash vote) |}.

(** The filter of the [MakeCommit] loop. *)
Definition votes_for (blockHash : Hash) (vote : Vote) : bool :=
  match vt_BlockHash vote with
  | None => false
  | Some h => negb (IsHashEmpty (Some h)) && HashEqual h blockHash
  end.

Definition sig_index_le (a b : CommitSig) : Prop := cs_ValidatorIndex a <= cs_ValidatorIndex b.

#[export] Instance sig_index_le_dec : RelDecision sig_index_le.
Proof. intros a b. unfold sig_index_le. apply _. Defined.

(** The loop of [MakeCommit] over the votes in some order, and the sort. *)
Definition commit_sigs (blockHash : Hash) (votes : list Vote) : list CommitSig :=
  merge_sort sig_index_le (commit_sig_of <$> filter (fun v => votes_for blockHash v = true) votes).

Definition MakeCommit (vset : VoteSet) : option Commit :=
  if! negb (vset_voteType vset =? VoteTypePrecommit) return None in
  match vset_maj23 vset with
  | None => None
  | Some k =>
      match blockVotes_at vset k ≫= bv_blockHash with
      | None => None
      | Some blockHash =>
          if! IsHashEmpty (Some blockHash) return None in
          Some {| cm_Height := vset_height vset;
                  cm_Round := vset_round vset;
                  cm_BlockHash := default blockHash (CopyHash (Some blockHash));
                  cm_Signatures := commit_sigs blockHash (map_to_list (vset_votes vset)).*2 |}
      end
  end.

(** ** Abstract specification

    The log of the votes a set accepted, in order. The votes are by distinct validators of
    the set, for the set's height, round and type, with valid signatures; every field of the
    set is a function of the log. *)

Definition same_block (key : string) (log : list Vote) : list Vote :=
  filter (fun v => blockHashKey (vt_BlockHash v) = key) log.

(** The voting power behind the votes of a log. *)
Definition vote_power (vals : ValidatorSet) (v : Vote) : Z :=
  match GetByIndex vals (vt_ValidatorIndex v) with Some val => nv_VotingPower val | None => 0 end.

Definition has_quorum (vals : ValidatorSet) (log : list Vote) (key : string) : Prop :=
  2 * vals_TotalPower vals < 3 * sumZ (vote_power vals) (same_block key log).

Section Spec.
Context `{Crypto} `{Cramberry}.

(** A vote the set may count: by a validator of the set, signed with its key. *)
Definition vote_ok (chainID : string) (vals : ValidatorSet) (v : Vote) : Prop :=
  exists val m, GetByIndex vals (vt_ValidatorIndex v) = Some val /\ nv_Name val = vt_Validator v /\
    VoteSignBytes chainID (Some v) = Ret m /\
    VerifySignature (nv_PublicKey val) m (vt_Signature v) = true.

Record represents (vset : VoteSet) (log : list Vote) : Prop := {
  rep_vals : ValidatorSet_wf (vset_validatorSet vset);
  rep_valid : forall v, v ∈ log -> vote_matches vset v = true /\
                vote_ok (vset_chainID vset) (vset_validatorSet vset) v;
  rep_distinct : NoDup (vt_ValidatorIndex <$> log);
  rep_votes : forall i v, vset_votes vset !! i = Some v <-> v ∈ log /\ vt_ValidatorIndex v = i;
  rep_blocks : forall k, vset_votesByBlock vset !! k =
                 match same_block k log with
                 | [] => None
                 | v :: l => Some (mkBlockVotes (vt_BlockHash v) (v :: l)
                                     (sumZ (vote_power (vset_validatorSet vset)) (v :: l)))
                 end;
  rep_sum : vset_sum vset = sumZ (vote_power (vset_validatorSet vset)) log;
  rep_maj23 : forall k, vset_maj23 vset = Some k <-> has_quorum (vset_validatorSet vset) log k }.
End Spec.

(** ** Lemmas: keys *)

Lemma blockHashKey_nil h : blockHashKey h = "nil" <-> IsHashEmpty h = true.
Proof.
  unfold blockHashKey. destruct h as [d|]; [|done].
  destruct (IsHashEmpty (Some d)); [done|]. split; [|done]. by intros ?%hex_not_nil.
Qed.

Lemma blockHashKey_Some h d :
  IsHashEmpty (Some d) = false -> blockHashKey h = blockHashKey (Some d) <-> h = Some d.
Proof.
  intros Hd. split; [|by intros ->]. unfold blockHashKey at 2. rewrite Hd.
  unfold blockHashKey. destruct h as [d'|]; [|intros E; by symmetry in E; apply hex_not_nil in E].
  destruct (IsHashEmpty (Some d')); [intros E; by symmetry in E; apply hex_not_nil in E|].
  intros E%hex_inj. destruct d, d'. cbn in E. by subst.
Qed.

Lemma votes_for_key d v :
  IsHashEmpty (Some d) = false ->
  votes_for d v = true <-> blockHashKey (vt_BlockHash v) = blockHashKey (Some d).
Proof.
  intros Hd. rewrite blockHashKey_Some by done. unfold votes_for.
  destruct (vt_BlockHash v) as [h|]; [|split; discriminate]. rewrite andb_true_iff, HashEqual_true.
  split; [by intros [_ ->]|]. intros [= ->]. by rewrite Hd.
Qed.

(** ** Lemmas: voting power of a log *)

Lemma vote_power_signers vals l :
  sumZ (vote_power vals) l = sumZ nv_VotingPower (signers vals (commit_sig_of <$> l)).
Proof.
  unfold signers, vote_power. induction l as [|v l IH]; [done|]. csimpl. rewrite IH.
  by destruct (GetByIndex vals (vt_ValidatorIndex v)).
Qed.

Lemma commit_sig_indices (l : list Vote) :
  cs_ValidatorIndex <$> (commit_sig_of <$> l) = vt_ValidatorIndex <$> l.
Proof. by rewrite <- list_fmap_compose. Qed.

Lemma vote_power_nonneg vals v : ValidatorSet_core vals -> 0 <= vote_power vals v.
Proof.
  intros Hc. unfold vote_power. destruct (GetByIndex _ _) eqn:E; [|done].
  apply (GetByIndex_Some _ _ _ Hc) in E as (_ & _ & ?). lia.
Qed.

Lemma votes_power_bound vals l :
  ValidatorSet_core vals -> NoDup (vt_ValidatorIndex <$> l) ->
  0 <= sumZ (vote_power vals) l <= vals_TotalPower vals.
Proof.
  intros Hc Hn. split; [apply sumZ_nonneg; intros; by apply vote_power_nonneg|].
  rewrite vote_power_signers, (core_total _ Hc). apply sumZ_subset.
  - intros v Hv. pose proof (core_positive _ _ Hc Hv). lia.
  - apply signers_NoDup; [done|]. by rewrite commit_sig_indices.
  - by apply signers_subset.
Qed.

Lemma same_block_app k l1 l2 : same_block k (l1 ++ l2) = same_block k l1 ++ same_block k l2.
Proof. apply filter_app. Qed.

Lemma same_block_elem k l v :
  v ∈ same_block k l <-> blockHashKey (vt_BlockHash v) = k /\ v ∈ l.
Proof. unfold same_block. by rewrite list_elem_of_filter. Qed.

Lemma same_block_NoDup k l :
  NoDup (vt_ValidatorIndex <$> l) -> NoDup (vt_ValidatorIndex <$> same_block k l).
Proof. intros Hn. eapply sublist_NoDup; [exact Hn|]. apply fmap_sublist, sublist_filter. Qed.

(** At most one block has a quorum in a log of distinct voters. *)
Lemma quorum_unique vals log k1 k2 :
  ValidatorSet_wf vals -> NoDup (vt_ValidatorIndex <$> log) ->
  has_quorum vals log k1 -> has_quorum vals log k2 -> k1 = k2.
Proof.
  intros Hw Hn Q1 Q2. pose proof (wf_core _ Hw) as Hc. destruct (decide (k1 = k2)) as [|Hne]; [done|].
  pose proof (votes_power_bound vals log Hc Hn) as Hb.
  enough (sumZ (vote_power vals) (same_block k1 log ++ same_block k2 log) <=
          sumZ (vote_power vals) log) as Hs.
  { rewrite sumZ_app in Hs. unfold has_quorum in *. pose proof (wf_total_pos _ Hw). lia. }
  apply sumZ_subset; [intros; by apply vote_power_nonneg|..].
  - pose proof (NoDup_fmap_1 _ _ Hn) as Hl.
    apply NoDup_app. split_and!; [by apply NoDup_filter| |by apply NoDup_filter].
    intros v [E1 _]%same_block_elem [E2 _]%same_block_elem. congruence.
  - intros v [[_ ?]%same_block_elem|[_ ?]%same_block_elem]%elem_of_app; done.
Qed.

Lemma has_quorum_mono vals log more k :
  ValidatorSet_core vals -> has_quorum vals log k -> has_quorum vals (log ++ more) k.
Proof.
  intros Hc. unfold has_quorum. rewrite same_block_app, sumZ_app.
  pose proof (sumZ_nonneg (vote_power vals) (same_block k more)
    ltac:(intros; by apply vote_power_nonneg)). lia.
Qed.

Lemma same_block_snoc k log v :
  same_block k (log ++ [v]) =
  same_block k log ++ (if decide (blockHashKey (vt_BlockHash v) = k) then [v] else []).
Proof. by rewrite same_block_app. Qed.

Lemma has_quorum_snoc_ne vals log v k :
  blockHashKey (vt_BlockHash v) <> k ->
  has_quorum vals (log ++ [v]) k <-> has_quorum vals log k.
Proof.
  intros Hk. unfold has_quorum. rewrite same_block_snoc, decide_False by done. by rewrite app_nil_r.
Qed.

Lemma total_i64 vals z :
  ValidatorSet_core vals -> 0 <= z <= vals_TotalPower vals -> in_i64 z.
Proof.
  intros Hc. pose proof (core_bound _ Hc).
  unfold in_i64, MinInt64, MaxInt64, MaxTotalVotingPower in *. lia.
Qed.

(** ** Lemmas: adding a vote *)

Section Adding.
Context `{Crypto} `{Cramberry}.

Lemma rep_core vset log : represents vset log -> ValidatorSet_core (vset_validatorSet vset).
Proof. intros Hr. apply wf_core, (rep_vals _ _ Hr). Qed.

Lemma rep_block_total vset log k :
  represents vset log ->
  match vset_votesByBlock vset !! k with Some bv => bv_totalPower bv | None => 0 end =
  sumZ (vote_power (vset_validatorSet vset)) (same_block k log).
Proof. intros Hr. rewrite (rep_blocks _ _ Hr). by destruct (same_block k log). Qed.

(** Tallies of the log with a vote of a new validator stay in the [int64] range. *)
Lemma snoc_power vals log v val :
  ValidatorSet_core vals -> NoDup (vt_ValidatorIndex <$> log ++ [v]) ->
  GetByIndex vals (vt_ValidatorIndex v) = Some val ->
  0 < nv_VotingPower val /\ vote_power vals v = nv_VotingPower val /\
  (forall k, 0 <= sumZ (vote_power vals) (same_block k log)) /\
  (forall k, sumZ (vote_power vals) (same_block k log) + nv_VotingPower val <= vals_TotalPower vals) /\
  0 <= sumZ (vote_power vals) log /\
  sumZ (vote_power vals) log + nv_VotingPower val <= vals_TotalPower vals.
Proof.
  intros Hc Hn Hg. assert (Hp : vote_power vals v = nv_VotingPower val)
    by (unfold vote_power; by rewrite Hg).
  apply (GetByIndex_Some _ _ _ Hc) in Hg as (_ & _ & Hpos).
  pose proof (votes_power_bound vals _ Hc Hn) as Hb. rewrite sumZ_app in Hb. cbn in Hb.
  assert (Hnn : forall l, 0 <= sumZ (vote_power vals) l)
    by (intros l; apply sumZ_nonneg; intros; by apply vote_power_nonneg).
  split_and!; [done|done|intros; apply Hnn| |apply Hnn|lia].
  intros k. enough (sumZ (vote_power vals) (same_block k log) <= sumZ (vote_power vals) log) by lia.
  apply sumZ_submseteq; [intros; by apply vote_power_nonneg|].
  apply sublist_submseteq, sublist_filter.
Qed.

(** The majority pointer after a vote whose block reaches the total [t]. *)
Lemma maj23_snoc vset log v t k :
  represents vset log -> NoDup (vt_ValidatorIndex <$> log ++ [v]) ->
  t = sumZ (vote_power (vset_validatorSet vset)) (same_block (blockHashKey (vt_BlockHash v)) (log ++ [v])) ->
  match vset_maj23 vset with
  | None => if t >=? TwoThirdsMajority (vset_validatorSet vset)
            then Some (blockHashKey (vt_BlockHash v)) else None
  | Some k0 => Some k0
  end = Some k <-> has_quorum (vset_validatorSet vset) (log ++ [v]) k.
Proof.
  intros Hr Hn ->. pose proof (rep_vals _ _ Hr) as Hw.
  destruct (vset_maj23 vset) as [k0|] eqn:Em.
  - apply (rep_maj23 _ _ Hr) in Em. apply (has_quorum_mono _ _ [v]) in Em; [|by apply wf_core].
    split; [by intros [= <-]|]. intros Hq. f_equal. by eapply quorum_unique.
  - destruct (decide (blockHashKey (vt_BlockHash v) = k)) as [<-|Hne].
    + rewrite Z.geb_leb. unfold has_quorum. rewrite <- TwoThirds_quorum by (by apply wf_total_pos).
      destruct (Z.leb_spec (TwoThirdsMajority (vset_validatorSet vset))
        (sumZ (vote_power (vset_validatorSet vset))
           (same_block (blockHashKey (vt_BlockHash v)) (log ++ [v])))); [done|].
      split; [done|lia].
    + rewrite has_quorum_snoc_ne, <- (rep_maj23 _ _ Hr), Em by done.
      case_match; split; intros; by simplify_eq.
Qed.

Lemma store_vote_represents vset log v val :
  represents vset log -> vote_matches vset v = true ->
  vote_ok (vset_chainID vset) (vset_validatorSet vset) v ->
  GetByIndex (vset_validatorSet vset) (vt_ValidatorIndex v) = Some val ->
  vset_votes vset !! vt_ValidatorIndex v = None ->
  represents (store_vote vset v (nv_VotingPower val)) (log ++ [v]).
Proof.
  intros Hr Hm Hok Hg Hf. pose proof (rep_core _ _ Hr) as Hc.
  assert (Hn : NoDup (vt_ValidatorIndex <$> log ++ [v])).
  { rewrite fmap_app. apply NoDup_app. split_and!; [apply (rep_distinct _ _ Hr)| |apply NoDup_singleton].
    intros i (w & -> & Hw)%list_elem_of_fmap Hi%list_elem_of_singleton.
    rewrite <- Hi, (proj2 (rep_votes _ _ Hr _ w)) in Hf by done. done. }
  pose proof (snoc_power _ _ _ _ Hc Hn Hg) as (Hpos & Hp & Hk0 & Hk & Hl0 & Hl).
  pose proof (rep_block_total _ _ (blockHashKey (vt_BlockHash v)) Hr) as Hbt.
  unfold store_vote. rewrite CopyVote_id. cbn [default]. split; cbn -[TwoThirdsMajority].
  - apply (rep_vals _ _ Hr).
  - intros w [Hw| ->%list_elem_of_singleton]%elem_of_app; [apply (rep_valid _ _ Hr _ Hw)|done].
  - exact Hn.
  - intros i w. rewrite elem_of_app, list_elem_of_singleton.
    destruct (decide (i = vt_ValidatorIndex v)) as [->|Hne].
    + rewrite lookup_insert_eq. split; [intros [= ->]; auto|]. intros [[Hw| ->] E]; [|done].
      rewrite (proj2 (rep_votes _ _ Hr _ w)) in Hf; done.
    + rewrite lookup_insert_ne, (rep_votes _ _ Hr) by done. naive_solver.
  - intros k. rewrite same_block_snoc. case_decide as Hd.
    + subst k. rewrite lookup_insert_eq, (rep_blocks _ _ Hr). specialize (Hk (blockHashKey (vt_BlockHash v))).
      specialize (Hk0 (blockHashKey (vt_BlockHash v))).
      destruct (same_block (blockHashKey (vt_BlockHash v)) log) as [|w l]; cbn -[Z.add] in *;
        rewrite ?sumZ_app, wrap64_small by (apply (total_i64 _ _ Hc); lia); cbn; do 2 f_equal; lia.
    + rewrite lookup_insert_ne, app_nil_r by done. apply (rep_blocks _ _ Hr).
  - rewrite (rep_sum _ _ Hr), sumZ_app, wrap64_small by (apply (total_i64 _ _ Hc); lia). cbn. lia.
  - intros k. apply (maj23_snoc vset log v _ k Hr Hn). rewrite same_block_snoc, decide_True by done.
    rewrite sumZ_app. cbn [sumZ]. rewrite Hp, Z.add_0_r, <- Hbt.
    specialize (Hk (blockHashKey (vt_BlockHash v))). specialize (Hk0 (blockHashKey (vt_BlockHash v))).
    rewrite <- Hbt in Hk, Hk0.
    destruct (vset_votesByBlock vset !! blockHashKey (vt_BlockHash v)); cbn -[Z.add] in *;
      apply wrap64_small, (total_i64 _ _ Hc); lia.
Qed.
(** The outcomes of adding a vote whose height, round and type match the set. *)
Definition add_outcome (vset : VoteSet) (log : list Vote) (vote : Vote) (r : VoteSet * res bool)
    : Prop :=
  let vals := vset_validatorSet vset in
  match r with
  | (vset', Ret true) =>
      vote_ok (vset_chainID vset) vals vote /\ (vt_ValidatorIndex vote ∉ (vt_ValidatorIndex <$> log)) /\
      represents vset' (log ++ [vote])
  | (vset', Ret false) =>
      vset' = vset /\ exists old, old ∈ log /\ votesEqual old vote = true
  | (vset', Err e) =>
      vset' = vset /\
      ((e = ErrUnknownValidator /\
        forall val, GetByIndex vals (vt_ValidatorIndex vote) = Some val -> nv_Name val <> vt_Validator vote) \/
       (e = ErrInvalidSignature /\ ~ vote_ok (vset_chainID vset) vals vote) \/
       (e = ErrConflictingVote /\ vote_ok (vset_chainID vset) vals vote /\
        exists old, old ∈ log /\ vt_ValidatorIndex old = vt_ValidatorIndex vote /\
          votesEqual old vote = false))
  | (vset', Panic msg) =>
      vset' = vset /\ VoteSignBytes (vset_chainID vset) (Some vote) = Panic msg
  end.

Lemma VoteSignBytes_no_error chainID v e : VoteSignBytes chainID v <> Err e.
Proof. unfold VoteSignBytes, must_marshal. by repeat case_match. Qed.

Lemma addVoteInternal_cases vset log vote :
  represents vset log -> vote_matches vset vote = true ->
  add_outcome vset log vote (addVoteInternal vset vote).
Proof.
  intros Hr Hm. pose proof (rep_core _ _ Hr) as Hc. unfold addVoteInternal, add_outcome.
  destruct (GetByIndex _ _) as [val|] eqn:Hg; [|by auto].
  destruct (AccountNameEqual _ _) eqn:Hname; cbn [negb].
  2: { split; [done|]. left. split; [done|]. intros val' [= <-] E.
       by rewrite (proj2 (AccountNameEqual_true _ _) E) in Hname. }
  apply AccountNameEqual_true in Hname.
  destruct (VoteSignBytes _ _) as [m|e|msg] eqn:Hs; [|by apply VoteSignBytes_no_error in Hs|done].
  destruct (VerifySignature _ _ _) eqn:Hv; cbn [negb].
  2: { split; [done|]. right; left. split; [done|]. intros (val' & m' & Hg' & _ & Hs' & Hv').
       congruence. }
  assert (Hok : vote_ok (vset_chainID vset) (vset_validatorSet vset) vote) by (by exists val, m).
  destruct (vset_votes vset !! vt_ValidatorIndex vote) as [old|] eqn:Hold.
  - apply (rep_votes _ _ Hr) in Hold as [Hin Hidx].
    destruct (votesEqual old vote) eqn:He; [by eauto|]. split; [done|]. right; right. eauto 10.
  - pose proof (store_vote_represents _ _ _ _ Hr Hm Hok Hg Hold) as Hr'.
    assert (Hnew : vt_ValidatorIndex vote ∉ (vt_ValidatorIndex <$> log)).
    { intros (w & E & Hw)%list_elem_of_fmap.
      by rewrite E, (proj2 (rep_votes _ _ Hr _ w)) in Hold. }
    pose proof (rep_distinct _ _ Hr') as Hn.
    pose proof (snoc_power _ _ _ _ Hc Hn Hg) as (Hpos & _ & Hk0 & Hk & Hl0 & Hl).
    pose proof (rep_block_total _ _ (blockHashKey (vt_BlockHash vote)) Hr) as Hbt.
    specialize (Hk (blockHashKey (vt_BlockHash vote))). specialize (Hk0 (blockHashKey (vt_BlockHash vote))).
    rewrite <- Hbt in Hk, Hk0. rewrite <- (rep_sum _ _ Hr) in Hl, Hl0.
    pose proof (core_bound _ Hc) as Hmax. unfold MaxTotalVotingPower in Hmax.
    rewrite (wrap64_small (MaxInt64 - _)) by (unfold in_i64, MinInt64, MaxInt64; lia).
    rewrite !Z.gtb_ltb.
    destruct (Z.ltb_spec (MaxInt64 - nv_VotingPower val) (vset_sum vset));
      [unfold MaxInt64 in *; lia|]. rewrite andb_false_r.
    match goal with |- context [MaxInt64 - nv_VotingPower val <? ?t] =>
      destruct (Z.ltb_spec (MaxInt64 - nv_VotingPower val) t); [unfold MaxInt64 in *; lia|] end.
    rewrite andb_false_r. done.
Qed.

(** C6: [AddVote] refines the log of accepted votes: a vote that matches the set and is
    recent is either appended (the votes map, the per-block tallies, the sum and the majority
    pointer all follow), or is a duplicate of a vote in the log, or is refused with the state
    unchanged by the error that applies: unknown validator, invalid signature, equivocation.
    The overflow errors of the code are never returned. *)
Theorem AddVote_refines_log now gen vset log vote :
  represents vset log -> is_stale gen vset = false -> vote_matches vset vote = true ->
  now - MaxTimestampDrift <= vt_Timestamp vote <= now + MaxTimestampDrift ->
  add_outcome vset log vote (VoteSet_AddVote now gen vset vote).
Proof.
  intros Hr Hs Hm Ht. unfold VoteSet_AddVote. rewrite Hs, Hm, Z.gtb_ltb. cbn [negb].
  rewrite (proj2 (Z.ltb_ge _ _)), (proj2 (Z.ltb_ge _ _)) by lia.
  by apply addVoteInternal_cases.
Qed.

Lemma VoteSet_AddVote_represents now gen vset log vote :
  represents vset log ->
  (exists log', represents (VoteSet_AddVote now gen vset vote).1 (log ++ log')) /\
  ((VoteSet_AddVote now gen vset vote).2 <> Ret true -> (VoteSet_AddVote now gen vset vote).1 = vset).
Proof.
  intros Hr. unfold VoteSet_AddVote.
  assert (Hid : exists log', represents vset (log ++ log')) by (exists []; by rewrite app_nil_r).
  destruct (is_stale gen vset); [done|]. destruct (vote_matches vset vote) eqn:Hm; [|done]. cbn [negb].
  destruct (_ >? _); [done|]. destruct (_ <? _); [done|].
  pose proof (addVoteInternal_cases _ _ _ Hr Hm) as Ho.
  destruct (addVoteInternal vset vote) as [vset' [[]| |]]; cbn in *;
    [|destruct Ho as [-> _]; done..].
  split; [|done]. exists [vote]. apply Ho.
Qed.
End Adding.

Lemma NewVoteSet_represents `{Crypto} `{Cramberry} chainID height round voteType vals :
  ValidatorSet_wf vals -> represents (NewVoteSet chainID height round voteType vals) [].
Proof.
  intros Hw. split; cbn.
  - done.
  - intros v Hv. by apply not_elem_of_nil in Hv.
  - constructor.
  - intros i v. rewrite lookup_empty. split; [done|]. intros [Hv _]. by apply not_elem_of_nil in Hv.
  - intros k. apply lookup_empty.
  - done.
  - intros k. unfold has_quorum. cbn. pose proof (wf_total_pos _ Hw). split; [done|lia].
Qed.

(** ** Lemmas: certificates *)

Lemma rep_votes_Permutation `{Crypto} `{Cramberry} vset log :
  represents vset log -> (map_to_list (vset_votes vset)).*2 ≡ₚ log.
Proof.
  intros Hr. apply NoDup_Permutation.
  - apply (NoDup_fmap_1 vt_ValidatorIndex). rewrite <- list_fmap_compose.
    enough (vt_ValidatorIndex ∘ snd <$> map_to_list (vset_votes vset) =
            (map_to_list (vset_votes vset)).*1) as -> by apply NoDup_fst_map_to_list.
    apply list_fmap_ext. intros n [i v] Hn. cbn.
    apply list_elem_of_lookup_2, elem_of_map_to_list in Hn.
    by apply (rep_votes _ _ Hr) in Hn as [_ ->].
  - apply (NoDup_fmap_1 vt_ValidatorIndex), (rep_distinct _ _ Hr).
  - intros v. rewrite list_elem_of_fmap. split.
    + intros ([i w] & -> & Hi). apply elem_of_map_to_list, (rep_votes _ _ Hr) in Hi as [? _]. done.
    + intros Hv. exists (vt_ValidatorIndex v, v). split; [done|].
      apply elem_of_map_to_list. by apply (rep_votes _ _ Hr).
Qed.

#[export] Instance sig_index_le_trans : Transitive sig_index_le.
Proof. intros a b c. unfold sig_index_le. lia. Qed.

#[export] Instance sig_index_le_total : Total sig_index_le.
Proof. intros a b. unfold sig_index_le. lia. Qed.

(** There is one sorted order of signatures with distinct indices. *)
Lemma sorted_sigs_unique l1 l2 :
  NoDup (cs_ValidatorIndex <$> l1) -> Sorted sig_index_le l1 -> Sorted sig_index_le l2 ->
  l1 ≡ₚ l2 -> l1 = l2.
Proof.
  intros Hn S1 S2 Hp. apply (Sorted_unique_strong sig_index_le); [|done..].
  intros x y Hx Hy L1 L2. rewrite <- Hp in Hy.
  apply list_elem_of_lookup in Hx as [i Hi], Hy as [j Hj]. unfold sig_index_le in *.
  assert (i = j) as ->; [|congruence].
  eapply (NoDup_lookup _ _ _ (cs_ValidatorIndex x) Hn); rewrite list_lookup_fmap; [by rewrite Hi|].
  rewrite Hj. cbn. f_equal. lia.
Qed.

Lemma sig_NoDup k (log : list Vote) :
  NoDup (vt_ValidatorIndex <$> log) -> NoDup (cs_ValidatorIndex <$> (commit_sig_of <$> same_block k log)).
Proof. intros Hn. rewrite commit_sig_indices. by apply same_block_NoDup. Qed.

(** The sorted signatures do not depend on the iteration order of the map. *)
Lemma commit_sigs_order h l1 l2 :
  NoDup (vt_ValidatorIndex <$> l1) -> l1 ≡ₚ l2 -> commit_sigs h l1 = commit_sigs h l2.
Proof.
  intros Hn Hp. unfold commit_sigs.
  apply sorted_sigs_unique; [|apply (Sorted_merge_sort _)..|by rewrite !merge_sort_Permutation, Hp].
  rewrite merge_sort_Permutation, commit_sig_indices.
  eapply sublist_NoDup; [exact Hn|]. apply fmap_sublist, sublist_filter.
Qed.

Lemma commit_sigs_Permutation h l :
  commit_sigs h l ≡ₚ commit_sig_of <$> filter (fun v => votes_for h v = true) l.
Proof. apply merge_sort_Permutation. Qed.

Lemma commit_sigs_key h l :
  IsHashEmpty (Some h) = false ->
  commit_sigs h l ≡ₚ commit_sig_of <$> same_block (blockHashKey (Some h)) l.
Proof.
  intros Hh. rewrite commit_sigs_Permutation. apply fmap_Permutation. unfold same_block.
  rewrite (list_filter_iff _ (fun v => blockHashKey (vt_BlockHash v) = blockHashKey (Some h))); [done|].
  intros v. by apply votes_for_key.
Qed.

Section Certificates.
Context `{Crypto} `{Cramberry}.

Lemma VerifySignature_vote chainID v pk m :
  VoteSignBytes chainID (Some v) = Ret m -> VerifySignature pk m (vt_Signature v) = true ->
  VerifyVoteSignature chainID (Some v) pk = Ret tt /\ sig_Data (vt_Signature v) <> [].
Proof.
  intros Hm. unfold VerifySignature, VerifyVoteSignature. rewrite Hm.
  destruct (len (pk_Data pk) =? 32); [|done]. cbn [negb].
  destruct (Z.eqb_spec (len (sig_Data (vt_Signature v))) 64) as [E|]; [|done]. cbn [negb rbind].
  intros ->. destruct (sig_Data (vt_Signature v)); [done|]. by rewrite len_cons_0.
Qed.

Lemma commit_sig_of_fields v :
  cs_ValidatorIndex (commit_sig_of v) = vt_ValidatorIndex v /\
  cs_Signature (commit_sig_of v) = vt_Signature v /\
  cs_Timestamp (commit_sig_of v) = vt_Timestamp v /\ cs_BlockHash (commit_sig_of v) = vt_BlockHash v.
Proof. unfold commit_sig_of. cbn. rewrite copy_data_id, CopyHash_id. by destruct (vt_Signature v). Qed.

(** Rebuilding the vote from its entry in the commit gives the vote back. *)
Lemma commit_vote_of vset c v val :
  vote_matches vset v = true -> vset_voteType vset = VoteTypePrecommit ->
  cm_Height c = vset_height vset -> cm_Round c = vset_round vset -> nv_Name val = vt_Validator v ->
  commit_vote c (commit_sig_of v) val = v.
Proof.
  unfold vote_matches. intros Hm Ht Hh Hr Hn. bool_to_prop.
  destruct (commit_sig_of_fields v) as (E1 & E2 & E3 & E4). unfold commit_vote.
  rewrite E1, E2, E3, E4, Hn. destruct v. cbn in *. congruence.
Qed.

Definition commit_of_log (vset : VoteSet) (log : list Vote) (h : Hash) : Commit :=
  mkCommit (vset_height vset) (vset_round vset) h (commit_sigs h log).

Lemma MakeCommit_cases vset log :
  represents vset log ->
  match MakeCommit vset with
  | Some c => vset_voteType vset = VoteTypePrecommit /\ exists h, IsHashEmpty (Some h) = false /\
      has_quorum (vset_validatorSet vset) log (blockHashKey (Some h)) /\ c = commit_of_log vset log h
  | None => vset_voteType vset = VoteTypePrecommit -> forall h, IsHashEmpty (Some h) = false ->
      ~ has_quorum (vset_validatorSet vset) log (blockHashKey (Some h))
  end.
Proof.
  intros Hr. unfold MakeCommit. destruct (Z.eqb_spec (vset_voteType vset) VoteTypePrecommit); cbn [negb]; [|done].
  destruct (vset_maj23 vset) as [k|] eqn:Ek.
  2: { intros _ h _ Hq%(rep_maj23 _ _ Hr). congruence. }
  pose proof (proj1 (rep_maj23 _ _ Hr k) Ek) as Hq. unfold blockVotes_at.
  rewrite (rep_blocks _ _ Hr). destruct (same_block k log) as [|v l] eqn:Es.
  { unfold has_quorum in Hq. rewrite Es in Hq. cbn in Hq. pose proof (wf_total_pos _ (rep_vals _ _ Hr)). lia. }
  assert (Hv : v ∈ same_block k log) by (rewrite Es; constructor).
  apply same_block_elem in Hv as [Hk _]. cbn [mbind option_bind bv_blockHash].
  assert (Hnil : vt_BlockHash v = None \/ IsHashEmpty (vt_BlockHash v) = true ->
    forall h, IsHashEmpty (Some h) = false ->
      ~ has_quorum (vset_validatorSet vset) log (blockHashKey (Some h))).
  { intros Hn h Hh Hq'. assert (k = blockHashKey (Some h)) as E.
    { eapply quorum_unique; [apply (rep_vals _ _ Hr)|apply (rep_distinct _ _ Hr)|done..]. }
    rewrite <- Hk in E. assert (IsHashEmpty (vt_BlockHash v) = true) as E' by (by destruct Hn as [->|]).
    apply blockHashKey_nil in E'. rewrite E' in E. symmetry in E. apply blockHashKey_nil in E. congruence. }
  destruct (vt_BlockHash v) as [h|]; [|by auto].
  destruct (IsHashEmpty (Some h)) eqn:Eh; [by auto|]. split; [done|]. exists h. subst k.
  split_and!; [done..|]. unfold commit_of_log. rewrite CopyHash_id. cbn [default]. f_equal.
  symmetry. apply commit_sigs_order; [apply (rep_distinct _ _ Hr)|].
  symmetry. by apply rep_votes_Permutation.
Qed.

Lemma commit_of_log_ok vset log h :
  represents vset log -> vset_voteType vset = VoteTypePrecommit -> IsHashEmpty (Some h) = false ->
  has_quorum (vset_validatorSet vset) log (blockHashKey (Some h)) ->
  commit_ok (vset_chainID vset) (vset_validatorSet vset) h (vset_height vset) (commit_of_log vset log h).
Proof.
  intros Hr Ht Hh Hq. pose proof (commit_sigs_key h log Hh) as Hp.
  assert (Hsig : forall s, s ∈ commit_sigs h log ->
    exists v, s = commit_sig_of v /\ v ∈ log /\ vt_BlockHash v = Some h).
  { intros s. rewrite Hp, list_elem_of_fmap. intros (v & -> & [Hk Hv]%same_block_elem).
    exists v. split_and!; [done..|]. by apply blockHashKey_Some. }
  assert (Hall : counted h (commit_sigs h log) = commit_sigs h log).
  { apply list_filter_all. intros s (v & -> & Hv & Hb)%Hsig.
    destruct (commit_sig_of_fields v) as (_ & -> & _ & E4). unfold for_block.
    rewrite E4, Hb, Hh, HashEqual_refl. split; [done|].
    destruct (rep_valid _ _ Hr v Hv) as [_ (val & m & _ & _ & Hm & Hs)].
    by eapply VerifySignature_vote. }
  split; cbn [cm_Height cm_BlockHash cm_Signatures commit_of_log]; rewrite ?Hall; try done.
  - rewrite Hp, commit_sig_indices. apply same_block_NoDup, (rep_distinct _ _ Hr).
  - intros s (v & -> & Hv & Hb)%Hsig.
    destruct (rep_valid _ _ Hr v Hv) as [Hm (val & m & Hg & Hn & Hs & Hsg)]. exists val.
    rewrite (commit_vote_of vset _ v val) by done.
    split; [by destruct (commit_sig_of_fields v) as [-> _]|]. by eapply VerifySignature_vote.
  - unfold has_quorum in Hq. rewrite vote_power_signers in Hq.
    erewrite (sumZ_Permutation _ (signers _ _)); [exact Hq|]. unfold signers. by rewrite Hp.
Qed.
End Certificates.

(** ** HeightVoteSet

    [prevotes] and [precommits] hold pointers, so the vote sets live in a heap: a location
    is a position in [hvs_heap], and a set that a caller obtained before [Reset] is still
    there afterwards. *)

Record HeightVoteSet := mkHeightVoteSet {
  hvs_chainID : string;
  hvs_height : Z;
  hvs_validatorSet : ValidatorSet;
  hvs_prevotes : gmap Z nat;
  hvs_precommits : gmap Z nat;
  hvs_generation : Z;
  hvs_heap : list VoteSet }.

Definition NewHeightVoteSet (chainID : string) (height : Z) (valSet : ValidatorSet)
    : HeightVoteSet :=
  mkHeightVoteSet chainID height valSet ∅ ∅ 0 [].

Definition newVoteSetWithParent (hvs : HeightVoteSet) (round voteType : Z) : VoteSet :=
  mkVoteSet (hvs_chainID hvs) (hvs_height hvs) round voteType (hvs_validatorSet hvs) ∅ ∅ 0 None None
    true (hvs_generation hvs).

Definition with_heap (heap : list VoteSet) (hvs : HeightVoteSet) : HeightVoteSet :=
  mkHeightVoteSet (hvs_chainID hvs) (hvs_height hvs) (hvs_validatorSet hvs) (hvs_prevotes hvs)
    (hvs_precommits hvs) (hvs_generation hvs) heap.

(** [voteSet = hvs.prevotes[round]; if nil, a new set is stored]. *)
Definition prevotes_at (hvs : HeightVoteSet) (round : Z) : HeightVoteSet * nat :=
  match hvs_prevotes hvs !! round with
  | Some l => (hvs, l)
  | None =>
      let l := length (hvs_heap hvs) in
      (mkHeightVoteSet (hvs_chainID hvs) (hvs_height hvs) (hvs_validatorSet hvs)
         (<[round := l]> (hvs_prevotes hvs)) (hvs_precommits hvs) (hvs_generation hvs)
         (hvs_heap hvs ++ [newVoteSetWithParent hvs round VoteTypePrevote]), l)
  end.

Definition precommits_at (hvs : HeightVoteSet) (round : Z) : HeightVoteSet * nat :=
  match hvs_precommits hvs !! round with
  | Some l => (hvs, l)
  | None =>
      let l := length (hvs_heap hvs) in
      (mkHeightVoteSet (hvs_chainID hvs) (hvs_height hvs) (hvs_validatorSet hvs)
         (hvs_prevotes hvs) (<[round := l]> (hvs_precommits hvs)) (hvs_generation hvs)
         (hvs_heap hvs ++ [newVoteSetWithParent hvs round VoteTypePrecommit]), l)
  end.

(** A method call that may update the set behind a pointer. *)
Definition call {A} (l : nat) (f : VoteSet -> VoteSet * res A) (hvs : HeightVoteSet)
    : HeightVoteSet * res A :=
  match hvs_heap hvs !! l with
  | Some s => let '(s', r) := f s in (with_heap (<[l := s']> (hvs_heap hvs)) hvs, r)
  | None => (hvs, Panic "invalid memory address or nil pointer dereference")
  end.

Section HeightVoteSets.
Context `{Crypto} `{Cramberry}.

Definition HeightVoteSet_AddVote (now : Z) (vote : Vote) (hvs : HeightVoteSet)
    : HeightVoteSet * res bool :=
  if! negb (vt_Height vote =? hvs_height hvs) return (hvs, Err ErrInvalidHeight) in
  if vt_Type vote =? VoteTypePrevote then
    let '(hvs, l) := prevotes_at hvs (vt_Round vote) in
    call l (fun s => VoteSet_AddVote now (hvs_generation hvs) s vote) hvs
  else if vt_Type vote =? VoteTypePrecommit then
    let '(hvs, l) := precommits_at hvs (vt_Round vote) in
    call l (fun s => VoteSet_AddVote now (hvs_generation hvs) s vote) hvs
  else (hvs, Err ErrInvalidVote).

Definition AddVoteForReplay (vote : Vote) (hvs : HeightVoteSet) : HeightVoteSet * res bool :=
  if! negb (vt_Height vote =? hvs_height hvs) return (hvs, Err ErrInvalidHeight) in
  if vt_Type vote =? VoteTypePrevote then
    let '(hvs, l) := prevotes_at hvs (vt_Round vote) in
    call l (fun s => addVoteForReplay (hvs_generation hvs) s vote) hvs
  else if vt_Type vote =? VoteTypePrecommit then
    let '(hvs, l) := precommits_at hvs (vt_Round vote) in
    call l (fun s => addVoteForReplay (hvs_generation hvs) s vote) hvs
  else (hvs, Err ErrInvalidVote).

(** [AddVote] called on a vote set obtained earlier. *)
Definition call_AddVote (now : Z) (l : nat) (vote : Vote) (hvs : HeightVoteSet)
    : HeightVoteSet * res bool :=
  call l (fun s => VoteSet_AddVote now (hvs_generation hvs) s vote) hvs.

Definition Prevotes (hvs : HeightVoteSet) (round : Z) : option nat := hvs_prevotes hvs !! round.
Definition Precommits (hvs : HeightVoteSet) (round : Z) : option nat := hvs_precommits hvs !! round.

Definition call_SetPeerMaj23 (l : nat) (peerID : string) (blockHash : option Hash)
    (hvs : HeightVoteSet) : HeightVoteSet :=
  match hvs_heap hvs !! l with
  | Some s => with_heap (<[l := VoteSet_SetPeerMaj23 peerID blockHash s]> (hvs_heap hvs)) hvs
  | None => hvs
  end.

Definition HeightVoteSet_SetPeerMaj23 (peerID : string) (round voteType : Z)
    (blockHash : option Hash) (hvs : HeightVoteSet) : HeightVoteSet :=
  let '(hvs, l) := if voteType =? VoteTypePrevote then prevotes_at hvs round
                   else precommits_at hvs round in
  call_SetPeerMaj23 l peerID blockHash hvs.

Definition Reset (height : Z) (valSet : ValidatorSet) (hvs : HeightVoteSet) : HeightVoteSet :=
  mkHeightVoteSet (hvs_chainID hvs) height valSet ∅ ∅ (u64 (hvs_generation hvs + 1)) (hvs_heap hvs).

(** The operations of the exported interface, as the users of a [HeightVoteSet] interleave
    them; sets obtained from [Prevotes] or [Precommits] may be used at any later time. The
    generation counter is assumed not to have gone through all its 2^64 values. *)
Inductive hvs_step : HeightVoteSet -> HeightVoteSet -> Prop :=
| step_AddVote now vote hvs : hvs_step hvs (HeightVoteSet_AddVote now vote hvs).1
| step_AddVoteForReplay vote hvs : hvs_step hvs (AddVoteForReplay vote hvs).1
| step_call_AddVote now l vote hvs : hvs_step hvs (call_AddVote now l vote hvs).1
| step_SetPeerMaj23 p r t h hvs : hvs_step hvs (HeightVoteSet_SetPeerMaj23 p r t h hvs)
| step_call_SetPeerMaj23 l p h hvs : hvs_step hvs (call_SetPeerMaj23 l p h hvs)
| step_Reset height vals hvs :
    ValidatorSet_wf vals -> hvs_generation hvs < 2 ^ 64 - 1 -> hvs_step hvs (Reset height vals hvs).

(** A current set: it belongs to the height, and is not stale. *)
Definition set_current (hvs : HeightVoteSet) (typ round : Z) (s : VoteSet) : Prop :=
  vset_chainID s = hvs_chainID hvs /\ vset_height s = hvs_height hvs /\ vset_round s = round /\
  vset_voteType s = typ /\ vset_validatorSet s = hvs_validatorSet hvs /\
  vset_myGeneration s = hvs_generation hvs.

Definition sets_current (hvs : HeightVoteSet) (typ : Z) (m : gmap Z nat) : Prop :=
  forall r l, m !! r = Some l -> exists s, hvs_heap hvs !! l = Some s /\ set_current hvs typ r s.

(** [gens] tells whether the generation counter has not wrapped around: then no set is from a
    later generation. *)
Record HeightVoteSet_inv (gens : Prop) (hvs : HeightVoteSet) : Prop := {
  hok_vals : ValidatorSet_wf (hvs_validatorSet hvs);
  hok_gen : gens -> 0 <= hvs_generation hvs < 2 ^ 64;
  hok_heap : forall l s, hvs_heap hvs !! l = Some s ->
    (exists log, represents s log) /\ vset_parent s = true /\
    (gens -> vset_myGeneration s <= hvs_generation hvs);
  hok_prevotes : sets_current hvs VoteTypePrevote (hvs_prevotes hvs);
  hok_precommits : sets_current hvs VoteTypePrecommit (hvs_precommits hvs) }.

Definition HeightVoteSet_ok (hvs : HeightVoteSet) : Prop := HeightVoteSet_inv True hvs.
End HeightVoteSets.

(** ** Lemmas: the heap of vote sets *)

(** The fields fixed when a set is created. *)
Definition same_static (s s' : VoteSet) : Prop :=
  vset_chainID s' = vset_chainID s /\ vset_height s' = vset_height s /\
  vset_round s' = vset_round s /\ vset_voteType s' = vset_voteType s /\
  vset_validatorSet s' = vset_validatorSet s /\ vset_parent s' = vset_parent s /\
  vset_myGeneration s' = vset_myGeneration s.

Lemma same_static_refl s : same_static s s.
Proof. done. Qed.

Lemma set_current_static hvs typ r s s' :
  same_static s s' -> set_current hvs typ r s -> set_current hvs typ r s'.
Proof.
  unfold same_static, set_current. intros (-> & -> & -> & -> & -> & _ & ->). done.
Qed.

Section HeapLemmas.
Context `{Crypto} `{Cramberry}.

Lemma addVoteInternal_static s vote : same_static s (addVoteInternal s vote).1.
Proof. unfold addVoteInternal. repeat (case_match; try done). Qed.

Lemma AddVote_static now gen s vote : same_static s (VoteSet_AddVote now gen s vote).1.
Proof. unfold VoteSet_AddVote. repeat (case_match; [done|]). apply addVoteInternal_static. Qed.

Lemma addVoteForReplay_static gen s vote : same_static s (addVoteForReplay gen s vote).1.
Proof. unfold addVoteForReplay. repeat (case_match; [done|]). apply addVoteInternal_static. Qed.

Lemma addVoteForReplay_represents gen s log vote :
  represents s log -> exists log', represents (addVoteForReplay gen s vote).1 (log ++ log').
Proof.
  intros Hr. unfold addVoteForReplay.
  assert (Hid : exists log', represents s (log ++ log')) by (exists []; by rewrite app_nil_r).
  destruct (is_stale gen s); [done|]. destruct (vote_matches s vote) eqn:Hm; [|done]. cbn [negb].
  pose proof (addVoteInternal_cases _ _ _ Hr Hm) as Ho.
  destruct (addVoteInternal s vote) as [s' [[]| |]]; cbn in *; [|destruct Ho as [-> _]; done..].
  exists [vote]. apply Ho.
Qed.

Lemma SetPeerMaj23_represents p h s log :
  represents s log -> represents (VoteSet_SetPeerMaj23 p h s) log.
Proof. by intros []. Qed.

Lemma sets_current_update hvs typ m l s s' :
  hvs_heap hvs !! l = Some s -> same_static s s' ->
  sets_current hvs typ m -> sets_current (with_heap (<[l := s']> (hvs_heap hvs)) hvs) typ m.
Proof.
  intros Hl Hs Hm r k Hk. destruct (Hm _ _ Hk) as (t & Ht & Hcur). cbn.
  destruct (decide (l = k)) as [<-|Hne].
  - pose proof (lookup_lt_Some _ _ _ Hl). exists s'. rewrite list_lookup_insert_eq by done.
    split; [done|].
    assert (s = t) as -> by congruence. by eapply (set_current_static hvs).
  - exists t. by rewrite list_lookup_insert_ne.
Qed.

(** Updating one set of the heap. *)
Lemma with_heap_ok gens hvs l s s' :
  HeightVoteSet_inv gens hvs -> hvs_heap hvs !! l = Some s -> same_static s s' ->
  (exists log, represents s' log) -> HeightVoteSet_inv gens (with_heap (<[l := s']> (hvs_heap hvs)) hvs).
Proof.
  intros [Hv Hg Hh Hp Hc] Hl Hs Hr. split; try by eapply sets_current_update. all: cbn; try done.
  intros k t [(<- & <- & _)|[_ Hk]]%list_lookup_insert_Some; [|by eapply Hh].
  destruct (Hh _ _ Hl) as (_ & ? & ?). destruct Hs as (_ & _ & _ & _ & _ & -> & ->). done.
Qed.

Lemma call_ok {A} gens hvs l (f : VoteSet -> VoteSet * res A) :
  HeightVoteSet_inv gens hvs ->
  (forall s, same_static s (f s).1 /\
     forall log, represents s log -> exists log', represents (f s).1 (log ++ log')) ->
  HeightVoteSet_inv gens (call l f hvs).1.
Proof.
  intros Hok Hf. unfold call. destruct (hvs_heap hvs !! l) as [s|] eqn:Hl; [|done].
  destruct (Hf s) as [Hs Hr]. destruct (f s) as [s' r] eqn:E. cbn in *.
  apply (with_heap_ok _ _ _ s); [done..|]. destruct (hok_heap _ _ Hok _ _ Hl) as ([log Hlog] & _).
  destruct (Hr _ Hlog) as [log' ?]. eauto.
Qed.

(** Allocation of a missing set. *)
Lemma sets_current_grow hvs hvs' typ m s :
  hvs_chainID hvs' = hvs_chainID hvs -> hvs_height hvs' = hvs_height hvs ->
  hvs_validatorSet hvs' = hvs_validatorSet hvs -> hvs_generation hvs' = hvs_generation hvs ->
  hvs_heap hvs' = hvs_heap hvs ++ [s] -> sets_current hvs typ m -> sets_current hvs' typ m.
Proof.
  intros E1 E2 E3 E4 E5 Hm r l Hl. destruct (Hm _ _ Hl) as (t & Ht & Hcur). exists t.
  unfold set_current in *. rewrite E1, E2, E3, E4, E5. split; [by apply lookup_app_l_Some|done].
Qed.

Lemma new_current hvs hvs' typ m r :
  hvs_chainID hvs' = hvs_chainID hvs -> hvs_height hvs' = hvs_height hvs ->
  hvs_validatorSet hvs' = hvs_validatorSet hvs -> hvs_generation hvs' = hvs_generation hvs ->
  hvs_heap hvs' = hvs_heap hvs ++ [newVoteSetWithParent hvs r typ] ->
  sets_current hvs typ m -> sets_current hvs' typ (<[r := length (hvs_heap hvs)]> m).
Proof.
  intros E1 E2 E3 E4 E5 Hm q l [(<- & <-)|[_ Hl]]%lookup_insert_Some.
  - eexists. rewrite E5, list_lookup_middle by done. split; [done|]. unfold set_current.
    by rewrite E1, E2, E3, E4.
  - by eapply (sets_current_grow hvs hvs').
Qed.

Lemma new_set_represents gens hvs r typ :
  HeightVoteSet_inv gens hvs -> represents (newVoteSetWithParent hvs r typ) [].
Proof. intros Hok. destruct (NewVoteSet_represents (hvs_chainID hvs) (hvs_height hvs) r typ _ (hok_vals _ _ Hok)). done. Qed.

Lemma heap_snoc_ok gens hvs r typ l s :
  HeightVoteSet_inv gens hvs -> (hvs_heap hvs ++ [newVoteSetWithParent hvs r typ]) !! l = Some s ->
  (exists log, represents s log) /\ vset_parent s = true /\ (gens -> vset_myGeneration s <= hvs_generation hvs).
Proof.
  intros Hok [Hl|[_ Hl]]%lookup_app_Some; [by eapply hok_heap|].
  apply list_lookup_singleton_Some in Hl as [_ <-]. split_and!; [|done|done].
  exists []. by eapply new_set_represents.
Qed.

Lemma prevotes_at_ok gens hvs r :
  HeightVoteSet_inv gens hvs -> HeightVoteSet_inv gens (prevotes_at hvs r).1.
Proof.
  intros Hok. unfold prevotes_at. destruct (hvs_prevotes hvs !! r) eqn:E; [done|].
  pose proof Hok as [Hv Hg Hh Hp Hc]. split; cbn; [done|done|..].
  - intros l s. by apply heap_snoc_ok.
  - by apply (new_current hvs).
  - by eapply (sets_current_grow hvs).
Qed.

Lemma precommits_at_ok gens hvs r :
  HeightVoteSet_inv gens hvs -> HeightVoteSet_inv gens (precommits_at hvs r).1.
Proof.
  intros Hok. unfold precommits_at. destruct (hvs_precommits hvs !! r) eqn:E; [done|].
  pose proof Hok as [Hv Hg Hh Hp Hc]. split; cbn; [done|done|..].
  - intros l s. by apply heap_snoc_ok.
  - by eapply (sets_current_grow hvs).
  - by apply (new_current hvs).
Qed.

Lemma call_SetPeerMaj23_ok gens l p h hvs :
  HeightVoteSet_inv gens hvs -> HeightVoteSet_inv gens (call_SetPeerMaj23 l p h hvs).
Proof.
  intros Hok. unfold call_SetPeerMaj23. destruct (hvs_heap hvs !! l) as [s|] eqn:Hl; [|done].
  apply (with_heap_ok _ _ _ s); [done..|]. destruct (hok_heap _ _ Hok _ _ Hl) as ([log Hlog] & _).
  exists log. by apply SetPeerMaj23_represents.
Qed.

Lemma AddVote_keeps now gen s vote :
  same_static s (VoteSet_AddVote now gen s vote).1 /\
  forall log, represents s log ->
    exists log', represents (VoteSet_AddVote now gen s vote).1 (log ++ log').
Proof. split; [apply AddVote_static|]. intros log Hr. by apply VoteSet_AddVote_represents. Qed.

Lemma addVoteForReplay_keeps gen s vote :
  same_static s (addVoteForReplay gen s vote).1 /\
  forall log, represents s log ->
    exists log', represents (addVoteForReplay gen s vote).1 (log ++ log').
Proof. split; [apply addVoteForReplay_static|]. intros log Hr. by apply addVoteForReplay_represents. Qed.

Lemma Reset_ok gens height vals hvs :
  HeightVoteSet_inv gens hvs -> ValidatorSet_wf vals -> (gens -> hvs_generation hvs < 2 ^ 64 - 1) ->
  HeightVoteSet_inv gens (Reset height vals hvs).
Proof.
  intros [Hv Hg Hh Hp Hc] Hw Hlt. unfold Reset, u64.
  assert (Hu : gens -> (hvs_generation hvs + 1) `mod` 2 ^ 64 = hvs_generation hvs + 1).
  { intros G. specialize (Hg G). specialize (Hlt G). by rewrite Z.mod_small by lia. }
  split; cbn; [done| | |..].
  - intros G. rewrite Hu by done. specialize (Hg G). specialize (Hlt G). lia.
  - intros l s Hl. destruct (Hh _ _ Hl) as (? & ? & Hle). split_and!; [done..|].
    intros G. rewrite Hu by done. specialize (Hle G). lia.
  - intros ? ? Hl. by rewrite lookup_empty in Hl.
  - intros ? ? Hl. by rewrite lookup_empty in Hl.
Qed.

Lemma HeightVoteSet_AddVote_ok gens now vote hvs :
  HeightVoteSet_inv gens hvs -> HeightVoteSet_inv gens (HeightVoteSet_AddVote now vote hvs).1.
Proof.
  intros Hok. unfold HeightVoteSet_AddVote. case_match; [done|].
  pose proof (prevotes_at_ok gens _ (vt_Round vote) Hok).
  pose proof (precommits_at_ok gens _ (vt_Round vote) Hok).
  case_match; [|case_match; [|done]]; repeat case_match; cbn in *;
    (apply call_ok; [done|intros; apply AddVote_keeps]).
Qed.

Lemma hvs_step_ok gens hvs hvs' :
  HeightVoteSet_inv gens hvs -> hvs_step hvs hvs' -> HeightVoteSet_inv gens hvs'.
Proof.
  intros Hok Hs. destruct Hs.
  - by apply HeightVoteSet_AddVote_ok.
  - unfold AddVoteForReplay. case_match; [done|].
    pose proof (prevotes_at_ok gens _ (vt_Round vote) Hok). pose proof (precommits_at_ok gens _ (vt_Round vote) Hok).
    case_match; [|case_match; [|done]]; repeat case_match; cbn in *;
      (apply call_ok; [done|intros; apply addVoteForReplay_keeps]).
  - apply call_ok; [done|intros; apply AddVote_keeps].
  - unfold HeightVoteSet_SetPeerMaj23.
    pose proof (prevotes_at_ok gens _ r Hok). pose proof (precommits_at_ok gens _ r Hok).
    destruct (prevotes_at hvs r), (precommits_at hvs r). cbn in *.
    destruct (t =? VoteTypePrevote); by apply call_SetPeerMaj23_ok.
  - by apply call_SetPeerMaj23_ok.
  - by apply Reset_ok.
Qed.
End HeapLemmas.

Section Properties.
Context `{Crypto} `{Cramberry}.

Lemma NewHeightVoteSet_ok gens chainID height vals :
  ValidatorSet_wf vals -> HeightVoteSet_inv gens (NewHeightVoteSet chainID height vals).
Proof. intros Hw. split; cbn; [done|lia|done|..]; intros ? ? Hl; by rewrite lookup_empty in Hl. Qed.

Lemma reachable_ok chainID height vals hvs :
  ValidatorSet_wf vals -> rtc hvs_step (NewHeightVoteSet chainID height vals) hvs ->
  HeightVoteSet_ok hvs.
Proof.
  intros Hw Hs. pose proof (NewHeightVoteSet_ok True chainID height vals Hw) as H0'.
  revert H0'. induction Hs as [|x y z Hxy _ IH]; intros Hok; [done|]. apply IH. by eapply hvs_step_ok.
Qed.

(** C30: every state of a [HeightVoteSet] that its interface can reach, with handles to
    vote sets used at any time, is consistent: the current sets belong to the height, round
    and type under which they are stored and to the current generation, and each set, stale
    ones included, is the tally of a log of valid votes by distinct validators. *)
Theorem HeightVoteSet_invariant chainID height vals hvs :
  ValidatorSet_wf vals -> rtc hvs_step (NewHeightVoteSet chainID height vals) hvs ->
  HeightVoteSet_ok hvs.
Proof. apply reachable_ok. Qed.

(** C14: a commit made from the precommits of a round passes [VerifyCommit] against the
    validator set of the height, whatever the sequence of operations that collected them. *)
Theorem MakeCommit_verifies chainID height vals hvs r l s c :
  ValidatorSet_wf vals -> rtc hvs_step (NewHeightVoteSet chainID height vals) hvs ->
  Precommits hvs r = Some l -> hvs_heap hvs !! l = Some s -> MakeCommit s = Some c ->
  cm_Round c = r /\
  VerifyCommit (hvs_chainID hvs) (Some (hvs_validatorSet hvs)) (cm_BlockHash c) (hvs_height hvs)
    (Some c) = Ret tt.
Proof.
  intros Hw Hs%reachable_ok Hl Hh Hm; [|done]. destruct (hok_precommits _ _ Hs _ _ Hl) as (s' & Hs' & Hcur).
  assert (s' = s) as -> by congruence. destruct (hok_heap _ _ Hs _ _ Hh) as ([log Hlog] & _).
  pose proof (MakeCommit_cases _ _ Hlog) as Hc. rewrite Hm in Hc. destruct Hc as (Ht & h & Hne & Hq & ->).
  destruct Hcur as (E1 & E2 & E3 & _ & E5 & _). split; [done|].
  apply VerifyCommit_ok; [apply (hok_vals _ _ Hs)|]. rewrite <- E1, <- E2, <- E5.
  by apply commit_of_log_ok.
Qed.

(** [MakeCommit] returns a commit exactly when the set tallies precommits and a
    non-nil block has a quorum; the commit names that block and holds one signature per vote
    for it, in an order that does not depend on the map iteration. *)
Theorem MakeCommit_spec vset log c :
  represents vset log ->
  MakeCommit vset = Some c <->
  vset_voteType vset = VoteTypePrecommit /\
  exists h, IsHashEmpty (Some h) = false /\
    has_quorum (vset_validatorSet vset) log (blockHashKey (Some h)) /\
    cm_Height c = vset_height vset /\ cm_Round c = vset_round vset /\ cm_BlockHash c = h /\
    Sorted sig_index_le (cm_Signatures c) /\
    cm_Signatures c ≡ₚ commit_sig_of <$> same_block (blockHashKey (Some h)) log.
Proof.
  intros Hr. pose proof (MakeCommit_cases _ _ Hr) as Hc.
  assert (Hlog : forall h, IsHashEmpty (Some h) = false ->
    Sorted sig_index_le (commit_sigs h log) /\
    commit_sigs h log ≡ₚ commit_sig_of <$> same_block (blockHashKey (Some h)) log).
  { intros h Hh. split; [apply (Sorted_merge_sort _)|by apply commit_sigs_key]. }
  split.
  - intros E. rewrite E in Hc. destruct Hc as (? & h & Hh & Hq & ->). split; [done|].
    exists h. destruct (Hlog h Hh). split_and!; done.
  - intros (Ht & h & Hh & Hq & E1 & E2 & E3 & Hs & Hp).
    destruct (MakeCommit vset) as [c'|]; [|by destruct (Hc Ht h Hh)].
    destruct Hc as (_ & h' & Hh' & Hq' & ->). f_equal.
    assert (h' = h) as ->.
    { assert (blockHashKey (Some h') = blockHashKey (Some h)) as E.
      { eapply quorum_unique; [apply (rep_vals _ _ Hr)|apply (rep_distinct _ _ Hr)|done..]. }
      apply blockHashKey_Some in E; [|done]. congruence. }
    unfold commit_of_log. destruct c. cbn in *. subst. f_equal. destruct (Hlog h Hh) as [Hs' Hp'].
    apply sorted_sigs_unique; [|done..|by rewrite Hp', Hp].
    rewrite Hp'. apply sig_NoDup, (rep_distinct _ _ Hr).
Qed.
End Properties.

Section Stale.
Context `{Crypto} `{Cramberry}.

(** [s] sits at [l] and was created for an earlier generation; later states keep it there
    with the same votes. *)
Definition stale_at (l : nat) (s : VoteSet) (hvs : HeightVoteSet) : Prop :=
  exists s2, hvs_heap hvs !! l = Some s2 /\ same_static s s2 /\ vset_votes s2 = vset_votes s /\
    vset_parent s2 = true /\ vset_myGeneration s2 < hvs_generation hvs.

Lemma stale_prevotes_at l s hvs r : stale_at l s hvs -> stale_at l s (prevotes_at hvs r).1.
Proof.
  intros (s2 & Hl & ?). unfold prevotes_at. case_match; exists s2; [done|].
  split; [by apply lookup_app_l_Some|done].
Qed.

Lemma stale_precommits_at l s hvs r : stale_at l s hvs -> stale_at l s (precommits_at hvs r).1.
Proof.
  intros (s2 & Hl & ?). unfold precommits_at. case_match; exists s2; [done|].
  split; [by apply lookup_app_l_Some|done].
Qed.

Lemma stale_with_heap l s hvs k t t' :
  hvs_heap hvs !! k = Some t -> same_static t t' -> (l = k -> vset_votes t' = vset_votes t) ->
  stale_at l s hvs -> stale_at l s (with_heap (<[k := t']> (hvs_heap hvs)) hvs).
Proof.
  intros Hk Ht Hv (s2 & Hl & Hs & Hvs & Hp & Hg). destruct (decide (k = l)) as [->|Hne].
  - pose proof (lookup_lt_Some _ _ _ Hl). exists t'. cbn. rewrite list_lookup_insert_eq by done.
    assert (t = s2) as -> by congruence. rewrite Hv by done.
    unfold same_static in *. destruct_and!. split_and!; congruence.
  - exists s2. cbn. by rewrite list_lookup_insert_ne.
Qed.

Lemma is_stale_true gen s :
  vset_parent s = true -> vset_myGeneration s < gen -> is_stale gen s = true.
Proof. unfold is_stale. intros -> Hg. destruct (Z.eqb_spec gen (vset_myGeneration s)); [lia|done]. Qed.

Lemma stale_call {A} l s hvs k (f : VoteSet -> VoteSet * res A) :
  (forall t, same_static t (f t).1) ->
  (forall t, is_stale (hvs_generation hvs) t = true -> (f t).1 = t) ->
  stale_at l s hvs -> stale_at l s (call k f hvs).1.
Proof.
  intros Hf Hst Hs. unfold call. destruct (hvs_heap hvs !! k) as [t|] eqn:Hk; [|done].
  specialize (Hf t). specialize (Hst t). destruct (f t) as [t' r]. cbn in *.
  apply (stale_with_heap _ _ _ _ t); [done..| |done].
  intros <-. destruct Hs as (s2 & Hl & _ & _ & Hp & Hg). assert (t = s2) as -> by congruence.
  by rewrite Hst by (by apply is_stale_true).
Qed.

Lemma AddVote_stale now gen s vote :
  is_stale gen s = true -> VoteSet_AddVote now gen s vote = (s, Err ErrStaleVoteSet).
Proof. intros Hs. unfold VoteSet_AddVote. by rewrite Hs. Qed.

Lemma addVoteForReplay_stale gen s vote :
  is_stale gen s = true -> addVoteForReplay gen s vote = (s, Err ErrStaleVoteSet).
Proof. intros Hs. unfold addVoteForReplay. by rewrite Hs. Qed.

Lemma stale_call_SetPeerMaj23 l s hvs k p h :
  stale_at l s hvs -> stale_at l s (call_SetPeerMaj23 k p h hvs).
Proof.
  intros Hs. unfold call_SetPeerMaj23. destruct (hvs_heap hvs !! k) as [t|] eqn:Hk; [|done].
  by apply (stale_with_heap _ _ _ _ t).
Qed.

Lemma stale_step l s hvs hvs' :
  HeightVoteSet_ok hvs -> stale_at l s hvs -> hvs_step hvs hvs' -> stale_at l s hvs'.
Proof.
  assert (HA : forall now vote h k, stale_at l s h ->
    stale_at l s (call k (fun t => VoteSet_AddVote now (hvs_generation h) t vote) h).1).
  { intros. apply stale_call; [intros; apply AddVote_static| |done]. intros. by rewrite AddVote_stale. }
  assert (HR : forall vote h k, stale_at l s h ->
    stale_at l s (call k (fun t => addVoteForReplay (hvs_generation h) t vote) h).1).
  { intros. apply stale_call; [intros; apply addVoteForReplay_static| |done].
    intros. by rewrite addVoteForReplay_stale. }
  intros Hok Hs Hstep. destruct Hstep.
  - unfold HeightVoteSet_AddVote. case_match; [done|].
    pose proof (stale_prevotes_at _ _ _ (vt_Round vote) Hs). pose proof (stale_precommits_at _ _ _ (vt_Round vote) Hs).
    destruct (prevotes_at hvs (vt_Round vote)), (precommits_at hvs (vt_Round vote)).
    repeat (case_match; [by apply HA|]). done.
  - unfold AddVoteForReplay. case_match; [done|].
    pose proof (stale_prevotes_at _ _ _ (vt_Round vote) Hs). pose proof (stale_precommits_at _ _ _ (vt_Round vote) Hs).
    destruct (prevotes_at hvs (vt_Round vote)), (precommits_at hvs (vt_Round vote)).
    repeat (case_match; [by apply HR|]). done.
  - by apply HA.
  - unfold HeightVoteSet_SetPeerMaj23.
    pose proof (stale_prevotes_at _ _ _ r Hs). pose proof (stale_precommits_at _ _ _ r Hs).
    destruct (prevotes_at hvs r), (precommits_at hvs r).
    destruct (t =? VoteTypePrevote); by apply stale_call_SetPeerMaj23.
  - by apply stale_call_SetPeerMaj23.
  - destruct Hs as (s2 & ? & ? & ? & ? & ?). pose proof (hok_gen _ _ Hok I). exists s2.
    unfold Reset, u64. cbn. rewrite Z.mod_small by lia. split_and!; try done. lia.
Qed.

(** A vote set obtained before [Reset] is dead: at any later time, [AddVote] on it
    returns [ErrStaleVoteSet] and changes nothing, and its votes are those it had. *)
Theorem stale_set_rejects chainID h0 vals0 hvs height vals hvs2 l s now vote :
  ValidatorSet_wf vals0 -> rtc hvs_step (NewHeightVoteSet chainID h0 vals0) hvs ->
  hvs_heap hvs !! l = Some s ->
  ValidatorSet_wf vals -> hvs_generation hvs < 2 ^ 64 - 1 ->
  rtc hvs_step (Reset height vals hvs) hvs2 ->
  (exists s2, hvs_heap hvs2 !! l = Some s2 /\ vset_votes s2 = vset_votes s) /\
  call_AddVote now l vote hvs2 = (hvs2, Err ErrStaleVoteSet).
Proof.
  intros Hw0 Hr Hl Hw Hg Hs. pose proof (reachable_ok _ _ _ _ Hw0 Hr) as Hok.
  assert (Hok' : HeightVoteSet_ok (Reset height vals hvs)) by (eapply hvs_step_ok; [done|by constructor]).
  assert (Hst : stale_at l s (Reset height vals hvs)).
  { destruct (hok_heap _ _ Hok _ _ Hl) as (_ & Hp & Hle). pose proof (hok_gen _ _ Hok I). exists s.
    unfold Reset, u64. cbn. rewrite Z.mod_small by lia. split_and!; try done. lia. }
  assert (HI : stale_at l s hvs2).
  { clear Hr Hok. revert Hok' Hst. induction Hs as [|x y z Hxy _ IH]; intros Hok' Hst; [done|].
    apply IH; [by eapply hvs_step_ok|by eapply stale_step]. }
  destruct HI as (s2 & Hl2 & _ & Hv & Hp & Hg2). split; [by exists s2|].
  unfold call_AddVote, call. rewrite Hl2, AddVote_stale by (by apply is_stale_true).
  rewrite list_insert_id by done. by destruct hvs2.
Qed.
End Stale.

Section Majority.
Context `{Crypto} `{Cramberry}.

Lemma TwoThirds_cases vset log :
  represents vset log ->
  match VoteSet_TwoThirdsMajority vset with
  | (h, true) => has_quorum (vset_validatorSet vset) log (blockHashKey h) /\
                 h = vt_BlockHash (hd zeroVote (same_block (blockHashKey h) log))
  | (h, false) => h = None /\ forall k, ~ has_quorum (vset_validatorSet vset) log k
  end.
Proof.
  intros Hr. unfold VoteSet_TwoThirdsMajority, blockVotes_at.
  destruct (vset_maj23 vset) as [k|] eqn:Ek.
  - pose proof (proj1 (rep_maj23 _ _ Hr k) Ek) as Hq. rewrite (rep_blocks _ _ Hr), CopyHash_id.
    destruct (same_block k log) as [|v l] eqn:Es.
    { unfold has_quorum in Hq. rewrite Es in Hq. cbn in Hq. pose proof (wf_total_pos _ (rep_vals _ _ Hr)). lia. }
    cbn. assert (Hv : v ∈ same_block k log) by (rewrite Es; constructor).
    apply same_block_elem in Hv as [-> _]. by rewrite Es.
  - split; [done|]. intros k Hq%(rep_maj23 _ _ Hr). congruence.
Qed.

Lemma HasAll_length vset log :
  represents vset log ->
  HasAll vset = true <-> length log = length (vals_Validators (vset_validatorSet vset)).
Proof.
  intros Hr. unfold HasAll, vals_Size, len. rewrite Z.eqb_eq.
  rewrite <- (rep_votes_Permutation _ _ Hr), length_fmap, length_map_to_list. lia.
Qed.

(** Distinct voters are as many as the validators when every validator voted. *)
Lemma all_voted vals log :
  ValidatorSet_core vals -> NoDup (vt_ValidatorIndex <$> log) ->
  (forall v, v ∈ log -> is_Some (GetByIndex vals (vt_ValidatorIndex v))) ->
  length log = length (vals_Validators vals) <->
  forall val, val ∈ vals_Validators vals -> exists v, v ∈ log /\ vt_ValidatorIndex v = nv_Index val.
Proof.
  intros Hc Hn Hv.
  assert (Hs : (vt_ValidatorIndex <$> log) ⊆ (nv_Index <$> vals_Validators vals)).
  { intros i (v & -> & Hin)%list_elem_of_fmap. destruct (Hv v Hin) as [val Hg].
    apply (GetByIndex_Some _ _ _ Hc) in Hg as (Hval & <- & _). by apply list_elem_of_fmap_2. }
  pose proof (NoDup_submseteq _ _ Hn Hs) as Hsub. split.
  - intros Hl val Hval. apply submseteq_length_Permutation in Hsub; [|rewrite !length_fmap; lia].
    assert (nv_Index val ∈ (vt_ValidatorIndex <$> log)) as (v & E & ?)%list_elem_of_fmap; [|eauto].
    rewrite Hsub. by apply list_elem_of_fmap_2.
  - intros Hall. apply submseteq_length in Hsub. rewrite !length_fmap in Hsub.
    assert (Hn2 : NoDup (nv_Index <$> vals_Validators vals)).
    { apply NoDup_alt. intros i j z Hi Hj. rewrite list_lookup_fmap in Hi, Hj.
      destruct (vals_Validators vals !! i) eqn:Ei, (vals_Validators vals !! j) eqn:Ej; cbn in *; try done.
      apply (core_entry _ Hc) in Ei as (? & _), Ej as (? & _). simplify_eq. lia. }
    assert (Hs2 : (nv_Index <$> vals_Validators vals) ⊆ (vt_ValidatorIndex <$> log)).
    { intros i (val & -> & Hin)%list_elem_of_fmap. destruct (Hall val Hin) as (v & ? & <-).
      by apply list_elem_of_fmap_2. }
    pose proof (submseteq_length _ _ (NoDup_submseteq _ _ Hn2 Hs2)) as Hle.
    rewrite !length_fmap in Hle. lia.
Qed.

(** [TwoThirdsMajority] reports a block (or nil) exactly when voters of more than
    two thirds of the total power voted for it; at most one block can have such a quorum,
    and the report stays the same when votes are added. *)
Theorem TwoThirdsMajority_stable vset log now gen vote h :
  represents vset log -> VoteSet_TwoThirdsMajority vset = (h, true) ->
  has_quorum (vset_validatorSet vset) log (blockHashKey h) /\
  (forall k, has_quorum (vset_validatorSet vset) log k -> k = blockHashKey h) /\
  VoteSet_TwoThirdsMajority (VoteSet_AddVote now gen vset vote).1 = (h, true).
Proof.
  intros Hr Hm. pose proof (TwoThirds_cases _ _ Hr) as Hc. rewrite Hm in Hc. destruct Hc as [Hq Hh].
  split_and!; [done|..].
  { intros k Hk. eapply quorum_unique; [apply (rep_vals _ _ Hr)|apply (rep_distinct _ _ Hr)|done..]. }
  destruct (VoteSet_AddVote_represents now gen vset log vote Hr) as ([log' Hr'] & _).
  pose proof (TwoThirds_cases _ _ Hr') as Hc. destruct (AddVote_static now gen vset vote) as (_ & _ & _ & _ & E & _).
  rewrite E in Hc. apply (has_quorum_mono _ _ log') in Hq as Hq'; [|by eapply rep_core].
  destruct (VoteSet_TwoThirdsMajority (VoteSet_AddVote now gen vset vote).1) as [h' []];
    [|by destruct Hc as [_ Hno]; destruct (Hno _ Hq')].
  destruct Hc as [Hq2 Hh2]. f_equal.
  assert (blockHashKey h' = blockHashKey h) as Ek.
  { eapply quorum_unique; [apply (rep_vals _ _ Hr)|apply (rep_distinct _ _ Hr')|done..]. }
  destruct (same_block (blockHashKey h) log) as [|v l] eqn:Es.
  { unfold has_quorum in Hq. rewrite Es in Hq. cbn in Hq. pose proof (wf_total_pos _ (rep_vals _ _ Hr)). lia. }
  rewrite Ek, same_block_app, Es in Hh2. cbn in *. congruence.
Qed.

(** The derived queries agree with the log: the stored votes are those of the log,
    [HasTwoThirdsAny] means that the voters hold more than two thirds of the total power, and
    [HasAll] that every validator has voted. *)
Theorem VoteSet_queries vset log :
  represents vset log ->
  VoteSet_GetVotes vset ≡ₚ log /\ Sorted index_le (VoteSet_GetVotes vset) /\
  (HasTwoThirdsAny vset = true <->
   2 * vals_TotalPower (vset_validatorSet vset) < 3 * sumZ (vote_power (vset_validatorSet vset)) log) /\
  (HasAll vset = true <->
   forall val, val ∈ vals_Validators (vset_validatorSet vset) ->
     exists v, v ∈ log /\ vt_ValidatorIndex v = nv_Index val) /\
  forall h, GetVotesForBlock vset h = same_block (blockHashKey h) log.
Proof.
  intros Hr. pose proof (rep_core _ _ Hr) as Hc. pose proof (rep_votes_Permutation _ _ Hr) as Hp.
  assert (Hcp : forall l : list Vote, (fun v => default v (CopyVote (Some v))) <$> l = l).
  { intros l. apply fmap_id_ext. intros v. by rewrite CopyVote_id. }
  split_and!.
  - unfold VoteSet_GetVotes. by rewrite merge_sort_Permutation, Hcp.
  - apply Sorted_merge_sort. intros a b. unfold index_le. lia.
  - unfold HasTwoThirdsAny. rewrite (rep_sum _ _ Hr), Z.geb_leb, Z.leb_le.
    by apply TwoThirds_quorum, wf_total_pos, (rep_vals _ _ Hr).
  - rewrite (HasAll_length _ _ Hr). apply all_voted; [done|apply Hr|].
    intros v Hv. by destruct (rep_valid _ _ Hr v Hv) as [_ (val & m & ? & _)]; exists val.
  - intros h. unfold GetVotesForBlock. rewrite (rep_blocks _ _ Hr).
    destruct (same_block _ log); [done|]. apply Hcp.
Qed.
End Majority.

(** ** Examples *)

Definition vote_a : Vote := vote_of at_0 VoteTypePrecommit 1 0 (Some hash_1).
Definition vote_b : Vote := vote_of at_1 VoteTypePrecommit 1 0 (Some hash_1).

Definition vset_0 : VoteSet := NewVoteSet chain_c 1 0 VoteTypePrecommit set_ab.
Definition vset_b : VoteSet := (VoteSet_AddVote 5 0 vset_0 vote_b).1.

Lemma vset_0_log : represents vset_0 [].
Proof. apply NewVoteSet_represents, set_ab_wf. Qed.

Lemma vset_b_log : represents vset_b [vote_b].
Proof.
  pose proof (addVoteInternal_cases vset_0 [] vote_b vset_0_log eq_refl) as Ho.
  assert (E1 : (addVoteInternal vset_0 vote_b).2 = Ret true) by (vm_compute; reflexivity).
  assert (E2 : (addVoteInternal vset_0 vote_b).1 = vset_b) by reflexivity.
  destruct (addVoteInternal vset_0 vote_b) as [s r]. cbn in E1, E2. subst r s. apply Ho.
Qed.

Lemma AddVote_refines_log_witness :
  add_outcome vset_b [vote_b] vote_a (VoteSet_AddVote 5 0 vset_b vote_a).
Proof.
  apply (AddVote_refines_log 5 0 vset_b [vote_b] vote_a vset_b_log);
    [reflexivity|reflexivity|vm_compute; split; discriminate].
Defined.

Lemma TwoThirdsMajority_stable_witness :
  has_quorum (vset_validatorSet vset_b) [vote_b] (blockHashKey (Some hash_1)) /\
  (forall k, has_quorum (vset_validatorSet vset_b) [vote_b] k -> k = blockHashKey (Some hash_1)) /\
  VoteSet_TwoThirdsMajority (VoteSet_AddVote 5 0 vset_b vote_a).1 = (Some hash_1, true).
Proof.
  apply (TwoThirdsMajority_stable vset_b [vote_b] 5 0 vote_a (Some hash_1) vset_b_log).
  vm_compute. reflexivity.
Defined.

Lemma VoteSet_queries_witness :
  VoteSet_GetVotes vset_b ≡ₚ [vote_b] /\ Sorted index_le (VoteSet_GetVotes vset_b) /\
  (HasTwoThirdsAny vset_b = true <->
   2 * vals_TotalPower (vset_validatorSet vset_b) <
   3 * sumZ (vote_power (vset_validatorSet vset_b)) [vote_b]) /\
  (HasAll vset_b = true <->
   forall val, val ∈ vals_Validators (vset_validatorSet vset_b) ->
     exists v, v ∈ [vote_b] /\ vt_ValidatorIndex v = nv_Index val) /\
  forall h, GetVotesForBlock vset_b h = same_block (blockHashKey h) [vote_b].
Proof. apply (VoteSet_queries vset_b [vote_b]). exact vset_b_log. Defined.

Definition commit_b : Commit := mkCommit 1 0 hash_1 [commit_sig_of vote_b].

Lemma MakeCommit_spec_witness :
  MakeCommit vset_b = Some commit_b <->
  vset_voteType vset_b = VoteTypePrecommit /\
  exists h, IsHashEmpty (Some h) = false /\
    has_quorum (vset_validatorSet vset_b) [vote_b] (blockHashKey (Some h)) /\
    cm_Height commit_b = vset_height vset_b /\ cm_Round commit_b = vset_round vset_b /\
    cm_BlockHash commit_b = h /\ Sorted sig_index_le (cm_Signatures commit_b) /\
    cm_Signatures commit_b ≡ₚ commit_sig_of <$> same_block (blockHashKey (Some h)) [vote_b].
Proof. apply (MakeCommit_spec vset_b [vote_b] commit_b). exact vset_b_log. Defined.

Definition hvs_0 : HeightVoteSet := NewHeightVoteSet chain_c 1 set_ab.
Definition hvs_b : HeightVoteSet := (HeightVoteSet_AddVote 5 vote_b hvs_0).1.
Definition hset_b : VoteSet := default vset_0 (hvs_heap hvs_b !! 0%nat).

Lemma HeightVoteSet_invariant_witness : HeightVoteSet_ok hvs_b.
Proof.
  apply (HeightVoteSet_invariant chain_c 1 set_ab hvs_b set_ab_wf), rtc_once, step_AddVote.
Defined.

Lemma MakeCommit_verifies_witness :
  cm_Round commit_b = 0 /\
  VerifyCommit (hvs_chainID hvs_b) (Some (hvs_validatorSet hvs_b)) (cm_BlockHash commit_b)
    (hvs_height hvs_b) (Some commit_b) = Ret tt.
Proof.
  apply (MakeCommit_verifies chain_c 1 set_ab hvs_b 0 0%nat hset_b commit_b set_ab_wf);
    [apply rtc_once, step_AddVote|vm_compute; reflexivity..].
Defined.

Lemma stale_set_rejects_witness :
  (exists s2, hvs_heap (Reset 2 set_ab hvs_b) !! 0%nat = Some s2 /\ vset_votes s2 = vset_votes hset_b) /\
  call_AddVote 5 0 vote_a (Reset 2 set_ab hvs_b) = (Reset 2 set_ab hvs_b, Err ErrStaleVoteSet).
Proof.
  apply (stale_set_rejects chain_c 1 set_ab hvs_b 2 set_ab (Reset 2 set_ab hvs_b) 0 hset_b 5 vote_a
    set_ab_wf); [apply rtc_once, step_AddVote|vm_compute; reflexivity|exact set_ab_wf|
    vm_compute; reflexivity|apply rtc_refl].
Defined.
