(* ===== verification/OwnVotes.v ===== *)
(** * Votes that stay in their vote set

    A vote set never drops or replaces a vote, and takes one vote per validator: what keeps a
    node from voting twice, whatever its private validator does. *)

From S2P Require Export VoteSet.

Section Recorded.
Context `{Crypto} `{Cramberry}.

(** The location of the set of a type and a round. *)
Definition location (hvs : HeightVoteSet) (typ round : Z) : option nat :=
  if typ =? VoteTypePrevote then Prevotes hvs round
  else if typ =? VoteTypePrecommit then Precommits hvs round else None.

(** The validator has a vote in the set of the vote's type and round. *)
Definition recorded (hvs : HeightVoteSet) (v : Vote) : Prop :=
  exists l s, location hvs (vt_Type v) (vt_Round v) = Some l /\ hvs_heap hvs !! l = Some s /\
    is_Some (vset_votes s !! vt_ValidatorIndex v).

(** Every vote of a set is kept. *)
Definition votes_grow (s s' : VoteSet) : Prop :=
  forall i, is_Some (vset_votes s !! i) -> is_Some (vset_votes s' !! i).

Lemma addVoteInternal_grows s v : votes_grow s (addVoteInternal s v).1.
Proof.
  intros i Hi. unfold addVoteInternal. repeat case_match; try done; cbn;
    apply lookup_insert_is_Some; destruct (decide (vt_ValidatorIndex v = i)); auto.
Qed.

Lemma AddVote_grows now gen s v : votes_grow s (VoteSet_AddVote now gen s v).1.
Proof. unfold VoteSet_AddVote. repeat case_match; try (by intros i). apply addVoteInternal_grows. Qed.

(** A vote that is added was not there before, and is there afterwards. *)
Lemma AddVote_adds now gen s v s' :
  VoteSet_AddVote now gen s v = (s', Ret true) ->
  vset_votes s !! vt_ValidatorIndex v = None /\ is_Some (vset_votes s' !! vt_ValidatorIndex v).
Proof.
  unfold VoteSet_AddVote, addVoteInternal. repeat case_match; intros E; simplify_eq; try done.
  all: split; [done|]; cbn; apply lookup_insert_is_Some; by left.
Qed.

(** *** The sets of a height *)

(** The locations and sets that are there stay there, with their votes. *)
Definition sets_grow (hvs hvs' : HeightVoteSet) : Prop :=
  (forall typ round l, location hvs typ round = Some l -> location hvs' typ round = Some l) /\
  forall l s, hvs_heap hvs !! l = Some s -> exists s', hvs_heap hvs' !! l = Some s' /\ votes_grow s s'.

Lemma recorded_grow hvs hvs' v : sets_grow hvs hvs' -> recorded hvs v -> recorded hvs' v.
Proof.
  intros [Hl Hh] (l & s & El & Es & Hs). destruct (Hh l s Es) as (s' & Es' & Hg).
  exists l, s'. eauto.
Qed.

Lemma sets_grow_refl hvs : sets_grow hvs hvs.
Proof. split; [done|]. intros l s Hs. exists s. split; [done|]. by intros i. Qed.

Lemma sets_grow_trans h1 h2 h3 : sets_grow h1 h2 -> sets_grow h2 h3 -> sets_grow h1 h3.
Proof.
  intros [L1 H1] [L2 H2]. split; [auto|]. intros l s Hs. destruct (H1 l s Hs) as (s2 & Hs2 & G1).
  destruct (H2 l s2 Hs2) as (s3 & Hs3 & G2). exists s3. split; [done|]. intros i Hi. auto.
Qed.

Lemma prevotes_at_grows hvs r :
  sets_grow hvs (prevotes_at hvs r).1 /\
  location (prevotes_at hvs r).1 VoteTypePrevote r = Some (prevotes_at hvs r).2.
Proof.
  unfold prevotes_at, location, Prevotes. destruct (hvs_prevotes hvs !! r) as [l|] eqn:E; cbn.
  { split; [apply sets_grow_refl|done]. }
  split; [|by rewrite lookup_insert_eq]. split.
  - intros typ r' l. unfold location, Prevotes, Precommits. cbn. repeat case_match; try done.
    intros Hl. rewrite lookup_insert_ne; [done|]. intros ->. congruence.
  - intros l s Hs. exists s. split; [by apply lookup_app_l_Some|by intros i].
Qed.

Lemma precommits_at_grows hvs r :
  sets_grow hvs (precommits_at hvs r).1 /\
  location (precommits_at hvs r).1 VoteTypePrecommit r = Some (precommits_at hvs r).2.
Proof.
  unfold precommits_at, location, Precommits. destruct (hvs_precommits hvs !! r) as [l|] eqn:E; cbn.
  { split; [apply sets_grow_refl|done]. }
  split; [|by rewrite lookup_insert_eq]. split.
  - intros typ r' l. unfold location, Prevotes, Precommits. cbn. repeat case_match; try done.
    intros Hl. rewrite lookup_insert_ne; [done|]. intros ->. congruence.
  - intros l s Hs. exists s. split; [by apply lookup_app_l_Some|by intros i].
Qed.

Lemma call_grows {A} l (f : VoteSet -> VoteSet * res A) hvs :
  (forall s, votes_grow s (f s).1) -> sets_grow hvs (call l f hvs).1.
Proof.
  intros Hf. unfold call. destruct (hvs_heap hvs !! l) as [s|] eqn:Es; [|apply sets_grow_refl].
  pose proof (Hf s) as Hg. destruct (f s) as [s' r]. cbn in *. split; [done|]. intros k t Ht. cbn.
  destruct (decide (l = k)) as [->|Hne].
  - assert (t = s) as -> by congruence. exists s'. split; [|done].
    apply list_lookup_insert_eq. by eapply lookup_lt_Some.
  - exists t. rewrite list_lookup_insert_ne by done. split; [done|by intros i].
Qed.

Lemma HeightVoteSet_AddVote_grows now v hvs : sets_grow hvs (HeightVoteSet_AddVote now v hvs).1.
Proof.
  unfold HeightVoteSet_AddVote. destruct (negb _); [apply sets_grow_refl|].
  pose proof (proj1 (prevotes_at_grows hvs (vt_Round v))) as G1.
  pose proof (proj1 (precommits_at_grows hvs (vt_Round v))) as G2.
  destruct (prevotes_at _ _) as [h1 l1], (precommits_at _ _) as [h2 l2]. cbn [fst] in *.
  destruct (vt_Type v =? _); [|destruct (vt_Type v =? _); [|apply sets_grow_refl]];
    [apply (sets_grow_trans _ h1); [done|]|apply (sets_grow_trans _ h2); [done|]];
    apply call_grows; intros; apply AddVote_grows.
Qed.

Lemma call_AddVote_adds now gen l v h1 h2 typ r :
  location h1 typ r = Some l -> vt_Type v = typ -> vt_Round v = r ->
  call l (fun s => VoteSet_AddVote now gen s v) h1 = (h2, Ret true) -> ~ recorded h1 v /\ recorded h2 v.
Proof.
  intros Hl <- <-. unfold call. destruct (hvs_heap h1 !! l) as [s|] eqn:Es; [|done].
  destruct (VoteSet_AddVote now gen s v) as [s' res] eqn:Ea. intros [= <- ->].
  apply AddVote_adds in Ea as [Hn Hs]. split.
  - intros (l' & t & El & Et & Ht). assert (l' = l) as -> by congruence. assert (t = s) as -> by congruence.
    rewrite Hn in Ht. by destruct Ht.
  - exists l, s'. split_and!; [done| |done]. apply list_lookup_insert_eq. by eapply lookup_lt_Some.
Qed.

Lemma HeightVoteSet_AddVote_adds now v hvs hvs' :
  HeightVoteSet_AddVote now v hvs = (hvs', Ret true) -> ~ recorded hvs v /\ recorded hvs' v.
Proof.
  unfold HeightVoteSet_AddVote. destruct (negb _); [done|].
  destruct (Z.eqb_spec (vt_Type v) VoteTypePrevote) as [Et|].
  - destruct (prevotes_at_grows hvs (vt_Round v)) as [Hg Hl].
    destruct (prevotes_at hvs (vt_Round v)) as [h1 l]. cbn [fst snd] in *. intros Hc.
    destruct (call_AddVote_adds _ _ _ _ _ _ _ _ Hl Et eq_refl Hc) as [Hn Hr].
    split; [|done]. intros Hr'. by eapply Hn, recorded_grow.
  - destruct (Z.eqb_spec (vt_Type v) VoteTypePrecommit) as [Et|]; [|done].
    destruct (precommits_at_grows hvs (vt_Round v)) as [Hg Hl].
    destruct (precommits_at hvs (vt_Round v)) as [h1 l]. cbn [fst snd] in *. intros Hc.
    destruct (call_AddVote_adds _ _ _ _ _ _ _ _ Hl Et eq_refl Hc) as [Hn Hr].
    split; [|done]. intros Hr'. by eapply Hn, recorded_grow.
Qed.
End Recorded.
