(* ===== verification/Evidence.v ===== *)
(** * Evidence of equivocation (src/evidence/pool.go)

    The pool remembers the votes it has seen, turns two conflicting votes into evidence, and
    keeps the evidence until it is committed or expires. Time is in nanoseconds. The maps of
    Go are iterated in an arbitrary order: [MapOrder] is that order, and the theorems hold for
    every one. *)

From S2P Require Export VoteSet.
From Stdlib Require Import Strings.Ascii.

Definition ErrInvalidEvidence : error := sentinel "evidence.ErrInvalidEvidence".
Definition ErrDuplicateEvidence : error := sentinel "evidence.ErrDuplicateEvidence".
Definition ErrEvidenceExpired : error := sentinel "evidence.ErrEvidenceExpired".
Definition ErrInvalidVoteHeight : error := sentinel "evidence.ErrInvalidVoteHeight".
Definition ErrInvalidVoteRound : error := sentinel "evidence.ErrInvalidVoteRound".
Definition ErrInvalidVoteType : error := sentinel "evidence.ErrInvalidVoteType".
Definition ErrInvalidValidator : error := sentinel "evidence.ErrInvalidValidator".
Definition ErrSameBlockHash : error := sentinel "evidence.ErrSameBlockHash".
Definition ErrVotePoolFull : error := sentinel "evidence.ErrVotePoolFull".

Definition EvidenceTypeDuplicateVote : Z := 1.

Definition MaxSeenVotes : Z := 100000.
Definition VoteProtectionWindow : Z := 1000.
Definition MaxPendingEvidence : Z := 10000.

Record PoolConfig := mkPoolConfig {
  cfg_MaxAge : Z;
  cfg_MaxAgeBlocks : Z;
  cfg_MaxBytes : Z }.

Definition DefaultPoolConfig : PoolConfig := mkPoolConfig (48 * 3600 * 10 ^ 9) 100000 1048576.

(** [pool_committed] is the key set of the map to empty structs; [pool_currentTime] counts
    from the Unix epoch. *)
Record Pool := mkPool {
  pool_config : PoolConfig;
  pool_pending : list Evidence;
  pool_committed : gset string;
  pool_seenVotes : gmap string Vote;
  pool_currentHeight : Z;
  pool_currentTime : Z }.

(** The zero [time.Time]: January 1 of the year 1. *)
Definition zeroTime : Z := - 62135596800 * 10 ^ 9.

Definition NewPool (config : PoolConfig) : Pool := mkPool config [] ∅ ∅ 0 zeroTime.

Definition with_pending (l : list Evidence) (p : Pool) : Pool :=
  mkPool (pool_config p) l (pool_committed p) (pool_seenVotes p) (pool_currentHeight p) (pool_currentTime p).

Definition with_committed (c : gset string) (p : Pool) : Pool :=
  mkPool (pool_config p) (pool_pending p) c (pool_seenVotes p) (pool_currentHeight p) (pool_currentTime p).

Definition with_seenVotes (m : gmap string Vote) (p : Pool) : Pool :=
  mkPool (pool_config p) (pool_pending p) (pool_committed p) m (pool_currentHeight p) (pool_currentTime p).

Definition with_current (height time : Z) (p : Pool) : Pool :=
  mkPool (pool_config p) (pool_pending p) (pool_committed p) (pool_seenVotes p) height time.

Class MapOrder := {
  map_order : gmap string Vote -> list (string * Vote);
  map_order_perm : forall m, map_order m ≡ₚ map_to_list m }.

(** ** Keys *)

Definition voteKey (vote : Vote) : string :=
  AccountNameString (vt_Validator vote) +:+ "/" +:+ pretty (vt_Height vote) +:+ "/" +:+
  pretty (vt_Round vote) +:+ "/" +:+ pretty (vt_Type vote).

Definition votesForSameBlock (a b : Vote) : bool :=
  match vt_BlockHash a, vt_BlockHash b with
  | None, None => true
  | None, _ | _, None => false
  | Some x, Some y => HashEqual x y
  end.

(** [fmt.Sscanf] with verb [%d]: an optional sign and decimal digits. *)
Fixpoint scan_digits (acc : Z) (seen : bool) (s : string) : option (Z * string) :=
  match s with
  | String c s' =>
      let d := Z.of_N (Ascii.N_of_ascii c) - 48 in
      if (0 <=? d) && (d <=? 9) then scan_digits (acc * 10 + d) true s'
      else if seen then Some (acc, s) else None
  | EmptyString => if seen then Some (acc, s) else None
  end.

Definition scan_int (s : string) : option (Z * string) :=
  match s with
  | String "-"%char s' => prod_map Z.opp id <$> scan_digits 0 false s'
  | String "+"%char s' => scan_digits 0 false s'
  | _ => scan_digits 0 false s
  end.

Definition scan_slash (s : string) : option string :=
  match s with String "/"%char s' => Some s' | _ => None end.

(** [fmt.Sscanf(key, "%d/%d/%d/", &evType, &height, &evTime)]: the height. *)
Definition key_height (key : string) : option Z :=
  '(_, s) ← scan_int key; s ← scan_slash s;
  '(height, s) ← scan_int s; s ← scan_slash s;
  '(_, s) ← scan_int s; _ ← scan_slash s;
  Some height.

(** ** Ages *)

(** [time.Time.Sub] saturates. *)
Definition time_Sub (a b : Z) : Z := Z.max MinInt64 (Z.min MaxInt64 (a - b)).

Definition isExpired (p : Pool) (ev : Evidence) : bool :=
  if! wrap64 (pool_currentHeight p - ev_Height ev) >? cfg_MaxAgeBlocks (pool_config p) return true in
  time_Sub (pool_currentTime p) (ev_Time ev) >? cfg_MaxAge (pool_config p).

(** The test of the prune loops: older than [MaxAgeBlocks]. *)
Definition too_old (p : Pool) (height : Z) : bool :=
  (height <? pool_currentHeight p) &&
  (wrap64 (pool_currentHeight p - height) >? cfg_MaxAgeBlocks (pool_config p)).

Definition pruneExpired (p : Pool) : Pool :=
  let p := with_pending (filter (fun ev => isExpired p ev = false) (pool_pending p)) p in
  let p := with_committed
    (filter (fun key => default false (too_old p <$> key_height key) = false)
       (pool_committed p)) p in
  with_seenVotes (filter (fun kv => too_old p (vt_Height kv.2) = false) (pool_seenVotes p)) p.

Definition Update (height blockTime : Z) (p : Pool) : Pool :=
  pruneExpired (with_current height blockTime p).

(** ** Pruning of seen votes *)

Section Pruning.
Context `{MapOrder}.

Definition protectedHeight (p : Pool) : Z :=
  let protected := wrap64 (pool_currentHeight p - VoteProtectionWindow) in
  if protected <? 0 then 0 else protected.

(** The keys of the votes below the protected heights, grouped by height. *)
Definition group_vote (protected : Z) (m : gmap Z (list string)) (kv : string * Vote)
    : gmap Z (list string) :=
  let '(key, vote) := kv in
  if vt_Height vote >=? protected then m
  else <[vt_Height vote := default [] (m !! vt_Height vote) ++ [key]]> m.

Definition group_heights (protected : Z) (votes : list (string * Vote)) : gmap Z (list string) :=
  foldl (group_vote protected) ∅ votes.

(** The inner loop: stops once [n] votes are removed. *)
Definition prune_keys (n : Z) (keys : list string) (st : Z * gmap string Vote) : Z * gmap string Vote :=
  foldl (fun '(removed, m) key =>
    if removed >=? n then (removed, m) else (removed + 1, delete key m)) st keys.

Definition prune_heights (n : Z) (groups : gmap Z (list string)) (heights : list Z)
    (st : Z * gmap string Vote) : Z * gmap string Vote :=
  foldl (fun '(removed, m) h =>
    if removed >=? n then (removed, m) else prune_keys n (default [] (groups !! h)) (removed, m)) st heights.

Definition pruneOldestVotes (n : Z) (p : Pool) : Pool :=
  if! (n <=? 0) || (Z.of_nat (size (pool_seenVotes p)) =? 0) return p in
  let heightVotes := group_heights (protectedHeight p) (map_order (pool_seenVotes p)) in
  if! Z.of_nat (size heightVotes) =? 0 return p in
  let heights := merge_sort Z.le (map_to_list heightVotes).*1 in
  with_seenVotes (prune_heights n heightVotes heights (0, pool_seenVotes p)).2 p.
End Pruning.

Section EvidencePool.
Context `{Crypto} `{Cramberry} `{MapOrder}.

(** ** Verification *)

Definition VerifyDuplicateVoteEvidence (dve : option DuplicateVoteEvidence) (chainID : string)
    (valSet : option ValidatorSet) : res unit :=
  match dve with
  | None => Err ErrInvalidEvidence
  | Some dve =>
      match valSet with
      | None => Err (errorf "nil validator set")
      | Some valSet =>
          let voteA := dve_VoteA dve in
          let voteB := dve_VoteB dve in
          if! negb (vt_Height voteA =? vt_Height voteB) return Err ErrInvalidVoteHeight in
          if! negb (vt_Round voteA =? vt_Round voteB) return Err ErrInvalidVoteRound in
          if! negb (vt_Type voteA =? vt_Type voteB) return Err ErrInvalidVoteType in
          if! negb (bool_decide (AccountNameString (vt_Validator voteA) = AccountNameString (vt_Validator voteB)))
            return Err ErrInvalidValidator in
          if! votesForSameBlock voteA voteB return Err ErrSameBlockHash in
          match GetByName valSet (AccountNameString (vt_Validator voteA)) with
          | None => Err ErrInvalidValidator
          | Some val =>
              let! _ := rwrap (VerifyVoteSignature chainID (Some voteA) (nv_PublicKey val))
                          (fun e => wrapf e "invalid signature on vote A: %w") in
              rwrap (VerifyVoteSignature chainID (Some voteB) (nv_PublicKey val))
                (fun e => wrapf e "invalid signature on vote B: %w")
          end
      end
  end.

(** ** CheckVote *)

(** The evidence made of a seen vote and a conflicting one. *)
Definition make_evidence (now : Z) (existing vote : Vote) (valSet : ValidatorSet) (val : NamedValidator)
    : DuplicateVoteEvidence :=
  {| dve_VoteA := default existing (CopyVote (Some existing));
     dve_VoteB := default vote (CopyVote (Some vote));
     dve_TotalVotingPower := vals_TotalPower valSet;
     dve_ValidatorPower := nv_VotingPower val;
     dve_Timestamp := now |}.

(** The checks that are skipped for the empty chain id. *)
Definition unless_empty (chainID : string) (r : res unit) : res unit :=
  if bool_decide (chainID = "") then Ret tt else r.

Definition store_seen (key : string) (vote : Vote) (p : Pool) : Pool :=
  with_seenVotes (<[key := default vote (CopyVote (Some vote))]> (pool_seenVotes p)) p.

Definition CheckVote (now : Z) (vote : option Vote) (valSet : option ValidatorSet) (chainID : string)
    (p : Pool) : Pool * res (option DuplicateVoteEvidence) :=
  match vote, valSet with
  | None, _ => (p, Err (errorf "nil vote"))
  | _, None => (p, Err (errorf "nil validator set"))
  | Some vote, Some valSet =>
      match GetByName valSet (AccountNameString (vt_Validator vote)) with
      | None => (p, Err ErrInvalidValidator)
      | Some val =>
          match rwrap (unless_empty chainID (VerifyVoteSignature chainID (Some vote) (nv_PublicKey val)))
                  (fun e => wrapf e "invalid vote signature: %w") with
          | Err e => (p, Err e)
          | Panic m => (p, Panic m)
          | Ret _ =>
              let key := voteKey vote in
              match pool_seenVotes p !! key with
              | Some existing =>
                  if! votesForSameBlock existing vote return (p, Ret None) in
                  let ev := make_evidence now existing vote valSet val in
                  (p, let! _ := rwrap (unless_empty chainID
                                        (VerifyDuplicateVoteEvidence (Some ev) chainID (Some valSet)))
                                  (fun e => wrapf e "created invalid evidence: %w") in
                      Ret (Some ev))
              | None =>
                  if Z.of_nat (size (pool_seenVotes p)) >=? MaxSeenVotes then
                    let p := pruneOldestVotes (Z.quot MaxSeenVotes 10) p in
                    if! Z.of_nat (size (pool_seenVotes p)) >=? MaxSeenVotes return (p, Err ErrVotePoolFull) in
                    (store_seen key vote p, Ret None)
                  else (store_seen key vote p, Ret None)
              end
          end
      end
  end.

(** ** Pending evidence *)

Definition evidenceKey (ev : Evidence) : string :=
  let dataHash := sha256_Sum256 (ev_Data ev) in
  pretty (ev_Type ev) +:+ "/" +:+ pretty (ev_Height ev) +:+ "/" +:+ pretty (ev_Time ev) +:+ "/" +:+
  hex_EncodeToString (take 8 dataHash).

Definition copy_evidence (ev : Evidence) : Evidence :=
  mkEvidence (ev_Type ev) (ev_Height ev) (ev_Time ev) (clone (ev_Data ev)).

Definition AddEvidence (ev : option Evidence) (p : Pool) : Pool * res unit :=
  match ev with
  | None => (p, Err ErrInvalidEvidence)
  | Some ev =>
      if! len (ev_Data ev) =? 0 return (p, Err ErrInvalidEvidence) in
      if! len (pool_pending p) >=? MaxPendingEvidence
        return (p, Err (errorf "pending evidence pool full")) in
      let key := evidenceKey ev in
      if! bool_decide (key ∈ pool_committed p) return (p, Err ErrDuplicateEvidence) in
      if! existsb (fun pending => bool_decide (evidenceKey pending = key)) (pool_pending p)
        return (p, Err ErrDuplicateEvidence) in
      if! isExpired p ev return (p, Err ErrEvidenceExpired) in
      (with_pending (pool_pending p ++ [copy_evidence ev]) p, Ret tt)
  end.

Definition AddDuplicateVoteEvidence (dve : option DuplicateVoteEvidence) (chainID : string)
    (valSet : option ValidatorSet) (p : Pool) : Pool * res unit :=
  match dve with
  | None => (p, Err ErrInvalidEvidence)
  | Some d =>
      match rwrap (unless_empty chainID (VerifyDuplicateVoteEvidence dve chainID valSet))
              (fun e => wrapf e "invalid duplicate vote evidence: %w") with
      | Err e => (p, Err e)
      | Panic m => (p, Panic m)
      | Ret _ =>
          match rwrap (marshal_DuplicateVoteEvidence d)
                  (fun e => wrapf e "failed to serialize evidence: %w") with
          | Err e => (p, Err e)
          | Panic m => (p, Panic m)
          | Ret data =>
              AddEvidence (Some {| ev_Type := EvidenceTypeDuplicateVote;
                                   ev_Height := vt_Height (dve_VoteA d);
                                   ev_Time := dve_Timestamp d;
                                   ev_Data := data |}) p
          end
      end
  end.

Definition evidenceOverhead : Z := 4 + 8 + 8 + 4.

Definition evidenceSize (ev : Evidence) : Z := evidenceOverhead + len (ev_Data ev).

(** The loop of [PendingEvidence]: stops at the first item that does not fit. *)
Fixpoint take_evidence (maxBytes totalSize : Z) (l : list Evidence) : list Evidence :=
  match l with
  | [] => []
  | ev :: l =>
      let evSize := evidenceSize ev in
      if totalSize + evSize >? maxBytes then []
      else copy_evidence ev :: take_evidence maxBytes (totalSize + evSize) l
  end.

Definition PendingEvidence (maxBytes : Z) (p : Pool) : list Evidence :=
  let maxBytes := if maxBytes <=? 0 then cfg_MaxBytes (pool_config p) else maxBytes in
  take_evidence maxBytes 0 (pool_pending p).

Definition removePending (toRemove : list Evidence) (p : Pool) : Pool :=
  let removeSet : gset string := list_to_set (evidenceKey <$> toRemove) in
  with_pending (filter (fun ev => evidenceKey ev ∉ removeSet) (pool_pending p)) p.

Definition MarkCommitted (evidence : list Evidence) (p : Pool) : Pool :=
  let p := with_committed (foldl (fun c ev => {[evidenceKey ev]} ∪ c) (pool_committed p) evidence) p in
  removePending evidence p.

Definition Pool_Size (p : Pool) : Z := len (pool_pending p).
End EvidencePool.

(** ** Steps of a pool

    The operations as its users interleave them. [keyof] gives the public key of each
    validator name: the validator sets passed to [CheckVote] agree with it, and all calls
    are for one chain. Block heights do not decrease. *)
Section PoolSteps.
Context `{Crypto} `{Cramberry} `{MapOrder}.
Variables (chainID : string) (keyof : string -> option PublicKey).

Definition vals_agree (vals : ValidatorSet) : Prop :=
  forall name val, GetByName vals name = Some val -> keyof name = Some (nv_PublicKey val).

Inductive pool_step : Pool -> Pool -> Prop :=
| pool_Update height time p :
    pool_currentHeight p <= height <= MaxInt64 -> pool_step p (Update height time p)
| pool_CheckVote now vote vals p :
    vals_agree vals -> pool_step p (CheckVote now vote (Some vals) chainID p).1
| pool_AddEvidence ev p : pool_step p (AddEvidence ev p).1
| pool_AddDuplicateVoteEvidence dve vals p :
    pool_step p (AddDuplicateVoteEvidence dve chainID vals p).1
| pool_MarkCommitted evs p : pool_step p (MarkCommitted evs p).

(** A vote whose signature the pool has checked. *)
Definition seen_ok (key : string) (v : Vote) : Prop :=
  voteKey v = key /\
  exists pk, keyof (AccountNameString (vt_Validator v)) = Some pk /\
    (chainID <> "" -> VerifyVoteSignature chainID (Some v) pk = Ret tt).

Record pool_ok (p : Pool) : Prop := {
  pok_height : 0 <= pool_currentHeight p <= MaxInt64;
  pok_pending : NoDup (evidenceKey <$> pool_pending p);
  pok_pending_size : len (pool_pending p) <= MaxPendingEvidence;
  pok_disjoint : forall ev, ev ∈ pool_pending p -> evidenceKey ev ∉ pool_committed p;
  pok_seen_size : Z.of_nat (size (pool_seenVotes p)) <= MaxSeenVotes;
  pok_seen : forall k v, pool_seenVotes p !! k = Some v -> seen_ok k v }.
End PoolSteps.

(** ** Lemmas: decimal keys *)

Lemma digit_char d : (d < 10)%N -> Z.of_N (Ascii.N_of_ascii (pretty_N_char d)) - 48 = Z.of_N d.
Proof.
  intros Hd. assert (d = 0 \/ d = 1 \/ d = 2 \/ d = 3 \/ d = 4 \/ d = 5 \/ d = 6 \/ d = 7 \/ d = 8 \/ d = 9)%N
    as Hcases by lia.
  by repeat destruct Hcases as [->|Hcases]; try subst d.
Qed.

Lemma scan_pretty_go x s :
  (0 < x)%N -> exists k, forall acc seen,
    scan_digits acc seen (pretty_N_go x s) = scan_digits (acc * 10 ^ Z.of_nat k + Z.of_N x) true s.
Proof.
  revert s. induction x as [x IH] using (well_founded_induction N.lt_wf_0). intros s Hx.
  assert (Hm : (x `mod` 10 < 10)%N) by (apply N.mod_lt; lia).
  assert (Hd : forall acc seen s', scan_digits acc seen (String (pretty_N_char (x `mod` 10)) s') =
    scan_digits (acc * 10 + Z.of_N (x `mod` 10)) true s').
  { revert Hm. generalize (x `mod` 10)%N. intros d Hm acc seen s'. cbn [scan_digits].
    rewrite (digit_char _ Hm), (proj2 (Z.leb_le _ _)), (proj2 (Z.leb_le _ _)) by lia. done. }
  rewrite pretty_N_go_step by done. pose proof (N.div_mod x 10 ltac:(lia)) as Hdm.
  destruct (N.eq_dec (x / 10) 0) as [E|E].
  - exists 1%nat. intros. rewrite E, pretty_N_go_0, Hd. f_equal. lia.
  - destruct (IH (x / 10)%N) with (s := String (pretty_N_char (x `mod` 10)) s) as [k Hk];
      [apply N.div_lt; lia|lia|].
    exists (S k). intros. rewrite Hk, Hd. f_equal. rewrite Nat2Z.inj_succ, Z.pow_succ_r by lia. lia.
Qed.

Lemma pretty_go_app x s t : pretty_N_go x s +:+ t = pretty_N_go x (s +:+ t).
Proof.
  revert s. induction x as [x IH] using (well_founded_induction N.lt_wf_0). intros s.
  destruct (N.eq_dec x 0) as [->|Hx]; [done|].
  rewrite !(pretty_N_go_step x) by lia. rewrite IH by (apply N.div_lt; lia). done.
Qed.

Lemma scan_slash_digits acc s : scan_digits acc true (String "/" s) = Some (acc, String "/" s).
Proof. done. Qed.

Lemma scan_pretty_N x s :
  scan_digits 0 false (pretty x +:+ String "/" s) = Some (Z.of_N x, String "/" s).
Proof.
  unfold pretty, pretty_N. destruct (decide (x = 0%N)) as [->|Hx]; [done|].
  rewrite pretty_go_app. destruct (scan_pretty_go x ("" +:+ String "/" s)) as [k Hk]; [lia|].
  rewrite Hk. apply scan_slash_digits.
Qed.

(** A decimal number starts with a digit. *)
Lemma scan_int_N x s :
  scan_int (pretty x +:+ String "/" s) = Some (Z.of_N x, String "/" s).
Proof.
  pose proof (scan_pretty_N x s) as Hs. unfold scan_int. destruct (pretty x +:+ String "/" s) as [|c t]; [done|].
  destruct (decide (c = "-"%char)) as [->|]; [done|]. destruct (decide (c = "+"%char)) as [->|]; [done|].
  repeat case_match; simplify_eq; done.
Qed.

Lemma scan_int_pretty (z : Z) s :
  scan_int (pretty z +:+ String "/" s) = Some (z, String "/" s).
Proof.
  destruct z as [|z|z]; [done|apply (scan_int_N (Npos z))|].
  change (prod_map Z.opp id <$> scan_digits 0 false (pretty (Npos z) +:+ String "/" s) = Some (Z.neg z, String "/" s)).
  by rewrite scan_pretty_N.
Qed.

Lemma slash_append s : "/" +:+ s = String "/" s.
Proof. done. Qed.

Lemma key_height_evidenceKey `{Crypto} ev : key_height (evidenceKey ev) = Some (ev_Height ev).
Proof.
  unfold evidenceKey, key_height. rewrite !slash_append.
  rewrite scan_int_pretty. cbn. rewrite scan_int_pretty. cbn. by rewrite scan_int_pretty.
Qed.

(** ** Lemmas: [voteKey] is injective *)

Fixpoint has_slash (s : string) : bool :=
  match s with EmptyString => false | String c s => bool_decide (c = "/"%char) || has_slash s end.

Lemma has_slash_app s t : has_slash (s +:+ t) = has_slash s || has_slash t.
Proof. induction s as [|c s IH]; [done|]. change (String c s +:+ t) with (String c (s +:+ t)). cbn. by rewrite IH, orb_assoc. Qed.

Lemma pretty_go_no_slash x s : has_slash (pretty_N_go x s) = has_slash s.
Proof.
  revert s. induction x as [x IH] using (well_founded_induction N.lt_wf_0). intros s.
  destruct (N.eq_dec x 0) as [->|Hx]; [done|].
  rewrite (pretty_N_go_step x) by lia. rewrite IH by (apply N.div_lt; lia). cbn.
  pose proof (digit_char (x `mod` 10) ltac:(apply N.mod_lt; lia)) as Hd. revert Hd.
  generalize (x `mod` 10)%N. intros d Hd.
  rewrite bool_decide_eq_false_2; [done|]. intros E. rewrite E in Hd. change (-1 = Z.of_N d) in Hd. lia.
Qed.

Lemma pretty_no_slash (z : Z) : has_slash (pretty z) = false.
Proof.
  assert (Hn : forall x : N, has_slash (pretty x) = false).
  { intros x. unfold pretty, pretty_N. destruct (decide _); [done|]. by rewrite pretty_go_no_slash. }
  destruct z as [|z|z]; [done|apply (Hn (Npos z))|].
  change (has_slash (String "-" (pretty (Npos z))) = false). cbn. apply Hn.
Qed.

Lemma split_slash s1 s2 t1 t2 :
  has_slash t1 = false -> has_slash t2 = false ->
  s1 +:+ String "/" t1 = s2 +:+ String "/" t2 -> s1 = s2 /\ t1 = t2.
Proof.
  intros H1 H2. revert s2. induction s1 as [|c s1 IH]; intros [|d s2] E; try done.
  - by injection E as ->.
  - injection E as E1 E2. subst. rewrite has_slash_app in H1. cbn in H1. by rewrite orb_true_r in H1.
  - injection E as E1 E2. subst. rewrite has_slash_app in H2. cbn in H2. by rewrite orb_true_r in H2.
  - injection E as -> E. destruct (IH _ E) as [-> ->]. done.
Qed.

Lemma append_assoc s t u : (s +:+ t) +:+ u = s +:+ (t +:+ u).
Proof. induction s as [|c s IH]; [done|]. exact (f_equal (String c) IH). Qed.

Lemma voteKey_inj a b :
  voteKey a = voteKey b ->
  AccountNameString (vt_Validator a) = AccountNameString (vt_Validator b) /\
  vt_Height a = vt_Height b /\ vt_Round a = vt_Round b /\ vt_Type a = vt_Type b.
Proof.
  unfold voteKey. rewrite !slash_append.
  assert (Hs : forall s t u, s +:+ String "/" (t +:+ u) = (s +:+ String "/" t) +:+ u)
    by (intros s t u; by rewrite append_assoc).
  rewrite !Hs. intros [E Et]%split_slash; [|apply pretty_no_slash..].
  apply split_slash in E as [E Er]; [|apply pretty_no_slash..].
  apply split_slash in E as [E Eh]; [|apply pretty_no_slash..].
  apply (inj pretty) in Et, Er, Eh. done.
Qed.

(** ** Lemmas: pruning of seen votes *)

Section PruningLemmas.
Context `{MO : MapOrder}.
#[local] Set Default Proof Using "Type".

(** Grouping keeps only keys of votes below the protected height. *)
Lemma group_heights_elem protected votes h key :
  key ∈ default [] (group_heights protected votes !! h) ->
  exists vote, (key, vote) ∈ votes /\ vt_Height vote < protected.
Proof.
  unfold group_heights. enough (forall m : gmap Z (list string), (forall h k, k ∈ default [] (m !! h) ->
      exists v, (k, v) ∈ votes /\ vt_Height v < protected) ->
    forall l, l ⊆ votes -> forall h k, k ∈ default [] (foldl (group_vote protected) m l !! h) ->
      exists v, (k, v) ∈ votes /\ vt_Height v < protected) as Hl.
  { apply (Hl ∅); [|done]. intros ? ?. rewrite lookup_empty. by intros ?%not_elem_of_nil. }
  clear h key. intros m Hm l. revert m Hm. induction l as [|[k v] l IH]; intros m Hm Hl h key; [apply Hm|].
  cbn [foldl]. apply IH; [|set_solver]. clear h key. intros h key.
  unfold group_vote. rewrite Z.geb_leb. destruct (Z.leb_spec protected (vt_Height v)) as [|Hlt]; [apply Hm|].
  destruct (decide (h = vt_Height v)) as [->|Hne]; [|rewrite lookup_insert_ne by done; apply Hm].
  rewrite lookup_insert_eq. cbn. intros [?|E%list_elem_of_singleton]%elem_of_app; [by eapply Hm|subst key].
  exists v. split; [apply Hl; left|done].
Qed.

Lemma prune_keys_spec n keys st :
  (prune_keys n keys st).2 ⊆ st.2 /\
  forall k, k ∉ keys -> (prune_keys n keys st).2 !! k = st.2 !! k.
Proof.
  revert st. induction keys as [|key keys IH]; intros [r m]; [done|]. unfold prune_keys in *. cbn [foldl].
  destruct (r >=? n).
  - destruct (IH (r, m)) as [H1 H2]. split; [done|]. intros k Hk. apply H2. set_solver.
  - destruct (IH (r + 1, delete key m)) as [H1 H2]. split; [etrans; [exact H1|apply delete_subseteq]|].
    intros k Hk. rewrite H2 by set_solver. cbn. apply lookup_delete_ne. set_solver.
Qed.

Lemma prune_heights_spec n groups heights st :
  (prune_heights n groups heights st).2 ⊆ st.2 /\
  forall k, (forall h, k ∉ default [] (groups !! h)) ->
    (prune_heights n groups heights st).2 !! k = st.2 !! k.
Proof.
  revert st. induction heights as [|h heights IH]; intros [r m]; [done|]. unfold prune_heights in *. cbn [foldl].
  destruct (r >=? n); [apply (IH (r, m))|].
  destruct (prune_keys_spec n (default [] (groups !! h)) (r, m)) as [P1 P2].
  destruct (IH (prune_keys n (default [] (groups !! h)) (r, m))) as [H1 H2].
  split; [by etrans|]. intros k Hk. rewrite H2 by done. by apply P2.
Qed.

Lemma map_order_elem m k v : (k, v) ∈ map_order m <-> m !! k = Some v.
Proof. rewrite map_order_perm. apply elem_of_map_to_list. Qed.

(** Pruning only removes votes, and none at a protected height. *)
Lemma pruneOldestVotes_spec n p :
  pool_seenVotes (pruneOldestVotes n p) ⊆ pool_seenVotes p /\
  (forall k v, pool_seenVotes p !! k = Some v -> protectedHeight p <= vt_Height v ->
     pool_seenVotes (pruneOldestVotes n p) !! k = Some v) /\
  with_seenVotes (pool_seenVotes p) (pruneOldestVotes n p) = p.
Proof.
  unfold pruneOldestVotes. destruct (_ || _); [by destruct p|]. destruct (_ =? 0); [by destruct p|].
  set (g := group_heights _ _). cbn. destruct (prune_heights_spec n g
    (merge_sort Z.le (map_to_list g).*1) (0, pool_seenVotes p)) as [H1 H2].
  split_and!; [exact H1| |by destruct p]. intros k v Hk Hv. rewrite H2; [done|].
  intros h (w & Hw%map_order_elem & Hlt)%group_heights_elem. assert (w = v) as -> by congruence. lia.
Qed.
End PruningLemmas.

(** ** Lemmas: the invariant *)

Lemma unless_empty_Ret chainID r : unless_empty chainID r = Ret tt <-> (chainID <> "" -> r = Ret tt).
Proof. unfold unless_empty. case_bool_decide; naive_solver. Qed.

Lemma elem_of_foldl_committed `{Crypto} (c : gset string) evs k :
  k ∈ foldl (fun c ev => {[evidenceKey ev]} ∪ c) c evs <-> k ∈ c \/ k ∈ evidenceKey <$> evs.
Proof.
  revert c. induction evs as [|e evs IH]; intros c; cbn; [set_solver|]. rewrite IH. set_solver.
Qed.

Section PoolInvariant.
Context `{Crypto} `{Cramberry} `{MO : MapOrder}.
Variables (chainID : string) (keyof : string -> option PublicKey).
#[local] Set Default Proof Using "Type".

Notation pool_ok := (pool_ok chainID keyof).
Notation pool_step := (pool_step chainID keyof).
Notation seen_ok := (seen_ok chainID keyof).

(** What [CheckVote] and [Update] may do to the seen votes: the votes at a height that is
    neither prunable nor too old stay. *)
Record seen_step (p : Pool) (m : gmap string Vote) : Prop := {
  ss_keep : forall k v, pool_seenVotes p !! k = Some v -> protectedHeight p <= vt_Height v -> m !! k = Some v;
  ss_size : Z.of_nat (size m) <= MaxSeenVotes;
  ss_ok : forall k v, m !! k = Some v -> seen_ok k v }.

Lemma seen_step_refl p : pool_ok p -> seen_step p (pool_seenVotes p).
Proof. intros Hp. split; [done|apply (pok_seen_size _ _ _ Hp)|apply (pok_seen _ _ _ Hp)]. Qed.

Lemma size_subseteq (m1 m2 : gmap string Vote) : m1 ⊆ m2 -> Z.of_nat (size m1) <= Z.of_nat (size m2).
Proof.
  intros Hs. rewrite <- !size_dom. apply Nat2Z.inj_le, subseteq_size, subseteq_dom, Hs.
Qed.

Lemma store_seen_step p k v m :
  seen_ok k v -> pool_seenVotes p !! k = None -> m ⊆ pool_seenVotes p ->
  (forall k' v', pool_seenVotes p !! k' = Some v' -> protectedHeight p <= vt_Height v' -> m !! k' = Some v') ->
  Z.of_nat (size m) < MaxSeenVotes -> pool_ok p -> seen_step p (<[k := v]> m).
Proof.
  intros Hk Hn Hs Hkeep Hsz Hp. split.
  - intros k' v' Hv Hh. rewrite lookup_insert_ne by congruence. by apply Hkeep.
  - rewrite map_size_insert_None; [lia|]. destruct (m !! k) as [w|] eqn:E; [|done].
    pose proof (lookup_weaken _ _ _ _ E Hs). congruence.
  - intros k' v' [(<- & <-)|[_ Hv]]%lookup_insert_Some; [done|].
    apply (pok_seen _ _ _ Hp). by eapply lookup_weaken.
Qed.

Lemma with_seenVotes_same p : with_seenVotes (pool_seenVotes p) p = p.
Proof. by destruct p. Qed.

(** Outcome of [CheckVote] on a vote and a validator set. *)
Definition check_outcome (now : Z) (vote : Vote) (vals : ValidatorSet) (p : Pool)
    (out : Pool * res (option DuplicateVoteEvidence)) : Prop :=
  match out with
  | (p', Ret None) =>
      (exists v, pool_seenVotes p' !! voteKey vote = Some v /\ votesForSameBlock v vote = true /\
         forall w, pool_seenVotes p !! voteKey vote = Some w -> v = w) /\
      exists m, p' = with_seenVotes m p /\ seen_step p m
  | (p', Ret (Some ev)) => p' = p /\ exists v val,
      pool_seenVotes p !! voteKey vote = Some v /\ votesForSameBlock v vote = false /\
      GetByName vals (AccountNameString (vt_Validator vote)) = Some val /\
      ev = make_evidence now v vote vals val /\
      (chainID <> "" -> VerifyDuplicateVoteEvidence (Some ev) chainID (Some vals) = Ret tt)
  | (p', _) => exists m, p' = with_seenVotes m p /\ seen_step p m
  end.

Lemma votesForSameBlock_refl v : votesForSameBlock v v = true.
Proof. unfold votesForSameBlock. destruct (vt_BlockHash v); [apply HashEqual_refl|done]. Qed.

Lemma CheckVote_cases now vote vals p :
  vals_agree keyof vals -> pool_ok p ->
  check_outcome now vote vals p (CheckVote now (Some vote) (Some vals) chainID p).
Proof.
  intros Ha Hp. pose proof (seen_step_refl p Hp) as Hrefl.
  assert (Hsame : exists m, p = with_seenVotes m p /\ seen_step p m)
    by (exists (pool_seenVotes p); by rewrite with_seenVotes_same).
  unfold CheckVote. destruct (GetByName vals _) as [val|] eqn:Hval; [|done].
  destruct (rwrap (unless_empty _ _) _) as [[]| |] eqn:Hsig; [|done..].
  apply rwrap_Ret in Hsig. rewrite unless_empty_Ret in Hsig.
  assert (Hok : seen_ok (voteKey vote) vote) by (split; [done|]; exists (nv_PublicKey val); split; [by apply Ha|done]).
  destruct (pool_seenVotes p !! voteKey vote) as [v|] eqn:Hv.
  - destruct (votesForSameBlock v vote) eqn:Hb.
    { split; [|done]. exists v. split_and!; [done..|congruence]. }
    destruct (rwrap _ _) as [[]| |] eqn:Hev; cbn; [|done..]. split; [done|].
    apply rwrap_Ret in Hev. rewrite unless_empty_Ret in Hev. by exists v, val.
  - assert (Hst : forall q m, q = with_seenVotes m p -> m ⊆ pool_seenVotes p ->
      (forall k' v', pool_seenVotes p !! k' = Some v' -> protectedHeight p <= vt_Height v' -> m !! k' = Some v') ->
      Z.of_nat (size m) < MaxSeenVotes -> check_outcome now vote vals p (store_seen (voteKey vote) vote q, Ret None)).
    { intros q m -> Hs Hk Hsz. unfold store_seen. rewrite CopyVote_id. cbn. split.
      - exists vote. rewrite lookup_insert_eq. split_and!; [done|apply votesForSameBlock_refl|congruence].
      - exists (<[voteKey vote := vote]> m). split; [by destruct p|]. by apply store_seen_step. }
    rewrite Z.geb_leb. destruct (Z.leb_spec MaxSeenVotes (Z.of_nat (size (pool_seenVotes p)))) as [Hf|Hf].
    + destruct (pruneOldestVotes_spec (MaxSeenVotes ÷ 10) p) as (P1 & P2 & P3).
      set (q := pruneOldestVotes _ p) in *.
      assert (Hq : q = with_seenVotes (pool_seenVotes q) p) by (rewrite <- P3; by destruct q).
      rewrite Z.geb_leb. destruct (Z.leb_spec MaxSeenVotes (Z.of_nat (size (pool_seenVotes q)))) as [Hg|Hg].
      * exists (pool_seenVotes q). split; [exact Hq|]. split; [exact P2| |].
        -- pose proof (size_subseteq _ _ P1). pose proof (pok_seen_size _ _ _ Hp). lia.
        -- intros k v Hk. apply (pok_seen _ _ _ Hp). by eapply lookup_weaken.
      * by apply (Hst q (pool_seenVotes q)).
    + apply (Hst p (pool_seenVotes p)); [by rewrite with_seenVotes_same|done..].
Qed.

Lemma seen_step_ok p m : pool_ok p -> seen_step p m -> pool_ok (with_seenVotes m p).
Proof. intros [Hh Hn Hs Hd _ _] [_ Hsz Hok]. by split. Qed.

Lemma check_outcome_seen now vote vals p out :
  pool_ok p -> check_outcome now vote vals p out -> exists m, out.1 = with_seenVotes m p /\ seen_step p m.
Proof.
  intros Hp. destruct out as [p' [[ev|]| |]]; cbn; [|naive_solver..].
  intros [-> _]. exists (pool_seenVotes p). rewrite with_seenVotes_same. by auto using seen_step_refl.
Qed.

Lemma CheckVote_seen now vote vals p :
  vals_agree keyof vals -> pool_ok p ->
  exists m, (CheckVote now vote (Some vals) chainID p).1 = with_seenVotes m p /\ seen_step p m.
Proof.
  intros Ha Hp. destruct vote as [vote|].
  - eapply check_outcome_seen; [done|]. by apply CheckVote_cases.
  - exists (pool_seenVotes p). rewrite with_seenVotes_same. by auto using seen_step_refl.
Qed.

(** [AddEvidence]: appended, if fresh, not expired and within the limit; else unchanged. *)
Lemma AddEvidence_cases ev p :
  match AddEvidence ev p with
  | (p', Ret _) => exists e, ev = Some e /\ p' = with_pending (pool_pending p ++ [e]) p /\
      len (pool_pending p) < MaxPendingEvidence /\ evidenceKey e ∉ pool_committed p /\
      evidenceKey e ∉ evidenceKey <$> pool_pending p /\ isExpired p e = false
  | (p', _) => p' = p
  end.
Proof.
  unfold AddEvidence. destruct ev as [e|]; [|done]. destruct (len (ev_Data e) =? 0); [done|].
  rewrite Z.geb_leb. destruct (Z.leb_spec MaxPendingEvidence (len (pool_pending p))); [done|].
  case_bool_decide as Hc; [done|]. destruct (existsb _ _) eqn:He; [done|]. destruct (isExpired p e) eqn:Hx; [done|].
  exists e. unfold copy_evidence. rewrite clone_id. split_and!; try done; [by destruct e|].
  intros (q & Hk & Hq)%list_elem_of_fmap. rewrite <- not_true_iff_false, existsb_exists in He. apply He.
  exists q. split; [by apply list_elem_of_In|]. by apply bool_decide_eq_true_2.
Qed.

Lemma AddEvidence_ok ev p : pool_ok p -> pool_ok (AddEvidence ev p).1.
Proof.
  intros Hp. pose proof (AddEvidence_cases ev p) as Hc. destruct (AddEvidence ev p) as [p' [[]| |]]; cbn; [|by subst..].
  destruct Hc as (e & _ & -> & Hl & Hc & Hn & _). destruct Hp as [Hh Hnd Hs Hd Hss Hseen]. split; cbn; try done.
  - rewrite fmap_app. apply NoDup_app. split_and!; [done| |apply NoDup_singleton].
    intros k Hk ->%list_elem_of_singleton. done.
  - unfold len in *. rewrite length_app. cbn. lia.
  - intros x [Hx|E%list_elem_of_singleton]%elem_of_app; [by apply Hd|by subst x].
Qed.

Lemma AddDuplicateVoteEvidence_AddEvidence dve vals p :
  (AddDuplicateVoteEvidence dve chainID vals p).1 = p \/
  exists ev, (AddDuplicateVoteEvidence dve chainID vals p).1 = (AddEvidence (Some ev) p).1.
Proof. unfold AddDuplicateVoteEvidence. repeat (case_match; eauto). Qed.

Lemma MarkCommitted_ok evs p : pool_ok p -> pool_ok (MarkCommitted evs p).
Proof.
  intros [Hh Hnd Hs Hd Hss Hseen]. split; cbn; try done.
  - eapply sublist_NoDup; [exact Hnd|]. apply fmap_sublist, sublist_filter.
  - unfold len in *. etrans; [apply Nat2Z.inj_le, length_filter|done].
  - intros e [Hn He]%list_elem_of_filter. rewrite elem_of_list_to_set in Hn.
    rewrite elem_of_foldl_committed. intros [?|?]; [by eapply Hd|done].
Qed.

Lemma Update_ok height time p :
  pool_ok p -> pool_currentHeight p <= height <= MaxInt64 -> pool_ok (Update height time p).
Proof.
  intros [Hh Hnd Hs Hd Hss Hseen] Hle. split; cbn.
  - lia.
  - eapply sublist_NoDup; [exact Hnd|]. apply fmap_sublist, sublist_filter.
  - unfold len in *. etrans; [apply Nat2Z.inj_le, length_filter|done].
  - intros e [_ He]%list_elem_of_filter [_ Hc]%elem_of_filter. by eapply Hd.
  - etrans; [apply size_subseteq, map_filter_subseteq|done].
  - intros k v [Hk _]%map_lookup_filter_Some. by apply Hseen.
Qed.

Lemma pool_step_ok p p' : pool_ok p -> pool_step p p' -> pool_ok p'.
Proof.
  intros Hp Hs. destruct Hs as [h tm p ?|now vote vals p ?|ev p|dve vals p|evs p].
  - by apply Update_ok.
  - edestruct CheckVote_seen as (m & -> & ?); [done..|]. by apply seen_step_ok.
  - by apply AddEvidence_ok.
  - destruct (AddDuplicateVoteEvidence_AddEvidence dve vals p) as [->|[ev ->]]; [done|by apply AddEvidence_ok].
  - by apply MarkCommitted_ok.
Qed.

Lemma pool_steps_ok p p' : pool_ok p -> rtc pool_step p p' -> pool_ok p'.
Proof. intros Hp. induction 1; eauto using pool_step_ok. Qed.

Lemma NewPool_ok config : pool_ok (NewPool config).
Proof.
  split; cbn; [unfold MaxInt64; lia|apply NoDup_nil_2|done|set_solver|by rewrite map_size_empty|].
  intros k v. by rewrite lookup_empty.
Qed.

(** ** Properties *)

(** The heights only grow, and with them the pruning bounds. *)
Lemma pool_step_grows p p' :
  pool_ok p -> pool_step p p' ->
  pool_config p' = pool_config p /\ pool_currentHeight p <= pool_currentHeight p'.
Proof.
  intros Hp Hs. destruct Hs as [h tm p ?|now vote vals p ?|ev p|dve vals p|evs p]; [split; [done|cbn; lia]| | | |by split].
  - destruct (CheckVote_seen now vote vals p) as (m & -> & _); [done..|]. by split.
  - pose proof (AddEvidence_cases ev p) as Hc. destruct (AddEvidence ev p) as [q [[]| |]]; cbn; [|by subst..].
    destruct Hc as (e & _ & -> & _). by split.
  - destruct (AddDuplicateVoteEvidence_AddEvidence dve vals p) as [->|[ev ->]]; [by split|].
    pose proof (AddEvidence_cases (Some ev) p) as Hc.
    destruct (AddEvidence (Some ev) p) as [q [[]| |]]; cbn; [|by subst..].
    destruct Hc as (e & _ & -> & _). by split.
Qed.

Lemma protectedHeight_eq p :
  0 <= pool_currentHeight p <= MaxInt64 ->
  protectedHeight p = Z.max 0 (pool_currentHeight p - VoteProtectionWindow).
Proof.
  intros Hh. unfold protectedHeight. rewrite wrap64_small;
    [|unfold in_i64, MinInt64, MaxInt64, VoteProtectionWindow in *; lia].
  destruct (Z.ltb_spec (pool_currentHeight p - VoteProtectionWindow) 0); lia.
Qed.

Lemma too_old_eq p h :
  0 <= pool_currentHeight p <= MaxInt64 -> 0 <= h ->
  too_old p h = (h <? pool_currentHeight p) && (pool_currentHeight p - h >? cfg_MaxAgeBlocks (pool_config p)).
Proof.
  intros Hh Hnn. unfold too_old. destruct (Z.ltb_spec h (pool_currentHeight p)); [|done].
  rewrite wrap64_small; [done|]. unfold in_i64, MinInt64, MaxInt64 in *. lia.
Qed.

(** A vote within the protection window and the age limit. *)
Definition in_window (p : Pool) (v : Vote) : Prop :=
  0 <= vt_Height v /\ protectedHeight p <= vt_Height v /\ too_old p (vt_Height v) = false.

Lemma in_window_before p p' v :
  pool_ok p -> pool_ok p' -> pool_config p' = pool_config p ->
  pool_currentHeight p <= pool_currentHeight p' -> in_window p' v -> in_window p v.
Proof.
  intros Hp Hp' Hc Hle (H1 & H2 & H3). pose proof (pok_height _ _ _ Hp). pose proof (pok_height _ _ _ Hp').
  unfold in_window. rewrite protectedHeight_eq in * by done. rewrite too_old_eq, Hc in * by done.
  split_and!; [done|lia|]. rewrite !Z.gtb_ltb in *. apply andb_false_iff.
  destruct (Z.ltb_spec (vt_Height v) (pool_currentHeight p)); [right|by left].
  apply andb_false_iff in H3 as [H3%Z.ltb_ge|H3%Z.ltb_ge]; [lia|]. apply Z.ltb_ge. lia.
Qed.

Lemma pool_step_retains p p' k v :
  pool_ok p -> pool_step p p' -> pool_seenVotes p !! k = Some v -> in_window p' v ->
  pool_seenVotes p' !! k = Some v.
Proof.
  intros Hp Hs Hk (H1 & H2 & H3). destruct Hs as [h tm p ?|now vote vals p ?|ev p|dve vals p|evs p]; [| | | |done].
  - cbn. apply map_lookup_filter_Some. done.
  - destruct (CheckVote_seen now vote vals p) as (m & E & Hm); [done..|]. rewrite E in *. cbn.
    by apply (ss_keep _ _ Hm).
  - pose proof (AddEvidence_cases ev p) as Hc. destruct (AddEvidence ev p) as [q [[]| |]]; cbn; [|by subst..].
    by destruct Hc as (e & _ & -> & _).
  - destruct (AddDuplicateVoteEvidence_AddEvidence dve vals p) as [->|[ev ->]]; [done|].
    pose proof (AddEvidence_cases (Some ev) p) as Hc. destruct (AddEvidence (Some ev) p) as [q [[]| |]]; cbn; [|by subst..].
    by destruct Hc as (e & _ & -> & _).
Qed.

Lemma pool_steps_retain p p' k v :
  pool_ok p -> rtc pool_step p p' -> pool_seenVotes p !! k = Some v -> in_window p' v ->
  pool_seenVotes p' !! k = Some v.
Proof.
  intros Hp Hs. revert Hp. induction Hs as [|p q p' Hpq Hqp IH]; intros Hp Hk Hw; [done|].
  pose proof (pool_step_ok _ _ Hp Hpq) as Hq. apply IH; [done| |done]. apply (pool_step_retains p); [done..|].
  clear IH Hk Hpq Hp p. revert Hq. induction Hqp as [|a b c Hab Hbc IH]; intros Ha; [done|].
  pose proof (pool_step_ok _ _ Ha Hab) as Hb. destruct (pool_step_grows _ _ Ha Hab) as [? ?].
  eapply (in_window_before a b); [done..|]. by apply IH.
Qed.

(** C25: every reachable pool is consistent: no two pending items have the same key, none is
    committed already, the limits on pending evidence and on seen votes hold, and each seen
    vote is stored under its key with a signature that was verified. *)
Theorem EvidencePool_invariant config p : rtc pool_step (NewPool config) p -> pool_ok p.
Proof. intros Hs. eapply pool_steps_ok; [apply NewPool_ok|done]. Qed.

Lemma verify_evidence now v vote vals val pk :
  voteKey v = voteKey vote -> votesForSameBlock v vote = false ->
  GetByName vals (AccountNameString (vt_Validator vote)) = Some val -> nv_PublicKey val = pk ->
  VerifyVoteSignature chainID (Some v) pk = Ret tt -> VerifyVoteSignature chainID (Some vote) pk = Ret tt ->
  VerifyDuplicateVoteEvidence (Some (make_evidence now v vote vals val)) chainID (Some vals) = Ret tt.
Proof.
  intros (En & Eh & Er & Et)%voteKey_inj Hb Hval <- Hv Hvote. unfold VerifyDuplicateVoteEvidence, make_evidence.
  rewrite !CopyVote_id. cbn [default dve_VoteA dve_VoteB]. change (id v) with v. change (id vote) with vote.
  rewrite Eh, Er, Et, En, !Z.eqb_refl, Hb, bool_decide_eq_true_2 by done. cbn [negb].
  by rewrite Hval, Hv, Hvote.
Qed.

(** C26: equivocation is detected: once the pool has taken in a vote, and as long as the vote
    is within the protection window and the age limit, whatever happens to the pool in
    between, a second valid vote of the same validator for the same height, round and type
    but another block is answered with evidence; the evidence contains the second vote and a
    vote for the first block, and it verifies. *)
Theorem equivocation_detected config p1 p2 p3 now1 now2 a b vals1 vals2 val :
  chainID <> "" -> rtc pool_step (NewPool config) p1 -> vals_agree keyof vals1 ->
  CheckVote now1 (Some a) (Some vals1) chainID p1 = (p2, Ret None) ->
  rtc pool_step p2 p3 -> in_window p3 a -> vals_agree keyof vals2 ->
  vt_Validator a = vt_Validator b -> vt_Height a = vt_Height b -> vt_Round a = vt_Round b ->
  vt_Type a = vt_Type b -> votesForSameBlock a b = false ->
  GetByName vals2 (AccountNameString (vt_Validator b)) = Some val ->
  VerifyVoteSignature chainID (Some b) (nv_PublicKey val) = Ret tt ->
  exists ev, CheckVote now2 (Some b) (Some vals2) chainID p3 = (p3, Ret (Some ev)) /\
    VerifyDuplicateVoteEvidence (Some ev) chainID (Some vals2) = Ret tt /\
    dve_VoteB ev = b /\ votesForSameBlock (dve_VoteA ev) a = true.
Proof.
  intros Hch Hr Ha1 Hc Hs Hw Ha2 E1 E2 E3 E4 Hb Hval Hsig.
  pose proof (pool_steps_ok _ _ (NewPool_ok config) Hr) as H1.
  pose proof (CheckVote_cases now1 a vals1 p1 Ha1 H1) as Ho. rewrite Hc in Ho.
  destruct Ho as [(v & Hv & Hva & _) (m & Em & Hm)].
  assert (H2 : pool_ok p2) by (rewrite Em; by apply seen_step_ok).
  assert (Hk : voteKey a = voteKey b) by (unfold voteKey; by rewrite E1, E2, E3, E4).
  pose proof (pok_seen _ _ _ H2 _ _ Hv) as [Hkv (pk & Hpk & Hvsig)].
  apply voteKey_inj in Hkv as Hf. destruct Hf as (F1 & F2 & _).
  assert (Hv3 : pool_seenVotes p3 !! voteKey b = Some v).
  { rewrite <- Hk. apply (pool_steps_retain p2); [done..|]. unfold in_window in *. by rewrite F2. }
  assert (Hvb : votesForSameBlock v b = false).
  { revert Hva Hb. unfold votesForSameBlock. destruct (vt_BlockHash v), (vt_BlockHash a), (vt_BlockHash b); try done.
    intros ->%HashEqual_true. done. }
  assert (nv_PublicKey val = pk) as Epk.
  { apply Ha2 in Hval. rewrite F1, E1 in Hpk. congruence. }
  pose proof (verify_evidence now2 v b vals2 val pk ltac:(congruence) Hvb Hval Epk (Hvsig Hch) ltac:(by rewrite <- Epk)) as Hver.
  exists (make_evidence now2 v b vals2 val). split; [|split; [done|]].
  - unfold CheckVote. rewrite Hval, Hsig. unfold unless_empty. rewrite bool_decide_eq_false_2 by done.
    cbn [rwrap]. rewrite Hv3, Hvb, Hver. done.
  - unfold make_evidence. rewrite !CopyVote_id. done.
Qed.

(** Committed evidence: its key is not pending, and is recorded or expired for good. *)
Definition retired (ev : Evidence) (p : Pool) : Prop :=
  evidenceKey ev ∉ evidenceKey <$> pool_pending p /\
  (evidenceKey ev ∈ pool_committed p \/ too_old p (ev_Height ev) = true).

Lemma too_old_expired p e : too_old p (ev_Height e) = true -> isExpired p e = true.
Proof. unfold too_old, isExpired. intros [_ ->]%andb_prop. done. Qed.

Lemma retired_AddEvidence ev e p : retired ev p -> retired ev (AddEvidence e p).1.
Proof.
  intros [Hn Hc]. pose proof (AddEvidence_cases e p) as Ha.
  destruct (AddEvidence e p) as [q [[]| |]]; cbn; [|by subst..].
  destruct Ha as (x & _ & -> & _ & Hx & _ & Hexp). split; [|done]. cbn.
  rewrite fmap_app, elem_of_app. intros [?|E%list_elem_of_singleton]; [done|].
  assert (ev_Height ev = ev_Height x) as Eh.
  { pose proof (key_height_evidenceKey ev) as K1. rewrite E, key_height_evidenceKey in K1. congruence. }
  destruct Hc as [Hc|Hc]; [by rewrite E in Hc|]. rewrite Eh in Hc. apply too_old_expired in Hc. congruence.
Qed.

Lemma retired_step ev p p' :
  0 <= ev_Height ev -> pool_ok p -> pool_step p p' -> retired ev p -> retired ev p'.
Proof.
  intros H0' Hp Hs Hr. destruct Hs as [h tm p Hle|now vote vals p ?|e p|dve vals p|evs p].
  - destruct Hr as [Hn Hc]. set (q := with_current h tm p).
    assert (Hold : too_old p (ev_Height ev) = true -> too_old q (ev_Height ev) = true).
    { pose proof (pok_height _ _ _ Hp). rewrite !too_old_eq by (cbn; lia). cbn. intros [? ?]%andb_prop. bool_to_prop.
      apply andb_true_intro. split; [apply Z.ltb_lt; lia|rewrite Z.gtb_ltb; apply Z.ltb_lt; lia]. }
    split.
    + intros (x & E & [_ Hx]%list_elem_of_filter)%list_elem_of_fmap. apply Hn, list_elem_of_fmap. by exists x.
    + destruct (too_old q (ev_Height ev)) eqn:Eo; [by right|]. left. destruct Hc as [Hc|Hc]; [|specialize (Hold Hc); congruence].
      cbn. apply elem_of_filter. by rewrite key_height_evidenceKey.
  - destruct (CheckVote_seen now vote vals p) as (m & -> & _); [done..|]. exact Hr.
  - by apply retired_AddEvidence.
  - destruct (AddDuplicateVoteEvidence_AddEvidence dve vals p) as [->|[e ->]]; [done|by apply retired_AddEvidence].
  - destruct Hr as [Hn Hc]. split.
    + intros (x & E & [_ Hx]%list_elem_of_filter)%list_elem_of_fmap. apply Hn, list_elem_of_fmap. by exists x.
    + destruct Hc as [Hc|Hc]; [|by right]. left. cbn. apply elem_of_foldl_committed. by left.
Qed.

(** Evidence is punished once: evidence that was marked committed never becomes pending
    again, although the record of committed evidence is pruned. *)
Theorem committed_never_readded config p evs ev p' :
  0 <= ev_Height ev -> rtc pool_step (NewPool config) p -> ev ∈ evs ->
  rtc pool_step (MarkCommitted evs p) p' ->
  evidenceKey ev ∉ evidenceKey <$> pool_pending p' /\ (AddEvidence (Some ev) p').2 <> Ret tt.
Proof.
  intros Hh Hr Hin Hs. pose proof (pool_steps_ok _ _ (NewPool_ok config) Hr) as Hp.
  assert (Hret : retired ev (MarkCommitted evs p)).
  { split; [|left].
    - intros (x & E & [Hx _]%list_elem_of_filter)%list_elem_of_fmap. rewrite elem_of_list_to_set in Hx.
      apply Hx. rewrite <- E. by apply list_elem_of_fmap_2.
    - cbn. apply elem_of_foldl_committed. right. by apply list_elem_of_fmap_2. }
  assert (Hret' : retired ev p').
  { pose proof (MarkCommitted_ok evs p Hp) as Hq. revert Hret Hq. clear Hr Hp.
    induction Hs as [|x y z Hxy _ IH]; intros Hx Hq; [done|].
    apply IH; [by eapply retired_step|by eapply pool_step_ok]. }
  pose proof (retired_AddEvidence ev (Some ev) p' Hret') as Hra.
  split; [apply Hret'|]. pose proof (AddEvidence_cases (Some ev) p') as Ha.
  destruct (AddEvidence (Some ev) p') as [q [[]| |]]; cbn; try done. intros _.
  destruct Ha as (x & [= <-] & -> & _). destruct Hra as [Hn _]. apply Hn. cbn.
  rewrite fmap_app. apply elem_of_app. right. by apply list_elem_of_singleton.
Qed.
End PoolInvariant.

(** ** Examples *)

#[export] Instance list_order : MapOrder := {| map_order := map_to_list; map_order_perm := fun m => reflexivity _ |}.

Definition keys_ab (name : string) : option PublicKey := nv_PublicKey <$> GetByName set_ab name.

Lemma keys_ab_agree : vals_agree keys_ab set_ab.
Proof. intros name val E. unfold keys_ab. by rewrite E. Qed.

Definition vote_1 : Vote := vote_of at_0 VoteTypePrevote 1 0 (Some hash_1).
Definition vote_2 : Vote := vote_of at_0 VoteTypePrevote 1 0 (Some hash_2).
Definition pool_0 : Pool := NewPool DefaultPoolConfig.
Definition pool_1 : Pool := (CheckVote 7 (Some vote_1) (Some set_ab) chain_c pool_0).1.

Lemma pool_1_step : pool_step chain_c keys_ab pool_0 pool_1.
Proof. apply pool_CheckVote, keys_ab_agree. Qed.

Lemma EvidencePool_invariant_witness : pool_ok chain_c keys_ab pool_1.
Proof. apply (EvidencePool_invariant chain_c keys_ab DefaultPoolConfig), rtc_once, pool_1_step. Defined.

Lemma equivocation_detected_witness :
  exists ev, CheckVote 9 (Some vote_2) (Some set_ab) chain_c (Update 3 10 pool_1) = (Update 3 10 pool_1, Ret (Some ev)) /\
    VerifyDuplicateVoteEvidence (Some ev) chain_c (Some set_ab) = Ret tt /\
    dve_VoteB ev = vote_2 /\ votesForSameBlock (dve_VoteA ev) vote_1 = true.
Proof.
  eapply (equivocation_detected chain_c keys_ab DefaultPoolConfig pool_0 pool_1 (Update 3 10 pool_1)
           7 9 vote_1 vote_2 set_ab set_ab).
  - discriminate.
  - apply rtc_refl.
  - apply keys_ab_agree.
  - vm_compute. reflexivity.
  - apply rtc_once, pool_Update. vm_compute. split; congruence.
  - split_and!; vm_compute; congruence.
  - apply keys_ab_agree.
  - reflexivity.
  - reflexivity.
  - reflexivity.
  - reflexivity.
  - vm_compute. reflexivity.
  - vm_compute. reflexivity.
  - vm_compute. reflexivity.
Defined.

Definition evidence_0 : Evidence := mkEvidence EvidenceTypeDuplicateVote 1 5 [Byte.x01].

Lemma committed_never_readded_witness :
  evidenceKey evidence_0 ∉ evidenceKey <$> pool_pending (Update 200000 6 (MarkCommitted [evidence_0] pool_0)) /\
  (AddEvidence (Some evidence_0) (Update 200000 6 (MarkCommitted [evidence_0] pool_0))).2 <> Ret tt.
Proof.
  apply (committed_never_readded chain_c keys_ab DefaultPoolConfig pool_0 [evidence_0]).
  - vm_compute. congruence.
  - apply rtc_refl.
  - by left.
  - apply rtc_once, pool_Update. vm_compute. split; congruence.
Defined.
