(* ===== verification/Timeout.v ===== *)
(** * Timeouts and configuration (src/engine/timeout.go, src/engine/config.go)

    Durations are [int64] nanoseconds. The ticker is a state machine: a bounded queue of
    requests, at most one armed timer, a bounded queue of expired timeouts. *)

From S2P Require Export Prelude.

Definition RoundStepNewHeight : Z := 0.
Definition RoundStepNewRound : Z := 1.
Definition RoundStepPropose : Z := 2.
Definition RoundStepPrevote : Z := 3.
Definition RoundStepPrevoteWait : Z := 4.
Definition RoundStepPrecommit : Z := 5.
Definition RoundStepPrecommitWait : Z := 6.
Definition RoundStepCommit : Z := 7.

Definition timeoutChannelSize : nat := 100.
Definition MaxRoundForTimeout : Z := 10000.

Definition Millisecond : Z := 10 ^ 6.
Definition Second : Z := 10 ^ 9.
Definition Minute : Z := 60 * 10 ^ 9.

Record TimeoutInfo := mkTimeoutInfo {
  ti_Duration : Z;
  ti_Height : Z;
  ti_Round : Z;
  ti_Step : Z }.

#[export] Instance TimeoutInfo_eq_dec : EqDecision TimeoutInfo.
Proof. solve_decision. Defined.

Record TimeoutConfig := mkTimeoutConfig {
  tc_Propose : Z;
  tc_ProposeDelta : Z;
  tc_Prevote : Z;
  tc_PrevoteDelta : Z;
  tc_Precommit : Z;
  tc_PrecommitDelta : Z;
  tc_Commit : Z }.

Definition DefaultTimeoutConfig : TimeoutConfig :=
  {| tc_Propose := 3000 * Millisecond;
     tc_ProposeDelta := 500 * Millisecond;
     tc_Prevote := 1000 * Millisecond;
     tc_PrevoteDelta := 500 * Millisecond;
     tc_Precommit := 1000 * Millisecond;
     tc_PrecommitDelta := 500 * Millisecond;
     tc_Commit := 1000 * Millisecond |}.

(** ** config.go *)

Record Config := mkConfig {
  cf_ChainID : string;
  cf_Timeouts : TimeoutConfig;
  cf_WALPath : string;
  cf_WALSync : bool;
  cf_MaxBlockBytes : Z;
  cf_CreateEmptyBlocks : bool;
  cf_CreateEmptyBlocksInterval : Z;
  cf_SkipTimeoutCommit : bool }.

Definition DefaultConfig : Config :=
  {| cf_ChainID := "leaderberry-chain";
     cf_Timeouts := DefaultTimeoutConfig;
     cf_WALPath := "data/cs.wal";
     cf_WALSync := true;
     cf_MaxBlockBytes := 22020096;
     cf_CreateEmptyBlocks := true;
     cf_CreateEmptyBlocksInterval := 0;
     cf_SkipTimeoutCommit := false |}.

Definition ErrEmptyChainID : error := sentinel "engine.ErrEmptyChainID".
Definition ErrEmptyWALPath : error := sentinel "engine.ErrEmptyWALPath".
Definition ErrInvalidMaxBlockBytes : error := sentinel "engine.ErrInvalidMaxBlockBytes".

(** [TimeoutConfig.Validate]; [None] is a nil error. *)
Definition Validate (tc : TimeoutConfig) : option error :=
  let maxTimeout := 5 * Minute in
  if! tc_Propose tc <=? 0 return Some (errorf "propose timeout must be positive") in
  if! tc_Propose tc >? maxTimeout return Some (errorf "propose timeout exceeds 5 minutes") in
  if! tc_ProposeDelta tc <? 0 return Some (errorf "propose_delta must be non-negative") in
  if! tc_Prevote tc <=? 0 return Some (errorf "prevote timeout must be positive") in
  if! tc_Prevote tc >? maxTimeout return Some (errorf "prevote timeout exceeds 5 minutes") in
  if! tc_PrevoteDelta tc <? 0 return Some (errorf "prevote_delta must be non-negative") in
  if! tc_Precommit tc <=? 0 return Some (errorf "precommit timeout must be positive") in
  if! tc_Precommit tc >? maxTimeout return Some (errorf "precommit timeout exceeds 5 minutes") in
  if! tc_PrecommitDelta tc <? 0 return Some (errorf "precommit_delta must be non-negative") in
  if! tc_Commit tc <=? 0 return Some (errorf "commit timeout must be positive") in
  if! tc_Commit tc >? maxTimeout return Some (errorf "commit timeout exceeds 5 minutes") in
  None.

Definition ValidateBasic (cfg : Config) : option error :=
  if! bool_decide (cf_ChainID cfg = "") return Some ErrEmptyChainID in
  if! bool_decide (cf_WALPath cfg = "") return Some ErrEmptyWALPath in
  match Validate (cf_Timeouts cfg) with
  | Some e => Some e
  | None => if! cf_MaxBlockBytes cfg <=? 0 return Some ErrInvalidMaxBlockBytes in None
  end.

(** ** Durations *)

Definition clamp_round (round : Z) : Z :=
  let round := if round <? 0 then 0 else round in
  if round >? MaxRoundForTimeout then MaxRoundForTimeout else round.

(** [base + time.Duration(round)*delta] *)
Definition timeout_at (base delta round : Z) : Z := wrap64 (base + wrap64 (round * delta)).

Definition calculateDuration (tc : TimeoutConfig) (ti : TimeoutInfo) : Z :=
  let round := clamp_round (ti_Round ti) in
  if ti_Step ti =? RoundStepPropose then timeout_at (tc_Propose tc) (tc_ProposeDelta tc) round
  else if ti_Step ti =? RoundStepPrevoteWait then timeout_at (tc_Prevote tc) (tc_PrevoteDelta tc) round
  else if ti_Step ti =? RoundStepPrecommitWait then
    timeout_at (tc_Precommit tc) (tc_PrecommitDelta tc) round
  else if ti_Step ti =? RoundStepCommit then tc_Commit tc
  else Second.

Definition ProposeTimeout (tc : TimeoutConfig) (round : Z) : Z :=
  timeout_at (tc_Propose tc) (tc_ProposeDelta tc) (clamp_round round).
Definition PrevoteTimeout (tc : TimeoutConfig) (round : Z) : Z :=
  timeout_at (tc_Prevote tc) (tc_PrevoteDelta tc) (clamp_round round).
Definition PrecommitTimeout (tc : TimeoutConfig) (round : Z) : Z :=
  timeout_at (tc_Precommit tc) (tc_PrecommitDelta tc) (clamp_round round).
Definition CommitTimeout (tc : TimeoutConfig) : Z := tc_Commit tc.

(** ** The ticker

    [tt_timer] is the armed timer; [tt_running] tells whether the goroutine [run] is there. *)
Record TimeoutTicker := mkTimeoutTicker {
  tt_config : TimeoutConfig;
  tt_timer : option TimeoutInfo;
  tt_tickCh : list TimeoutInfo;
  tt_tockCh : list TimeoutInfo;
  tt_running : bool;
  tt_droppedTimeouts : Z;
  tt_droppedSchedules : Z }.

Definition NewTimeoutTicker (config : TimeoutConfig) : TimeoutTicker :=
  mkTimeoutTicker config None [] [] false 0 0.

Definition TimeoutTicker_Start (tt : TimeoutTicker) : TimeoutTicker :=
  if! tt_running tt return tt in
  mkTimeoutTicker (tt_config tt) (tt_timer tt) (tt_tickCh tt) (tt_tockCh tt) true
    (tt_droppedTimeouts tt) (tt_droppedSchedules tt).

Definition TimeoutTicker_Stop (tt : TimeoutTicker) : TimeoutTicker :=
  if! negb (tt_running tt) return tt in
  mkTimeoutTicker (tt_config tt) None (tt_tickCh tt) (tt_tockCh tt) false
    (tt_droppedTimeouts tt) (tt_droppedSchedules tt).

Definition ScheduleTimeout (ti : TimeoutInfo) (tt : TimeoutTicker) : TimeoutTicker :=
  if (length (tt_tickCh tt) <? timeoutChannelSize)%nat then
    mkTimeoutTicker (tt_config tt) (tt_timer tt) (tt_tickCh tt ++ [ti]) (tt_tockCh tt) (tt_running tt)
      (tt_droppedTimeouts tt) (tt_droppedSchedules tt)
  else
    mkTimeoutTicker (tt_config tt) (tt_timer tt) (tt_tickCh tt) (tt_tockCh tt) (tt_running tt)
      (tt_droppedTimeouts tt) (u64 (tt_droppedSchedules tt + 1)).

(** One iteration of [run] that receives a request: it replaces the armed timer. *)
Definition run_tick (tt : TimeoutTicker) : TimeoutTicker :=
  match tt_running tt, tt_tickCh tt with
  | true, ti :: tickCh =>
      let ti := mkTimeoutInfo (calculateDuration (tt_config tt) ti) (ti_Height ti) (ti_Round ti) (ti_Step ti) in
      mkTimeoutTicker (tt_config tt) (Some ti) tickCh (tt_tockCh tt) (tt_running tt)
        (tt_droppedTimeouts tt) (tt_droppedSchedules tt)
  | _, _ => tt
  end.

(** The function of [time.AfterFunc]. *)
Definition timer_fire (tt : TimeoutTicker) : TimeoutTicker :=
  match tt_timer tt with
  | None => tt
  | Some ti =>
      if (length (tt_tockCh tt) <? timeoutChannelSize)%nat then
        mkTimeoutTicker (tt_config tt) None (tt_tickCh tt) (tt_tockCh tt ++ [ti]) (tt_running tt)
          (tt_droppedTimeouts tt) (tt_droppedSchedules tt)
      else
        mkTimeoutTicker (tt_config tt) None (tt_tickCh tt) (tt_tockCh tt) (tt_running tt)
          (u64 (tt_droppedTimeouts tt + 1)) (tt_droppedSchedules tt)
  end.

(** The receiver's [<-tt.Chan()]. *)
Definition receive_tock (tt : TimeoutTicker) : option (TimeoutInfo * TimeoutTicker) :=
  match tt_tockCh tt with
  | [] => None
  | ti :: tockCh =>
      Some (ti, mkTimeoutTicker (tt_config tt) (tt_timer tt) (tt_tickCh tt) tockCh (tt_running tt)
                  (tt_droppedTimeouts tt) (tt_droppedSchedules tt))
  end.

Definition DroppedTimeouts (tt : TimeoutTicker) : Z := tt_droppedTimeouts tt.
Definition DroppedSchedules (tt : TimeoutTicker) : Z := tt_droppedSchedules tt.

(** ** Properties *)

(** The bound the comment of [calculateDuration] asks for: no [int64] overflow in any round. *)
Definition deltas_bounded (tc : TimeoutConfig) : Prop :=
  forall d, d ∈ [tc_ProposeDelta tc; tc_PrevoteDelta tc; tc_PrecommitDelta tc] ->
    d <= Z.quot (MaxInt64 - 5 * Minute) MaxRoundForTimeout.

Lemma Validate_bounds tc :
  Validate tc = None ->
  (0 < tc_Propose tc <= 5 * Minute /\ 0 <= tc_ProposeDelta tc) /\
  (0 < tc_Prevote tc <= 5 * Minute /\ 0 <= tc_PrevoteDelta tc) /\
  (0 < tc_Precommit tc <= 5 * Minute /\ 0 <= tc_PrecommitDelta tc) /\ 0 < tc_Commit tc <= 5 * Minute.
Proof. unfold Validate. repeat (case_match; [done|]). bool_to_prop. intros _. lia. Qed.

Lemma clamp_round_range r : 0 <= clamp_round r <= MaxRoundForTimeout.
Proof. unfold clamp_round, MaxRoundForTimeout. repeat case_match; bool_to_prop; lia. Qed.

Lemma clamp_round_mono r r' : r <= r' -> clamp_round r <= clamp_round r'.
Proof. unfold clamp_round, MaxRoundForTimeout. intros. repeat case_match; bool_to_prop; lia. Qed.

Lemma timeout_at_exact base delta r :
  0 < base <= 5 * Minute -> 0 <= delta <= Z.quot (MaxInt64 - 5 * Minute) MaxRoundForTimeout ->
  timeout_at base delta (clamp_round r) = base + clamp_round r * delta.
Proof.
  intros Hb Hd. pose proof (clamp_round_range r) as Hr. unfold timeout_at.
  assert (Hm : 0 <= clamp_round r * delta <= MaxInt64 - 5 * Minute).
  { rewrite Z.quot_div_nonneg in Hd by (vm_compute; congruence).
    split; [nia|]. transitivity (MaxRoundForTimeout * ((MaxInt64 - 5 * Minute) / MaxRoundForTimeout)); [nia|].
    apply Z.mul_div_le. done. }
  assert (0 < Minute) by done. unfold MaxInt64 in *. rewrite (wrap64_small (_ * _)) by (unfold in_i64, MinInt64, MaxInt64; lia).
  apply wrap64_small. unfold in_i64, MinInt64, MaxInt64. lia.
Qed.

(** The step's base timeout and its increase per round. *)
Definition step_base (tc : TimeoutConfig) (step : Z) : Z * Z :=
  if step =? RoundStepPropose then (tc_Propose tc, tc_ProposeDelta tc)
  else if step =? RoundStepPrevoteWait then (tc_Prevote tc, tc_PrevoteDelta tc)
  else if step =? RoundStepPrecommitWait then (tc_Precommit tc, tc_PrecommitDelta tc)
  else if step =? RoundStepCommit then (tc_Commit tc, 0) else (Second, 0).

Lemma step_base_bounds tc step :
  Validate tc = None -> deltas_bounded tc ->
  0 < (step_base tc step).1 <= 5 * Minute /\
  0 <= (step_base tc step).2 <= Z.quot (MaxInt64 - 5 * Minute) MaxRoundForTimeout.
Proof.
  intros Hv Hd. apply Validate_bounds in Hv as ([] & [] & [] & ?). unfold deltas_bounded in Hd.
  assert (0 <= Z.quot (MaxInt64 - 5 * Minute) MaxRoundForTimeout) by done.
  unfold step_base. repeat case_match; cbn [fst snd]; (split; [lia || done|]);
    first [done | split; [done|apply Hd; set_solver]].
Qed.

Lemma calculateDuration_exact tc ti :
  Validate tc = None -> deltas_bounded tc ->
  calculateDuration tc ti = (step_base tc (ti_Step ti)).1 + clamp_round (ti_Round ti) * (step_base tc (ti_Step ti)).2.
Proof.
  intros Hv Hd. pose proof (step_base_bounds tc (ti_Step ti) Hv Hd) as [Hb Hp]. revert Hb Hp.
  unfold calculateDuration, step_base. repeat case_match; cbn [fst snd]; intros Hb Hp;
    try (by apply timeout_at_exact); lia.
Qed.

(** With a valid configuration whose deltas keep the documented bound, the duration of a
    timeout does not overflow: it is the base of its step plus the clamped round times the
    delta, it is positive, and it does not decrease with the round. *)
Theorem calculateDuration_spec tc ti ti' :
  Validate tc = None -> deltas_bounded tc ->
  calculateDuration tc ti = (step_base tc (ti_Step ti)).1 + clamp_round (ti_Round ti) * (step_base tc (ti_Step ti)).2 /\
  0 < calculateDuration tc ti <= MaxInt64 /\
  (ti_Step ti' = ti_Step ti -> ti_Round ti <= ti_Round ti' -> calculateDuration tc ti <= calculateDuration tc ti').
Proof.
  intros Hv Hd. rewrite !calculateDuration_exact by done.
  pose proof (step_base_bounds tc (ti_Step ti) Hv Hd) as [Hb Hp].
  pose proof (clamp_round_range (ti_Round ti)) as Hr. split_and!; [done|nia| |].
  - rewrite Z.quot_div_nonneg in Hp by (vm_compute; congruence).
    transitivity (5 * Minute + MaxRoundForTimeout * ((MaxInt64 - 5 * Minute) / MaxRoundForTimeout)); [nia|].
    pose proof (Z.mul_div_le (MaxInt64 - 5 * Minute) MaxRoundForTimeout ltac:(done)). lia.
  - intros -> Hle. pose proof (clamp_round_mono _ _ Hle). nia.
Qed.

Lemma calculateDuration_spec_witness :
  calculateDuration DefaultTimeoutConfig (mkTimeoutInfo 0 1 7 RoundStepPropose) = 3000 * Millisecond + 7 * (500 * Millisecond) /\
  0 < calculateDuration DefaultTimeoutConfig (mkTimeoutInfo 0 1 7 RoundStepPropose) <= MaxInt64 /\
  (RoundStepPropose = RoundStepPropose -> 7 <= 99999 ->
   calculateDuration DefaultTimeoutConfig (mkTimeoutInfo 0 1 7 RoundStepPropose) <=
   calculateDuration DefaultTimeoutConfig (mkTimeoutInfo 0 1 99999 RoundStepPropose)).
Proof.
  apply (calculateDuration_spec DefaultTimeoutConfig (mkTimeoutInfo 0 1 7 RoundStepPropose)
           (mkTimeoutInfo 0 1 99999 RoundStepPropose)); [reflexivity|].
  intros d Hd. repeat (apply elem_of_cons in Hd as [->|Hd]; [vm_compute; congruence|]). by apply not_elem_of_nil in Hd.
Defined.

(** A configuration that passes [ValidateBasic], whose propose timeout of round 1 is negative:
    the deltas are not bounded from above. *)
Definition unbounded_config : Config :=
  mkConfig "chain" (mkTimeoutConfig Second (MaxInt64 - 1) Second 0 Second 0 Second) "wal" true 1000 true 0 false.

Lemma ValidateBasic_allows_overflow :
  ValidateBasic unbounded_config = None /\
  calculateDuration (cf_Timeouts unbounded_config) (mkTimeoutInfo 0 1 1 RoundStepPropose) < 0.
Proof. split; vm_compute; reflexivity. Qed.

(** *** The ticker *)

Fixpoint run_ticks (n : nat) (tt : TimeoutTicker) : TimeoutTicker :=
  match n with O => tt | S n => run_ticks n (run_tick tt) end.

Lemma run_ticks_last n tt ti :
  tt_running tt = true -> length (tt_tickCh tt) = n -> last (tt_tickCh tt) = Some ti ->
  tt_tickCh (run_ticks n tt) = [] /\ tt_tockCh (run_ticks n tt) = tt_tockCh tt /\
  tt_timer (run_ticks n tt) =
    Some (mkTimeoutInfo (calculateDuration (tt_config tt) ti) (ti_Height ti) (ti_Round ti) (ti_Step ti)).
Proof.
  revert tt. induction n as [|n IH]; intros tt Hr Hl Hlast; [by destruct (tt_tickCh tt)|].
  destruct tt as [config timer [|x ticks] tocks running dt ds]; [done|]. cbn in *. subst running.
  destruct ticks as [|y ticks]; [injection Hlast as <-; injection Hl as <-; done|].
  apply (IH (mkTimeoutTicker config _ (y :: ticks) tocks true dt ds)); [done|by injection Hl|done].
Qed.

(** The ticker delivers the last timeout asked for: once it has taken all pending requests, a
    running ticker whose channel was not full has exactly one timer, for the request made last,
    with its computed duration; if that fires while there is room, it is the next timeout
    appended to those not yet received. *)
Theorem ticker_last_request (tt : TimeoutTicker) (ti : TimeoutInfo) :
  tt_running tt = true -> (length (tt_tickCh tt) < timeoutChannelSize)%nat ->
  let fired := mkTimeoutInfo (calculateDuration (tt_config tt) ti) (ti_Height ti) (ti_Round ti) (ti_Step ti) in
  let tt' := run_ticks (S (length (tt_tickCh tt))) (ScheduleTimeout ti tt) in
  tt_tickCh tt' = [] /\ tt_timer tt' = Some fired /\
  ((length (tt_tockCh tt) < timeoutChannelSize)%nat -> tt_tockCh (timer_fire tt') = tt_tockCh tt ++ [fired]).
Proof.
  intros Hr Hl fired tt'.
  assert (Hs : tt_config (ScheduleTimeout ti tt) = tt_config tt /\ tt_tickCh (ScheduleTimeout ti tt) = tt_tickCh tt ++ [ti] /\
    tt_tockCh (ScheduleTimeout ti tt) = tt_tockCh tt /\ tt_running (ScheduleTimeout ti tt) = true).
  { unfold ScheduleTimeout. apply Nat.ltb_lt in Hl. by rewrite Hl. }
  destruct Hs as (Ec & Et & Ek & Er).
  destruct (run_ticks_last (S (length (tt_tickCh tt))) (ScheduleTimeout ti tt) ti) as (H1 & H2 & H3);
    [done|rewrite Et, length_app; cbn; lia|by rewrite Et, last_snoc|].
  rewrite Ec in H3. split_and!; [done|done|]. intros Hk. unfold timer_fire, tt'.
  rewrite H3, H2, Ek. apply Nat.ltb_lt in Hk. by rewrite Hk.
Qed.

Lemma ticker_last_request_witness :
  let tt := ScheduleTimeout (mkTimeoutInfo 0 1 0 RoundStepPropose) (TimeoutTicker_Start (NewTimeoutTicker DefaultTimeoutConfig)) in
  let ti := mkTimeoutInfo 0 1 2 RoundStepPrevoteWait in
  let fired := mkTimeoutInfo (2000 * Millisecond) 1 2 RoundStepPrevoteWait in
  let tt' := run_ticks 2 (ScheduleTimeout ti tt) in
  tt_tickCh tt' = [] /\ tt_timer tt' = Some fired /\
  ((0 < timeoutChannelSize)%nat -> tt_tockCh (timer_fire tt') = [fired]).
Proof.
  apply (ticker_last_request (ScheduleTimeout (mkTimeoutInfo 0 1 0 RoundStepPropose)
    (TimeoutTicker_Start (NewTimeoutTicker DefaultTimeoutConfig))) (mkTimeoutInfo 0 1 2 RoundStepPrevoteWait));
    [reflexivity|vm_compute; lia].
Defined.
