(* ===== verification/PeerState.v ===== *)
(** * What the peers have (src/engine/peer_state.go)

    Bitmaps of the votes a peer has, the round state of a peer, and the set of peers. A peer is
    shared: [GetPeer] and [AddPeer] return a pointer to it, which stays valid when the peer has been
    removed from the set. *)

From S2P Require Export Timeout Validators.

(** ** Vote bitmaps *)

(** [bits] is a slice of 64-bit words. *)
Record VoteBitmap := mkVoteBitmap {
  vb_bits : list Z;
  vb_count : Z;
  vb_numVals : Z }.

Definition NewVoteBitmap (valSet : option ValidatorSet) : VoteBitmap :=
  match valSet with
  | None => mkVoteBitmap [] 0 0
  | Some valSet =>
      let numVals := vals_Size valSet in
      let numWords := (numVals + 63) / 64 in
      mkVoteBitmap (replicate (Z.to_nat numWords) 0) 0 numVals
  end.

(** [vb.bits[i]] for an index that is not negative. *)
Definition word (vb : VoteBitmap) (i : Z) : res Z :=
  match vb_bits vb !! Z.to_nat i with Some w => Ret w | None => Panic "index out of range" end.

(** [uint64(1) << bitIdx] for [bitIdx < 64] *)
Definition mask (bitIdx : Z) : Z := Z.shiftl 1 bitIdx.

(** [index] is an unsigned 16-bit integer. *)
Definition Set_ (index : Z) (vb : VoteBitmap) : res VoteBitmap :=
  if! index >=? vb_numVals vb return Ret vb in
  let wordIdx := index / 64 in
  let bitIdx := index `mod` 64 in
  let! w := word vb wordIdx in
  Ret (if Z.land w (mask bitIdx) =? 0
       then mkVoteBitmap (<[Z.to_nat wordIdx := Z.lor w (mask bitIdx)]> (vb_bits vb)) (vb_count vb + 1) (vb_numVals vb)
       else vb).

Definition hasUnlocked (index : Z) (vb : VoteBitmap) : res bool :=
  let! w := word vb (index / 64) in
  Ret (negb (Z.land w (mask (index `mod` 64)) =? 0)).

Definition Has (index : Z) (vb : VoteBitmap) : res bool :=
  if! index >=? vb_numVals vb return Ret false in
  hasUnlocked index vb.

Definition Count (vb : VoteBitmap) : Z := vb_count vb.

(** The loop of [Missing] over [i, ..., i + n - 1]. *)
Fixpoint missing_loop (n : nat) (i : Z) (vb : VoteBitmap) : res (list Z) :=
  match n with
  | O => Ret []
  | S n =>
      let! h := hasUnlocked (u16 i) vb in
      let! l := missing_loop n (i + 1) vb in
      Ret (if h then l else u16 i :: l)
  end.

Definition Missing (vb : VoteBitmap) : res (list Z) := missing_loop (Z.to_nat (vb_numVals vb)) 0 vb.

Definition VoteBitmap_Copy (vb : VoteBitmap) : VoteBitmap := mkVoteBitmap (vb_bits vb) (vb_count vb) (vb_numVals vb).

(** ** One peer *)

Record PeerRoundState := mkPeerRoundState {
  prs_Height : Z;
  prs_Round : Z;
  prs_Step : Z;
  prs_StartTime : Z;
  prs_Proposal : bool;
  prs_ProposalBlockID : Hash;
  prs_Prevotes : VoteBitmap;
  prs_Precommits : VoteBitmap;
  prs_LastCommitRound : Z;
  prs_CatchingUp : bool }.

Record PeerState := mkPeerState {
  peer_ID : string;
  peer_valSet : option ValidatorSet;
  peer_prs : PeerRoundState;
  peer_lastSeen : Z }.

Definition zeroHash : Hash := mkHash [].

Definition with_prs (prs : PeerRoundState) (lastSeen : Z) (ps : PeerState) : PeerState :=
  mkPeerState (peer_ID ps) (peer_valSet ps) prs lastSeen.

(** The clock is read twice, for [lastSeen] first. *)
Definition NewPeerState (now now' : Z) (peerID : string) (valSet : option ValidatorSet) : PeerState :=
  mkPeerState peerID valSet
    (mkPeerRoundState 0 0 RoundStepNewHeight now' false zeroHash (NewVoteBitmap valSet) (NewVoteBitmap valSet) 0 false) now.

Definition PeerID (ps : PeerState) : string := peer_ID ps.

Definition GetRoundState (ps : PeerState) : PeerRoundState :=
  let prs := peer_prs ps in
  mkPeerRoundState (prs_Height prs) (prs_Round prs) (prs_Step prs) (prs_StartTime prs) (prs_Proposal prs)
    (prs_ProposalBlockID prs) (VoteBitmap_Copy (prs_Prevotes prs)) (VoteBitmap_Copy (prs_Precommits prs))
    (prs_LastCommitRound prs) (prs_CatchingUp prs).

Definition SetHasProposal (now : Z) (height round : Z) (blockHash : Hash) (ps : PeerState) : PeerState :=
  let prs := peer_prs ps in
  if negb (prs_Height prs =? height) || negb (prs_Round prs =? round) then ps else
  with_prs (mkPeerRoundState (prs_Height prs) (prs_Round prs) (prs_Step prs) (prs_StartTime prs) true blockHash
    (prs_Prevotes prs) (prs_Precommits prs) (prs_LastCommitRound prs) (prs_CatchingUp prs)) now ps.

Definition with_bitmaps (prevotes precommits : VoteBitmap) (prs : PeerRoundState) : PeerRoundState :=
  mkPeerRoundState (prs_Height prs) (prs_Round prs) (prs_Step prs) (prs_StartTime prs) (prs_Proposal prs)
    (prs_ProposalBlockID prs) prevotes precommits (prs_LastCommitRound prs) (prs_CatchingUp prs).

Definition SetHasVote (now : Z) (vote : Vote) (ps : PeerState) : res PeerState :=
  let prs := peer_prs ps in
  if! negb (vt_Height vote =? prs_Height prs) return Ret ps in
  if! negb (vt_Round vote =? prs_Round prs) return Ret ps in
  if vt_Type vote =? VoteTypePrevote then
    let! prevotes := Set_ (vt_ValidatorIndex vote) (prs_Prevotes prs) in
    Ret (with_prs (with_bitmaps prevotes (prs_Precommits prs) prs) now ps)
  else if vt_Type vote =? VoteTypePrecommit then
    let! precommits := Set_ (vt_ValidatorIndex vote) (prs_Precommits prs) in
    Ret (with_prs (with_bitmaps (prs_Prevotes prs) precommits prs) now ps)
  else Ret (with_prs prs now ps).

Definition with_step (step : Z) (prs : PeerRoundState) : PeerRoundState :=
  mkPeerRoundState (prs_Height prs) (prs_Round prs) step (prs_StartTime prs) (prs_Proposal prs)
    (prs_ProposalBlockID prs) (prs_Prevotes prs) (prs_Precommits prs) (prs_LastCommitRound prs) (prs_CatchingUp prs).

Definition ApplyNewRoundStep (now now' : Z) (height round step : Z) (ps : PeerState) : PeerState :=
  let prs := peer_prs ps in
  if height <? prs_Height prs then ps
  else if height >? prs_Height prs then
    with_prs (mkPeerRoundState height round step now false zeroHash (NewVoteBitmap (peer_valSet ps))
      (NewVoteBitmap (peer_valSet ps)) 0 false) now' ps
  else if round <? prs_Round prs then ps
  else if round >? prs_Round prs then
    with_prs (mkPeerRoundState (prs_Height prs) round step (prs_StartTime prs) false zeroHash
      (NewVoteBitmap (peer_valSet ps)) (NewVoteBitmap (peer_valSet ps)) (prs_LastCommitRound prs) (prs_CatchingUp prs)) now ps
  else if step >? prs_Step prs then with_prs (with_step step prs) now ps
  else ps.

Definition ApplyCommit (now : Z) (height round : Z) (ps : PeerState) : PeerState :=
  let prs := peer_prs ps in
  if negb (height =? prs_Height prs) then ps else
  with_prs (mkPeerRoundState (prs_Height prs) (prs_Round prs) RoundStepCommit (prs_StartTime prs) (prs_Proposal prs)
    (prs_ProposalBlockID prs) (prs_Prevotes prs) (prs_Precommits prs) round (prs_CatchingUp prs)) now ps.

Definition SetCatchingUp (catching : bool) (ps : PeerState) : PeerState :=
  let prs := peer_prs ps in
  with_prs (mkPeerRoundState (prs_Height prs) (prs_Round prs) (prs_Step prs) (prs_StartTime prs) (prs_Proposal prs)
    (prs_ProposalBlockID prs) (prs_Prevotes prs) (prs_Precommits prs) (prs_LastCommitRound prs) catching) (peer_lastSeen ps) ps.

Definition IsCatchingUp (ps : PeerState) : bool := prs_CatchingUp (peer_prs ps).
Definition Peer_Height (ps : PeerState) : Z := prs_Height (peer_prs ps).
Definition LastSeen (ps : PeerState) : Z := peer_lastSeen ps.

Definition PeerState_UpdateValidatorSet (valSet : option ValidatorSet) (ps : PeerState) : PeerState :=
  mkPeerState (peer_ID ps) valSet (with_bitmaps (NewVoteBitmap valSet) (NewVoteBitmap valSet) (peer_prs ps)) (peer_lastSeen ps).

Definition NeedsVote (vote : Vote) (ps : PeerState) : res bool :=
  let prs := peer_prs ps in
  if! negb (vt_Height vote =? prs_Height prs) || negb (vt_Round vote =? prs_Round prs) return Ret false in
  if vt_Type vote =? VoteTypePrevote then let! h := Has (vt_ValidatorIndex vote) (prs_Prevotes prs) in Ret (negb h)
  else if vt_Type vote =? VoteTypePrecommit then let! h := Has (vt_ValidatorIndex vote) (prs_Precommits prs) in Ret (negb h)
  else Ret false.

Definition NeedsProposal (height round : Z) (ps : PeerState) : bool :=
  let prs := peer_prs ps in
  (prs_Height prs =? height) && (prs_Round prs =? round) && negb (prs_Proposal prs).

(** ** The set of peers *)

(** The peers by ID, as positions in a heap of peers. *)
Record PeerSet := mkPeerSet {
  pset_peers : gmap string nat;
  pset_valSet : option ValidatorSet;
  pset_heap : list PeerState }.

Definition NewPeerSet (valSet : option ValidatorSet) : PeerSet := mkPeerSet ∅ valSet [].

Definition AddPeer (now now' : Z) (peerID : string) (ps : PeerSet) : PeerSet * nat :=
  match pset_peers ps !! peerID with
  | Some l => (ps, l)
  | None =>
      let l := length (pset_heap ps) in
      (mkPeerSet (<[peerID := l]> (pset_peers ps)) (pset_valSet ps)
         (pset_heap ps ++ [NewPeerState now now' peerID (pset_valSet ps)]), l)
  end.

Definition RemovePeer (peerID : string) (ps : PeerSet) : PeerSet :=
  mkPeerSet (delete peerID (pset_peers ps)) (pset_valSet ps) (pset_heap ps).

Definition GetPeer (peerID : string) (ps : PeerSet) : option nat := pset_peers ps !! peerID.

Definition PeerSet_Size (ps : PeerSet) : Z := Z.of_nat (size (pset_peers ps)).

(** A method called on a peer. *)
Definition on_peer (l : nat) (f : PeerState -> PeerState) (ps : PeerSet) : PeerSet :=
  mkPeerSet (pset_peers ps) (pset_valSet ps) (alter f l (pset_heap ps)).

(** The order in which a map of peers is iterated. *)
Class PeerOrder := {
  peer_order : gmap string nat -> list (string * nat);
  peer_order_perm : forall m, peer_order m ≡ₚ map_to_list m }.

Section Peers.
Context `{PeerOrder}.

(** The peers of the set in the order of the map. *)
Definition peers_in_order (ps : PeerSet) : list (nat * PeerState) :=
  omap (fun kv => (fun p => (kv.2, p)) <$> pset_heap ps !! kv.2) (peer_order (pset_peers ps)).

Definition AllPeers (ps : PeerSet) : list nat := (peers_in_order ps).*1.

Definition PeersAtHeight (height : Z) (ps : PeerSet) : list nat :=
  (List.filter (fun lp => Peer_Height lp.2 =? height) (peers_in_order ps)).*1.

(** The loop of [PeersNeedingVote]. *)
Fixpoint needing_vote (vote : Vote) (l : list (nat * PeerState)) : res (list nat) :=
  match l with
  | [] => Ret []
  | (i, p) :: l =>
      let! needs := NeedsVote vote p in
      let! r := needing_vote vote l in
      Ret (if needs : bool then i :: r else r)
  end.

Definition PeersNeedingVote (vote : Vote) (ps : PeerSet) : res (list nat) := needing_vote vote (peers_in_order ps).

Definition PeersNeedingProposal (height round : Z) (ps : PeerSet) : list nat :=
  (List.filter (fun lp => NeedsProposal height round lp.2) (peers_in_order ps)).*1.

Definition CatchingUpPeers (ps : PeerSet) : list nat :=
  (List.filter (fun lp => IsCatchingUp lp.2) (peers_in_order ps)).*1.

(** The peers are independent of each other: the order does not matter. *)
Definition PeerSet_UpdateValidatorSet (valSet : option ValidatorSet) (ps : PeerSet) : PeerSet :=
  let ps := mkPeerSet (pset_peers ps) valSet (pset_heap ps) in
  foldl (fun ps kv => on_peer kv.2 (PeerState_UpdateValidatorSet valSet) ps) ps (peer_order (pset_peers ps)).

Definition MarkPeerCatchingUp (peerID : string) (ourHeight : Z) (ps : PeerSet) : PeerSet :=
  match pset_peers ps !! peerID with
  | None => ps
  | Some l => on_peer l (fun p => SetCatchingUp (Peer_Height p <? ourHeight) p) ps
  end.
End Peers.

(** ** Bitmaps are sets *)

(** The bitmap holds the indices [S]. *)
Record holds_set (vb : VoteBitmap) (S : gset Z) : Prop := mkHoldsSet {
  hs_size : 0 <= vb_numVals vb <= MaxValidators;
  hs_words : length (vb_bits vb) = Z.to_nat ((vb_numVals vb + 63) / 64);
  hs_bits : forall i w, 0 <= i < vb_numVals vb -> vb_bits vb !! Z.to_nat (i / 64) = Some w ->
    Z.testbit w (i `mod` 64) = bool_decide (i ∈ S);
  hs_range : forall i, i ∈ S -> 0 <= i < vb_numVals vb;
  hs_count : vb_count vb = Z.of_nat (size S) }.

Lemma land_mask w b : 0 <= b -> (Z.land w (mask b) =? 0) = negb (Z.testbit w b).
Proof.
  intros Hb. unfold mask. rewrite Z.shiftl_1_l. destruct (Z.testbit w b) eqn:E; cbn [negb].
  - apply Z.eqb_neq. intros H0. assert (Ht : Z.testbit (Z.land w (2 ^ b)) b = true).
    { by rewrite Z.land_spec, E, Z.pow2_bits_true. }
    by rewrite H0, Z.bits_0 in Ht.
  - apply Z.eqb_eq. apply Z.bits_inj'. intros i Hi. rewrite Z.land_spec, Z.bits_0, Z.pow2_bits_eqb by done.
    destruct (Z.eqb_spec b i) as [<-|]; [by rewrite E|by rewrite andb_false_r].
Qed.

Lemma word_in_range vb S i : holds_set vb S -> 0 <= i < vb_numVals vb -> exists w, vb_bits vb !! Z.to_nat (i / 64) = Some w.
Proof.
  intros [Hn Hw _ _ _] Hi. apply lookup_lt_is_Some. rewrite Hw. apply Z2Nat.inj_lt; Z.to_euclidean_division_equations; lia.
Qed.

Lemma hasUnlocked_spec vb S i : holds_set vb S -> 0 <= i < vb_numVals vb -> hasUnlocked i vb = Ret (bool_decide (i ∈ S)).
Proof.
  intros Hs Hi. destruct (word_in_range vb S i Hs Hi) as [w Hw]. unfold hasUnlocked, word. rewrite Hw. cbn [rbind].
  rewrite land_mask by (apply Z.mod_pos_bound; lia). by rewrite negb_involutive, (hs_bits _ _ Hs i w Hi Hw).
Qed.

Lemma Has_spec vb S i : holds_set vb S -> 0 <= i -> Has i vb = Ret (bool_decide (i ∈ S)).
Proof.
  intros Hs Hi. unfold Has. rewrite Z.geb_leb. destruct (Z.leb_spec (vb_numVals vb) i).
  - rewrite bool_decide_eq_false_2; [done|]. intros Hin%(hs_range _ _ Hs). lia.
  - apply hasUnlocked_spec; [done|lia].
Qed.

Lemma Missing_spec vb S : holds_set vb S -> Missing vb = Ret (filter (fun i => i ∉ S) (seqZ 0 (vb_numVals vb))).
Proof.
  intros Hs. unfold Missing. pose proof (hs_size _ _ Hs) as Hn. unfold MaxValidators in Hn.
  assert (Hloop : forall n i, 0 <= i -> i + Z.of_nat n = vb_numVals vb ->
    missing_loop n i vb = Ret (filter (fun i => i ∉ S) (seqZ i (Z.of_nat n)))).
  { induction n as [|n IH]; intros i Hi Hin; [done|]. cbn [missing_loop]. rewrite (u16_small i) by (unfold in_u16; lia).
    rewrite (hasUnlocked_spec vb S i Hs) by lia. cbn [rbind]. rewrite IH by lia. cbn [rbind].
    rewrite (seqZ_cons i) by lia. replace (Z.pred (Z.of_nat (Datatypes.S n))) with (Z.of_nat n) by lia.
    rewrite filter_cons. unfold Z.succ. case_bool_decide; [rewrite decide_False by tauto|rewrite decide_True by done]; done. }
  rewrite Hloop by lia. by rewrite Z2Nat.id by lia.
Qed.

Lemma Set_spec vb S i :
  holds_set vb S -> 0 <= i -> exists vb', Set_ i vb = Ret vb' /\ vb_numVals vb' = vb_numVals vb /\
    holds_set vb' (if i <? vb_numVals vb then {[i]} ∪ S else S).
Proof.
  intros Hs Hi. unfold Set_. rewrite Z.geb_leb, Z.leb_antisym. destruct (Z.ltb_spec i (vb_numVals vb)) as [Hlt|Hge]; cbn [negb].
  2: { by exists vb. }
  destruct (word_in_range vb S i Hs (conj Hi Hlt)) as [w Hw]. unfold word. rewrite Hw. cbn [rbind].
  assert (Hm : 0 <= i `mod` 64) by (apply Z.mod_pos_bound; lia).
  rewrite land_mask by done. pose proof (hs_bits _ _ Hs i w (conj Hi Hlt) Hw) as Hbit. eexists. split; [reflexivity|].
  destruct Hs as [Hn Hwds Hb Hr Hc]. rewrite Hbit. case_bool_decide as Hin; cbn [negb].
  { split; [done|]. replace ({[i]} ∪ S) with S by set_solver. done. }
  split; [done|]. split; cbn; [done|by rewrite length_insert| | |].
  - intros j w' Hj Hl. apply list_lookup_insert_Some in Hl as [(E & <- & _)|[Hne Hl]].
    + apply Z2Nat.inj in E; [|by apply Z.div_pos; lia|by apply Z.div_pos; lia]. rewrite Z.lor_spec. unfold mask.
      rewrite Z.shiftl_1_l, Z.pow2_bits_eqb by done. rewrite (Hb j w Hj) by (by rewrite <- E).
      destruct (Z.eqb_spec (i `mod` 64) (j `mod` 64)) as [Em|Em].
      * assert (i = j) as -> by (rewrite (Z.div_mod i 64), (Z.div_mod j 64) by lia; congruence).
        rewrite orb_true_r. symmetry. apply bool_decide_eq_true. set_solver.
      * rewrite orb_false_r. apply bool_decide_ext. assert (j <> i) by congruence. set_solver.
    + rewrite (Hb j w' Hj Hl). apply bool_decide_ext. assert (j <> i) by congruence. set_solver.
  - intros j [->%elem_of_singleton|Hj]%elem_of_union; [lia|by apply Hr].
  - rewrite size_union by set_solver. rewrite size_singleton. lia.
Qed.

Lemma New_holds_empty vs : len (vals_Validators vs) <= MaxValidators -> holds_set (NewVoteBitmap (Some vs)) ∅.
Proof.
  intros Hn. split; cbn.
  - unfold vals_Size, len in *. lia.
  - by rewrite length_replicate.
  - intros i w _ Hw. apply lookup_replicate in Hw as [-> _]. by rewrite Z.bits_0.
  - set_solver.
  - by rewrite size_empty.
Qed.

(** The indices set one after the other. *)
Fixpoint set_all (idxs : list Z) (vb : VoteBitmap) : res VoteBitmap :=
  match idxs with
  | [] => Ret vb
  | i :: idxs => let! vb := Set_ i vb in set_all idxs vb
  end.

Lemma set_all_spec idxs vb S :
  holds_set vb S -> Forall (fun i => 0 <= i) idxs ->
  exists vb', set_all idxs vb = Ret vb' /\ vb_numVals vb' = vb_numVals vb /\
    holds_set vb' (S ∪ list_to_set (filter (fun i => i < vb_numVals vb) idxs)).
Proof.
  intros Hs Hi. revert vb S Hs. induction Hi as [|i idxs Hi _ IH]; intros vb S Hs; cbn [set_all].
  { exists vb. split_and!; [done..|]. by replace (S ∪ _) with S by set_solver. }
  destruct (Set_spec vb S i Hs Hi) as (vb1 & -> & En & Hs1). cbn [rbind].
  destruct (IH vb1 _ Hs1) as (vb2 & -> & En2 & Hs2). exists vb2. split_and!; [done|congruence|]. rewrite En in Hs2.
  rewrite filter_cons. destruct (Z.ltb_spec i (vb_numVals vb)).
  - rewrite decide_True by lia. cbn. by replace (S ∪ ({[i]} ∪ _)) with ({[i]} ∪ S ∪ list_to_set (filter (fun i => i < vb_numVals vb) idxs)) by set_solver.
  - by rewrite decide_False by lia.
Qed.

(** C23: a bitmap is the set of the indices set in it: no index is out of range, [Has] is
    membership, [Count] is the number of elements, and [Missing] lists the other validators
    in order. *)
Theorem VoteBitmap_is_set (vs : ValidatorSet) (idxs : list Z)
    (Hvs : len (vals_Validators vs) <= MaxValidators) (Hi : Forall in_u16 idxs) :
  exists vb, set_all idxs (NewVoteBitmap (Some vs)) = Ret vb /\
    let S : gset Z := list_to_set (filter (fun i => i < vals_Size vs) idxs) in
    (forall i, in_u16 i -> Has i vb = Ret (bool_decide (i ∈ S))) /\
    Count vb = Z.of_nat (size S) /\
    Missing vb = Ret (filter (fun i => i ∉ S) (seqZ 0 (vals_Size vs))).
Proof.
  destruct (set_all_spec idxs _ ∅ (New_holds_empty vs Hvs)) as (vb & E & Hn & Hs).
  { eapply Forall_impl; [exact Hi|]. unfold in_u16. lia. }
  rewrite union_empty_l_L in Hs. cbn [NewVoteBitmap vb_numVals] in Hn, Hs. exists vb. split; [done|]. cbv zeta. split_and!.
  - intros i [Hi' _]. by apply Has_spec.
  - apply (hs_count _ _ Hs).
  - rewrite (Missing_spec _ _ Hs). by rewrite Hn.
Qed.

Lemma VoteBitmap_is_set_witness :
  exists vb, set_all [1; 0; 9; 1] (NewVoteBitmap (Some set_ab)) = Ret vb /\
    let S : gset Z := list_to_set (filter (fun i => i < vals_Size set_ab) [1; 0; 9; 1]) in
    (forall i, in_u16 i -> Has i vb = Ret (bool_decide (i ∈ S))) /\
    Count vb = Z.of_nat (size S) /\
    Missing vb = Ret (filter (fun i => i ∉ S) (seqZ 0 (vals_Size set_ab))).
Proof. apply VoteBitmap_is_set; [by vm_compute|]. repeat constructor; lia. Defined.

(** ** The votes a peer is known to have *)

(** Reports about a peer, with the votes reported so far. *)
Inductive peer_step : PeerState * list Vote -> PeerState * list Vote -> Prop :=
| pstep_proposal now h r b ps log : peer_step (ps, log) (SetHasProposal now h r b ps, log)
| pstep_vote now v ps ps' log : in_u16 (vt_ValidatorIndex v) -> SetHasVote now v ps = Ret ps' -> peer_step (ps, log) (ps', log ++ [v])
| pstep_round now now' h r s ps log : peer_step (ps, log) (ApplyNewRoundStep now now' h r s ps, log)
| pstep_commit now h r ps log : peer_step (ps, log) (ApplyCommit now h r ps, log)
| pstep_catching b ps log : peer_step (ps, log) (SetCatchingUp b ps, log)
| pstep_vals vs ps log : len (vals_Validators vs) <= MaxValidators -> peer_step (ps, log) (PeerState_UpdateValidatorSet (Some vs) ps, log).

(** The votes of a bitmap have been reported, for the height and round of the peer. *)
Definition reported (typ : Z) (prs : PeerRoundState) (vb : VoteBitmap) (log : list Vote) : Prop :=
  exists S, holds_set vb S /\ forall i, i ∈ S -> exists v, v ∈ log /\
    vt_Type v = typ /\ vt_Height v = prs_Height prs /\ vt_Round v = prs_Round prs /\ vt_ValidatorIndex v = i.

Definition valset_fits (vs : option ValidatorSet) : Prop :=
  match vs with Some vs => len (vals_Validators vs) <= MaxValidators | None => True end.

Record peer_ok (x : PeerState * list Vote) : Prop := mkPeerOk {
  pk_vals : valset_fits (peer_valSet x.1);
  pk_prevotes : reported VoteTypePrevote (peer_prs x.1) (prs_Prevotes (peer_prs x.1)) x.2;
  pk_precommits : reported VoteTypePrecommit (peer_prs x.1) (prs_Precommits (peer_prs x.1)) x.2 }.

Lemma reported_new typ prs vs log : valset_fits vs -> reported typ prs (NewVoteBitmap vs) log.
Proof.
  intros Hv. exists ∅. split; [|set_solver]. destruct vs as [vs|]; [by apply New_holds_empty|].
  split; cbn; [by vm_compute|done|intros; lia|set_solver|by rewrite size_empty].
Qed.

Lemma reported_same typ prs prs' vb log log' :
  reported typ prs vb log -> prs_Height prs' = prs_Height prs -> prs_Round prs' = prs_Round prs -> log ⊆ log' ->
  reported typ prs' vb log'.
Proof.
  intros (S & Hs & Hv) Eh Er Hl. exists S. split; [done|]. intros i Hi. destruct (Hv i Hi) as (v & Hin & ?).
  exists v. rewrite Eh, Er. split; [by apply Hl|done].
Qed.

Lemma reported_vote prs vb vb' v log :
  reported (vt_Type v) prs vb log -> in_u16 (vt_ValidatorIndex v) -> vt_Height v = prs_Height prs -> vt_Round v = prs_Round prs ->
  Set_ (vt_ValidatorIndex v) vb = Ret vb' -> reported (vt_Type v) prs vb' (log ++ [v]).
Proof.
  intros (S & Hs & Hv) [Hi _] Eh Er E. destruct (Set_spec vb S _ Hs Hi) as (vb1 & E1 & _ & Hs1).
  rewrite E in E1. injection E1 as <-. eexists. split; [exact Hs1|]. intros i Hin.
  assert (Hin' : i = vt_ValidatorIndex v \/ i ∈ S) by (case_match; set_solver).
  destruct Hin' as [->|Hin']; [exists v; set_solver|]. destruct (Hv i Hin') as (v' & ? & ?). exists v'. set_solver.
Qed.

Lemma peer_step_ok x y : peer_ok x -> peer_step x y -> peer_ok y.
Proof.
  intros [Hv Hp Hc] Hs.
  assert (Hrefl : forall l : list Vote, l ⊆ l) by done.
  destruct Hs as [now h r b ps log|now v ps ps' log Hi E|now now' h r s ps log|now h r ps log|b ps log|vs ps log Hvs]; cbn in *.
  - unfold SetHasProposal. case_match; [done|]. split; cbn; [done|by eapply reported_same..].
  - assert (Hsub : log ⊆ log ++ [v]) by set_solver. unfold SetHasVote in E.
    case_match; [injection E as <-; split; [done|by eapply reported_same..]|].
    case_match; [injection E as <-; split; [done|by eapply reported_same..]|]. bool_to_prop.
    destruct (Z.eqb_spec (vt_Type v) VoteTypePrevote) as [Et|_]; [|destruct (Z.eqb_spec (vt_Type v) VoteTypePrecommit) as [Et|_]].
    + apply rbind_Ret in E as (vb & E1 & [= <-]). split; cbn; [done|..|by eapply reported_same].
      rewrite <- Et in Hp |- *. eapply reported_same; [by eapply (reported_vote (peer_prs ps))|done..].
    + apply rbind_Ret in E as (vb & E1 & [= <-]). split; cbn; [done|by eapply reported_same|].
      rewrite <- Et in Hc |- *. eapply reported_same; [by eapply (reported_vote (peer_prs ps))|done..].
    + injection E as <-. split; cbn; [done|by eapply reported_same..].
  - unfold ApplyNewRoundStep. case_match; [done|]. case_match; [split; cbn; [done|by apply reported_new..]|]. case_match; [done|].
    case_match; [split; cbn; [done|by apply reported_new..]|]. case_match; [|done]. split; cbn; [done|by eapply reported_same..].
  - unfold ApplyCommit. case_match; [done|]. split; cbn; [done|by eapply reported_same..].
  - split; cbn; [done|by eapply reported_same..].
  - split; cbn; [done|by apply (reported_new _ _ (Some vs))..].
Qed.

Lemma new_peer_ok now now' id vs : valset_fits vs -> peer_ok (NewPeerState now now' id vs, []).
Proof. intros Hv. split; cbn; [done|by apply reported_new..]. Qed.

Lemma peer_reach_ok x y : peer_ok x -> rtc peer_step x y -> peer_ok y.
Proof. intros Hx. induction 1 as [|a b c Hs _ IH]; [done|]. apply IH. by eapply peer_step_ok. Qed.

Lemma reported_Has typ prs vb log i :
  reported typ prs vb log -> 0 <= i ->
  exists b, Has i vb = Ret b /\ (b = true -> exists v, v ∈ log /\
    vt_Type v = typ /\ vt_Height v = prs_Height prs /\ vt_Round v = prs_Round prs /\ vt_ValidatorIndex v = i).
Proof.
  intros (S & Hs & Hv) Hi. exists (bool_decide (i ∈ S)). split; [by apply Has_spec|]. intros Hin%bool_decide_eq_true. by apply Hv.
Qed.

(** Heights do not go back, nor do the rounds of a height. *)
Definition not_behind (prs prs' : PeerRoundState) : Prop :=
  prs_Height prs < prs_Height prs' \/ (prs_Height prs = prs_Height prs' /\ prs_Round prs <= prs_Round prs').

Lemma peer_step_progress x y : peer_step x y -> not_behind (peer_prs x.1) (peer_prs y.1).
Proof.
  assert (Hrefl : forall prs, not_behind prs prs) by (intros; right; lia).
  destruct 1 as [now h r b ps log|now v ps ps' log Hi E|now now' h r s ps log|now h r ps log|b ps log|vs ps log Hvs]; cbn.
  - unfold SetHasProposal. case_match; [apply Hrefl|right; cbn; lia].
  - unfold SetHasVote in E. repeat (case_match; [injection E as <-; apply Hrefl|]).
    case_match; [|case_match]; [apply rbind_Ret in E as (? & _ & [= <-])|apply rbind_Ret in E as (? & _ & [= <-])|injection E as <-];
      right; cbn; lia.
  - unfold ApplyNewRoundStep. repeat case_match; bool_to_prop; try apply Hrefl; cbn; unfold not_behind; cbn; lia.
  - unfold ApplyCommit. case_match; [apply Hrefl|right; cbn; lia].
  - right. cbn. lia.
  - right. cbn. lia.
Qed.

(** C32: what a node believes of a peer. Whatever is reported, the height and round of the peer do not
    go back; and if the node thinks that the peer does not need a vote of its height and round,
    the peer has been reported to have a vote of that kind of the same validator. *)
Theorem peer_votes_sound (now now' : Z) (id : string) (vs : option ValidatorSet) (x : PeerState * list Vote)
    (vote : Vote) (y : PeerState * list Vote)
    (Hvs : valset_fits vs) (Hr : rtc peer_step (NewPeerState now now' id vs, []) x) (Hi : in_u16 (vt_ValidatorIndex vote))
    (Hy : peer_step x y) :
  not_behind (peer_prs x.1) (peer_prs y.1) /\
  exists b, NeedsVote vote x.1 = Ret b /\
    (b = false -> vt_Height vote = prs_Height (peer_prs x.1) -> vt_Round vote = prs_Round (peer_prs x.1) ->
     vt_Type vote = VoteTypePrevote \/ vt_Type vote = VoteTypePrecommit ->
     exists v, v ∈ x.2 /\ vt_Type v = vt_Type vote /\ vt_Height v = vt_Height vote /\ vt_Round v = vt_Round vote /\
       vt_ValidatorIndex v = vt_ValidatorIndex vote).
Proof.
  split; [by apply peer_step_progress|]. destruct (peer_reach_ok _ _ (new_peer_ok now now' id vs Hvs) Hr) as [_ Hp Hc].
  destruct Hi as [Hi _]. destruct (reported_Has _ _ _ _ _ Hp Hi) as (bp & Ep & Vp). destruct (reported_Has _ _ _ _ _ Hc Hi) as (bc & Ec & Vc).
  unfold NeedsVote. case_match eqn:Em; [exists false; split; [done|]; intros _ Eh Er; bool_to_prop; rewrite Eh, Er, !Z.eqb_refl in Em; done|].
  destruct (Z.eqb_spec (vt_Type vote) VoteTypePrevote) as [Et|Nt].
  - rewrite Ep. eexists. split; [reflexivity|]. intros ->%negb_false_iff Eh Er _. destruct (Vp eq_refl) as (v & ? & ? & ? & ? & ?).
    exists v. by rewrite Eh, Er, Et.
  - destruct (Z.eqb_spec (vt_Type vote) VoteTypePrecommit) as [Et|Nt'].
    + rewrite Ec. eexists. split; [reflexivity|]. intros ->%negb_false_iff Eh Er _. destruct (Vc eq_refl) as (v & ? & ? & ? & ? & ?).
      exists v. by rewrite Eh, Er, Et.
    + exists false. split; [done|]. intros _ _ _ [?|?]; done.
Qed.

Lemma peer_votes_sound_witness :
  let vote := mkVote VoteTypePrevote 0 0 None 0 (mkAccountName (Some "a")) 0 (mkSignature []) in
  let ps := NewPeerState 0 0 "p" (Some set_ab) in
  not_behind (peer_prs ps) (peer_prs (ApplyNewRoundStep 1 1 3 0 1 ps)) /\
  exists b, NeedsVote vote ps = Ret b /\
    (b = false -> 0 = prs_Height (peer_prs ps) -> 0 = prs_Round (peer_prs ps) ->
     VoteTypePrevote = VoteTypePrevote \/ VoteTypePrevote = VoteTypePrecommit ->
     exists v, v ∈ [] /\ vt_Type v = VoteTypePrevote /\ vt_Height v = 0 /\ vt_Round v = 0 /\ vt_ValidatorIndex v = 0).
Proof.
  intros vote ps. apply (peer_votes_sound 0 0 "p" (Some set_ab) (ps, []) vote (ApplyNewRoundStep 1 1 3 0 1 ps, [])).
  - by vm_compute.
  - apply rtc_refl.
  - by vm_compute.
  - apply pstep_round.
Defined.
