(* ===== verification/BlockSync.v ===== *)
(** * Block synchronization (src/engine/blocksync.go)

    A node that is behind requests blocks from its peers, verifies the commit of each, and
    stores it. The store and the provider of blocks are interfaces; the set of peers is shared with
    the rest of the node, which may change it between two operations. *)

From S2P Require Export PeerState Commits.

(** ** Constants and errors *)

Definition MaxBlocksPerRequest : Z := 20.
Definition BlockSyncTimeout : Z := 10 * Second.
Definition PeerHeightUpdateInterval : Z := 2 * Second.
Definition MaxPendingRequests : Z := 5.

Definition ErrBlockSyncNotStarted : error := sentinel "engine.ErrBlockSyncNotStarted".
Definition ErrBlockSyncTimeout : error := sentinel "engine.ErrBlockSyncTimeout".
Definition engine_ErrInvalidCommit : error := sentinel "engine.ErrInvalidCommit".
Definition ErrNoAvailablePeers : error := sentinel "engine.ErrNoAvailablePeers".
Definition ErrBlockHeightMismatch : error := sentinel "engine.ErrBlockHeightMismatch".

(** ** Interfaces *)

Class BlockProvider (P : Type) := {
  prov_RequestBlock : string -> Z -> P -> P * res unit;
  prov_GetPeerHeight : string -> P -> Z;
  prov_GetAvailablePeers : P -> list string }.

Class BlockStore (S : Type) := {
  store_SaveBlock : Block -> Commit -> S -> S * res unit;
  store_LoadBlock : Z -> S -> res (option Block);
  store_LoadCommit : Z -> S -> res (option Commit);
  store_Height : S -> Z }.

(** ** State *)

Definition BlockSyncStateIdle : Z := 0.
Definition BlockSyncStateSyncing : Z := 1.
Definition BlockSyncStateCaughtUp : Z := 2.

Record blockRequest := mkBlockRequest {
  req_height : Z;
  req_peerID : string;
  req_requestAt : Z }.

(** What the goroutines of the callbacks are started with, in order. [Saved] is not in the code: it
    records the blocks given to the store, with the validators at that time. *)
Inductive sync_event :=
| Block_committed (b : Block) (c : Commit)
| Caught_up
| Saved (vals : option ValidatorSet) (b : Block) (c : Commit).

Record BlockSyncer (S P : Type) := mkBlockSyncer {
  bs_chainID : string;
  bs_state : Z;
  bs_store : S;
  bs_provider : P;
  bs_valSet : option ValidatorSet;
  bs_peerSet : PeerSet;
  bs_startHeight : Z;
  bs_targetHeight : Z;
  bs_currentHeight : Z;
  bs_pendingRequests : gmap Z blockRequest;
  bs_requestTimeout : Z;
  bs_onBlockCommitted : bool;
  bs_onCaughtUp : bool;
  bs_started : bool;
  bs_trace : list sync_event }.
Arguments mkBlockSyncer {S P}.
Arguments bs_chainID {S P}.
Arguments bs_state {S P}.
Arguments bs_store {S P}.
Arguments bs_provider {S P}.
Arguments bs_valSet {S P}.
Arguments bs_peerSet {S P}.
Arguments bs_startHeight {S P}.
Arguments bs_targetHeight {S P}.
Arguments bs_currentHeight {S P}.
Arguments bs_pendingRequests {S P}.
Arguments bs_requestTimeout {S P}.
Arguments bs_onBlockCommitted {S P}.
Arguments bs_onCaughtUp {S P}.
Arguments bs_started {S P}.
Arguments bs_trace {S P}.

Section BlockSyncer.
Context `{Crypto} `{Cramberry} `{PeerOrder} {S P : Type} `{BlockStore S} `{BlockProvider P}.
Notation BS := (BlockSyncer S P).

Definition NewBlockSyncer (chainID : string) (store : S) (provider : P) (valSet : option ValidatorSet) (peerSet : PeerSet) : BS :=
  mkBlockSyncer chainID BlockSyncStateIdle store provider valSet peerSet 0 0 0 ∅ BlockSyncTimeout false false false [].

(** *** Field updates *)

Definition set_sync (state start target current : Z) (bs : BS) : BS :=
  mkBlockSyncer (bs_chainID bs) state (bs_store bs) (bs_provider bs) (bs_valSet bs) (bs_peerSet bs) start target current
    (bs_pendingRequests bs) (bs_requestTimeout bs) (bs_onBlockCommitted bs) (bs_onCaughtUp bs) (bs_started bs) (bs_trace bs).
Definition set_pending (pending : gmap Z blockRequest) (bs : BS) : BS :=
  mkBlockSyncer (bs_chainID bs) (bs_state bs) (bs_store bs) (bs_provider bs) (bs_valSet bs) (bs_peerSet bs) (bs_startHeight bs)
    (bs_targetHeight bs) (bs_currentHeight bs) pending (bs_requestTimeout bs) (bs_onBlockCommitted bs) (bs_onCaughtUp bs)
    (bs_started bs) (bs_trace bs).
Definition set_store (store : S) (bs : BS) : BS :=
  mkBlockSyncer (bs_chainID bs) (bs_state bs) store (bs_provider bs) (bs_valSet bs) (bs_peerSet bs) (bs_startHeight bs)
    (bs_targetHeight bs) (bs_currentHeight bs) (bs_pendingRequests bs) (bs_requestTimeout bs) (bs_onBlockCommitted bs)
    (bs_onCaughtUp bs) (bs_started bs) (bs_trace bs).
Definition set_provider (provider : P) (bs : BS) : BS :=
  mkBlockSyncer (bs_chainID bs) (bs_state bs) (bs_store bs) provider (bs_valSet bs) (bs_peerSet bs) (bs_startHeight bs)
    (bs_targetHeight bs) (bs_currentHeight bs) (bs_pendingRequests bs) (bs_requestTimeout bs) (bs_onBlockCommitted bs)
    (bs_onCaughtUp bs) (bs_started bs) (bs_trace bs).
Definition set_peers (valSet : option ValidatorSet) (peerSet : PeerSet) (bs : BS) : BS :=
  mkBlockSyncer (bs_chainID bs) (bs_state bs) (bs_store bs) (bs_provider bs) valSet peerSet (bs_startHeight bs)
    (bs_targetHeight bs) (bs_currentHeight bs) (bs_pendingRequests bs) (bs_requestTimeout bs) (bs_onBlockCommitted bs)
    (bs_onCaughtUp bs) (bs_started bs) (bs_trace bs).
Definition set_control (onBlockCommitted onCaughtUp started : bool) (bs : BS) : BS :=
  mkBlockSyncer (bs_chainID bs) (bs_state bs) (bs_store bs) (bs_provider bs) (bs_valSet bs) (bs_peerSet bs) (bs_startHeight bs)
    (bs_targetHeight bs) (bs_currentHeight bs) (bs_pendingRequests bs) (bs_requestTimeout bs) onBlockCommitted onCaughtUp started
    (bs_trace bs).
Definition add_event (e : sync_event) (bs : BS) : BS :=
  mkBlockSyncer (bs_chainID bs) (bs_state bs) (bs_store bs) (bs_provider bs) (bs_valSet bs) (bs_peerSet bs) (bs_startHeight bs)
    (bs_targetHeight bs) (bs_currentHeight bs) (bs_pendingRequests bs) (bs_requestTimeout bs) (bs_onBlockCommitted bs)
    (bs_onCaughtUp bs) (bs_started bs) (bs_trace bs ++ [e]).

Definition SetOnBlockCommitted (set : bool) (bs : BS) : BS := set_control set (bs_onCaughtUp bs) (bs_started bs) bs.
Definition SetOnCaughtUp (set : bool) (bs : BS) : BS := set_control (bs_onBlockCommitted bs) set (bs_started bs) bs.

(** *** Life cycle *)

Definition BlockSyncer_Start (bs : BS) : BS * res unit :=
  if! bs_started bs return (bs, Err (errorf "already started")) in
  let height := store_Height (bs_store bs) in
  (set_control (bs_onBlockCommitted bs) (bs_onCaughtUp bs) true (set_sync BlockSyncStateIdle height (bs_targetHeight bs) height bs), Ret tt).

Definition BlockSyncer_Stop (bs : BS) : BS * res unit :=
  if! negb (bs_started bs) return (bs, Err (errorf "not started")) in
  (set_control (bs_onBlockCommitted bs) (bs_onCaughtUp bs) false bs, Ret tt).

Definition BlockSyncer_GetState (bs : BS) : Z := bs_state bs.
Definition GetProgress (bs : BS) : Z * Z := (bs_currentHeight bs, bs_targetHeight bs).
Definition IsSyncing (bs : BS) : bool := bs_state bs =? BlockSyncStateSyncing.
Definition IsCaughtUp (bs : BS) : bool := bs_state bs =? BlockSyncStateCaughtUp.

Definition set_bs_state (state : Z) (bs : BS) : BS :=
  set_sync state (bs_startHeight bs) (bs_targetHeight bs) (bs_currentHeight bs) bs.

(** The end of a sync, with its callback. *)
Definition caught_up (bs : BS) : BS :=
  let bs := set_bs_state BlockSyncStateCaughtUp bs in
  if bs_onCaughtUp bs then add_event Caught_up bs else bs.

Definition UpdateTargetHeight (bs : BS) : BS :=
  let maxHeight := foldl (fun m lp => if Peer_Height lp.2 >? m then Peer_Height lp.2 else m) (bs_currentHeight bs)
                     (peers_in_order (bs_peerSet bs)) in
  let bs := set_sync (bs_state bs) (bs_startHeight bs) maxHeight (bs_currentHeight bs) bs in
  if bs_currentHeight bs >=? bs_targetHeight bs then
    if bs_state bs =? BlockSyncStateSyncing then caught_up bs else bs
  else if (bs_state bs =? BlockSyncStateIdle) || (bs_state bs =? BlockSyncStateCaughtUp)
  then set_bs_state BlockSyncStateSyncing bs else bs.

Definition findPeerForHeight (height : Z) (bs : BS) : string :=
  match List.find (fun lp => Peer_Height lp.2 >=? height) (peers_in_order (bs_peerSet bs)) with
  | Some (_, p) => PeerID p
  | None => ""
  end.

(** The loop of [requestMissingBlocks] from [height] on; [None] when the fuel runs out. The
    counter wraps around. *)
Fixpoint request_loop (fuel : nat) (now : Z -> Z) (height : Z) (bs : BS) : option BS :=
  if negb (height <=? bs_targetHeight bs) then Some bs else
  match fuel with
  | O => None
  | Datatypes.S fuel =>
      if Z.of_nat (size (bs_pendingRequests bs)) >=? MaxPendingRequests then Some bs else
      match bs_pendingRequests bs !! height with
      | Some _ => request_loop fuel now (wrap64 (height + 1)) bs
      | None =>
          let peerID := findPeerForHeight height bs in
          if bool_decide (peerID = "") then request_loop fuel now (wrap64 (height + 1)) bs else
          let '(provider, r) := prov_RequestBlock peerID height (bs_provider bs) in
          let bs := set_provider provider bs in
          match r with
          | Ret _ =>
              request_loop fuel now (wrap64 (height + 1))
                (set_pending (<[height := mkBlockRequest height peerID (now height)]> (bs_pendingRequests bs)) bs)
          | _ => request_loop fuel now (wrap64 (height + 1)) bs
          end
      end
  end.

(** [now]: the time at which the block of a height is requested. *)
Definition requestMissingBlocks (fuel : nat) (now : Z -> Z) (bs : BS) : option BS :=
  if negb (bs_state bs =? BlockSyncStateSyncing) then Some bs else
  if Z.of_nat (size (bs_pendingRequests bs)) >=? MaxPendingRequests then Some bs else
  request_loop fuel now (wrap64 (bs_currentHeight bs + 1)) bs.

Definition checkTimeouts (now : Z) (bs : BS) : BS :=
  set_pending (filter (fun kv => ~ (now - req_requestAt kv.2 > bs_requestTimeout bs)) (bs_pendingRequests bs)) bs.

(** One tick of [syncLoop]. *)
Definition syncLoop (fuel : nat) (now : Z -> Z) (now' : Z) (bs : BS) : option BS :=
  checkTimeouts now' <$> requestMissingBlocks fuel now (UpdateTargetHeight bs).

(** *** ReceiveBlock *)

(** The progress a stored block makes. *)
Definition block_progress (height : Z) (block : Block) (commit : Commit) (bs : BS) : BS :=
  if negb (height =? wrap64 (bs_currentHeight bs + 1)) then bs else
  let bs := set_sync (bs_state bs) (bs_startHeight bs) (bs_targetHeight bs) height bs in
  let bs := if bs_onBlockCommitted bs
            then add_event (Block_committed (default block (CopyBlock (Some block))) (default commit (CopyCommit (Some commit)))) bs
            else bs in
  if (bs_currentHeight bs >=? bs_targetHeight bs) && (bs_state bs =? BlockSyncStateSyncing) then caught_up bs else bs.

Definition ReceiveBlock (block : option Block) (commit : option Commit) (bs : BS) : BS * res unit :=
  match block, commit with
  | Some block, Some commit =>
      let height := bh_Height (b_Header block) in
      if! negb (cm_Height commit =? height) return (bs, Err (errorf "commit height %d doesn't match block height %d")) in
      if! bool_decide (bs_pendingRequests bs !! height = None) && negb (height =? wrap64 (bs_currentHeight bs + 1))
        return (bs, Ret tt) in
      match BlockHash (Some block) with
      | Err e => (bs, Err e)
      | Panic m => (bs, Panic m)
      | Ret blockHash =>
          match VerifyCommit (bs_chainID bs) (bs_valSet bs) blockHash height (Some commit) with
          | Err e => (bs, Err (wrapf engine_ErrInvalidCommit "%w: %v"))
          | Panic m => (bs, Panic m)
          | Ret _ =>
              let '(store, r) := store_SaveBlock block commit (bs_store bs) in
              let bs := add_event (Saved (bs_valSet bs) block commit) (set_store store bs) in
              match r with
              | Err e => (bs, Err (wrapf e "failed to save block: %w"))
              | Panic m => (bs, Panic m)
              | Ret _ => (block_progress height block commit (set_pending (delete height (bs_pendingRequests bs)) bs), Ret tt)
              end
          end
      end
  | _, _ => (bs, Err (errorf "nil block or commit"))
  end.

Definition BlockSyncer_UpdateValidatorSet (valSet : option ValidatorSet) (bs : BS) : BS := set_peers valSet (bs_peerSet bs) bs.
End BlockSyncer.

Record SyncStatus := mkSyncStatus {
  ss_State : Z;
  ss_StartHeight : Z;
  ss_CurrentHeight : Z;
  ss_TargetHeight : Z;
  ss_Pending : Z }.

Definition Status {S P} (bs : BlockSyncer S P) : SyncStatus :=
  mkSyncStatus (bs_state bs) (bs_startHeight bs) (bs_currentHeight bs) (bs_targetHeight bs)
    (Z.of_nat (size (bs_pendingRequests bs))).

(** Messages between nodes. *)
Record BlockSyncRequest := mkBlockSyncRequest { bsr_Height : Z }.
Record BlockSyncResponse := mkBlockSyncResponse {
  bsp_Height : Z;
  bsp_Block : option Block;
  bsp_Commit : option Commit }.
Record BlockSyncStatusRequest := mkBlockSyncStatusRequest {}.
Record BlockSyncStatusResponse := mkBlockSyncStatusResponse {
  bss_Height : Z;
  bss_Hash : Hash }.

(** ** Lemmas *)

Section Progress.
Context `{Crypto} `{Cramberry} `{PeerOrder} {S P : Type} `{BlockStore S} `{BlockProvider P}.
Notation BS := (BlockSyncer S P).
Implicit Types (bs : BS).

(** The steps of a sync: ticks, blocks received, and changes by the rest of the node. *)
Inductive sync_step : BS -> BS -> Prop :=
| ss_target bs : sync_step bs (UpdateTargetHeight bs)
| ss_request fuel now bs bs' : requestMissingBlocks fuel now bs = Some bs' -> sync_step bs bs'
| ss_timeouts now bs : sync_step bs (checkTimeouts now bs)
| ss_receive b c bs : sync_step bs (ReceiveBlock b c bs).1
| ss_vals vs bs : sync_step bs (BlockSyncer_UpdateValidatorSet vs bs)
| ss_peers peers bs : sync_step bs (set_peers (bs_valSet bs) peers bs).

(** The commit of a block has been verified against the validators. *)
Definition verified (chainID : string) (vals : option ValidatorSet) (b : Block) (c : Commit) : Prop :=
  exists h, BlockHash (Some b) = Ret h /\ VerifyCommit chainID vals h (bh_Height (b_Header b)) (Some c) = Ret tt.

Definition committed_of (e : sync_event) : option (Block * Commit) :=
  match e with Block_committed b c => Some (b, c) | _ => None end.
Definition saved_of (e : sync_event) : option (Block * Commit) :=
  match e with Saved _ b c => Some (b, c) | _ => None end.

(** Each height is the one before, plus one, in 64 bits. *)
Fixpoint consecutive (height : Z) (l : list (Block * Commit)) (last : Z) : Prop :=
  match l with
  | [] => last = height
  | (b, _) :: l => bh_Height (b_Header b) = wrap64 (height + 1) /\ consecutive (bh_Height (b_Header b)) l last
  end.

Lemma consecutive_snoc height l last b c :
  consecutive height l last -> bh_Height (b_Header b) = wrap64 (last + 1) -> consecutive height (l ++ [(b, c)]) (bh_Height (b_Header b)).
Proof.
  revert height. induction l as [|[b' c'] l IH]; intros height Hl Hb; cbn in *; [by subst|].
  destruct Hl as [Hh Hl]. split; [done|]. by apply IH.
Qed.

(** What a run keeps: from start height [start], on chain [chainID], with the callback set. *)
Record sync_ok (chainID : string) (start : Z) (bs : BS) : Prop := mkSyncOk {
  so_chain : bs_chainID bs = chainID;
  so_callback : bs_onBlockCommitted bs = true;
  so_saved : forall vals b c, Saved vals b c ∈ bs_trace bs -> verified chainID vals b c;
  so_heights : consecutive start (omap committed_of (bs_trace bs)) (bs_currentHeight bs);
  so_committed : forall bc, bc ∈ omap committed_of (bs_trace bs) -> bc ∈ omap saved_of (bs_trace bs) }.

(** Changes of the other fields. *)
Lemma sync_ok_framed chainID start bs bs' :
  sync_ok chainID start bs -> bs_chainID bs' = bs_chainID bs -> bs_onBlockCommitted bs' = bs_onBlockCommitted bs ->
  bs_currentHeight bs' = bs_currentHeight bs -> bs_trace bs' = bs_trace bs -> sync_ok chainID start bs'.
Proof. intros [] E1 E2 E3 E4. split; rewrite ?E1, ?E2, ?E3, ?E4; done. Qed.

Lemma caught_up_ok chainID start bs : sync_ok chainID start bs -> sync_ok chainID start (caught_up bs).
Proof.
  intros [Hc Hb Hs Hh Hm]. unfold caught_up. case_match; [|by split]. split; cbn.
  - done.
  - done.
  - intros vals b c [Hin|Hin]%elem_of_app; [by eapply Hs|]. by apply list_elem_of_singleton in Hin.
  - rewrite omap_app. cbn. by rewrite app_nil_r.
  - intros bc. rewrite !omap_app. cbn. rewrite !app_nil_r. apply Hm.
Qed.

Lemma request_loop_frame fuel now height bs bs' :
  request_loop fuel now height bs = Some bs' ->
  bs_chainID bs' = bs_chainID bs /\ bs_onBlockCommitted bs' = bs_onBlockCommitted bs /\
  bs_currentHeight bs' = bs_currentHeight bs /\ bs_trace bs' = bs_trace bs.
Proof.
  revert height bs. induction fuel as [|fuel IH]; intros height bs; cbn; (case_match; [by intros [= <-]|]); [done|].
  case_match; [by intros [= <-]|]. case_match; [apply IH|]. case_match; [apply IH|].
  destruct (prov_RequestBlock _ _ _) as [provider r]. destruct r; intros E%IH; exact E.
Qed.

Lemma block_progress_ok chainID start height b c bs :
  sync_ok chainID start bs -> (b, c) ∈ omap saved_of (bs_trace bs) -> bh_Height (b_Header b) = height ->
  sync_ok chainID start (block_progress height b c bs).
Proof.
  intros Hok Hin Hh. unfold block_progress. destruct (Z.eqb_spec height (wrap64 (bs_currentHeight bs + 1))) as [He|]; cbn [negb]; [|done].
  cbv zeta. cbn [set_sync bs_onBlockCommitted]. rewrite (so_callback _ _ _ Hok), CopyBlock_id, CopyCommit_id. cbn [default].
  set (bs1 := add_event _ _). assert (Hok1 : sync_ok chainID start bs1).
  { destruct Hok as [Hc Hb Hs Hcons Hm]. split; cbn.
    - done.
    - done.
    - intros vals b' c' [Hin'|Hin']%elem_of_app; [by eapply Hs|]. by apply list_elem_of_singleton in Hin'.
    - rewrite omap_app. cbn. rewrite <- Hh. apply consecutive_snoc with (last := bs_currentHeight bs); [done|by rewrite Hh].
    - intros bc. rewrite !omap_app. cbn. rewrite app_nil_r, elem_of_app, list_elem_of_singleton. intros [Hbc| ->]; [by apply Hm|done]. }
  case_match; [by apply caught_up_ok|done].
Qed.

Lemma sync_step_ok chainID start bs bs' : sync_ok chainID start bs -> sync_step bs bs' -> sync_ok chainID start bs'.
Proof.
  intros Hok Hs. destruct Hs as [bs|fuel now bs bs' E|now bs|b c bs|vs bs|peers bs].
  - unfold UpdateTargetHeight. case_match; case_match; try (by eapply sync_ok_framed).
    apply caught_up_ok. by eapply sync_ok_framed.
  - unfold requestMissingBlocks in E. case_match; [by injection E as <-|]. case_match; [by injection E as <-|].
    apply request_loop_frame in E as (? & ? & ? & ?). by eapply sync_ok_framed.
  - by eapply sync_ok_framed.
  - unfold ReceiveBlock. destruct b as [b|]; [|done]. destruct c as [c|]; [|done]. case_match; [done|]. case_match; [done|].
    destruct (BlockHash (Some b)) as [h|e|m] eqn:Eh; [|done|done]. destruct (VerifyCommit _ _ _ _ _) as [[]|e|m] eqn:Ev; [|done|done].
    destruct (store_SaveBlock b c (bs_store bs)) as [store r].
    set (bs1 := add_event _ _). assert (Hok1 : sync_ok chainID start bs1).
    { destruct Hok as [Hc Hb Hsv Hcons Hm]. split; cbn.
      - done.
      - done.
      - intros vals b' c' [Hin|Hin]%elem_of_app; [by eapply Hsv|]. apply list_elem_of_singleton in Hin. injection Hin as -> -> ->.
        exists h. by rewrite <- Hc.
      - rewrite omap_app. cbn. by rewrite app_nil_r.
      - intros bc. rewrite !omap_app. cbn. rewrite app_nil_r, elem_of_app. intros Hbc. left. by apply Hm. }
    destruct r as [[]|e|m]; [|done|done]. cbn. apply block_progress_ok; [by eapply sync_ok_framed| |done].
    cbn. rewrite omap_app. cbn. rewrite elem_of_app. right. by apply list_elem_of_singleton.
  - by eapply sync_ok_framed.
  - by eapply sync_ok_framed.
Qed.

(** *** Completion *)

Lemma verified_height chainID vals b c : verified chainID vals b c -> cm_Height c = bh_Height (b_Header b).
Proof.
  intros (h & _ & E). unfold VerifyCommit in E. destruct vals as [vs|]; [|done].
  destruct (Z.eqb_spec (cm_Height c) (bh_Height (b_Header b))); [done|done].
Qed.

(** A block that is next and verified is accepted. *)
Lemma ReceiveBlock_next b c bs :
  verified (bs_chainID bs) (bs_valSet bs) b c -> bh_Height (b_Header b) = wrap64 (bs_currentHeight bs + 1) ->
  (forall s, is_Ret (store_SaveBlock b c s).2 = true) ->
  exists store pending, (ReceiveBlock (Some b) (Some c) bs).1 =
    block_progress (bh_Height (b_Header b)) b c (set_pending pending (add_event (Saved (bs_valSet bs) b c) (set_store store bs))).
Proof.
  intros Hv Hh Hs. pose proof (verified_height _ _ _ _ Hv) as Hc. destruct Hv as (h & Eh & Ev).
  unfold ReceiveBlock. rewrite Hc, Z.eqb_refl. cbn [negb]. rewrite Hh, Z.eqb_refl. cbn [negb]. rewrite andb_false_r, Eh.
  rewrite Hh in Ev. rewrite Ev. specialize (Hs (bs_store bs)). destruct (store_SaveBlock b c (bs_store bs)) as [store r].
  destruct r as [[]|e|m]; [|done|done]. by do 2 eexists.
Qed.

(** The blocks received one after the other. *)
Definition receive_all (l : list (Block * Commit)) (bs : BS) : BS :=
  foldl (fun bs bc => (ReceiveBlock (Some bc.1) (Some bc.2) bs).1) bs l.

(** *** The loop of requests *)

Lemma request_loop_ends fuel now height bs :
  MinInt64 <= height -> bs_targetHeight bs < MaxInt64 -> bs_targetHeight bs - height < Z.of_nat fuel ->
  exists bs', request_loop fuel now height bs = Some bs'.
Proof.
  revert height bs. induction fuel as [|fuel IH]; intros height bs Hmin Hmax Hf; cbn;
    (destruct (Z.leb_spec height (bs_targetHeight bs)); cbn [negb]; [|by eexists]); [lia|].
  rewrite wrap64_small by (unfold in_i64; lia).
  case_match; [by eexists|]. case_match; [apply IH; lia|]. case_match; [apply IH; lia|].
  destruct (prov_RequestBlock _ _ _) as [provider []]; apply IH; cbn; lia.
Qed.

(** Without end: the counter goes round, and no request is made. *)
Lemma request_loop_forever fuel now height bs :
  bs_targetHeight bs = MaxInt64 -> bs_pendingRequests bs = ∅ -> in_i64 height ->
  (forall id h p, is_Ret (prov_RequestBlock id h p).2 = false) ->
  request_loop fuel now height bs = None.
Proof.
  intros Ht Hp Hh Hfail. revert height bs Ht Hp Hh. induction fuel as [|fuel IH]; intros height bs Ht Hp Hh; cbn;
    rewrite Ht; (destruct (Z.leb_spec height MaxInt64); [cbn [negb]|unfold in_i64 in Hh; lia]); [done|].
  rewrite Hp, map_size_empty, lookup_empty. change (Z.of_nat 0 >=? MaxPendingRequests) with false. cbv iota zeta.
  case_match; [by apply IH; [..|apply wrap64_range]|].
  specialize (Hfail (findPeerForHeight height bs) height (bs_provider bs)).
  destruct (prov_RequestBlock _ _ _) as [provider []]; [done|..]; by apply IH; [..|apply wrap64_range].
Qed.
End Progress.

(** ** Properties *)

(** C13: whatever a block syncer receives, and in whatever order, each block that it gives to the
    store has a verified commit of the validators of that time; and the blocks it reports as
    committed are among those, one for each height from the start on, in order. *)
Theorem synced_blocks_verified `{Crypto} `{Cramberry} `{PeerOrder} {S P : Type} `{BlockStore S} `{BlockProvider P}
    (bs bs' : BlockSyncer S P)
    (Hcb : bs_onBlockCommitted bs = true) (Htr : bs_trace bs = []) (Hr : rtc sync_step bs bs') :
  (forall vals b c, Saved vals b c ∈ bs_trace bs' -> verified (bs_chainID bs) vals b c) /\
  consecutive (bs_currentHeight bs) (omap committed_of (bs_trace bs')) (bs_currentHeight bs') /\
  (forall bc, bc ∈ omap committed_of (bs_trace bs') -> bc ∈ omap saved_of (bs_trace bs')).
Proof.
  assert (H0' : sync_ok (bs_chainID bs) (bs_currentHeight bs) bs).
  { split; rewrite ?Htr; try done. intros vals b c Hin. by apply not_elem_of_nil in Hin. }
  revert H0'. generalize (bs_chainID bs) (bs_currentHeight bs). clear Hcb Htr. intros chainID start.
  induction Hr as [bs|bs bs1 bs' Hs _ IH]; intros Hok; [by destruct Hok|]. apply IH. by eapply sync_step_ok.
Qed.

(** C24: a sync completes: when the missing blocks arrive in order, with commits that verify, and the
    store takes them, the node has the target height and is caught up. *)
Theorem sync_completes `{Crypto} `{Cramberry} `{PeerOrder} {S P : Type} `{BlockStore S} `{BlockProvider P}
    (bs : BlockSyncer S P) (l : list (Block * Commit))
    (Hst : bs_state bs = BlockSyncStateSyncing) (Hne : l <> []) (Hmin : MinInt64 <= bs_currentHeight bs)
    (Ht : bs_targetHeight bs = bs_currentHeight bs + len l) (Hmax : bs_targetHeight bs <= MaxInt64)
    (Hc : consecutive (bs_currentHeight bs) l (bs_targetHeight bs))
    (Hv : Forall (fun bc => verified (bs_chainID bs) (bs_valSet bs) bc.1 bc.2) l)
    (Hs : forall b c s, is_Ret (store_SaveBlock b c s).2 = true) :
  let bs' := receive_all l bs in
  bs_currentHeight bs' = bs_targetHeight bs /\ bs_state bs' = BlockSyncStateCaughtUp /\
  (bs_onCaughtUp bs = true -> Caught_up ∈ bs_trace bs').
Proof.
  revert bs Hst Hne Hmin Ht Hmax Hc Hv. induction l as [|[b c] l IH]; intros bs Hst Hne Hmin Ht Hmax Hc Hv; [done|]. clear Hne. unfold len in Ht. cbn [length] in Ht.
  destruct Hc as [Hh Hc]. inversion Hv as [|?? Hv1 Hv2]; subst. cbn [fst snd] in Hv1.
  cbn [receive_all foldl fst snd]. destruct (ReceiveBlock_next b c bs Hv1 Hh (Hs b c)) as (store & pending & E).
  rewrite E. assert (Hw : wrap64 (bs_currentHeight bs + 1) = bs_currentHeight bs + 1) by (apply wrap64_small; unfold in_i64; lia).
  unfold block_progress. cbn [bs_currentHeight set_pending add_event set_store]. rewrite Hh, Z.eqb_refl. cbn [negb]. cbv zeta.
  cbn [bs_onBlockCommitted set_sync set_pending add_event set_store].
  set (bs1 := if bs_onBlockCommitted bs then _ else _).
  assert (E1 : bs_currentHeight bs1 = bs_currentHeight bs + 1 /\ bs_targetHeight bs1 = bs_targetHeight bs /\ bs_state bs1 = bs_state bs /\
    bs_chainID bs1 = bs_chainID bs /\ bs_valSet bs1 = bs_valSet bs /\ bs_onCaughtUp bs1 = bs_onCaughtUp bs).
  { unfold bs1. destruct (bs_onBlockCommitted bs); cbn; by rewrite Hw. }
  destruct E1 as (E1 & E2 & E3 & E4 & E5 & E6). rewrite E1, E2, E3, Hst, Z.eqb_refl, andb_true_r, Z.geb_leb.
  destruct (Z.leb_spec (bs_targetHeight bs) (bs_currentHeight bs + 1)) as [Hle|Hgt].
  - destruct l as [|bc l]; [|cbn in Ht; lia]. cbn [foldl]. unfold caught_up. cbn [bs_onCaughtUp set_bs_state set_sync]. rewrite E6.
    destruct (bs_onCaughtUp bs); cbn; (split; [lia|split; [done|]]); [|done].
    intros _. apply elem_of_app. right. by left.
  - rewrite <- E2, <- E6. apply (IH bs1).
    + congruence.
    + intros ->. cbn in Ht. lia.
    + lia.
    + unfold len. lia.
    + lia.
    + rewrite E1, E2. rewrite Hh, Hw in Hc. exact Hc.
    + by rewrite E4, E5.
Qed.

(** C38: a tick asks for the missing blocks and ends, if the target is below the largest height. But
    if a peer claims that height and requests fail, the loop over the heights does not end,
    however long it runs: its counter wraps around. *)
Theorem requestMissingBlocks_ends `{PeerOrder} {S P : Type} `{BlockProvider P}
    (bs : BlockSyncer S P) (now : Z -> Z)
    (Hst : bs_state bs = BlockSyncStateSyncing) (Hh : MinInt64 <= bs_currentHeight bs < MaxInt64) :
  (forall fuel, bs_targetHeight bs < MaxInt64 -> bs_targetHeight bs - bs_currentHeight bs < Z.of_nat fuel ->
     exists bs', requestMissingBlocks fuel now bs = Some bs') /\
  ((forall id h p, is_Ret (prov_RequestBlock id h p).2 = false) ->
   bs_targetHeight bs = MaxInt64 -> bs_pendingRequests bs = ∅ ->
   forall fuel, requestMissingBlocks fuel now bs = None).
Proof.
  unfold requestMissingBlocks. rewrite Hst, Z.eqb_refl. cbn [negb].
  assert (Hw : wrap64 (bs_currentHeight bs + 1) = bs_currentHeight bs + 1) by (apply wrap64_small; unfold in_i64; lia).
  rewrite Hw. split.
  - intros fuel Hmax Hf. case_match; [by eexists|]. apply request_loop_ends; lia.
  - intros Hfail Ht Hp fuel. rewrite Hp, map_size_empty. change (Z.of_nat 0 >=? MaxPendingRequests) with false. cbv iota. apply request_loop_forever; [done..|unfold in_i64; lia|done].
Qed.

(** *** Witnesses *)

(** A store and a provider without state; the provider fails. *)
#[local] Instance accepting_store : BlockStore unit := {|
  store_SaveBlock := fun _ _ s => (s, Ret tt);
  store_LoadBlock := fun _ _ => Ret None;
  store_LoadCommit := fun _ _ => Ret None;
  store_Height := fun _ => 0 |}.

#[local] Instance failing_provider : BlockProvider unit := {|
  prov_RequestBlock := fun _ _ p => (p, Err (errorf "no connection"));
  prov_GetPeerHeight := fun _ _ => 0;
  prov_GetAvailablePeers := fun _ => [] |}.

#[local] Instance list_peers : PeerOrder := {| peer_order := map_to_list; peer_order_perm := fun _ => reflexivity _ |}.

(** A block at height 1, with a commit of both validators. *)
Definition sync_block : Block :=
  mkBlock (mkBlockHeader "c" 1 0 None None None None None 0 [] (mkAccountName (Some "a"))) (mkBlockData []) None None.
Definition sync_hash : Hash := mkHash (pad 32 (put_header (b_Header sync_block))).
Definition sync_sig (v : NamedValidator) : CommitSig :=
  let vote := vote_of v VoteTypePrecommit 1 0 (Some sync_hash) in
  mkCommitSig (vt_ValidatorIndex vote) (vt_Signature vote) (vt_Timestamp vote) (vt_BlockHash vote).
Definition sync_commit : Commit := mkCommit 1 0 sync_hash [sync_sig at_0; sync_sig at_1].

Definition syncing (target : Z) : BlockSyncer unit unit :=
  mkBlockSyncer "c" BlockSyncStateSyncing tt tt (Some set_ab) (NewPeerSet (Some set_ab)) 0 target 0 ∅ BlockSyncTimeout true true true [].

Lemma sync_block_verified : verified "c" (Some set_ab) sync_block sync_commit.
Proof. exists sync_hash. by vm_compute. Qed.

Lemma synced_blocks_verified_witness :
  let bs' := (ReceiveBlock (Some sync_block) (Some sync_commit) (syncing 1)).1 in
  (forall vals b c, Saved vals b c ∈ bs_trace bs' -> verified "c" vals b c) /\
  consecutive 0 (omap committed_of (bs_trace bs')) (bs_currentHeight bs') /\
  (forall bc, bc ∈ omap committed_of (bs_trace bs') -> bc ∈ omap saved_of (bs_trace bs')).
Proof.
  apply (synced_blocks_verified (syncing 1)); [reflexivity..|].
  apply rtc_once, ss_receive.
Defined.

Lemma sync_completes_witness :
  let bs' := receive_all [(sync_block, sync_commit)] (syncing 1) in
  bs_currentHeight bs' = 1 /\ bs_state bs' = BlockSyncStateCaughtUp /\ (true = true -> Caught_up ∈ bs_trace bs').
Proof.
  apply (sync_completes (syncing 1)); try reflexivity; try done.
  - repeat constructor. apply sync_block_verified.
Defined.

Lemma requestMissingBlocks_ends_witness :
  (exists bs', requestMissingBlocks 5 (fun _ => 0) (syncing 3) = Some bs') /\
  (forall fuel, requestMissingBlocks fuel (fun _ => 0) (syncing MaxInt64) = None).
Proof.
  split.
  - apply (requestMissingBlocks_ends (syncing 3) (fun _ => 0)); [reflexivity|by vm_compute..].
  - apply (requestMissingBlocks_ends (syncing MaxInt64) (fun _ => 0)); [reflexivity|by vm_compute|done|reflexivity..].
Defined.
