(* ===== verification/Wal.v ===== *)
(** * Write-ahead log: messages (src/wal/wal.go)

    The messages the consensus engine logs and their constructors. The log itself is a client
    interface, [WAL]; [NopWAL] implements it. *)

From S2P Require Export Types.

Definition MsgTypeUnknown : Z := 0.
Definition MsgTypeProposal : Z := 1.
Definition MsgTypeVote : Z := 2.
Definition MsgTypeCommit : Z := 3.
Definition MsgTypeEndHeight : Z := 4.
Definition MsgTypeState : Z := 5.
Definition MsgTypeTimeout : Z := 6.

Record Message := mkMessage {
  msg_Type : Z;
  msg_Height : Z;
  msg_Round : Z;
  msg_Data : bytes }.

(** ** Messages *)

(** [TimeoutMessage] of the schema. *)
Record TimeoutMessage := mkTimeoutMessage {
  tm_Height : Z;
  tm_Round : Z;
  tm_Step : Z }.

(** The generated encoders of the messages of this package. [MarshalCramberry] of a message
    encodes the [Walmessage] of the same fields. *)
Class WalCodec := {
  marshal_Walmessage : Message -> res bytes;
  unmarshal_Walmessage : bytes -> res Message;
  marshal_TimeoutMessage : TimeoutMessage -> res bytes;
  unmarshal_TimeoutMessage : bytes -> res TimeoutMessage;
  unmarshal_Commit : bytes -> res Commit;
  unmarshal_ConsensusStateData : bytes -> res ConsensusStateData }.

Section Messages.
Context `{Cramberry}.

Definition NewProposalMessage (height round : Z) (proposal : Proposal) : res Message :=
  let! data := marshal_Proposal proposal in
  Ret (mkMessage MsgTypeProposal height round data).

Definition NewVoteMessage (height round : Z) (vote : Vote) : res Message :=
  let! data := marshal_Vote vote in
  Ret (mkMessage MsgTypeVote height round data).

Definition NewCommitMessage (height : Z) (commit : Commit) : res Message :=
  let! data := marshal_Commit commit in
  Ret (mkMessage MsgTypeCommit height (cm_Round commit) data).

Definition NewEndHeightMessage (height : Z) : Message := mkMessage MsgTypeEndHeight height 0 [].

Definition NewStateMessage (state : ConsensusStateData) : res Message :=
  let! data := marshal_ConsensusStateData state in
  Ret (mkMessage MsgTypeState (csd_Height state) (csd_Round state) data).

Definition NewTimeoutMessage `{WalCodec} (height round step : Z) : res Message :=
  let! data := marshal_TimeoutMessage (mkTimeoutMessage height round step) in
  Ret (mkMessage MsgTypeTimeout height round data).

Definition DecodeProposal (data : bytes) : res Proposal := unmarshal_Proposal data.
Definition DecodeVote (data : bytes) : res Vote := unmarshal_Vote data.
Definition DecodeCommit `{WalCodec} (data : bytes) : res Commit := unmarshal_Commit data.
Definition DecodeState `{WalCodec} (data : bytes) : res ConsensusStateData := unmarshal_ConsensusStateData data.
Definition DecodeTimeout `{WalCodec} (data : bytes) : res TimeoutMessage := unmarshal_TimeoutMessage data.
End Messages.

(** ** Interfaces *)

Definition ErrWALClosed : error := sentinel "wal.ErrWALClosed".
Definition ErrWALCorrupted : error := sentinel "wal.ErrWALCorrupted".
Definition ErrWALNotFound : error := sentinel "wal.ErrWALNotFound".

(** Of the standard library. *)
Definition io_EOF : error := sentinel "io.EOF".
Definition io_ErrUnexpectedEOF : error := sentinel "io.ErrUnexpectedEOF".

Record Group := mkGroup {
  grp_Dir : string;
  grp_Prefix : string;
  grp_MaxSize : Z;
  grp_MinIndex : Z;
  grp_MaxIndex : Z }.

(** A log of state [W], and its readers. [wal_SearchForEndHeight] returns a reader if it finds
    the height. Closing a reader has no effect on the log. *)
Class WAL (W : Type) := {
  wal_Write : Message -> W -> W * res unit;
  wal_WriteSync : Message -> W -> W * res unit;
  wal_FlushAndSync : W -> W * res unit;
  wal_Reader : Type;
  wal_SearchForEndHeight : Z -> W -> W * res (option wal_Reader);
  reader_Read : wal_Reader -> wal_Reader * res Message;
  wal_Start : W -> W * res unit;
  wal_Stop : W -> W * res unit;
  wal_Group : W -> option Group }.

(** ** NopWAL *)

#[export] Instance NopWAL : WAL unit := {|
  wal_Write := fun _ w => (w, Ret tt);
  wal_WriteSync := fun _ w => (w, Ret tt);
  wal_FlushAndSync := fun w => (w, Ret tt);
  wal_Reader := unit;
  wal_SearchForEndHeight := fun _ w => (w, Ret None);
  reader_Read := fun r => (r, Err io_EOF);
  wal_Start := fun w => (w, Ret tt);
  wal_Stop := fun w => (w, Ret tt);
  wal_Group := fun _ => None |}.
