(* ===== verification/Codec.v ===== *)
(** * The generated encoders (src/types/generated)

    [EncodeTo], [DecodeFrom], [MarshalCramberry] and [UnmarshalCramberry] of the messages that the
    engine sends, signs, hashes and logs. They call the writer and the reader of the Cramberry
    runtime, which is not in the repository: [Runtime]. The encoders make up the classes
    [Cramberry] and [WalCodec] of the rest of the development. *)

From S2P Require Export Wal.

(** ** The runtime *)

Class Runtime := {
  Writer : Type;
  Reader : Type;
  WireTypeV2Varint : Z;
  WireTypeV2SVarint : Z;
  WireTypeV2Bytes : Z;
  GetWriter : Writer;
  w_Err : Writer -> option error;
  BytesCopy : Writer -> bytes;
  WriteCompactTag : Z -> Z -> Writer -> Writer;
  WriteEndMarker : Writer -> Writer;
  WriteInt8 : Z -> Writer -> Writer;
  WriteInt32 : Z -> Writer -> Writer;
  WriteInt64 : Z -> Writer -> Writer;
  WriteUint16 : Z -> Writer -> Writer;
  WriteUint32 : Z -> Writer -> Writer;
  WriteUint64 : Z -> Writer -> Writer;
  WriteUvarint : Z -> Writer -> Writer;
  WriteBytes : bytes -> Writer -> Writer;
  WriteString : string -> Writer -> Writer;
  NewReaderWithOptions : bytes -> Reader;
  r_Err : Reader -> option error;
  ReadCompactTag : Reader -> Reader * (Z * Z);
  SkipValueV2 : Z -> Reader -> Reader;
  ReadInt8 : Reader -> Reader * Z;
  ReadInt32 : Reader -> Reader * Z;
  ReadInt64 : Reader -> Reader * Z;
  ReadUint16 : Reader -> Reader * Z;
  ReadUint32 : Reader -> Reader * Z;
  ReadUint64 : Reader -> Reader * Z;
  ReadUvarint : Reader -> Reader * Z;
  ReadBytes : Reader -> Reader * bytes;
  ReadString : Reader -> Reader * string }.

(** A message of the log as it is encoded; the log itself has a type of its own, [Message]. *)
Record Walmessage := mkWalmessage {
  wm_Type : Z;
  wm_Height : Z;
  wm_Round : Z;
  wm_Data : bytes }.

Section Codec.
Context `{Runtime}.

(** ** Encoding *)

(** An encoder acts on the writer, whose errors stick. *)
Definition WOp : Type := Writer -> Writer.

Definition wop_skip : WOp := fun w => w.
Definition wop_seq (a b : WOp) : WOp := fun w => b (a w).
Notation "a ';>' b" := (wop_seq a b) (at level 60, right associativity).

Definition write_field (n wt : Z) (op : WOp) : WOp := WriteCompactTag n wt ;> op.

(** A field that is left out when it is zero, empty, or nil. *)
Definition write_nonzero (n wt : Z) (write : Z -> WOp) (z : Z) : WOp :=
  if negb (z =? 0) then write_field n wt (write z) else wop_skip.
Definition write_bytes (n : Z) (b : bytes) : WOp :=
  if 0 <? len b then write_field n WireTypeV2Bytes (WriteBytes b) else wop_skip.
Definition write_string (n : Z) (s : string) : WOp :=
  if bool_decide (s <> "") then write_field n WireTypeV2Bytes (WriteString s) else wop_skip.
Definition write_pointer {A} (n : Z) (enc : A -> WOp) (o : option A) : WOp :=
  match o with Some a => write_field n WireTypeV2Bytes (enc a) | None => wop_skip end.

Fixpoint write_each {A} (enc : A -> WOp) (l : list A) : WOp :=
  match l with [] => wop_skip | a :: l => enc a ;> write_each enc l end.

Definition write_slice {A} (n : Z) (enc : A -> WOp) (l : list A) : WOp :=
  if 0 <? len l then write_field n WireTypeV2Bytes (WriteUvarint (len l) ;> write_each enc l) else wop_skip.

Definition Hash_EncodeTo (m : Hash) : WOp := write_bytes 1 (h_Data m) ;> WriteEndMarker.
Definition Signature_EncodeTo (m : Signature) : WOp := write_bytes 1 (sig_Data m) ;> WriteEndMarker.
Definition PublicKey_EncodeTo (m : PublicKey) : WOp := write_bytes 1 (pk_Data m) ;> WriteEndMarker.
Definition AccountName_EncodeTo (m : AccountName) : WOp := write_pointer 1 WriteString (an_Name m) ;> WriteEndMarker.

Definition VoteType_EncodeTo (e : Z) : WOp := WriteInt32 e.
Definition EvidenceType_EncodeTo (e : Z) : WOp := WriteInt32 e.
Definition WalmsgType_EncodeTo (e : Z) : WOp := WriteInt32 e.
Definition RoundStepType_EncodeTo (e : Z) : WOp := WriteInt32 e.

Definition Vote_EncodeTo (m : Vote) : WOp :=
  write_field 1 WireTypeV2Bytes (VoteType_EncodeTo (vt_Type m)) ;>
  write_nonzero 2 WireTypeV2SVarint WriteInt64 (vt_Height m) ;>
  write_nonzero 3 WireTypeV2SVarint WriteInt32 (vt_Round m) ;>
  write_pointer 4 Hash_EncodeTo (vt_BlockHash m) ;>
  write_nonzero 5 WireTypeV2SVarint WriteInt64 (vt_Timestamp m) ;>
  write_field 6 WireTypeV2Bytes (AccountName_EncodeTo (vt_Validator m)) ;>
  write_nonzero 7 WireTypeV2Varint WriteUint16 (vt_ValidatorIndex m) ;>
  write_field 8 WireTypeV2Bytes (Signature_EncodeTo (vt_Signature m)) ;>
  WriteEndMarker.

Definition CommitSig_EncodeTo (m : CommitSig) : WOp :=
  write_nonzero 1 WireTypeV2Varint WriteUint16 (cs_ValidatorIndex m) ;>
  write_field 2 WireTypeV2Bytes (Signature_EncodeTo (cs_Signature m)) ;>
  write_nonzero 3 WireTypeV2SVarint WriteInt64 (cs_Timestamp m) ;>
  write_pointer 4 Hash_EncodeTo (cs_BlockHash m) ;>
  WriteEndMarker.

Definition Commit_EncodeTo (m : Commit) : WOp :=
  write_nonzero 1 WireTypeV2SVarint WriteInt64 (cm_Height m) ;>
  write_nonzero 2 WireTypeV2SVarint WriteInt32 (cm_Round m) ;>
  write_field 3 WireTypeV2Bytes (Hash_EncodeTo (cm_BlockHash m)) ;>
  write_slice 4 CommitSig_EncodeTo (cm_Signatures m) ;>
  WriteEndMarker.

Definition BatchCertRef_EncodeTo (m : BatchCertRef) : WOp :=
  write_field 1 WireTypeV2Bytes (Hash_EncodeTo (bcr_CertificateDigest m)) ;>
  write_nonzero 2 WireTypeV2Varint WriteUint64 (bcr_Round m) ;>
  write_field 3 WireTypeV2Bytes (AccountName_EncodeTo (bcr_Validator m)) ;>
  WriteEndMarker.

Definition BlockHeader_EncodeTo (m : BlockHeader) : WOp :=
  write_string 1 (bh_ChainId m) ;>
  write_nonzero 2 WireTypeV2SVarint WriteInt64 (bh_Height m) ;>
  write_nonzero 3 WireTypeV2SVarint WriteInt64 (bh_Time m) ;>
  write_pointer 4 Hash_EncodeTo (bh_LastBlockHash m) ;>
  write_pointer 5 Hash_EncodeTo (bh_LastCommitHash m) ;>
  write_pointer 6 Hash_EncodeTo (bh_ValidatorsHash m) ;>
  write_pointer 7 Hash_EncodeTo (bh_AppHash m) ;>
  write_pointer 8 Hash_EncodeTo (bh_ConsensusHash m) ;>
  write_nonzero 9 WireTypeV2Varint WriteUint64 (bh_DagRound m) ;>
  write_slice 10 BatchCertRef_EncodeTo (bh_BatchCertRefs m) ;>
  write_field 11 WireTypeV2Bytes (AccountName_EncodeTo (bh_Proposer m)) ;>
  WriteEndMarker.

Definition BlockData_EncodeTo (m : BlockData) : WOp :=
  write_slice 1 Hash_EncodeTo (bd_BatchDigests m) ;> WriteEndMarker.

(** A nil and an empty slice of evidence are written alike. *)
Definition Block_EncodeTo (m : Block) : WOp :=
  write_field 1 WireTypeV2Bytes (BlockHeader_EncodeTo (b_Header m)) ;>
  write_field 2 WireTypeV2Bytes (BlockData_EncodeTo (b_Data m)) ;>
  write_slice 3 WriteBytes (default [] (b_Evidence m)) ;>
  write_pointer 4 Commit_EncodeTo (b_LastCommit m) ;>
  WriteEndMarker.

Definition Proposal_EncodeTo (m : Proposal) : WOp :=
  write_nonzero 1 WireTypeV2SVarint WriteInt64 (p_Height m) ;>
  write_nonzero 2 WireTypeV2SVarint WriteInt32 (p_Round m) ;>
  write_nonzero 3 WireTypeV2SVarint WriteInt64 (p_Timestamp m) ;>
  write_field 4 WireTypeV2Bytes (Block_EncodeTo (p_Block m)) ;>
  write_nonzero 5 WireTypeV2SVarint WriteInt32 (p_PolRound m) ;>
  write_slice 6 Vote_EncodeTo (p_PolVotes m) ;>
  write_field 7 WireTypeV2Bytes (AccountName_EncodeTo (p_Proposer m)) ;>
  write_field 8 WireTypeV2Bytes (Signature_EncodeTo (p_Signature m)) ;>
  WriteEndMarker.

Definition NamedValidator_EncodeTo (m : NamedValidator) : WOp :=
  write_field 1 WireTypeV2Bytes (AccountName_EncodeTo (nv_Name m)) ;>
  write_nonzero 2 WireTypeV2Varint WriteUint16 (nv_Index m) ;>
  write_field 3 WireTypeV2Bytes (PublicKey_EncodeTo (nv_PublicKey m)) ;>
  write_nonzero 4 WireTypeV2SVarint WriteInt64 (nv_VotingPower m) ;>
  write_nonzero 5 WireTypeV2SVarint WriteInt64 (nv_ProposerPriority m) ;>
  WriteEndMarker.

Definition ValidatorSetData_EncodeTo (m : ValidatorSetData) : WOp :=
  write_slice 1 NamedValidator_EncodeTo (vsd_Validators m) ;>
  write_nonzero 2 WireTypeV2Varint WriteUint16 (vsd_ProposerIndex m) ;>
  write_nonzero 3 WireTypeV2SVarint WriteInt64 (vsd_TotalPower m) ;>
  WriteEndMarker.

Definition DuplicateVoteEvidence_EncodeTo (m : DuplicateVoteEvidence) : WOp :=
  write_field 1 WireTypeV2Bytes (Vote_EncodeTo (dve_VoteA m)) ;>
  write_field 2 WireTypeV2Bytes (Vote_EncodeTo (dve_VoteB m)) ;>
  write_nonzero 3 WireTypeV2SVarint WriteInt64 (dve_TotalVotingPower m) ;>
  write_nonzero 4 WireTypeV2SVarint WriteInt64 (dve_ValidatorPower m) ;>
  write_nonzero 5 WireTypeV2SVarint WriteInt64 (dve_Timestamp m) ;>
  WriteEndMarker.

Definition Evidence_EncodeTo (m : Evidence) : WOp :=
  write_field 1 WireTypeV2Bytes (EvidenceType_EncodeTo (ev_Type m)) ;>
  write_nonzero 2 WireTypeV2SVarint WriteInt64 (ev_Height m) ;>
  write_nonzero 3 WireTypeV2SVarint WriteInt64 (ev_Time m) ;>
  write_bytes 4 (ev_Data m) ;>
  WriteEndMarker.

Definition Walmessage_EncodeTo (m : Walmessage) : WOp :=
  write_field 1 WireTypeV2Bytes (WalmsgType_EncodeTo (wm_Type m)) ;>
  write_nonzero 2 WireTypeV2SVarint WriteInt64 (wm_Height m) ;>
  write_nonzero 3 WireTypeV2SVarint WriteInt32 (wm_Round m) ;>
  write_bytes 4 (wm_Data m) ;>
  WriteEndMarker.

Definition TimeoutMessage_EncodeTo (m : TimeoutMessage) : WOp :=
  write_nonzero 1 WireTypeV2SVarint WriteInt64 (tm_Height m) ;>
  write_nonzero 2 WireTypeV2SVarint WriteInt32 (tm_Round m) ;>
  write_field 3 WireTypeV2Bytes (RoundStepType_EncodeTo (tm_Step m)) ;>
  WriteEndMarker.

Definition ConsensusStateData_EncodeTo (m : ConsensusStateData) : WOp :=
  write_nonzero 1 WireTypeV2SVarint WriteInt64 (csd_Height m) ;>
  write_nonzero 2 WireTypeV2SVarint WriteInt32 (csd_Round m) ;>
  write_field 3 WireTypeV2Bytes (RoundStepType_EncodeTo (csd_Step m)) ;>
  write_nonzero 4 WireTypeV2SVarint WriteInt32 (csd_LockedRound m) ;>
  write_pointer 5 Hash_EncodeTo (csd_LockedBlockHash m) ;>
  write_nonzero 6 WireTypeV2SVarint WriteInt32 (csd_ValidRound m) ;>
  write_pointer 7 Hash_EncodeTo (csd_ValidBlockHash m) ;>
  WriteEndMarker.

(** [MarshalCramberry]: with a fresh writer. *)
Definition Marshal {A} (enc : A -> WOp) (m : A) : res bytes :=
  let w := enc m GetWriter in
  match w_Err w with Some e => Err e | None => Ret (BytesCopy w) end.

(** *** MarshalCramberry *)

Definition Hash_MarshalCramberry : Hash -> res bytes := Marshal Hash_EncodeTo.
Definition Signature_MarshalCramberry : Signature -> res bytes := Marshal Signature_EncodeTo.
Definition PublicKey_MarshalCramberry : PublicKey -> res bytes := Marshal PublicKey_EncodeTo.
Definition AccountName_MarshalCramberry : AccountName -> res bytes := Marshal AccountName_EncodeTo.
Definition Vote_MarshalCramberry : Vote -> res bytes := Marshal Vote_EncodeTo.
Definition CommitSig_MarshalCramberry : CommitSig -> res bytes := Marshal CommitSig_EncodeTo.
Definition Commit_MarshalCramberry : Commit -> res bytes := Marshal Commit_EncodeTo.
Definition BatchCertRef_MarshalCramberry : BatchCertRef -> res bytes := Marshal BatchCertRef_EncodeTo.
Definition BlockHeader_MarshalCramberry : BlockHeader -> res bytes := Marshal BlockHeader_EncodeTo.
Definition BlockData_MarshalCramberry : BlockData -> res bytes := Marshal BlockData_EncodeTo.
Definition Block_MarshalCramberry : Block -> res bytes := Marshal Block_EncodeTo.
Definition Proposal_MarshalCramberry : Proposal -> res bytes := Marshal Proposal_EncodeTo.
Definition NamedValidator_MarshalCramberry : NamedValidator -> res bytes := Marshal NamedValidator_EncodeTo.
Definition ValidatorSetData_MarshalCramberry : ValidatorSetData -> res bytes := Marshal ValidatorSetData_EncodeTo.
Definition DuplicateVoteEvidence_MarshalCramberry : DuplicateVoteEvidence -> res bytes := Marshal DuplicateVoteEvidence_EncodeTo.
Definition Evidence_MarshalCramberry : Evidence -> res bytes := Marshal Evidence_EncodeTo.
Definition Walmessage_MarshalCramberry : Walmessage -> res bytes := Marshal Walmessage_EncodeTo.
Definition TimeoutMessage_MarshalCramberry : TimeoutMessage -> res bytes := Marshal TimeoutMessage_EncodeTo.
Definition ConsensusStateData_MarshalCramberry : ConsensusStateData -> res bytes := Marshal ConsensusStateData_EncodeTo.

(** ** Decoding *)

(** A decoder acts on the reader, whose errors stick; the only failure of its own is a panic. *)
Definition RM (A : Type) : Type := Reader -> Reader * res A.

Definition rm_ret {A} (a : A) : RM A := fun r => (r, Ret a).
Definition rm_bind {A B} (m : RM A) (k : A -> RM B) : RM B := fun r =>
  match m r with (r, Ret a) => k a r | (r, Err e) => (r, Err e) | (r, Panic msg) => (r, Panic msg) end.
Definition rm_lift {A} (read : Reader -> Reader * A) : RM A := fun r => let '(r, a) := read r in (r, Ret a).
Notation "'let^' x ':=' m 'in' k" := (rm_bind m (fun x => k)) (at level 10, x pattern, m at level 100, k at level 200).

(** The loop of [DecodeFrom]. [field n m] decodes the field of number [n], if the message has it;
    [fuel] bounds the number of fields. *)
Fixpoint decode_loop {A} (field : Z -> A -> option (RM A)) (fuel : nat) (m : A) : RM A := fun r =>
  match fuel with
  | O => (r, Panic "out of fuel")
  | S fuel =>
      let '(r, (fieldNum, wireType)) := ReadCompactTag r in
      if fieldNum =? 0 then (r, Ret m) else
      let '(r, v) := match field fieldNum m with Some d => d r | None => (SkipValueV2 wireType r, Ret m) end in
      match v with
      | Ret m => match r_Err r with Some _ => (r, Ret m) | None => decode_loop field fuel m r end
      | Err e => (r, Err e)
      | Panic msg => (r, Panic msg)
      end
  end.

(** Go refuses to make a slice of a negative length or of more than 2^48 bytes. Below that, the
    allocation is assumed to succeed. The sizes are those of the Go types on a 64-bit machine. *)
Definition maxSliceLen (size : Z) : Z := 2 ^ 48 / size.

Definition sizeof_bytes : Z := 24.
Definition sizeof_Hash : Z := 24.
Definition sizeof_CommitSig : Z := 48.
Definition sizeof_BatchCertRef : Z := 40.
Definition sizeof_Vote : Z := 80.
Definition sizeof_NamedValidator : Z := 56.
Definition sizeof_KeyWeight : Z := 32.
Definition sizeof_AccountWeight : Z := 16.
Definition sizeof_SignatureProof : Z := 48.
Definition sizeof_AccountAuthorization : Z := 56.

Fixpoint read_each {A} (n : nat) (read : RM A) : RM (list A) :=
  match n with
  | O => rm_ret []
  | S n => let^ a := read in let^ l := read_each n read in rm_ret (a :: l)
  end.

(** A count, as an [int], and so many elements of [size] bytes each. *)
Definition read_slice {A} (size : Z) (read : RM A) : RM (list A) :=
  let^ n := rm_lift ReadUvarint in
  let n := wrap64 n in
  if (n <? 0) || (n >? maxSliceLen size) then fun r => (r, Panic "runtime error: makeslice: len out of range")
  else read_each (Z.to_nat n) read.

Definition read_int8 : RM Z := rm_lift ReadInt8.
Definition read_int32 : RM Z := rm_lift ReadInt32.
Definition read_int64 : RM Z := rm_lift ReadInt64.
Definition read_uint16 : RM Z := rm_lift ReadUint16.
Definition read_uint32 : RM Z := rm_lift ReadUint32.
Definition read_uint64 : RM Z := rm_lift ReadUint64.
Definition read_bytes : RM bytes := rm_lift ReadBytes.
Definition read_string : RM string := rm_lift ReadString.

(** A new value, and a pointer to it. *)
Definition read_pointer {A} (dec : A -> RM A) (zero : A) : RM (option A) := let^ v := dec zero in rm_ret (Some v).

Variable fuel : nat.

(** A message decodes into the fields of [m]; a pointer and the elements of a slice into a new message. *)
Definition Hash_field (n : Z) (m : Hash) : option (RM Hash) :=
  match n with 1 => Some (let^ x := read_bytes in rm_ret (mkHash x)) | _ => None end.
Definition Hash_DecodeFrom (m : Hash) : RM Hash := decode_loop Hash_field fuel m.

Definition Signature_field (n : Z) (m : Signature) : option (RM Signature) :=
  match n with 1 => Some (let^ x := read_bytes in rm_ret (mkSignature x)) | _ => None end.
Definition Signature_DecodeFrom (m : Signature) : RM Signature := decode_loop Signature_field fuel m.

Definition PublicKey_field (n : Z) (m : PublicKey) : option (RM PublicKey) :=
  match n with 1 => Some (let^ x := read_bytes in rm_ret (mkPublicKey x)) | _ => None end.
Definition PublicKey_DecodeFrom (m : PublicKey) : RM PublicKey := decode_loop PublicKey_field fuel m.

Definition AccountName_field (n : Z) (m : AccountName) : option (RM AccountName) :=
  match n with 1 => Some (let^ x := read_pointer (fun _ => read_string) "" in rm_ret (mkAccountName x)) | _ => None end.
Definition AccountName_DecodeFrom (m : AccountName) : RM AccountName := decode_loop AccountName_field fuel m.

Definition zero_Hash : Hash := mkHash [].
Definition zero_Signature : Signature := mkSignature [].
Definition zero_PublicKey : PublicKey := mkPublicKey [].
Definition zero_AccountName : AccountName := mkAccountName None.

Definition read_hash : RM (option Hash) := read_pointer Hash_DecodeFrom zero_Hash.

Definition VoteType_DecodeFrom : RM Z := read_int32.
Definition EvidenceType_DecodeFrom : RM Z := read_int32.
Definition WalmsgType_DecodeFrom : RM Z := read_int32.
Definition RoundStepType_DecodeFrom : RM Z := read_int32.

Definition Vote_field (n : Z) (m : Vote) : option (RM Vote) :=
  let 'mkVote t h rd b ts v i s := m in
  match n with
  | 1 => Some (let^ x := VoteType_DecodeFrom in rm_ret (mkVote x h rd b ts v i s))
  | 2 => Some (let^ x := read_int64 in rm_ret (mkVote t x rd b ts v i s))
  | 3 => Some (let^ x := read_int32 in rm_ret (mkVote t h x b ts v i s))
  | 4 => Some (let^ x := read_hash in rm_ret (mkVote t h rd x ts v i s))
  | 5 => Some (let^ x := read_int64 in rm_ret (mkVote t h rd b x v i s))
  | 6 => Some (let^ x := AccountName_DecodeFrom v in rm_ret (mkVote t h rd b ts x i s))
  | 7 => Some (let^ x := read_uint16 in rm_ret (mkVote t h rd b ts v x s))
  | 8 => Some (let^ x := Signature_DecodeFrom s in rm_ret (mkVote t h rd b ts v i x))
  | _ => None
  end.
Definition Vote_DecodeFrom (m : Vote) : RM Vote := decode_loop Vote_field fuel m.
Definition zero_Vote : Vote := mkVote 0 0 0 None 0 zero_AccountName 0 zero_Signature.

Definition CommitSig_field (n : Z) (m : CommitSig) : option (RM CommitSig) :=
  let 'mkCommitSig i s t b := m in
  match n with
  | 1 => Some (let^ x := read_uint16 in rm_ret (mkCommitSig x s t b))
  | 2 => Some (let^ x := Signature_DecodeFrom s in rm_ret (mkCommitSig i x t b))
  | 3 => Some (let^ x := read_int64 in rm_ret (mkCommitSig i s x b))
  | 4 => Some (let^ x := read_hash in rm_ret (mkCommitSig i s t x))
  | _ => None
  end.
Definition CommitSig_DecodeFrom (m : CommitSig) : RM CommitSig := decode_loop CommitSig_field fuel m.
Definition zero_CommitSig : CommitSig := mkCommitSig 0 zero_Signature 0 None.

Definition Commit_field (n : Z) (m : Commit) : option (RM Commit) :=
  let 'mkCommit h rd b l := m in
  match n with
  | 1 => Some (let^ x := read_int64 in rm_ret (mkCommit x rd b l))
  | 2 => Some (let^ x := read_int32 in rm_ret (mkCommit h x b l))
  | 3 => Some (let^ x := Hash_DecodeFrom b in rm_ret (mkCommit h rd x l))
  | 4 => Some (let^ x := read_slice sizeof_CommitSig (CommitSig_DecodeFrom zero_CommitSig) in rm_ret (mkCommit h rd b x))
  | _ => None
  end.
Definition Commit_DecodeFrom (m : Commit) : RM Commit := decode_loop Commit_field fuel m.
Definition zero_Commit : Commit := mkCommit 0 0 zero_Hash [].

Definition BatchCertRef_field (n : Z) (m : BatchCertRef) : option (RM BatchCertRef) :=
  let 'mkBatchCertRef d rd v := m in
  match n with
  | 1 => Some (let^ x := Hash_DecodeFrom d in rm_ret (mkBatchCertRef x rd v))
  | 2 => Some (let^ x := read_uint64 in rm_ret (mkBatchCertRef d x v))
  | 3 => Some (let^ x := AccountName_DecodeFrom v in rm_ret (mkBatchCertRef d rd x))
  | _ => None
  end.
Definition BatchCertRef_DecodeFrom (m : BatchCertRef) : RM BatchCertRef := decode_loop BatchCertRef_field fuel m.
Definition zero_BatchCertRef : BatchCertRef := mkBatchCertRef zero_Hash 0 zero_AccountName.

Definition BlockHeader_field (n : Z) (m : BlockHeader) : option (RM BlockHeader) :=
  let 'mkBlockHeader c h t lb lc vh ah ch d l p := m in
  match n with
  | 1 => Some (let^ x := read_string in rm_ret (mkBlockHeader x h t lb lc vh ah ch d l p))
  | 2 => Some (let^ x := read_int64 in rm_ret (mkBlockHeader c x t lb lc vh ah ch d l p))
  | 3 => Some (let^ x := read_int64 in rm_ret (mkBlockHeader c h x lb lc vh ah ch d l p))
  | 4 => Some (let^ x := read_hash in rm_ret (mkBlockHeader c h t x lc vh ah ch d l p))
  | 5 => Some (let^ x := read_hash in rm_ret (mkBlockHeader c h t lb x vh ah ch d l p))
  | 6 => Some (let^ x := read_hash in rm_ret (mkBlockHeader c h t lb lc x ah ch d l p))
  | 7 => Some (let^ x := read_hash in rm_ret (mkBlockHeader c h t lb lc vh x ch d l p))
  | 8 => Some (let^ x := read_hash in rm_ret (mkBlockHeader c h t lb lc vh ah x d l p))
  | 9 => Some (let^ x := read_uint64 in rm_ret (mkBlockHeader c h t lb lc vh ah ch x l p))
  | 10 => Some (let^ x := read_slice sizeof_BatchCertRef (BatchCertRef_DecodeFrom zero_BatchCertRef) in rm_ret (mkBlockHeader c h t lb lc vh ah ch d x p))
  | 11 => Some (let^ x := AccountName_DecodeFrom p in rm_ret (mkBlockHeader c h t lb lc vh ah ch d l x))
  | _ => None
  end.
Definition BlockHeader_DecodeFrom (m : BlockHeader) : RM BlockHeader := decode_loop BlockHeader_field fuel m.
Definition zero_BlockHeader : BlockHeader := mkBlockHeader "" 0 0 None None None None None 0 [] zero_AccountName.

Definition BlockData_field (n : Z) (m : BlockData) : option (RM BlockData) :=
  match n with 1 => Some (let^ x := read_slice sizeof_Hash (Hash_DecodeFrom zero_Hash) in rm_ret (mkBlockData x)) | _ => None end.
Definition BlockData_DecodeFrom (m : BlockData) : RM BlockData := decode_loop BlockData_field fuel m.
Definition zero_BlockData : BlockData := mkBlockData [].

Definition Block_field (n : Z) (m : Block) : option (RM Block) :=
  let 'mkBlock h d e c := m in
  match n with
  | 1 => Some (let^ x := BlockHeader_DecodeFrom h in rm_ret (mkBlock x d e c))
  | 2 => Some (let^ x := BlockData_DecodeFrom d in rm_ret (mkBlock h x e c))
  | 3 => Some (let^ x := read_slice sizeof_bytes read_bytes in rm_ret (mkBlock h d (Some x) c))
  | 4 => Some (let^ x := read_pointer Commit_DecodeFrom zero_Commit in rm_ret (mkBlock h d e x))
  | _ => None
  end.
Definition Block_DecodeFrom (m : Block) : RM Block := decode_loop Block_field fuel m.
Definition zero_Block : Block := mkBlock zero_BlockHeader zero_BlockData None None.

Definition Proposal_field (n : Z) (m : Proposal) : option (RM Proposal) :=
  let 'mkProposal h rd t b pr pv p s := m in
  match n with
  | 1 => Some (let^ x := read_int64 in rm_ret (mkProposal x rd t b pr pv p s))
  | 2 => Some (let^ x := read_int32 in rm_ret (mkProposal h x t b pr pv p s))
  | 3 => Some (let^ x := read_int64 in rm_ret (mkProposal h rd x b pr pv p s))
  | 4 => Some (let^ x := Block_DecodeFrom b in rm_ret (mkProposal h rd t x pr pv p s))
  | 5 => Some (let^ x := read_int32 in rm_ret (mkProposal h rd t b x pv p s))
  | 6 => Some (let^ x := read_slice sizeof_Vote (Vote_DecodeFrom zero_Vote) in rm_ret (mkProposal h rd t b pr x p s))
  | 7 => Some (let^ x := AccountName_DecodeFrom p in rm_ret (mkProposal h rd t b pr pv x s))
  | 8 => Some (let^ x := Signature_DecodeFrom s in rm_ret (mkProposal h rd t b pr pv p x))
  | _ => None
  end.
Definition Proposal_DecodeFrom (m : Proposal) : RM Proposal := decode_loop Proposal_field fuel m.
Definition zero_Proposal : Proposal := mkProposal 0 0 0 zero_Block 0 [] zero_AccountName zero_Signature.

Definition NamedValidator_field (n : Z) (m : NamedValidator) : option (RM NamedValidator) :=
  let 'mkNamedValidator a i k p q := m in
  match n with
  | 1 => Some (let^ x := AccountName_DecodeFrom a in rm_ret (mkNamedValidator x i k p q))
  | 2 => Some (let^ x := read_uint16 in rm_ret (mkNamedValidator a x k p q))
  | 3 => Some (let^ x := PublicKey_DecodeFrom k in rm_ret (mkNamedValidator a i x p q))
  | 4 => Some (let^ x := read_int64 in rm_ret (mkNamedValidator a i k x q))
  | 5 => Some (let^ x := read_int64 in rm_ret (mkNamedValidator a i k p x))
  | _ => None
  end.
Definition NamedValidator_DecodeFrom (m : NamedValidator) : RM NamedValidator := decode_loop NamedValidator_field fuel m.
Definition zero_NamedValidator : NamedValidator := mkNamedValidator zero_AccountName 0 zero_PublicKey 0 0.

Definition ValidatorSetData_field (n : Z) (m : ValidatorSetData) : option (RM ValidatorSetData) :=
  let 'mkValidatorSetData l p t := m in
  match n with
  | 1 => Some (let^ x := read_slice sizeof_NamedValidator (NamedValidator_DecodeFrom zero_NamedValidator) in rm_ret (mkValidatorSetData x p t))
  | 2 => Some (let^ x := read_uint16 in rm_ret (mkValidatorSetData l x t))
  | 3 => Some (let^ x := read_int64 in rm_ret (mkValidatorSetData l p x))
  | _ => None
  end.
Definition ValidatorSetData_DecodeFrom (m : ValidatorSetData) : RM ValidatorSetData := decode_loop ValidatorSetData_field fuel m.
Definition zero_ValidatorSetData : ValidatorSetData := mkValidatorSetData [] 0 0.

Definition DuplicateVoteEvidence_field (n : Z) (m : DuplicateVoteEvidence) : option (RM DuplicateVoteEvidence) :=
  let 'mkDuplicateVoteEvidence a b t p ts := m in
  match n with
  | 1 => Some (let^ x := Vote_DecodeFrom a in rm_ret (mkDuplicateVoteEvidence x b t p ts))
  | 2 => Some (let^ x := Vote_DecodeFrom b in rm_ret (mkDuplicateVoteEvidence a x t p ts))
  | 3 => Some (let^ x := read_int64 in rm_ret (mkDuplicateVoteEvidence a b x p ts))
  | 4 => Some (let^ x := read_int64 in rm_ret (mkDuplicateVoteEvidence a b t x ts))
  | 5 => Some (let^ x := read_int64 in rm_ret (mkDuplicateVoteEvidence a b t p x))
  | _ => None
  end.
Definition DuplicateVoteEvidence_DecodeFrom (m : DuplicateVoteEvidence) : RM DuplicateVoteEvidence :=
  decode_loop DuplicateVoteEvidence_field fuel m.
Definition zero_DuplicateVoteEvidence : DuplicateVoteEvidence := mkDuplicateVoteEvidence zero_Vote zero_Vote 0 0 0.

Definition Evidence_field (n : Z) (m : Evidence) : option (RM Evidence) :=
  let 'mkEvidence t h ts d := m in
  match n with
  | 1 => Some (let^ x := EvidenceType_DecodeFrom in rm_ret (mkEvidence x h ts d))
  | 2 => Some (let^ x := read_int64 in rm_ret (mkEvidence t x ts d))
  | 3 => Some (let^ x := read_int64 in rm_ret (mkEvidence t h x d))
  | 4 => Some (let^ x := read_bytes in rm_ret (mkEvidence t h ts x))
  | _ => None
  end.
Definition Evidence_DecodeFrom (m : Evidence) : RM Evidence := decode_loop Evidence_field fuel m.
Definition zero_Evidence : Evidence := mkEvidence 0 0 0 [].

Definition Walmessage_field (n : Z) (m : Walmessage) : option (RM Walmessage) :=
  let 'mkWalmessage t h rd d := m in
  match n with
  | 1 => Some (let^ x := WalmsgType_DecodeFrom in rm_ret (mkWalmessage x h rd d))
  | 2 => Some (let^ x := read_int64 in rm_ret (mkWalmessage t x rd d))
  | 3 => Some (let^ x := read_int32 in rm_ret (mkWalmessage t h x d))
  | 4 => Some (let^ x := read_bytes in rm_ret (mkWalmessage t h rd x))
  | _ => None
  end.
Definition Walmessage_DecodeFrom (m : Walmessage) : RM Walmessage := decode_loop Walmessage_field fuel m.
Definition zero_Walmessage : Walmessage := mkWalmessage 0 0 0 [].

Definition TimeoutMessage_field (n : Z) (m : TimeoutMessage) : option (RM TimeoutMessage) :=
  let 'mkTimeoutMessage h rd s := m in
  match n with
  | 1 => Some (let^ x := read_int64 in rm_ret (mkTimeoutMessage x rd s))
  | 2 => Some (let^ x := read_int32 in rm_ret (mkTimeoutMessage h x s))
  | 3 => Some (let^ x := RoundStepType_DecodeFrom in rm_ret (mkTimeoutMessage h rd x))
  | _ => None
  end.
Definition TimeoutMessage_DecodeFrom (m : TimeoutMessage) : RM TimeoutMessage := decode_loop TimeoutMessage_field fuel m.
Definition zero_TimeoutMessage : TimeoutMessage := mkTimeoutMessage 0 0 0.

Definition ConsensusStateData_field (n : Z) (m : ConsensusStateData) : option (RM ConsensusStateData) :=
  let 'mkConsensusStateData h rd s lr lh vr vh := m in
  match n with
  | 1 => Some (let^ x := read_int64 in rm_ret (mkConsensusStateData x rd s lr lh vr vh))
  | 2 => Some (let^ x := read_int32 in rm_ret (mkConsensusStateData h x s lr lh vr vh))
  | 3 => Some (let^ x := RoundStepType_DecodeFrom in rm_ret (mkConsensusStateData h rd x lr lh vr vh))
  | 4 => Some (let^ x := read_int32 in rm_ret (mkConsensusStateData h rd s x lh vr vh))
  | 5 => Some (let^ x := read_hash in rm_ret (mkConsensusStateData h rd s lr x vr vh))
  | 6 => Some (let^ x := read_int32 in rm_ret (mkConsensusStateData h rd s lr lh x vh))
  | 7 => Some (let^ x := read_hash in rm_ret (mkConsensusStateData h rd s lr lh vr x))
  | _ => None
  end.
Definition ConsensusStateData_DecodeFrom (m : ConsensusStateData) : RM ConsensusStateData := decode_loop ConsensusStateData_field fuel m.
Definition zero_ConsensusStateData : ConsensusStateData := mkConsensusStateData 0 0 0 0 None 0 None.

(** [UnmarshalCramberry] into a message, most often a new one. Bytes behind the end of the message are not read. *)
Definition Unmarshal {A} (dec : A -> RM A) (m : A) (data : bytes) : res A :=
  let '(r, m) := dec m (NewReaderWithOptions data) in
  let! m := m in
  match r_Err r with Some e => Err e | None => Ret m end.

(** *** UnmarshalCramberry: into the message of the receiver *)

Definition Hash_UnmarshalCramberry : Hash -> bytes -> res Hash := Unmarshal Hash_DecodeFrom.
Definition Signature_UnmarshalCramberry : Signature -> bytes -> res Signature := Unmarshal Signature_DecodeFrom.
Definition PublicKey_UnmarshalCramberry : PublicKey -> bytes -> res PublicKey := Unmarshal PublicKey_DecodeFrom.
Definition AccountName_UnmarshalCramberry : AccountName -> bytes -> res AccountName := Unmarshal AccountName_DecodeFrom.
Definition Vote_UnmarshalCramberry : Vote -> bytes -> res Vote := Unmarshal Vote_DecodeFrom.
Definition CommitSig_UnmarshalCramberry : CommitSig -> bytes -> res CommitSig := Unmarshal CommitSig_DecodeFrom.
Definition Commit_UnmarshalCramberry : Commit -> bytes -> res Commit := Unmarshal Commit_DecodeFrom.
Definition BatchCertRef_UnmarshalCramberry : BatchCertRef -> bytes -> res BatchCertRef := Unmarshal BatchCertRef_DecodeFrom.
Definition BlockHeader_UnmarshalCramberry : BlockHeader -> bytes -> res BlockHeader := Unmarshal BlockHeader_DecodeFrom.
Definition BlockData_UnmarshalCramberry : BlockData -> bytes -> res BlockData := Unmarshal BlockData_DecodeFrom.
Definition Block_UnmarshalCramberry : Block -> bytes -> res Block := Unmarshal Block_DecodeFrom.
Definition Proposal_UnmarshalCramberry : Proposal -> bytes -> res Proposal := Unmarshal Proposal_DecodeFrom.
Definition NamedValidator_UnmarshalCramberry : NamedValidator -> bytes -> res NamedValidator := Unmarshal NamedValidator_DecodeFrom.
Definition ValidatorSetData_UnmarshalCramberry : ValidatorSetData -> bytes -> res ValidatorSetData := Unmarshal ValidatorSetData_DecodeFrom.
Definition DuplicateVoteEvidence_UnmarshalCramberry : DuplicateVoteEvidence -> bytes -> res DuplicateVoteEvidence := Unmarshal DuplicateVoteEvidence_DecodeFrom.
Definition Evidence_UnmarshalCramberry : Evidence -> bytes -> res Evidence := Unmarshal Evidence_DecodeFrom.
Definition Walmessage_UnmarshalCramberry : Walmessage -> bytes -> res Walmessage := Unmarshal Walmessage_DecodeFrom.
Definition TimeoutMessage_UnmarshalCramberry : TimeoutMessage -> bytes -> res TimeoutMessage := Unmarshal TimeoutMessage_DecodeFrom.
Definition ConsensusStateData_UnmarshalCramberry : ConsensusStateData -> bytes -> res ConsensusStateData := Unmarshal ConsensusStateData_DecodeFrom.

(** *** The messages of the log (src/wal/wal.go) *)

Definition Message_MarshalCramberry (m : Message) : res bytes :=
  Walmessage_MarshalCramberry (mkWalmessage (msg_Type m) (msg_Height m) (msg_Round m) (msg_Data m)).
(** All fields of the receiver are overwritten. *)
Definition Message_UnmarshalCramberry (data : bytes) : res Message :=
  let! msg := Walmessage_UnmarshalCramberry zero_Walmessage data in
  Ret (mkMessage (wm_Type msg) (wm_Height msg) (wm_Round msg) (wm_Data msg)).

(** ** The interfaces of the encoders *)

Definition generated_Cramberry : Cramberry := {|
  marshal_BlockHeader := BlockHeader_MarshalCramberry;
  marshal_Block := Block_MarshalCramberry;
  marshal_Commit := Commit_MarshalCramberry;
  marshal_Vote := Vote_MarshalCramberry;
  marshal_Proposal := Proposal_MarshalCramberry;
  marshal_ValidatorSetData := ValidatorSetData_MarshalCramberry;
  marshal_DuplicateVoteEvidence := DuplicateVoteEvidence_MarshalCramberry;
  marshal_ConsensusStateData := ConsensusStateData_MarshalCramberry;
  unmarshal_Block := Block_UnmarshalCramberry zero_Block;
  unmarshal_Vote := Vote_UnmarshalCramberry zero_Vote;
  unmarshal_Proposal := Proposal_UnmarshalCramberry zero_Proposal |}.

Definition generated_WalCodec : WalCodec := {|
  marshal_Walmessage := Message_MarshalCramberry;
  unmarshal_Walmessage := Message_UnmarshalCramberry;
  marshal_TimeoutMessage := TimeoutMessage_MarshalCramberry;
  unmarshal_TimeoutMessage := TimeoutMessage_UnmarshalCramberry zero_TimeoutMessage;
  unmarshal_Commit := Commit_UnmarshalCramberry zero_Commit;
  unmarshal_ConsensusStateData := ConsensusStateData_UnmarshalCramberry zero_ConsensusStateData |}.
End Codec.
