(* ===== verification/FileWal.v ===== *)
(** * The file write-ahead log (src/wal/file_wal.go)

    A directory of segment files, a writer with a buffer in front of the current segment, and
    readers that decode records of a length, the message, and a CRC. What the process has
    written and what a crash may leave are kept apart: a file has a durable prefix, which grows
    with [Sync]. *)

From S2P Require Export Wal.
From Stdlib Require Import Strings.Ascii.

(** ** Constants *)

Definition maxMsgSize : Z := 10 * 1024 * 1024.
Definition defaultBufSize : Z := 64 * 1024.
Definition defaultMaxSegSize : Z := 64 * 1024 * 1024.
Definition maxHeightIndexSize : Z := 100000.

(** ** Records *)

(** [crc32.ChecksumIEEE]: the reflected polynomial, one bit at a time. *)
Definition crc_bit (c : Z) : Z :=
  if Z.testbit c 0 then Z.lxor (Z.shiftr c 1) 0xEDB88320 else Z.shiftr c 1.
Definition crc_byte (c : Z) (b : byte) : Z := Nat.iter 8 crc_bit (Z.lxor c (byte_val b)).
Definition crc32_ChecksumIEEE (data : bytes) : Z := Z.lxor (foldl crc_byte 0xFFFFFFFF data) 0xFFFFFFFF.

(** [binary.BigEndian.PutUint32] and [Uint32]. *)
Definition PutUint32 (z : Z) : bytes :=
  [byte_of_Z (Z.shiftr z 24); byte_of_Z (Z.shiftr z 16); byte_of_Z (Z.shiftr z 8); byte_of_Z z].
Definition Uint32 (b : bytes) : Z := foldl (fun z x => z * 256 + byte_val x) 0 (take 4 b).

(** [io.ReadFull] of [n] bytes: the bytes, and what is left to read. *)
Definition io_ReadFull (n : nat) (b : bytes) : bytes * res bytes :=
  if (n <=? length b)%nat then (drop n b, Ret (take n b))
  else ([], Err (if bool_decide (b = []) then io_EOF else io_ErrUnexpectedEOF)).

Section Codec.
Context `{WalCodec}.

(** [decoder.Decode] on the bytes left to read. *)
Definition Decode (b : bytes) : bytes * res Message :=
  match io_ReadFull 4 b with
  | (b, Err e) => (b, Err e)
  | (b, Panic m) => (b, Panic m)
  | (b, Ret head) =>
      let length := Uint32 head in
      if! length >=? maxMsgSize return (b, Err (wrapf ErrWALCorrupted "%w: message size %d >= max %d")) in
      match io_ReadFull (Z.to_nat length) b with
      | (b, Err e) => (b, Err e)
      | (b, Panic m) => (b, Panic m)
      | (b, Ret data) =>
          match io_ReadFull 4 b with
          | (b, Err e) => (b, Err e)
          | (b, Panic m) => (b, Panic m)
          | (b, Ret crc) =>
              if! negb (Uint32 crc =? crc32_ChecksumIEEE data)
                return (b, Err (wrapf ErrWALCorrupted "%w: CRC mismatch (expected %08x, got %08x)")) in
              (b, unmarshal_Walmessage data)
          end
      end
  end.

(** The bytes of one record. *)
Definition record (data : bytes) : bytes :=
  PutUint32 (u32 (len data)) ++ data ++ PutUint32 (crc32_ChecksumIEEE data).

(** All messages up to the first error; the error tells why the decoder stopped. *)
Fixpoint decode_all (fuel : nat) (b : bytes) : list Message * res unit :=
  match fuel with
  | O => ([], Panic "out of fuel")
  | S fuel =>
      match Decode b with
      | (b, Ret msg) => let '(l, e) := decode_all fuel b in (msg :: l, e)
      | (b, Err e) => ([], Err e)
      | (b, Panic m) => ([], Panic m)
      end
  end.

(** A record takes eight bytes at least: this fuel is enough. *)
Definition read_segment (b : bytes) : list Message * res unit := decode_all (S (length b)) b.
End Codec.

(** ** The directory *)

(** [wf_synced] is the length of the prefix that a crash cannot lose. *)
Record WFile := mkWFile {
  wf_data : bytes;
  wf_synced : nat }.

(** The legacy file "wal", and the segment files by the index in their name. Other files are
    not looked at. *)
Record Dir := mkDir {
  dir_legacy : option WFile;
  dir_segs : gmap Z WFile }.

Definition empty_dir : Dir := mkDir None ∅.

(** The index that [Sscanf] with "wal-%05d" reads from the name "wal-%05d" of an index: at
    most five digits. *)
Definition scanned (idx : Z) : Z :=
  Nat.iter (Z.to_nat (Z.log2 idx)) (fun z => if z <? 100000 then z else z / 10) idx.

(** Which calls of the operating system fail. [f_write]: the next write of a file stores so many
    bytes and fails. *)
Record faults := mkFaults {
  f_write : option nat;
  f_sync : bool;
  f_open : bool;
  f_stat : bool;
  f_close : bool;
  f_remove : bool;
  f_rename : bool;
  f_readdir : bool }.

Definition no_faults : faults := mkFaults None false false false false false false false.

Definition os_error (op : string) : error := errorf op.

(** ** The log *)

(** [fw_buf] and [fw_err] are the [bufio.Writer]: the bytes it holds, and its first error, which
    sticks. [fw_closed]: the file of the current segment has been closed. *)
Record FileWAL := mkFileWAL {
  fw_dir : string;
  fw_buf : bytes;
  fw_err : option error;
  fw_closed : bool;
  fw_minIndex : Z;
  fw_maxIndex : Z;
  fw_started : bool;
  fw_segmentIndex : Z;
  fw_segmentSize : Z;
  fw_maxSegSize : Z;
  fw_heightIndex : gmap Z Z }.

Definition with_writer (buf : bytes) (err : option error) (w : FileWAL) : FileWAL :=
  mkFileWAL (fw_dir w) buf err (fw_closed w) (fw_minIndex w) (fw_maxIndex w) (fw_started w)
    (fw_segmentIndex w) (fw_segmentSize w) (fw_maxSegSize w) (fw_heightIndex w).
Definition with_closed (c : bool) (w : FileWAL) : FileWAL :=
  mkFileWAL (fw_dir w) (fw_buf w) (fw_err w) c (fw_minIndex w) (fw_maxIndex w) (fw_started w)
    (fw_segmentIndex w) (fw_segmentSize w) (fw_maxSegSize w) (fw_heightIndex w).
Definition with_group (lo hi : Z) (w : FileWAL) : FileWAL :=
  mkFileWAL (fw_dir w) (fw_buf w) (fw_err w) (fw_closed w) lo hi (fw_started w)
    (fw_segmentIndex w) (fw_segmentSize w) (fw_maxSegSize w) (fw_heightIndex w).
Definition with_wal_started (b : bool) (w : FileWAL) : FileWAL :=
  mkFileWAL (fw_dir w) (fw_buf w) (fw_err w) (fw_closed w) (fw_minIndex w) (fw_maxIndex w) b
    (fw_segmentIndex w) (fw_segmentSize w) (fw_maxSegSize w) (fw_heightIndex w).
Definition with_segment (idx size : Z) (w : FileWAL) : FileWAL :=
  mkFileWAL (fw_dir w) (fw_buf w) (fw_err w) (fw_closed w) (fw_minIndex w) (fw_maxIndex w)
    (fw_started w) idx size (fw_maxSegSize w) (fw_heightIndex w).
Definition with_heightIndex (m : gmap Z Z) (w : FileWAL) : FileWAL :=
  mkFileWAL (fw_dir w) (fw_buf w) (fw_err w) (fw_closed w) (fw_minIndex w) (fw_maxIndex w)
    (fw_started w) (fw_segmentIndex w) (fw_segmentSize w) (fw_maxSegSize w) m.

(** *** Paths: [filepath.Clean], [filepath.IsAbs] and [strings.Contains] on Unix *)

Fixpoint split_slash (cur s : string) : list string :=
  match s with
  | EmptyString => [cur]
  | String "/"%char s => cur :: split_slash "" s
  | String c s => split_slash (cur +:+ String c EmptyString) s
  end.

(** The components kept so far, the last one first. *)
Definition clean_component (rooted : bool) (out : list string) (c : string) : list string :=
  if bool_decide (c = "") || bool_decide (c = ".") then out
  else if bool_decide (c = "..") then
    match out with
    | [] => if rooted then [] else [".."]
    | last :: out' => if bool_decide (last = "..") then c :: out else out'
    end
  else c :: out.

Definition filepath_IsAbs (path : string) : bool := String.prefix "/" path.

Definition filepath_Clean (path : string) : string :=
  let rooted := filepath_IsAbs path in
  let clean := String.concat "/" (reverse (foldl (clean_component rooted) [] (split_slash "" path))) in
  if rooted then "/" +:+ clean else if bool_decide (clean = "") then "." else clean.

Fixpoint strings_Contains (s sub : string) : bool :=
  String.prefix sub s || match s with EmptyString => false | String _ s => strings_Contains s sub end.

(** [mkdir] tells whether [os.MkdirAll] succeeds. *)
Definition NewFileWALWithOptions (mkdir : bool) (dir : string) (maxSegSize : Z) : res FileWAL :=
  let cleanDir := filepath_Clean dir in
  if! negb (filepath_IsAbs cleanDir) return Err (errorf "WAL directory must be absolute path: %s") in
  if! strings_Contains cleanDir ".." return Err (errorf "WAL directory contains invalid path components: %s") in
  if! negb mkdir return Err (wrapf (os_error "mkdir") "failed to create WAL directory: %w") in
  let maxSegSize := if maxSegSize <=? 0 then defaultMaxSegSize else maxSegSize in
  Ret (mkFileWAL cleanDir [] None true 0 0 false 0 0 maxSegSize ∅).

Definition NewFileWAL (mkdir : bool) (dir : string) : res FileWAL :=
  NewFileWALWithOptions mkdir dir defaultMaxSegSize.

(** ** Operations

    An operation changes the log and the directory, and returns a result. *)

Definition WM (A : Type) : Type := FileWAL * Dir -> (FileWAL * Dir) * res A.

Definition wret {A} (a : A) : WM A := fun s => (s, Ret a).
Definition werr {A} (e : error) : WM A := fun s => (s, Err e).
Definition wbind {A B} (m : WM A) (k : A -> WM B) : WM B := fun s =>
  match m s with (s, Ret a) => k a s | (s, Err e) => (s, Err e) | (s, Panic msg) => (s, Panic msg) end.
Definition wwrap {A} (m : WM A) (f : error -> error) : WM A := fun s => let '(s, r) := m s in (s, rwrap r f).
Definition wget : WM FileWAL := fun s => (s, Ret s.1).
Definition wdir : WM Dir := fun s => (s, Ret s.2).
Definition wput (f : FileWAL -> FileWAL) : WM unit := fun s => ((f s.1, s.2), Ret tt).
Definition wput_dir (f : Dir -> Dir) : WM unit := fun s => ((s.1, f s.2), Ret tt).

Notation "'let~' x ':=' m 'in' k" := (wbind m (fun x => k))
  (at level 10, x pattern, m at level 100, k at level 200) : go_scope.
Notation "m '>>' k" := (wbind m (fun _ => k)) (at level 100, right associativity) : go_scope.

Section Operations.
Context `{WalCodec}.
Variable fl : faults.

(** *** Files *)

Definition update_seg (f : WFile -> WFile) (idx : Z) (d : Dir) : Dir :=
  mkDir (dir_legacy d) (alter f idx (dir_segs d)).

(** [os.OpenFile] with [O_CREATE|O_APPEND]. *)
Definition create_seg (idx : Z) (d : Dir) : Dir :=
  match dir_segs d !! idx with
  | Some _ => d
  | None => mkDir (dir_legacy d) (<[idx := mkWFile [] 0]> (dir_segs d))
  end.

Definition seg_data (idx : Z) (d : Dir) : bytes := default [] (wf_data <$> dir_segs d !! idx).

Definition append_data (b : bytes) (f : WFile) : WFile := mkWFile (wf_data f ++ b) (wf_synced f).
Definition sync_data (f : WFile) : WFile := mkWFile (wf_data f) (length (wf_data f)).

(** [file.Write] on the file of the current segment: the bytes that were not written. *)
Definition file_Write (b : bytes) : WM (bytes * option error) :=
  let~ w := wget in
  if! fw_closed w return wret (b, Some (os_error "file already closed")) in
  match f_write fl with
  | None => wput_dir (update_seg (append_data b) (fw_segmentIndex w)) >> wret ([], None)
  | Some n =>
      wput_dir (update_seg (append_data (take n b)) (fw_segmentIndex w)) >>
      wret (drop n b, Some (os_error "write"))
  end.

Definition file_Sync : WM unit :=
  let~ w := wget in
  if! fw_closed w return werr (os_error "file already closed") in
  if! f_sync fl return werr (os_error "sync") in
  wput_dir (update_seg sync_data (fw_segmentIndex w)).

(** [file.Close] releases the file, even when it fails. *)
Definition file_Close : WM unit :=
  let~ w := wget in
  if! fw_closed w return werr (os_error "file already closed") in
  wput (with_closed true) >>
  if f_close fl then werr (os_error "close") else wret tt.

(** *** [bufio.Writer] of size [defaultBufSize] *)

Definition buf_Flush : WM unit :=
  let~ w := wget in
  match fw_err w with
  | Some e => werr e
  | None =>
      if! bool_decide (fw_buf w = []) return wret tt in
      let~ (rest, err) := file_Write (fw_buf w) in
      wput (with_writer rest err) >>
      match err with None => wret tt | Some e => werr e end
  end.

(** A write that does not fit when the buffer is empty goes to the file directly. *)
Definition buf_Write_direct (p : bytes) : WM unit :=
  let~ (_, err) := file_Write p in
  wput (with_writer [] err) >>
  match err with None => wret tt | Some e => werr e end.

(** [Write] loops at most twice: it fills and flushes the buffer, and then the rest fits in or is
    written directly. *)
Definition buf_Write (p : bytes) : WM unit :=
  let~ w := wget in
  match fw_err w with
  | Some e => werr e
  | None =>
      let avail := defaultBufSize - len (fw_buf w) in
      if len p <=? avail then wput (with_writer (fw_buf w ++ p) None)
      else if bool_decide (fw_buf w = []) then buf_Write_direct p
      else
        wput (with_writer (fw_buf w ++ take (Z.to_nat avail) p) None) >>
        buf_Flush >>
        let p := drop (Z.to_nat avail) p in
        if len p <=? defaultBufSize then wput (with_writer p None) else buf_Write_direct p
  end.

(** *** The encoder *)

Definition Encode (msg : Message) : WM Z :=
  match marshal_Walmessage msg with
  | Err e => werr e
  | Panic m => fun s => (s, Panic m)
  | Ret data =>
      let checksum := crc32_ChecksumIEEE data in
      buf_Write (PutUint32 (u32 (len data))) >>
      buf_Write data >>
      buf_Write (PutUint32 checksum) >>
      wret (4 + len data + 4)
  end.

Definition flushAndSync : WM unit := buf_Flush >> file_Sync.

(** *** Segments *)

Definition indices_of (d : Dir) : list Z := scanned <$> (map_to_list (dir_segs d)).*1.

(** Renames a legacy file to segment 0. *)
Definition findHighestSegmentIndex : WM Z :=
  let~ d := wdir in
  match (if f_stat fl then None else dir_legacy d) with
  | Some f =>
      if! f_rename fl return werr (wrapf (os_error "rename") "failed to migrate legacy WAL file: %w") in
      wput_dir (fun d => mkDir None (<[0 := f]> (dir_segs d))) >> wret 0
  | None =>
      if! f_readdir fl return wret 0 in
      let highest := foldl Z.max (-1) (indices_of d) in
      wret (if highest <? 0 then 0 else highest)
  end.

Definition findLowestSegmentIndex (d : Dir) : Z :=
  if! f_readdir fl return 0 in
  let lowest := foldl (fun lowest idx => if (lowest <? 0) || (idx <? lowest) then idx else lowest) (-1) (indices_of d) in
  if lowest <? 0 then 0 else lowest.

(** The heights that end in a segment. *)
Definition index_segment (idx : Z) (m : gmap Z Z) (msg : Message) : gmap Z Z :=
  if msg_Type msg =? MsgTypeEndHeight then <[msg_Height msg := idx]> m else m.

(** The loop of [buildIndex] over the segments [idx, ..., idx + n - 1]. *)
Fixpoint buildIndex_loop (n : nat) (idx : Z) (d : Dir) (m : gmap Z Z) : res (gmap Z Z) :=
  match n with
  | O => Ret m
  | S n =>
      match dir_segs d !! idx with
      | None => buildIndex_loop n (idx + 1) d m
      | Some f =>
          if! f_open fl return Err (os_error "open") in
          buildIndex_loop n (idx + 1) d (foldl (index_segment idx) m (read_segment (wf_data f)).1)
      end
  end.

Definition buildIndex : WM unit :=
  let~ w := wget in
  let~ d := wdir in
  match buildIndex_loop (Z.to_nat (fw_maxIndex w - fw_minIndex w + 1)) (fw_minIndex w) d (fw_heightIndex w) with
  | Ret m => wput (with_heightIndex m)
  | Err e => werr e
  | Panic m => fun s => (s, Panic m)
  end.

Definition openSegment (index : Z) : WM unit :=
  if! f_open fl return werr (wrapf (os_error "open") "failed to open WAL segment %d: %w") in
  wput_dir (create_seg index) >>
  if! f_stat fl return werr (wrapf (os_error "stat") "failed to stat WAL segment: %w") in
  let~ d := wdir in
  wput (fun w => with_segment (fw_segmentIndex w) (len (seg_data index d)) (with_closed false (with_writer [] None w))).

Definition FileWAL_Start : WM unit :=
  let~ w := wget in
  if! fw_started w return wret tt in
  wput (with_heightIndex ∅) >>
  let~ idx := wwrap findHighestSegmentIndex (fun e => wrapf e "failed to find WAL segments: %w") in
  let~ d := wdir in
  wput (fun w => with_group (findLowestSegmentIndex d) idx (with_segment idx (fw_segmentSize w) w)) >>
  wwrap buildIndex (fun e => wrapf e "failed to build WAL index: %w") >>
  openSegment idx >>
  wput (with_wal_started true).

(** The first error of the three. *)
Definition FileWAL_Stop : WM unit :=
  let~ w := wget in
  if! negb (fw_started w) return wret tt in
  wput (with_wal_started false) >>
  fun s =>
    let '(s, r1) := buf_Flush s in
    let '(s, r2) := file_Sync s in
    let '(s, r3) := file_Close s in
    (s, match r1, r2 with Ret _, Ret _ => r3 | Ret _, _ => r2 | _, _ => r1 end).

Definition pruneHeightIndex (w : FileWAL) : FileWAL :=
  if! Z.of_nat (size (fw_heightIndex w)) <=? maxHeightIndexSize return w in
  let heights := merge_sort Z.le (map_to_list (fw_heightIndex w)).*1 in
  let toRemove := len heights - maxHeightIndexSize in
  with_heightIndex (foldl (fun m h => delete h m) (fw_heightIndex w) (take (Z.to_nat toRemove) heights)) w.

(** A new segment; the old one is flushed, synced and closed. *)
Definition rotate : WM unit :=
  flushAndSync >>
  let~ w := wget in
  let newIndex := fw_segmentIndex w + 1 in
  if! f_open fl return werr (wrapf (os_error "open") "failed to open new WAL segment %d: %w") in
  wput_dir (create_seg newIndex) >>
  if! f_stat fl return
    (if f_remove fl then wret tt
     else wput_dir (fun d => mkDir (dir_legacy d) (delete newIndex (dir_segs d)))) >>
    werr (wrapf (os_error "stat") "failed to stat new WAL segment: %w") in
  wwrap file_Close (fun e => wrapf e "failed to close old WAL segment: %w") >>
  let~ d := wdir in
  wput (fun w => with_group (fw_minIndex w) newIndex
                   (with_segment newIndex (len (seg_data newIndex d)) (with_closed false (with_writer [] None w)))).

(** [Write] and, with [sync], [WriteSync]. *)
Definition write_message (sync : bool) (msg : Message) : WM unit :=
  let~ w := wget in
  if! negb (fw_started w) return werr ErrWALClosed in
  (if fw_segmentSize w >=? fw_maxSegSize w
   then wwrap rotate (fun e => wrapf e "failed to rotate WAL: %w") else wret tt) >>
  let~ n := Encode msg in
  wput (fun w => with_segment (fw_segmentIndex w) (fw_segmentSize w + n) w) >>
  (if msg_Type msg =? MsgTypeEndHeight
   then wput (fun w => pruneHeightIndex (with_heightIndex (<[msg_Height msg := fw_segmentIndex w]> (fw_heightIndex w)) w))
   else wret tt) >>
  if sync then flushAndSync else wret tt.

Definition FileWAL_Write (msg : Message) : WM unit := write_message false msg.
Definition FileWAL_WriteSync (msg : Message) : WM unit := write_message true msg.

Definition FlushAndSync : WM unit :=
  let~ w := wget in
  if! negb (fw_started w) return werr ErrWALClosed in
  flushAndSync.

(** *** Search *)

(** Reads until the end of [height]; the reader is the rest of the segment. *)
Fixpoint search_loop (fuel : nat) (height : Z) (b : bytes) : res (option bytes) :=
  match fuel with
  | O => Panic "out of fuel"
  | S fuel =>
      match Decode b with
      | (b, Ret msg) =>
          if (msg_Type msg =? MsgTypeEndHeight) && (msg_Height msg =? height) then Ret (Some b)
          else search_loop fuel height b
      | (_, Err e) => if bool_decide (e = io_EOF) then Ret None else Err e
      | (_, Panic m) => Panic m
      end
  end.

Definition searchSegmentForEndHeight (d : Dir) (segmentIndex height : Z) : res (option bytes) :=
  match dir_segs d !! segmentIndex with
  | None => Ret None
  | Some f =>
      if! f_open fl return Err (os_error "open") in
      search_loop (S (length (wf_data f))) height (wf_data f)
  end.

(** The scan of the segments [idx, ..., idx + n - 1]: the segment found, and the reader. *)
Fixpoint search_segments (n : nat) (idx height : Z) (d : Dir) : res (option (Z * bytes)) :=
  match n with
  | O => Ret None
  | S n =>
      let! r := searchSegmentForEndHeight d idx height in
      match r with
      | Some b => Ret (Some (idx, b))
      | None => search_segments n (idx + 1) height d
      end
  end.

Definition SearchForEndHeight (height : Z) : WM (option bytes) :=
  let~ w := wget in
  if! negb (fw_started w) return werr ErrWALClosed in
  flushAndSync >>
  let~ d := wdir in
  let indexed := match fw_heightIndex w !! height with
                 | Some segIdx => searchSegmentForEndHeight d segIdx height
                 | None => Ret None
                 end in
  match indexed with
  | Err e => werr e
  | Panic m => fun s => (s, Panic m)
  | Ret (Some b) => wret (Some b)
  | Ret None =>
      match search_segments (Z.to_nat (fw_maxIndex w - fw_minIndex w + 1)) (fw_minIndex w) height d with
      | Err e => werr e
      | Panic m => fun s => (s, Panic m)
      | Ret None => wret None
      | Ret (Some (idx, b)) =>
          wput (fun w => with_heightIndex (<[height := idx]> (fw_heightIndex w)) w) >> wret (Some b)
      end
  end.

Definition FileWAL_Group (w : FileWAL) : option Group :=
  Some (mkGroup (fw_dir w) "wal" (fw_maxSegSize w) (fw_minIndex w) (fw_maxIndex w)).

(** *** Checkpoint *)

Definition canDeleteSegment (d : Dir) (segmentIndex checkpointHeight : Z) : res bool :=
  match (if f_open fl then None else dir_segs d !! segmentIndex) with
  | None => Err (os_error "open")
  | Some f =>
      let '(msgs, stop) := read_segment (wf_data f) in
      match stop with
      | Err e =>
          if! negb (bool_decide (e = io_EOF)) return Err e in
          Ret (foldl (fun m msg => Z.max m (msg_Height msg)) 0 msgs <=? checkpointHeight)
      | Ret _ => Ret true
      | Panic m => Panic m
      end
  end.

(** How many of the segments [idx, ..., idx + n - 1] can go. *)
Fixpoint deletable (n : nat) (idx checkpointHeight : Z) (d : Dir) : nat :=
  match n with
  | O => O
  | S n => match canDeleteSegment d idx checkpointHeight with
           | Ret true => S (deletable n (idx + 1) checkpointHeight d)
           | _ => O
           end
  end.

(** Deletes [n] segments from [idx] on, with their heights in the index. *)
Fixpoint delete_segments (n : nat) (idx : Z) : WM unit :=
  match n with
  | O => wret tt
  | S n =>
      let~ d := wdir in
      if! f_remove fl && bool_decide (is_Some (dir_segs d !! idx))
        return werr (wrapf (os_error "remove") "failed to delete segment %d: %w") in
      wput_dir (fun d => mkDir (dir_legacy d) (delete idx (dir_segs d))) >>
      wput (fun w => with_heightIndex (filter (fun kv => kv.2 <> idx) (fw_heightIndex w)) w) >>
      delete_segments n (idx + 1)
  end.

Definition Checkpoint (checkpointHeight : Z) : WM unit :=
  let~ w := wget in
  if! negb (fw_started w) return werr ErrWALClosed in
  let~ d := wdir in
  let n := deletable (Z.to_nat (fw_maxIndex w - fw_minIndex w)) (fw_minIndex w) checkpointHeight d in
  delete_segments n (fw_minIndex w) >>
  wput (fun w => with_group (fw_minIndex w + Z.of_nat n) (fw_maxIndex w) w).

Definition SegmentCount (w : FileWAL) : Z := fw_maxIndex w - fw_minIndex w + 1.
Definition CurrentSegmentSize (w : FileWAL) : Z := fw_segmentSize w.
End Operations.

(** ** Reading a log from the beginning *)

Definition findSegments (fl : faults) (d : Dir) : list Z :=
  if f_readdir fl then [] else merge_sort Z.le (indices_of d).

(** [mr_reader]: the rest of the open segment. *)
Record multiSegmentReader := mkMultiSegmentReader {
  mr_segments : list Z;
  mr_reader : option bytes }.

Inductive dir_reader :=
| Single (b : bytes)
| Multi (r : multiSegmentReader).

Definition OpenWALForReading (fl : faults) (d : Dir) : res dir_reader :=
  match (if f_stat fl then None else dir_legacy d) with
  | Some f => if f_open fl then Err (os_error "open") else Ret (Single (wf_data f))
  | None =>
      match findSegments fl d with
      | [] => Err ErrWALNotFound
      | segments => Ret (Multi (mkMultiSegmentReader segments None))
      end
  end.

Section Reading.
Context `{WalCodec}.
Variable fl : faults.

(** [Read]: moves on to the next segment at the end of one. *)
Fixpoint multi_Read (d : Dir) (segments : list Z) : multiSegmentReader * res Message :=
  match segments with
  | [] => (mkMultiSegmentReader [] None, Err io_EOF)
  | idx :: segments =>
      match (if f_open fl then None else dir_segs d !! idx) with
      | None => (mkMultiSegmentReader segments None, Err (os_error "open"))
      | Some f =>
          match Decode (wf_data f) with
          | (b, Ret msg) => (mkMultiSegmentReader segments (Some b), Ret msg)
          | (_, Err e) =>
              if bool_decide (e = io_EOF) then multi_Read d segments
              else (mkMultiSegmentReader segments None, Err e)
          | (_, Panic m) => (mkMultiSegmentReader segments None, Panic m)
          end
      end
  end.

Definition multiSegmentReader_Read (d : Dir) (r : multiSegmentReader) : multiSegmentReader * res Message :=
  match mr_reader r with
  | None => multi_Read d (mr_segments r)
  | Some b =>
      match Decode b with
      | (b, Ret msg) => (mkMultiSegmentReader (mr_segments r) (Some b), Ret msg)
      | (_, Err e) =>
          if bool_decide (e = io_EOF) then multi_Read d (mr_segments r)
          else (mkMultiSegmentReader (mr_segments r) None, Err e)
      | (_, Panic m) => (mkMultiSegmentReader (mr_segments r) None, Panic m)
      end
  end.

Definition dir_Read (d : Dir) (r : dir_reader) : dir_reader * res Message :=
  match r with
  | Single b => let '(b, m) := Decode b in (Single b, m)
  | Multi r => let '(r, m) := multiSegmentReader_Read d r in (Multi r, m)
  end.

(** All messages a reader returns before the first error, which comes along. *)
Fixpoint read_until (fuel : nat) (d : Dir) (r : dir_reader) : list Message * res unit :=
  match fuel with
  | O => ([], Panic "out of fuel")
  | S fuel =>
      match dir_Read d r with
      | (r, Ret msg) => let '(l, e) := read_until fuel d r in (msg :: l, e)
      | (_, Err e) => ([], Err e)
      | (_, Panic m) => ([], Panic m)
      end
  end.
End Reading.

(** ** A crash

    Each file keeps its durable prefix, and of the rest a prefix of any length. The name of a
    segment may be lost with the file: the log syncs its files, but never the directory in which
    it has created them. *)

Definition crash_file (keep : nat) (f : WFile) : WFile :=
  let data := take (wf_synced f + keep) (wf_data f) in mkWFile data (length data).

Definition crash (keep : Z -> nat) (lost : Z -> bool) (d : Dir) : Dir :=
  mkDir (crash_file 0 <$> dir_legacy d)
        (map_imap (fun idx f => if lost idx then None else Some (crash_file (keep idx) f)) (dir_segs d)).

(** [FileWAL] is a log. Readers look at the directory of their time. *)
#[export] Instance FileWAL_WAL `{WalCodec} (fl : faults) : WAL (FileWAL * Dir) := {|
  wal_Write := FileWAL_Write fl;
  wal_WriteSync := FileWAL_WriteSync fl;
  wal_FlushAndSync := FlushAndSync fl;
  wal_Reader := bytes;
  wal_SearchForEndHeight := SearchForEndHeight fl;
  reader_Read := Decode;
  wal_Start := FileWAL_Start fl;
  wal_Stop := FileWAL_Stop fl;
  wal_Group := fun s => FileWAL_Group s.1 |}.
