(* ===== verification/WalCodec.v ===== *)
(** * Records of the write-ahead log

    What the decoder makes of whole records, of records that are too large, and of a log that
    ends in the middle of a record. *)

From S2P Require Export FileWal.

(** ** Integers *)

Lemma PutUint32_length z : length (PutUint32 z) = 4%nat.
Proof. done. Qed.

Lemma Uint32_PutUint32 z rest : 0 <= z < 2 ^ 32 -> Uint32 (PutUint32 z ++ rest) = z.
Proof.
  intros Hz. unfold Uint32, PutUint32. cbn [app take foldl]. rewrite take_0. cbn [foldl]. rewrite !byte_val_of_Z, !Z.shiftr_div_pow2 by lia.
  change (2 ^ 32) with (256 * 256 * 256 * 256) in Hz.
  replace (z / 2 ^ 24) with (z / 256 / 256 / 256) by (rewrite !Z.div_div by lia; done).
  replace (z / 2 ^ 16) with (z / 256 / 256) by (rewrite Z.div_div by lia; done). change (2 ^ 8) with 256.
  pose proof (Z.div_mod z 256 ltac:(lia)). pose proof (Z.div_mod (z / 256) 256 ltac:(lia)).
  pose proof (Z.div_mod (z / 256 / 256) 256 ltac:(lia)).
  rewrite (Z.mod_small (z / 256 / 256 / 256)); [lia|]. rewrite !Z.div_div by lia.
  split; [apply Z.div_pos; lia|]. apply Z.div_lt_upper_bound; lia.
Qed.

Lemma Uint32_range b : 0 <= Uint32 b < 2 ^ 32.
Proof.
  unfold Uint32. destruct b as [|a [|b [|c [|d b']]]]; cbn [take foldl]; try rewrite take_0; cbn [foldl]; try done;
    repeat match goal with |- context [byte_val ?x] => pose proof (byte_val_range x); generalize dependent (byte_val x); intros end;
    change (2 ^ 32) with 4294967296; lia.
Qed.

(** Bit operations on values below [2^32]. *)
Definition in_u32 (z : Z) : Prop := 0 <= z < 2 ^ 32.

Lemma in_u32_bits z : 0 <= z -> in_u32 z <-> forall i, 32 <= i -> Z.testbit z i = false.
Proof.
  intros Hz. split.
  - intros [_ Hlt] i Hi. destruct (Z.eq_dec z 0) as [->|]; [apply Z.bits_0|].
    apply Z.bits_above_log2; [done|]. apply Z.log2_lt_pow2 in Hlt; lia.
  - intros Hb. split; [done|]. destruct (Z.ltb_spec z (2 ^ 32)) as [|Hge]; [done|].
    assert (Hl : 32 <= Z.log2 z) by (apply Z.log2_le_pow2; lia).
    specialize (Hb _ Hl). rewrite Z.bit_log2 in Hb by lia. done.
Qed.

Lemma in_u32_lxor a b : in_u32 a -> in_u32 b -> in_u32 (Z.lxor a b).
Proof.
  intros Ha Hb. assert (0 <= Z.lxor a b) by (apply Z.lxor_nonneg; destruct Ha, Hb; lia).
  apply in_u32_bits; [done|]. intros i Hi. rewrite Z.lxor_spec.
  destruct Ha as [Ha0 Ha], Hb as [Hb0 Hb].
  rewrite (proj1 (in_u32_bits a Ha0) (conj Ha0 Ha) i Hi), (proj1 (in_u32_bits b Hb0) (conj Hb0 Hb) i Hi). done.
Qed.

Lemma in_u32_shiftr a : in_u32 a -> in_u32 (Z.shiftr a 1).
Proof. unfold in_u32. rewrite Z.shiftr_div_pow2 by lia. intros. Z.to_euclidean_division_equations. lia. Qed.

Lemma crc32_range data : in_u32 (crc32_ChecksumIEEE data).
Proof.
  assert (Hbit : forall c, in_u32 c -> in_u32 (crc_bit c)).
  { intros c Hc. unfold crc_bit. destruct (Z.testbit c 0); [|by apply in_u32_shiftr].
    apply in_u32_lxor; [by apply in_u32_shiftr|done]. }
  assert (Hiter : forall n c, in_u32 c -> in_u32 (Nat.iter n crc_bit c)) by (intros n c Hc; induction n; [done|by apply Hbit]).
  unfold crc32_ChecksumIEEE. apply in_u32_lxor; [|done].
  assert (H0 : in_u32 0xFFFFFFFF) by done. revert H0. generalize 0xFFFFFFFF.
  induction data as [|b data IH]; intros c Hc; [done|]. cbn. apply IH. unfold crc_byte. apply (Hiter 8%nat).
  apply in_u32_lxor; [done|]. pose proof (byte_val_range b). unfold in_u32. lia.
Qed.

(** ** Reading *)

Lemma io_ReadFull_app n b rest : length b = n -> io_ReadFull n (b ++ rest) = (rest, Ret b).
Proof.
  intros <-. unfold io_ReadFull. rewrite length_app.
  destruct (Nat.leb_spec (length b) (length b + length rest)); [|lia]. by rewrite drop_app_length, take_app_length.
Qed.

Lemma io_ReadFull_short n b :
  (length b < n)%nat -> exists e, io_ReadFull n b = ([], Err e) /\ (e = io_EOF \/ e = io_ErrUnexpectedEOF).
Proof.
  intros Hl. unfold io_ReadFull. destruct (Nat.leb_spec n (length b)); [lia|]. eexists. split; [done|].
  case_bool_decide; auto.
Qed.

Lemma record_length data : length (record data) = (8 + length data)%nat.
Proof. unfold record. rewrite !length_app. cbn. lia. Qed.

Lemma record_app data rest :
  record data ++ rest = PutUint32 (u32 (len data)) ++ data ++ PutUint32 (crc32_ChecksumIEEE data) ++ rest.
Proof. unfold record. by rewrite <- !app_assoc. Qed.

Lemma maxMsgSize_u32 n : 0 <= n < 2 ^ 32 -> u32 n = n.
Proof. intros. unfold u32. by rewrite Z.mod_small. Qed.

Section Records.
Context `{WalCodec}.

Lemma Decode_record data rest :
  len data < maxMsgSize -> Decode (record data ++ rest) = (rest, unmarshal_Walmessage data).
Proof.
  intros Hl. rewrite record_app. unfold Decode.
  rewrite (io_ReadFull_app 4 (PutUint32 _)) by done.
  assert (Hr : 0 <= len data < 2 ^ 32) by (unfold maxMsgSize, len in *; lia).
  rewrite maxMsgSize_u32 by done. rewrite <- (app_nil_r (PutUint32 (len data))), Uint32_PutUint32 by done.
  rewrite Z.geb_leb. destruct (Z.leb_spec maxMsgSize (len data)); [lia|].
  rewrite (io_ReadFull_app _ data) by (unfold len; lia). rewrite (io_ReadFull_app 4 (PutUint32 _)) by done.
  rewrite <- (app_nil_r (PutUint32 (crc32_ChecksumIEEE data))), Uint32_PutUint32 by apply crc32_range.
  by rewrite Z.eqb_refl.
Qed.

Lemma Decode_oversize data rest :
  maxMsgSize <= len data < 2 ^ 32 ->
  exists b, Decode (record data ++ rest) = (b, Err (wrapf ErrWALCorrupted "%w: message size %d >= max %d")).
Proof.
  intros Hl. rewrite record_app. unfold Decode. rewrite (io_ReadFull_app 4 (PutUint32 _)) by done.
  assert (Hr : 0 <= len data < 2 ^ 32) by (unfold len in *; lia).
  rewrite maxMsgSize_u32 by done. rewrite <- (app_nil_r (PutUint32 (len data))), Uint32_PutUint32 by done.
  rewrite Z.geb_leb. destruct (Z.leb_spec maxMsgSize (len data)); [|lia]. by eexists.
Qed.

(** With too few bytes behind a header, the decoder reports the end of the file. *)
Lemma Decode_short (data y : bytes) :
  len data < maxMsgSize -> (length y < length data + 4)%nat ->
  exists b e, Decode (PutUint32 (u32 (len data)) ++ y) = (b, Err e) /\ (e = io_EOF \/ e = io_ErrUnexpectedEOF).
Proof.
  intros Hl Hy. assert (Hr : 0 <= len data < 2 ^ 32) by (unfold maxMsgSize, len in *; lia).
  unfold Decode. rewrite (io_ReadFull_app 4 (PutUint32 _)) by done.
  rewrite maxMsgSize_u32 by done. rewrite <- (app_nil_r (PutUint32 (len data))), Uint32_PutUint32 by done.
  rewrite Z.geb_leb. destruct (Z.leb_spec maxMsgSize (len data)); [lia|].
  destruct (Nat.ltb_spec (length y) (length data)) as [Hlt|Hge].
  { destruct (io_ReadFull_short (Z.to_nat (len data)) y) as (e & -> & He); [unfold len; lia|]. eauto. }
  rewrite <- (take_drop (length data) y), (io_ReadFull_app _ (take (length data) y))
    by (rewrite length_take; unfold len; lia).
  destruct (io_ReadFull_short 4 (drop (length data) y)) as (e & -> & He); [rewrite length_drop; lia|]. eauto.
Qed.

(** The end of the bytes within a record is an end of file, never a message. *)
Lemma Decode_torn data n :
  len data < maxMsgSize -> (n < length (record data))%nat ->
  exists b e, Decode (take n (record data)) = (b, Err e) /\ (e = io_EOF \/ e = io_ErrUnexpectedEOF).
Proof.
  intros Hl Hn. pose proof Hn as Hn'. rewrite record_length in Hn'. destruct (Nat.ltb_spec n 4) as [Hlt|Hge].
  - unfold Decode. destruct (io_ReadFull_short 4 (take n (record data))) as (e & -> & He); [rewrite length_take; lia|]. eauto.
  - unfold record. rewrite take_app, PutUint32_length, (take_ge (PutUint32 _)) by (cbn; lia). apply Decode_short; [done|].
    rewrite length_take, length_app. cbn. lia.
Qed.

(** ** Messages *)

(** [data] is the encoding of a message that the decoder accepts. *)
Definition encodes (msg : Message) (data : bytes) : Prop :=
  marshal_Walmessage msg = Ret data /\ unmarshal_Walmessage data = Ret msg /\ len data < maxMsgSize.

Definition storable (msg : Message) : Prop := exists data, encodes msg data.

(** The record of a message. *)
Definition rec_of (msg : Message) : bytes :=
  match marshal_Walmessage msg with Ret data => record data | _ => [] end.

Definition recs (msgs : list Message) : bytes := concat (rec_of <$> msgs).

Lemma recs_app l k : recs (l ++ k) = recs l ++ recs k.
Proof. unfold recs. by rewrite fmap_app, concat_app. Qed.

Lemma recs_snoc l m : recs (l ++ [m]) = recs l ++ rec_of m.
Proof. rewrite recs_app. unfold recs. cbn. by rewrite app_nil_r. Qed.

Lemma recs_cons m l : recs (m :: l) = rec_of m ++ recs l.
Proof. done. Qed.

Lemma rec_of_encodes msg data : encodes msg data -> rec_of msg = record data.
Proof. intros (E & _). unfold rec_of. by rewrite E. Qed.

Lemma Decode_rec msg rest : storable msg -> Decode (rec_of msg ++ rest) = (rest, Ret msg).
Proof.
  intros [data Hd]. rewrite (rec_of_encodes _ _ Hd). destruct Hd as (_ & Hu & Hl). by rewrite Decode_record, Hu.
Qed.

Lemma Decode_rec_torn msg n :
  storable msg -> (n < length (rec_of msg))%nat ->
  exists b e, Decode (take n (rec_of msg)) = (b, Err e) /\ (e = io_EOF \/ e = io_ErrUnexpectedEOF).
Proof. intros [data Hd]. rewrite (rec_of_encodes _ _ Hd). destruct Hd as (_ & _ & Hl). by apply Decode_torn. Qed.

Lemma rec_of_length msg : storable msg -> (8 <= length (rec_of msg))%nat.
Proof. intros [data Hd]. rewrite (rec_of_encodes _ _ Hd), record_length. lia. Qed.

Lemma recs_length msgs : Forall storable msgs -> (length msgs <= length (recs msgs))%nat.
Proof.
  induction 1 as [|m msgs Hm _ IH]; [done|]. rewrite recs_cons, length_app. cbn [length].
  pose proof (rec_of_length m Hm). lia.
Qed.

Definition is_end (e : res unit) : Prop := e = Err io_EOF \/ e = Err io_ErrUnexpectedEOF.

(** ** Whole segments *)

Lemma decode_all_app fuel msgs b :
  Forall storable msgs -> (length msgs <= fuel)%nat ->
  decode_all fuel (recs msgs ++ b) =
    (msgs ++ (decode_all (fuel - length msgs) b).1, (decode_all (fuel - length msgs) b).2).
Proof.
  intros Hm. revert fuel. induction Hm as [|m msgs Hm _ IH]; intros fuel Hf.
  { cbn. rewrite Nat.sub_0_r. by destruct (decode_all fuel b). }
  destruct fuel as [|fuel]; [cbn in Hf; lia|]. cbn [length] in Hf. rewrite recs_cons, <- app_assoc. cbn [decode_all].
  rewrite Decode_rec by done. rewrite IH by lia. done.
Qed.

(** A part of a sequence of records: the records that are whole are read. *)
Lemma decode_all_prefix msgs n fuel :
  Forall storable msgs -> (length msgs < fuel)%nat ->
  exists j e, decode_all fuel (take n (recs msgs)) = (take j msgs, e) /\ is_end e /\
    (forall i, (i <= length msgs)%nat -> (length (recs (take i msgs)) <= n)%nat -> (i <= j)%nat) /\
    (j <= length msgs)%nat.
Proof.
  intros Hm. revert n fuel. induction Hm as [|m msgs Hm Hms IH]; intros n fuel Hf.
  { exists 0%nat, (Err io_EOF). destruct fuel; [lia|]. split_and!; [change (recs []) with (@nil byte); by rewrite take_nil|by left| |done].
    intros i Hi _. done. }
  destruct fuel as [|fuel]; [lia|]. cbn [length] in Hf. rewrite recs_cons, take_app.
  destruct (Nat.ltb_spec n (length (rec_of m))) as [Hlt|Hge].
  - replace (n - length (rec_of m))%nat with 0%nat by lia. rewrite take_0, app_nil_r.
    destruct (Decode_rec_torn m n Hm Hlt) as (b & e & Hd & He). exists 0%nat, (Err e).
    split_and!; [cbn [decode_all take]; by rewrite Hd|destruct He; subst; [by left|by right]| |lia].
    intros [|i] Hi Hr; [lia|]. cbn [take] in Hr. rewrite recs_cons, length_app in Hr. lia.
  - rewrite (take_ge (rec_of m)) by lia. cbn [decode_all]. rewrite Decode_rec by done.
    destruct (IH (n - length (rec_of m))%nat fuel) as (j & e & Hd & He & Hj & Hle); [lia|].
    rewrite Hd. exists (S j), e. split_and!; [done|done| |cbn; lia].
    intros [|i] Hi Hr; [lia|]. cbn [take length] in *. rewrite recs_cons, length_app in Hr.
    specialize (Hj i ltac:(lia) ltac:(lia)). lia.
Qed.

Lemma decode_all_records msgs fuel :
  Forall storable msgs -> (length msgs < fuel)%nat -> decode_all fuel (recs msgs) = (msgs, Err io_EOF).
Proof.
  intros Hm Hf. rewrite <- (app_nil_r (recs msgs)), decode_all_app by (done || lia).
  destruct (fuel - length msgs)%nat eqn:E; [lia|]. cbn. by rewrite app_nil_r.
Qed.

Lemma read_segment_records msgs : Forall storable msgs -> read_segment (recs msgs) = (msgs, Err io_EOF).
Proof. intros Hm. apply decode_all_records; [done|]. pose proof (recs_length msgs Hm). lia. Qed.
End Records.
