(* ===== verification/WalLog.v ===== *)
(** * What the write-ahead log keeps

    The bytes of the current segment as one stream, the log as a sequence of segments of
    messages, and what a reader finds after a crash. *)

From S2P Require Export WalCodec.

(** ** Triples for the operations of the log *)

Definition wtriple {A} (P : FileWAL * Dir -> Prop) (m : WM A) (Q : res A -> FileWAL * Dir -> Prop) : Prop :=
  forall s, P s -> Q (m s).2 (m s).1.

Lemma wtriple_bind {A B} P R Q (m : WM A) (k : A -> WM B) :
  wtriple P m R -> (forall a, wtriple (R (Ret a)) (k a) Q) ->
  (forall e s, R (Err e) s -> Q (Err e) s) -> (forall msg s, R (Panic msg) s -> Q (Panic msg) s) ->
  wtriple P (wbind m k) Q.
Proof.
  intros Hm Hk He Hp s Hs. specialize (Hm s Hs). unfold wbind.
  destruct (m s) as [s' [a|e|msg]]; cbn in *; [by apply Hk|by apply He|by apply Hp].
Qed.

Lemma wbind_Ret {A B} (m : WM A) (k : A -> WM B) s s' a : m s = (s', Ret a) -> wbind m k s = k a s'.
Proof. intros E. unfold wbind. by rewrite E. Qed.

Lemma wtriple_get {B} P Q (k : FileWAL -> WM B) :
  (forall w, wtriple (fun s => P s /\ s.1 = w) (k w) Q) -> wtriple P (wbind wget k) Q.
Proof. intros Hk [w d] Hs. by apply (Hk w). Qed.

Lemma wtriple_dir {B} P Q (k : Dir -> WM B) :
  (forall d, wtriple (fun s => P s /\ s.2 = d) (k d) Q) -> wtriple P (wbind wdir k) Q.
Proof. intros Hk [w d] Hs. by apply (Hk d). Qed.

Lemma wtriple_put {B} P Q f (k : WM B) :
  wtriple (fun s => exists w, s.1 = f w /\ P (w, s.2)) k Q -> wtriple P (wput f >> k) Q.
Proof. intros Hk [w d] Hs. apply (Hk (f w, d)). by exists w. Qed.

Lemma wtriple_put_dir {B} P Q f (k : WM B) :
  wtriple (fun s => exists d, s.2 = f d /\ P (s.1, d)) k Q -> wtriple P (wput_dir f >> k) Q.
Proof. intros Hk [w d] Hs. apply (Hk (w, f d)). by exists d. Qed.

Lemma wtriple_put_last P Q f :
  (forall w d, P (w, d) -> Q (Ret tt) (f w, d)) -> wtriple P (wput f) Q.
Proof. intros HQ [w d] Hs. by apply HQ. Qed.

Lemma wtriple_err {A} P (Q : res A -> _) e : (forall s, P s -> Q (Err e) s) -> wtriple P (werr e) Q.
Proof. intros HQ s Hs. by apply HQ. Qed.

Lemma wtriple_ret {A} P (Q : res A -> _) a : (forall s, P s -> Q (Ret a) s) -> wtriple P (wret a) Q.
Proof. intros HQ s Hs. by apply HQ. Qed.

Lemma wtriple_wrap {A} P Q (m : WM A) f :
  wtriple P m Q -> (forall e s, Q (Err e) s -> Q (Err (f e)) s) -> wtriple P (wwrap m f) Q.
Proof.
  intros Hm He s Hs. specialize (Hm s Hs). unfold wwrap. destruct (m s) as [s' [a|e|msg]]; cbn in *; auto.
Qed.

Lemma wtriple_weaken {A} P P' Q Q' (m : WM A) :
  wtriple P' m Q' -> (forall s, P s -> P' s) -> (forall r s, Q' r s -> Q r s) -> wtriple P m Q.
Proof. intros Hm HP HQ s Hs. apply HQ, Hm, HP, Hs. Qed.

(** What holds in all states before the operation. *)
Lemma wtriple_pure {A} (phi : Prop) P (m : WM A) Q :
  (forall s, P s -> phi) -> (phi -> wtriple P m Q) -> wtriple P m Q.
Proof. intros Hphi Hm s Hs. exact (Hm (Hphi s Hs) s Hs). Qed.

(** ** The current segment as a stream of bytes *)

(** The stream is what is in the file and then in the buffer; after an error the file has some
    prefix of it. At least [k] bytes are durable. *)
Record Stream (lo hi : Z) (others : gmap Z WFile) (b : bytes) (k : nat) (s : FileWAL * Dir) : Prop := mkStream {
  st_min : fw_minIndex s.1 = lo;
  st_max : fw_maxIndex s.1 = hi;
  st_cur : fw_segmentIndex s.1 = hi;
  st_file : exists f, s.2 = mkDir None (<[hi := f]> others) /\
    (k <= wf_synced f <= length (wf_data f))%nat /\
    match fw_err s.1 with
    | None => wf_data f ++ fw_buf s.1 = b
    | Some _ => wf_data f `prefix_of` b
    end }.

Section Stream.
Context `{WalCodec}.
Variable fl : faults.
Implicit Types (lo hi : Z) (others : gmap Z WFile) (b p : bytes).

Lemma Stream_grow lo hi others b p k s e :
  Stream lo hi others b k s -> fw_err s.1 = Some e -> Stream lo hi others (b ++ p) k s.
Proof.
  intros [? ? ? (f & Hd & Hk & Hb)] E. split; [done..|]. exists f. split_and!; [done|lia|lia|].
  rewrite E in *. by apply prefix_app_r.
Qed.

Lemma update_cur hi others f g :
  update_seg g hi (mkDir None (<[hi := f]> others)) = mkDir None (<[hi := g f]> others).
Proof. unfold update_seg. cbn. f_equal. rewrite alter_insert_eq. done. Qed.

(** [file_Write] appends a part of the bytes, all of them if it succeeds. *)
Lemma file_Write_spec lo hi others f k w p :
  fw_segmentIndex w = hi -> (k <= wf_synced f <= length (wf_data f))%nat ->
  exists q rest err, file_Write fl p (w, mkDir None (<[hi := f]> others)) =
    ((w, mkDir None (<[hi := append_data q f]> others)), Ret (rest, err)) /\
    p = q ++ rest /\ (err = None -> rest = []).
Proof.
  intros Hi Hk. unfold file_Write, wbind, wget, wret, wput_dir. cbn.
  destruct (fw_closed w).
  - exists [], p, (Some (os_error "file already closed")). split_and!; [|done|done].
    unfold append_data. rewrite app_nil_r. by destruct f.
  - destruct (f_write fl) as [n|]; cbn; rewrite Hi, update_cur.
    + exists (take n p), (drop n p), (Some (os_error "write")). by rewrite take_drop.
    + exists p, [], None. by rewrite app_nil_r.
Qed.

(** The result of an operation on the stream: a failure leaves the error behind. *)
Definition stream_post {A} lo hi others b k (r : res A) (s : FileWAL * Dir) : Prop :=
  Stream lo hi others b k s /\ (if is_Ret r then fw_err s.1 = None else exists e, fw_err s.1 = Some e).

Lemma buf_Flush_spec lo hi others b k :
  wtriple (Stream lo hi others b k) (buf_Flush fl)
    (fun r s => stream_post lo hi others b k r s /\ (is_Ret r = true -> fw_buf s.1 = [])).
Proof.
  apply wtriple_get. intros w. destruct (fw_err w) as [e|] eqn:He.
  { apply wtriple_err. intros s [Hs <-]. split; [|done]. split; [done|by exists e]. }
  case_bool_decide as Hbuf.
  { apply wtriple_ret. by intros s [Hs <-]. }
  intros [w0 d] [[Hmin Hmax Hcur (f & Hd & Hk & Hb)] <-]. cbn in *. subst d. rewrite He in Hb. rename w0 into w.
  destruct (file_Write_spec lo hi others f k w (fw_buf w) Hcur Hk) as (q & rest & err & E & Hq & Hr).
  rewrite (wbind_Ret _ _ _ _ _ E). unfold wbind, wput. cbn.
  assert (HS : Stream lo hi others b k (with_writer rest err w, mkDir None (<[hi:=append_data q f]> others))).
  { split; [done..|]. exists (append_data q f). cbn. rewrite length_app. split_and!; [done|lia|lia|].
    destruct err.
    - rewrite <- Hb, Hq. apply prefix_app, prefix_app_r. done.
    - rewrite Hr, app_nil_r by done. by rewrite <- Hb, Hq, Hr, app_nil_r. }
  destruct err as [e|]; split; [split; [done|by exists e]|done|done|cbn; auto].
Qed.

Lemma buf_Write_direct_spec lo hi others b k p :
  wtriple (fun s => Stream lo hi others b k s /\ fw_err s.1 = None /\ fw_buf s.1 = []) (buf_Write_direct fl p)
    (stream_post lo hi others (b ++ p) k).
Proof.
  intros [w d] [[Hmin Hmax Hcur (f & Hd & Hk & Hb)] [He Hbuf]]. cbn in *. subst d. rewrite He, Hbuf, app_nil_r in Hb.
  unfold buf_Write_direct.
  destruct (file_Write_spec lo hi others f k w p Hcur Hk) as (q & rest & err & E & Hq & Hr).
  rewrite (wbind_Ret _ _ _ _ _ E). unfold wbind, wput. cbn.
  assert (HS : Stream lo hi others (b ++ p) k (with_writer [] err w, mkDir None (<[hi:=append_data q f]> others))).
  { split; [done..|]. exists (append_data q f). cbn. rewrite length_app. split_and!; [done|lia|lia|].
    rewrite Hb, Hq. destruct err; [apply prefix_app, prefix_app_r; done|]. by rewrite Hr, !app_nil_r. }
  destruct err as [e|]; (split; [done|]); [by exists e|done].
Qed.

Lemma Stream_buffer lo hi others b k w d p :
  Stream lo hi others b k (w, d) -> fw_err w = None ->
  Stream lo hi others (b ++ p) k (with_writer (fw_buf w ++ p) None w, d).
Proof.
  intros [? ? ? (f & Hd & Hk & Hb)] He. cbn in *. rewrite He in Hb. split; [done..|]. exists f.
  split_and!; [done|lia|lia|]. cbn. by rewrite app_assoc, Hb.
Qed.

Lemma buf_Write_spec lo hi others b k p :
  wtriple (Stream lo hi others b k) (buf_Write fl p) (stream_post lo hi others (b ++ p) k).
Proof.
  apply wtriple_get. intros w. destruct (fw_err w) as [e|] eqn:He.
  { apply wtriple_err. intros s [Hs <-]. split; [by eapply Stream_grow|cbn; eauto]. }
  cbv zeta. destruct (Z.leb_spec (len p) (defaultBufSize - len (fw_buf w))).
  { apply wtriple_put_last. intros w0 d [Hs E]. cbn in E. subst w0. split; [by apply Stream_buffer|done]. }
  case_bool_decide as Hbuf.
  { eapply wtriple_weaken; [apply buf_Write_direct_spec| |done]. intros s [Hs <-]. done. }
  set (n := Z.to_nat (defaultBufSize - len (fw_buf w))).
  rewrite <- (take_drop n p) at 2. rewrite app_assoc.
  apply (wtriple_bind _ (fun r s => r = Ret tt /\ Stream lo hi others (b ++ take n p) k s)).
  { apply wtriple_put_last. intros w0 d [Hs E]. cbn in E. subst w0. split; [done|by apply Stream_buffer]. }
  2-3: intros ? ? [? _]; done.
  intros []. eapply wtriple_bind; [eapply wtriple_weaken; [apply (buf_Flush_spec lo hi others (b ++ take n p) k)| |]| | |].
  { intros s [_ Hs]. exact Hs. } { intros r s Hs. exact Hs. }
  2-3: intros ? ? [[? [e' ?]] _]; split; [by eapply Stream_grow|by exists e'].
  intros [].
  destruct (Z.leb_spec (len (drop n p)) defaultBufSize).
  - apply wtriple_put_last. intros w1 d [[Hs He'] Hb]. split; [|done].
    pose proof (Stream_buffer _ _ _ _ _ _ _ (drop n p) Hs He') as Hw. cbn in Hb. by rewrite Hb in Hw.
  - eapply wtriple_weaken; [apply buf_Write_direct_spec| |done]. intros s [[Hs He'] Hb]. auto.
Qed.

Lemma stream_post_grow {A B} lo hi others b k p (r : res A) (r' : res B) s :
  stream_post lo hi others b k r s -> is_Ret r = false -> is_Ret r' = false ->
  stream_post lo hi others (b ++ p) k r' s.
Proof.
  intros [Hs Hr] E E'. unfold stream_post. rewrite E', E in *. destruct Hr as [e He].
  split; [by eapply Stream_grow|by exists e].
Qed.

(** A record goes into the stream, or a part of it and an error stays. *)
Lemma Encode_spec lo hi others b k msg data :
  marshal_Walmessage msg = Ret data ->
  wtriple (Stream lo hi others b k) (Encode fl msg) (stream_post lo hi others (b ++ record data) k).
Proof.
  intros Hm. unfold Encode, record. rewrite Hm. cbv zeta. rewrite !app_assoc.
  assert (Hnext : forall A b p q (m : WM A) Q,
    wtriple (Stream lo hi others (b ++ p) k) m Q ->
    (forall r s, is_Ret r = false -> stream_post lo hi others (b ++ p ++ q) k r s -> Q r s) ->
    wtriple (Stream lo hi others b k) (buf_Write fl p >> m) Q).
  { intros A b0 p q m Q Hk HQ. eapply wtriple_bind; [apply buf_Write_spec| | |].
    - intros []. eapply wtriple_weaken; [exact Hk| |done]. by intros s [? _].
    - intros e s Hs. apply HQ; [done|]. rewrite app_assoc. by eapply stream_post_grow.
    - intros msg0 s Hs. apply HQ; [done|]. rewrite app_assoc. by eapply stream_post_grow. }
  set (q1 := PutUint32 (u32 (len data))). set (q3 := PutUint32 (crc32_ChecksumIEEE data)).
  apply (Hnext _ _ _ (data ++ q3)); [|by intros; rewrite !app_assoc in *].
  apply (Hnext _ _ _ q3); [|by intros; rewrite !app_assoc in *].
  eapply wtriple_bind; [apply buf_Write_spec| | |].
  - intros []. by apply wtriple_ret.
  - done.
  - done.
Qed.

Lemma Encode_sticky msg w d e :
  fw_err w = Some e -> (Encode fl msg (w, d)).1 = (w, d) /\ is_Ret (Encode fl msg (w, d)).2 = false.
Proof.
  intros He. unfold Encode. destruct (marshal_Walmessage msg); [|done|done].
  unfold buf_Write at 1 3, wbind, wget. cbn. by rewrite He.
Qed.

Lemma file_Sync_spec lo hi others b k :
  wtriple (Stream lo hi others b k) (file_Sync fl) (fun _ s => Stream lo hi others b k s).
Proof.
  apply wtriple_get. intros w. destruct (fw_closed w); [apply wtriple_err; by intros s [? _]|].
  destruct (f_sync fl); [apply wtriple_err; by intros s [? _]|].
  intros [w0 d] [[Hmin Hmax Hcur (f & Hd & Hk & Hb)] <-]. cbn in *. subst d. split; [done..|].
  exists (sync_data f). cbn. rewrite Hcur, update_cur. split_and!; [done|lia|lia|done].
Qed.

(** A successful flush and sync makes the whole stream durable. *)
Lemma flushAndSync_spec lo hi others b k :
  wtriple (Stream lo hi others b k) (flushAndSync fl)
    (fun r s => Stream lo hi others b (if is_Ret r then length b else k) s /\
       (is_Ret r = true -> fw_err s.1 = None /\ fw_buf s.1 = [])).
Proof.
  eapply wtriple_bind; [apply buf_Flush_spec| | |]; [|by intros ?? [[? _] _]|by intros ?? [[? _] _]].
  intros []. apply wtriple_get. intros w. destruct (fw_closed w).
  { apply wtriple_err. by intros s [[[Hs _] _] _]. }
  destruct (f_sync fl).
  { apply wtriple_err. by intros s [[[Hs _] _] _]. }
  intros [w0 d] [[[[Hmin Hmax Hcur (f & Hd & Hk & Hb)] He] Hbuf] <-]. cbn in *. rewrite He, Hbuf, app_nil_r in * by done.
  subst d. split; [|done]. split; [done..|]. exists (sync_data f). cbn. rewrite He, Hcur, update_cur, Hbuf, app_nil_r by done.
  split_and!; [done| |lia|done]. by rewrite Hb.
Qed.
End Stream.

(** ** The log as a sequence of segments *)

(** The other files of the directory: the older segments, which are complete and durable, and
    maybe the next segment, created but still empty. *)
Record Others (lo : Z) (old : list bytes) (others : gmap Z WFile) : Prop := mkOthers {
  ot_old : forall i b, old !! i = Some b -> others !! (lo + Z.of_nat i) = Some (mkWFile b (length b));
  ot_dom : forall idx f, others !! idx = Some f -> idx <> lo + Z.of_nat (length old) ->
    lo <= idx < lo + Z.of_nat (length old) \/ (idx = lo + Z.of_nat (length old) + 1 /\ f = mkWFile [] 0) }.

Lemma Others_insert_next lo old others :
  Others lo old others -> Others lo old (<[lo + Z.of_nat (length old) + 1 := mkWFile [] 0]> others).
Proof.
  intros [Ho Hd]. split.
  - intros i b Hi. rewrite lookup_insert_ne; [by apply Ho|]. apply lookup_lt_Some in Hi. lia.
  - intros idx f Hf Hn. destruct (decide (idx = lo + Z.of_nat (length old) + 1)) as [->|].
    + rewrite lookup_insert_eq in Hf. simplify_eq. by right.
    + rewrite lookup_insert_ne in Hf by done. by apply Hd.
Qed.

Lemma Others_delete_next lo old others :
  Others lo old others -> Others lo old (delete (lo + Z.of_nat (length old) + 1) others).
Proof.
  intros [Ho Hd]. split.
  - intros i b Hi. rewrite lookup_delete_ne; [by apply Ho|]. apply lookup_lt_Some in Hi. lia.
  - intros idx f [_ Hf]%lookup_delete_Some Hn. by apply Hd.
Qed.

Lemma Others_snoc lo old others b :
  Others lo old others ->
  Others lo (old ++ [b]) (<[lo + Z.of_nat (length old) := mkWFile b (length b)]> others).
Proof.
  intros [Ho Hd]. split.
  - intros i b' [Hi|[Hi Hl]]%lookup_app_Some.
    + rewrite lookup_insert_ne; [by apply Ho|]. apply lookup_lt_Some in Hi. lia.
    + apply list_lookup_singleton_Some in Hl as [Hz <-].
      replace i with (length old) by lia. by rewrite lookup_insert_eq.
  - rewrite length_app. cbn [length]. intros idx f Hf Hn.
    destruct (decide (idx = lo + Z.of_nat (length old))) as [->|]; [left; lia|].
    rewrite lookup_insert_ne in Hf by done. destruct (Hd _ _ Hf) as [?|[? ?]]; [done|left; lia|lia].
Qed.

Section LogInv.
Context `{WalCodec}.

(** The log consists of the older segments [old] and the current one, [cur], of which the first
    [k] messages are durable. *)
Record LogInv (old : list (list Message)) (cur : list Message) (k : nat) (s : FileWAL * Dir) : Prop := mkLogInv {
  li_storable : Forall storable (concat old ++ cur);
  li_durable : (k <= length cur)%nat;
  li_stream : exists lo others, 0 <= lo /\ Others lo (recs <$> old) others /\
    Stream lo (lo + Z.of_nat (length old)) others (recs cur) (length (recs (take k cur))) s }.

Lemma recs_take_le k cur : (length (recs (take k cur)) <= length (recs cur))%nat.
Proof. rewrite <- (take_drop k cur) at 2. rewrite recs_app, length_app. lia. Qed.

Lemma Stream_weaken lo hi others b k k' s :
  Stream lo hi others b k s -> (k' <= k)%nat -> Stream lo hi others b k' s.
Proof. intros [? ? ? (f & ? & ? & ?)] Hk. split; [done..|]. exists f. split_and!; [done|lia|lia|done]. Qed.

(** What an operation leaves alone. *)
Lemma LogInv_framed old cur k w w' d :
  LogInv old cur k (w, d) -> fw_minIndex w' = fw_minIndex w -> fw_maxIndex w' = fw_maxIndex w ->
  fw_segmentIndex w' = fw_segmentIndex w -> fw_buf w' = fw_buf w -> fw_err w' = fw_err w ->
  LogInv old cur k (w', d).
Proof.
  intros [Hst Hk (lo & others & Hlo & Ho & [? ? ? (f & Hf & Hs & Hb)])] E1 E2 E3 E4 E5. cbn in *. split; [done..|].
  exists lo, others. split_and!; [done..|]. split; cbn; [congruence..|]. exists f. rewrite E4, E5. done.
Qed.

Variable fl : faults.

Lemma flushAndSync_log old cur k :
  wtriple (LogInv old cur k) (flushAndSync fl)
    (fun r s => LogInv old cur (if is_Ret r then length cur else k) s /\
       (is_Ret r = true -> fw_err s.1 = None /\ fw_buf s.1 = [])).
Proof.
  intros s [Hst Hk (lo & others & Hlo & Ho & HS)].
  pose proof (flushAndSync_spec fl _ _ _ _ _ s HS) as [HS' Hr].
  destruct (flushAndSync fl s) as [s' r]. cbn in *. split; [|done]. split; [done|by case_match|].
  exists lo, others. split_and!; [done..|]. case_match; [|done]. by rewrite take_ge by lia.
Qed.

Lemma create_next lo old others f :
  Others lo old others ->
  exists others', create_seg (lo + Z.of_nat (length old) + 1) (mkDir None (<[lo + Z.of_nat (length old) := f]> others)) =
    mkDir None (<[lo + Z.of_nat (length old) := f]> others') /\ Others lo old others' /\
    others' !! (lo + Z.of_nat (length old) + 1) = Some (mkWFile [] 0).
Proof.
  intros Ho. unfold create_seg. cbn. rewrite lookup_insert_ne by lia.
  destruct (others !! (lo + Z.of_nat (length old) + 1)) as [f'|] eqn:E.
  - exists others. split_and!; [done..|]. destruct (ot_dom _ _ _ Ho _ _ E) as [?|[_ ->]]; [lia|lia|done].
  - eexists. split_and!; [|by apply Others_insert_next|by rewrite lookup_insert_eq].
    f_equal. rewrite insert_insert_ne by lia. done.
Qed.

Lemma LogInv_create old cur k w d :
  LogInv old cur k (w, d) -> LogInv old cur k (w, create_seg (fw_segmentIndex w + 1) d).
Proof.
  intros [Hst Hk (lo & others & Hlo & Ho & [? ? Hcur (f & Hf & Hs & Hb)])]. cbn in *.
  rewrite <- (length_fmap recs old) in *. destruct (create_next lo _ others f Ho) as (others' & Hc & Ho' & _).
  split; [done..|]. exists lo, others'. split_and!; [done..|]. rewrite <- (length_fmap recs old).
  split; [done..|]. exists f. cbn. rewrite Hf, Hcur. done.
Qed.

Lemma LogInv_remove old cur k w d :
  LogInv old cur k (w, d) ->
  LogInv old cur k (w, mkDir (dir_legacy d) (delete (fw_segmentIndex w + 1) (dir_segs d))).
Proof.
  intros [Hst Hk (lo & others & Hlo & Ho & [? ? Hcur (f & Hf & Hs & Hb)])]. cbn in *. subst d.
  pose proof (Others_delete_next _ _ _ Ho) as Ho'. rewrite length_fmap in Ho'.
  split; [done..|]. exists lo, (delete (fw_segmentIndex w + 1) others). rewrite Hcur. split_and!; [done..|].
  split; [done..|]. exists f. cbn. rewrite delete_insert_ne by lia. done.
Qed.

(** The step of a rotation that moves on to the next segment. *)
Lemma LogInv_rotate old cur w d m :
  LogInv old cur (length cur) (w, d) -> fw_err w = None -> fw_buf w = [] ->
  let d' := create_seg (fw_segmentIndex w + 1) d in
  LogInv (old ++ [cur]) [] 0 (with_group (fw_minIndex w) (fw_segmentIndex w + 1)
    (with_segment (fw_segmentIndex w + 1) m (with_closed false (with_writer [] None w))), d').
Proof.
  intros [Hst Hk (lo & others & Hlo & Ho & [? ? Hcur (f & Hf & Hs & Hb)])] He Hbuf. cbn in *.
  rewrite He, Hbuf, app_nil_r in Hb. rewrite take_ge in Hs by done.
  destruct (create_next lo _ others f Ho) as (others' & Hc & Ho' & Hn). rewrite length_fmap in *.
  split; [by rewrite concat_app, !app_nil_r; cbn; rewrite app_nil_r|done|].
  exists lo, (<[lo + Z.of_nat (length old) := f]> others'). split_and!; [done| |].
  - rewrite fmap_app. cbn. rewrite <- (length_fmap recs old). replace f with (mkWFile (recs cur) (length (recs cur))); [by apply Others_snoc|].
    destruct f as [data n]. cbn in *. subst data. f_equal. lia.
  - split; cbn; rewrite ?length_app; cbn [length]; [done|lia|lia|]. exists (mkWFile [] 0). cbn.
    split_and!; [|lia|lia|done]. rewrite Hf, Hcur, Hc. f_equal.
    replace (lo + Z.of_nat (length old + 1)) with (lo + Z.of_nat (length old) + 1) by lia.
    rewrite insert_insert_ne by lia. by rewrite (insert_id others' (lo + Z.of_nat (length old) + 1)).
Qed.

Lemma rotate_log old cur k :
  wtriple (LogInv old cur k) (rotate fl)
    (fun r s => if is_Ret r then LogInv (old ++ [cur]) [] 0 s /\ fw_err s.1 = None else exists k', (k <= k')%nat /\ LogInv old cur k' s).
Proof.
  apply (wtriple_pure (k <= length cur)%nat); [intros s Hs; by apply (li_durable _ _ _ _ Hs)|intros Hle].
  eapply wtriple_bind; [apply flushAndSync_log| | |]; cbn.
  2-3: intros ? ? [Hs _]; by exists k.
  intros []. intros [w d] [Hinv Hclean]. destruct (Hclean eq_refl) as [He Hbuf]. cbn in He, Hbuf.
  pose proof (LogInv_rotate _ _ _ _ (len (seg_data (fw_segmentIndex w + 1) (create_seg (fw_segmentIndex w + 1) d)))
    Hinv He Hbuf) as Hrot.
  pose proof (LogInv_create _ _ _ _ _ Hinv) as Hcre.
  pose proof (LogInv_remove _ _ _ _ _ Hcre) as Hrem. cbn in Hrot, Hrem.
  unfold wbind, wget, wwrap, file_Close, wput, wput_dir, werr, wret, wdir. cbn.
  destruct (f_open fl); cbn; [by exists (length cur)|].
  destruct (f_stat fl); cbn; [destruct (f_remove fl); cbn; by exists (length cur)|].
  unfold wbind, wget, wput. cbn. destruct (fw_closed w); cbn; [by exists (length cur)|].
  destruct (f_close fl); cbn; [exists (length cur); split; [done|]|done].
  by eapply LogInv_framed.
Qed.
End LogInv.

(** ** The log as a sequence of messages

    The log holds [log], and the first [n] messages of it are durable. *)

Section Log.
Context `{WalCodec}.
Variable fl : faults.

Definition Log (log : list Message) (n : nat) (s : FileWAL * Dir) : Prop :=
  exists old cur k, LogInv old cur k s /\ log = concat old ++ cur /\ (n <= length (concat old) + k)%nat.

Lemma Log_weaken log n n' s : Log log n s -> (n' <= n)%nat -> Log log n' s.
Proof. intros (old & cur & k & ? & ? & ?) ?. exists old, cur, k. split_and!; [done..|lia]. Qed.

Lemma Log_framed log n w w' d :
  Log log n (w, d) -> fw_minIndex w' = fw_minIndex w -> fw_maxIndex w' = fw_maxIndex w ->
  fw_segmentIndex w' = fw_segmentIndex w -> fw_buf w' = fw_buf w -> fw_err w' = fw_err w ->
  Log log n (w', d).
Proof. intros (old & cur & k & HL & ? & ?) *. exists old, cur, k. split_and!; [by eapply LogInv_framed|done..]. Qed.

(** Changes of the writer's own bookkeeping. *)
Lemma Log_put log n f :
  (forall w, fw_minIndex (f w) = fw_minIndex w /\ fw_maxIndex (f w) = fw_maxIndex w /\
     fw_segmentIndex (f w) = fw_segmentIndex w /\ fw_buf (f w) = fw_buf w /\ fw_err (f w) = fw_err w) ->
  wtriple (Log log n) (wput f) (fun r s => r = Ret tt /\ Log log n s).
Proof.
  intros Hf. apply wtriple_put_last. intros w d HL. split; [done|].
  destruct (Hf w) as (? & ? & ? & ? & ?). by eapply Log_framed.
Qed.

Lemma pruneHeightIndex_framed w : exists m, pruneHeightIndex w = with_heightIndex m w.
Proof.
  unfold pruneHeightIndex. case_match; [exists (fw_heightIndex w); by destruct w|by eexists].
Qed.

(** The durable part after an operation that syncs. *)
Definition synced (ok : bool) (log : list Message) (n : nat) : nat := if ok then length log else n.

Lemma flushAndSync_Log log n :
  wtriple (Log log n) (flushAndSync fl) (fun r s => Log log (synced (is_Ret r) log n) s).
Proof.
  intros s (old & cur & k & HL & -> & Hn). pose proof (flushAndSync_log fl old cur k s HL) as [HL' _].
  eexists old, cur, _. split_and!; [exact HL'|done|].
  unfold synced. rewrite length_app. by destruct (is_Ret (flushAndSync fl s).2).
Qed.

Lemma rotate_Log log n :
  wtriple (Log log n) (rotate fl) (fun r s => Log log n s).
Proof.
  intros s (old & cur & k & HL & -> & Hn). pose proof (rotate_log fl old cur k s HL) as HL'. cbv beta in HL'.
  destruct (is_Ret (rotate fl s).2); [destruct HL' as [HL' _]|destruct HL' as (k' & Hk' & HL')].
  - exists (old ++ [cur]), [], 0%nat. split_and!; [done|by rewrite concat_app; cbn; rewrite !app_nil_r|].
    pose proof (li_durable _ _ _ _ HL). rewrite concat_app, length_app. cbn. rewrite app_nil_r. lia.
  - exists old, cur, k'. split_and!; [done..|lia].
Qed.

(** Messages that the decoder reads back if they can be encoded at all. *)
Definition logged_msg (msg : Message) : Prop := forall data, marshal_Walmessage msg = Ret data -> encodes msg data.

Lemma Encode_Log log n msg :
  logged_msg msg ->
  wtriple (Log log n) (Encode fl msg)
    (fun r s => Log (log ++ [msg]) n s \/ (is_Ret r = false /\ Log log n s)).
Proof.
  intros Hmsg [w d] (old & cur & k & HL & -> & Hn).
  destruct (marshal_Walmessage msg) as [data|e|m] eqn:E.
  2-3: right; unfold Encode; rewrite E; split; [done|by exists old, cur, k].
  destruct (fw_err w) as [e|] eqn:He.
  { right. destruct (Encode_sticky fl msg w d e He) as [-> Hr]. split; [done|by exists old, cur, k]. }
  left. exists old, (cur ++ [msg]), k. rewrite app_assoc. split_and!; [|done..].
  destruct HL as [Hst Hk (lo & others & Hlo & Ho & HS)]. specialize (Hmsg _ E).
  split; [rewrite app_assoc; apply Forall_app; split; [done|constructor; [by exists data|done]]
         |rewrite length_app; lia|].
  exists lo, others. split_and!; [done..|]. rewrite take_app_le by done. rewrite recs_snoc, (rec_of_encodes _ _ Hmsg).
  by apply Encode_spec.
Qed.

Lemma write_message_Log sync log n msg :
  logged_msg msg ->
  wtriple (Log log n) (write_message fl sync msg) (fun r s =>
    exists log', (log' = log ++ [msg] \/ (is_Ret r = false /\ log' = log)) /\
      Log log' (synced (sync && is_Ret r) log' n) s).
Proof.
  intros Hmsg. apply wtriple_get. intros w.
  assert (Hsame : forall (e : res unit) s, is_Ret e = false -> Log log n s ->
    exists log', (log' = log ++ [msg] \/ (is_Ret e = false /\ log' = log)) /\ Log log' (synced (sync && is_Ret e) log' n) s).
  { intros e s He Hs. exists log. rewrite He, andb_false_r. auto. }
  destruct (negb (fw_started w)).
  { apply wtriple_err. intros s [Hs _]. by apply Hsame. }
  apply (wtriple_bind _ (fun _ => Log log n)); [| |by intros; apply Hsame|by intros; apply Hsame].
  { destruct (_ >=? _); [|apply wtriple_ret; by intros s [? _]]. eapply wtriple_weaken; [apply wtriple_wrap| |].
    - apply (rotate_Log log n). - done. - by intros s [? _]. - done. }
  intros []. eapply wtriple_bind; [by apply Encode_Log| | |].
  2-3: intros ? ? [Hs|[_ Hs]]; [exists (log ++ [msg]); rewrite andb_false_r; auto|by apply Hsame].
  intros a. apply (wtriple_bind _ (fun r s => r = Ret tt /\ Log (log ++ [msg]) n s)); [| |by intros ? ? [? _]|by intros ? ? [? _]].
  { eapply wtriple_weaken; [by apply (Log_put (log ++ [msg]) n)| |done]. by intros s [Hs|[? _]]. }
  intros []. apply (wtriple_bind _ (fun r s => r = Ret tt /\ Log (log ++ [msg]) n s)); [| |by intros ? ? [? _]|by intros ? ? [? _]].
  { destruct (_ =? _); [|apply wtriple_ret; by intros s [_ ?]].
    eapply wtriple_weaken; [apply (Log_put (log ++ [msg]) n)|by intros s [_ Hs]|done].
    intros w0. destruct (pruneHeightIndex_framed (with_heightIndex (<[msg_Height msg := fw_segmentIndex w0]> (fw_heightIndex w0)) w0))
      as [m ->]. done. }
  intros []. destruct sync.
  - eapply wtriple_weaken; [apply (flushAndSync_Log (log ++ [msg]) n)|by intros s [_ Hs]|]. cbn. eauto.
  - apply wtriple_ret. intros s [_ Hs]. exists (log ++ [msg]). auto.
Qed.

Lemma Log_Stream log n {A} (m : WM A) :
  (forall lo hi others b k, wtriple (Stream lo hi others b k) m (fun _ s => Stream lo hi others b k s)) ->
  wtriple (Log log n) m (fun _ s => Log log n s).
Proof.
  intros Hm s (old & cur & k & [? ? (lo & others & ? & ? & HS)] & ? & ?). exists old, cur, k. split_and!; [|done..].
  split; [done..|]. exists lo, others. split_and!; [done..|]. by apply Hm.
Qed.

Lemma file_Close_Log log n : wtriple (Log log n) (file_Close fl) (fun _ s => Log log n s).
Proof.
  apply wtriple_get. intros w. destruct (fw_closed w); [apply wtriple_err; by intros s [? _]|].
  intros [w0 d] [HL <-]. cbn. destruct (f_close fl); cbn; by eapply Log_framed.
Qed.

Lemma Stop_Log log n started :
  wtriple (fun s => Log log n s /\ fw_started s.1 = started) (FileWAL_Stop fl)
    (fun r s => Log log (synced (is_Ret r && started) log n) s).
Proof.
  apply wtriple_get. intros w. destruct (fw_started w) eqn:E; cbn [negb].
  2: { apply wtriple_ret. intros s [[Hs <-] ->]. by rewrite E. }
  eapply wtriple_bind; [eapply wtriple_weaken; [apply (Log_put log n)| |done]| |by intros ? ? [? _]|by intros ? ? [? _]].
  { done. } { by intros s [[Hs _] _]. }
  intros _ s [_ HL]. cbv beta.
  pose proof (flushAndSync_Log log n s HL) as Hfs. unfold flushAndSync, wbind in Hfs.
  pose proof (Log_Stream log n (buf_Flush fl)) as Hf. specialize (Hf ltac:(intros; eapply wtriple_weaken;
    [apply buf_Flush_spec|done|by intros ? ? [[? _] _]]) s HL).
  destruct (buf_Flush fl s) as [s1 r1]. cbn in Hf.
  pose proof (Log_Stream log n (file_Sync fl) (file_Sync_spec fl) s1 Hf) as Hs.
  assert (Hsync : is_Ret r1 = true -> is_Ret (file_Sync fl s1).2 = true -> Log log (length log) (file_Sync fl s1).1).
  { intros E1 E2. destruct r1; try done. by rewrite E2 in Hfs. }
  destruct (file_Sync fl s1) as [s2 r2]. cbn in Hs, Hsync.
  pose proof (file_Close_Log log n s2 Hs) as Hc.
  pose proof (fun E1 E2 => file_Close_Log log (length log) s2 (Hsync E1 E2)) as Hc'.
  destruct (file_Close fl s2) as [s3 r3]. cbn in Hc, Hc' |- *.
  destruct r1; [destruct r2|..]; cbn; try exact Hc. specialize (Hc' eq_refl eq_refl).
  destruct (is_Ret r3), started; cbn; done.
Qed.

Lemma FlushAndSync_Log log n :
  wtriple (Log log n) (FlushAndSync fl) (fun r s => Log log (synced (is_Ret r) log n) s).
Proof.
  apply wtriple_get. intros w. destruct (negb (fw_started w)); [apply wtriple_err; by intros s [? _]|].
  eapply wtriple_weaken; [apply (flushAndSync_Log log n)|by intros s [? _]|done].
Qed.

Lemma Log_le log n s : Log log n s -> (n <= length log)%nat.
Proof. intros (old & cur & k & HL & -> & Hn). pose proof (li_durable _ _ _ _ HL). rewrite length_app. lia. Qed.

Lemma SearchForEndHeight_Log log n h :
  wtriple (Log log n) (SearchForEndHeight fl h) (fun r s => Log log (synced (is_Ret r) log n) s).
Proof.
  apply (wtriple_pure (n <= length log)%nat); [apply Log_le|intros Hn].
  apply wtriple_get. intros w. destruct (negb (fw_started w)); [apply wtriple_err; by intros s [? _]|].
  eapply wtriple_bind; [eapply wtriple_weaken; [apply (flushAndSync_Log log n)|by intros s [? _]|done]| |done|done].
  intros []. cbn. apply wtriple_dir. intros d.
  assert (Hput : forall w0 m, Log log (length log) (w0, d) -> Log log (length log) (with_heightIndex m w0, d))
    by (intros; by eapply Log_framed).
  assert (Hn' : forall s, Log log (length log) s -> Log log n s) by (intros; by eapply Log_weaken).
  intros [w0 d0] [HL Ed]. cbn in Ed. subst d0. cbv zeta.
  destruct (match fw_heightIndex w !! h with Some segIdx => searchSegmentForEndHeight fl d segIdx h | None => Ret None end)
    as [[b|]|e|msg]; cbn; [by apply HL| |by apply Hn'|by apply Hn'].
  destruct (search_segments _ _ _ _ _) as [[[idx b]|]|e|msg]; cbn; [by apply Hput|by apply HL|by apply Hn'|by apply Hn'].
Qed.

End Log.
