(* ===== verification/WalRecovery.v ===== *)
(** * Crashes of the write-ahead log, reading it back, and starting it again

    What a reader finds in a directory, in particular in one that a crash has left, and how
    [Start] goes on with the log of a directory. *)

From S2P Require Export WalLog.

(** ** The segments of a directory *)

(** The segments are numbered [lo, ..., lo + n - 1]. *)
Definition numbered (lo : Z) (n : nat) (d : Dir) : Prop :=
  0 <= lo /\ lo + Z.of_nat n <= 100000 /\
  forall idx, is_Some (dir_segs d !! idx) <-> lo <= idx < lo + Z.of_nat n.

Lemma scanned_small idx : idx < 100000 -> scanned idx = idx.
Proof.
  intros Hi. unfold scanned. induction (Z.to_nat (Z.log2 idx)) as [|n IH]; [done|].
  change (Nat.iter (S n) ?f idx) with (f (Nat.iter n f idx)). cbv beta. rewrite IH.
  destruct (Z.ltb_spec idx 100000); [done|lia].
Qed.

Lemma map_scanned (l : list Z) : (forall idx, idx ∈ l -> idx < 100000) -> scanned <$> l = l.
Proof.
  induction l as [|idx l IH]; intros Hl; [done|]. cbn. rewrite scanned_small by (apply Hl; left).
  by rewrite IH by (intros; apply Hl; by right).
Qed.

Lemma keys_Permutation lo n d : numbered lo n d -> (map_to_list (dir_segs d)).*1 ≡ₚ seqZ lo (Z.of_nat n).
Proof.
  intros (Hlo & Hn & Hd). apply NoDup_Permutation; [apply NoDup_fst_map_to_list|apply NoDup_seqZ|].
  intros idx. rewrite elem_of_seqZ, <- Hd, list_elem_of_fmap. split.
  - intros ([i f] & -> & Hf%elem_of_map_to_list). by exists f.
  - intros [f Hf]. exists (idx, f). split; [done|]. by apply elem_of_map_to_list.
Qed.

Lemma indices_of_Permutation lo n d : numbered lo n d -> indices_of d ≡ₚ seqZ lo (Z.of_nat n).
Proof.
  intros Hd. pose proof (keys_Permutation lo n d Hd) as Hp. destruct Hd as (Hlo & Hn & _). unfold indices_of.
  rewrite map_scanned; [done|]. intros idx Hi. rewrite Hp in Hi. apply elem_of_seqZ in Hi. lia.
Qed.

Lemma seqZ_Sorted lo n : Sorted Z.le (seqZ lo (Z.of_nat n)).
Proof.
  revert lo. induction n as [|n IH]; intros lo; [constructor|].
  rewrite seqZ_cons by lia. replace (Z.pred (Z.of_nat (S n))) with (Z.of_nat n) by lia. constructor; [apply IH|].
  destruct n as [|n]; [constructor|]. rewrite seqZ_cons by lia. constructor. lia.
Qed.

Lemma findSegments_numbered lo n d : numbered lo n d -> findSegments no_faults d = seqZ lo (Z.of_nat n).
Proof.
  intros Hd. unfold findSegments. cbn. apply (Sorted_unique Z.le); [|apply seqZ_Sorted|].
  - apply Sorted_merge_sort. intros x y. lia.
  - rewrite merge_sort_Permutation. by apply indices_of_Permutation.
Qed.

Lemma foldl_max_ge l a x : a <= x -> a <= foldl Z.max x l.
Proof. revert x. induction l as [|y l IH]; intros x Hx; [done|]. cbn. apply IH. lia. Qed.

Lemma foldl_max_spec (l : list Z) x hi :
  hi ∈ l -> (forall y, y ∈ l -> y <= hi) -> x <= hi -> foldl Z.max x l = hi.
Proof.
  revert x. induction l as [|y l IH]; intros x Hin Hle Hx; [by apply not_elem_of_nil in Hin|]. cbn.
  destruct (decide (hi ∈ l)) as [Hl|Hl].
  { apply IH; [done|intros; apply Hle; by right|]. pose proof (Hle y ltac:(left)). lia. }
  apply elem_of_cons in Hin as [->|]; [|done]. rewrite Z.max_r by done.
  clear IH Hx. assert (Hle' : forall z, z ∈ l -> z <= y) by (intros; apply Hle; by right). clear Hle Hl.
  induction l as [|z l IH]; [done|]. cbn. rewrite Z.max_l by (apply Hle'; left). apply IH. intros; apply Hle'; by right.
Qed.

Lemma findLowest_fold (l : list Z) lo x :
  (forall y, y ∈ l -> lo <= y) -> 0 <= lo -> lo = x \/ (lo ∈ l /\ (x < 0 \/ lo <= x)) ->
  foldl (fun lowest idx => if (lowest <? 0) || (idx <? lowest) then idx else lowest) x l = lo.
Proof.
  intros Hle H0. revert x. induction l as [|y l IH]; intros x Hx.
  { destruct Hx as [Hx|[Hx _]]; [done|]. by apply not_elem_of_nil in Hx. }
  cbn. apply IH; [intros; apply Hle; by right|]. pose proof (Hle y ltac:(left)).
  destruct (Z.ltb_spec x 0); cbn; [|destruct (Z.ltb_spec y x)]; rewrite elem_of_cons in Hx;
    destruct Hx as [->|[[->|Hl] Hx]]; auto; try lia; right; (split; [done|lia]).
Qed.

(** ** Reading segment after segment *)

Section Reading.
Context `{WalCodec}.

(** The messages of the files in order, up to the first one that does not end at the end of a
    record. *)
Fixpoint read_files (bs : list bytes) : list Message * res unit :=
  match bs with
  | [] => ([], Err io_EOF)
  | b :: bs =>
      let '(l, e) := read_segment b in
      if bool_decide (e = Err io_EOF) then let '(l', e') := read_files bs in (l ++ l', e') else (l, e)
  end.

(** All messages of a log directory. Each read takes a byte at least: this fuel is enough. *)
Definition dir_bytes (d : Dir) : nat :=
  length (default [] (wf_data <$> dir_legacy d)) +
  length (concat ((fun kv => wf_data kv.2) <$> map_to_list (dir_segs d))).

Definition read_log (d : Dir) : res (list Message * res unit) :=
  let! r := OpenWALForReading no_faults d in
  Ret (read_until no_faults (S (dir_bytes d)) d r).

Lemma io_ReadFull_shrinks n b b' data : io_ReadFull n b = (b', Ret data) -> (length b' + n = length b)%nat.
Proof.
  unfold io_ReadFull. destruct (Nat.leb_spec n (length b)); [|done]. intros [= <- _]. rewrite length_drop. lia.
Qed.

Lemma Decode_shrinks b b' msg : Decode b = (b', Ret msg) -> (length b' < length b)%nat.
Proof.
  unfold Decode. destruct (io_ReadFull 4 b) as [b1 [h|e|m]] eqn:E1; [|done|done].
  destruct (_ >=? _); [done|]. destruct (io_ReadFull _ b1) as [b2 [data|e|m]] eqn:E2; [|done|done].
  destruct (io_ReadFull 4 b2) as [b3 [crc|e|m]] eqn:E3; [|done|done]. destruct (negb _); [done|]. intros [= <- _].
  apply io_ReadFull_shrinks in E1, E2, E3. lia.
Qed.

Lemma decode_all_fuel fuel b : (length b < fuel)%nat -> decode_all fuel b = read_segment b.
Proof.
  assert (Hboth : forall f1 f2 b, (length b < f1)%nat -> (length b < f2)%nat -> decode_all f1 b = decode_all f2 b).
  { induction f1 as [|f1 IH]; intros f2 b0 H1 H2; [lia|]. destruct f2 as [|f2]; [lia|]. cbn [decode_all].
    destruct (Decode b0) as [b' [msg|e|m]] eqn:E; [|done|done]. apply Decode_shrinks in E. by rewrite (IH f2) by lia. }
  intros Hb. apply Hboth; lia.
Qed.

Lemma read_segment_unfold b :
  read_segment b = match Decode b with
                   | (b', Ret msg) => let '(l, e) := read_segment b' in (msg :: l, e)
                   | (_, Err e) => ([], Err e)
                   | (_, Panic m) => ([], Panic m)
                   end.
Proof.
  unfold read_segment at 1. cbn [decode_all]. destruct (Decode b) as [b' [msg|e|m]] eqn:E; [|done|done].
  apply Decode_shrinks in E. by rewrite decode_all_fuel by lia.
Qed.

(** The files of a list of segments. *)
Definition files_of (d : Dir) (idxs : list Z) (bs : list bytes) : Prop :=
  Forall2 (fun idx b => wf_data <$> dir_segs d !! idx = Some b) idxs bs.

Lemma read_until_multi d idxs bs b fuel :
  files_of d idxs bs -> (length b + length (concat bs) < fuel)%nat ->
  read_until no_faults fuel d (Multi (mkMultiSegmentReader idxs (Some b))) = read_files (b :: bs).
Proof.
  revert d idxs bs b. induction fuel as [|fuel IH]; intros d idxs bs b Hf Hl; [lia|]. cbn [read_until dir_Read].
  unfold multiSegmentReader_Read. cbn [mr_reader mr_segments read_files]. rewrite (read_segment_unfold b).
  destruct (Decode b) as [b' [msg|e|m]] eqn:E; [| |done].
  { apply Decode_shrinks in E. rewrite (IH _ _ bs) by (done || lia). cbn [read_files].
    destruct (read_segment b') as [l e]. case_bool_decide; [|done]. by destruct (read_files bs). }
  case_bool_decide as He.
  2: { case_bool_decide; [congruence|done]. }
  subst e. rewrite bool_decide_eq_true_2 by done. clear E.
  assert (Hb : (length (concat bs) <= fuel)%nat) by lia. clear Hl b.
  induction Hf as [|idx b idxs bs Hidx Hf IHf]; [done|]. cbn [multi_Read no_faults f_open].
  cbn [concat] in Hb. rewrite length_app in Hb.
  destruct (dir_segs d !! idx) as [f|] eqn:Ef; [|done]. cbn in Hidx. injection Hidx as <-. cbn [read_files].
  rewrite (read_segment_unfold (wf_data f)). destruct (Decode (wf_data f)) as [b2 [msg|e0|m]] eqn:E; [| |done].
  - apply Decode_shrinks in E. rewrite (IH _ _ bs) by (done || lia). cbn [read_files].
    destruct (read_segment b2) as [l e]. case_bool_decide; [|done]. by destruct (read_files bs).
  - case_bool_decide as He2; [|by rewrite bool_decide_eq_false_2 by congruence]. subst e0.
    rewrite bool_decide_eq_true_2 by done. rewrite IHf by lia. by destruct (read_files bs).
Qed.

Lemma read_until_segments d idxs bs fuel :
  files_of d idxs bs -> (length (concat bs) < fuel)%nat ->
  read_until no_faults fuel d (Multi (mkMultiSegmentReader idxs None)) = read_files bs.
Proof.
  intros Hf Hl. pose proof (read_until_multi d idxs bs [] fuel Hf) as Hr. cbn [length read_files] in Hr.
  specialize (Hr Hl). destruct fuel as [|fuel]; [lia|]. cbn [read_until dir_Read] in *.
  unfold multiSegmentReader_Read in *. cbn [mr_reader mr_segments] in *.
  change (Decode []) with ([] : bytes, Err io_EOF : res Message) in Hr. cbv beta iota in Hr. rewrite bool_decide_eq_true_2 in Hr by done.
  rewrite Hr. change (read_segment []) with ([] : list Message, Err io_EOF : res unit). cbv beta iota.
  rewrite bool_decide_eq_true_2 by done. by destruct (read_files bs).
Qed.

Lemma length_concat_Permutation {A} (l k : list (list A)) : l ≡ₚ k -> length (concat l) = length (concat k).
Proof. induction 1; cbn; rewrite ?length_app; lia. Qed.

Lemma files_of_bytes d lo n bs :
  numbered lo n d -> files_of d (seqZ lo (Z.of_nat n)) bs -> (length (concat bs) <= dir_bytes d)%nat.
Proof.
  intros Hd Hf. pose proof (keys_Permutation lo n d Hd) as Hp.
  set (data := fun idx => default [] (wf_data <$> dir_segs d !! idx)).
  assert (Hbs : bs = data <$> seqZ lo (Z.of_nat n)).
  { unfold data. clear Hp. induction Hf as [|idx b idxs bs Hb _ IH]; [done|]. cbn. by rewrite Hb, IH. }
  assert (Hm : (fun kv => wf_data kv.2) <$> map_to_list (dir_segs d) = data <$> (map_to_list (dir_segs d)).*1).
  { rewrite <- list_fmap_compose. apply list_fmap_ext. intros ? [i f] Hi%list_elem_of_lookup_2%elem_of_map_to_list.
    unfold data. cbn. by rewrite Hi. }
  unfold dir_bytes. rewrite Hm, Hbs. rewrite (length_concat_Permutation (data <$> seqZ lo (Z.of_nat n)) (data <$> (map_to_list (dir_segs d)).*1)).
  - lia.
  - by rewrite Hp.
Qed.

(** Reading a directory of numbered segments. *)
Lemma read_log_segments d lo n bs :
  dir_legacy d = None -> numbered lo (S n) d -> files_of d (seqZ lo (Z.of_nat (S n))) bs ->
  read_log d = Ret (read_files bs).
Proof.
  intros Hl Hd Hf. unfold read_log, OpenWALForReading. change (f_stat no_faults) with false. cbv iota. rewrite Hl, (findSegments_numbered _ _ _ Hd).
  pose proof (files_of_bytes _ _ _ _ Hd Hf) as Hb.
  pose proof (read_until_segments d _ bs (S (dir_bytes d)) Hf ltac:(lia)) as Hr. rewrite seqZ_cons in * by lia.
  cbn [rbind]. by rewrite Hr.
Qed.

Lemma read_files_whole ls bs :
  Forall storable (concat ls) ->
  read_files ((recs <$> ls) ++ bs) = let '(l, e) := read_files bs in (concat ls ++ l, e).
Proof.
  induction ls as [|l ls IH]; intros Hs; [cbn; by destruct (read_files bs)|]. cbn [concat] in Hs.
  apply Forall_app in Hs as [Hs1 Hs2]. cbn [fmap list_fmap app read_files concat]. rewrite read_segment_records by done.
  rewrite bool_decide_eq_true_2 by done. rewrite IH by done. destruct (read_files bs). by rewrite app_assoc.
Qed.

(** The last segment may be cut anywhere; behind it there may be an empty one. *)
Lemma read_files_cut cur n tail :
  Forall storable cur -> tail = [] \/ tail = [[]] ->
  exists j e, read_files (take n (recs cur) :: tail) = (take j cur, e) /\
    forall k, (k <= length cur)%nat -> (length (recs (take k cur)) <= n)%nat -> (k <= j)%nat.
Proof.
  intros Hs Ht. cbn [read_files]. set (fuel := S (length (recs cur))).
  destruct (decode_all_prefix cur n fuel Hs) as (j & e & Hd & He & Hj & _).
  { pose proof (recs_length cur Hs). lia. }
  rewrite decode_all_fuel in Hd by (rewrite length_take; lia). rewrite Hd.
  exists j. case_bool_decide as Heof.
  - exists (Err io_EOF). split; [|done].
    destruct Ht as [-> | ->]; cbn [read_files]; [by rewrite app_nil_r|].
    change (read_segment []) with ([] : list Message, Err io_EOF : res unit). cbv beta iota.
    rewrite bool_decide_eq_true_2 by done. by rewrite !app_nil_r.
  - by exists e.
Qed.
End Reading.

(** ** After a crash *)

Section Crash.
Context `{WalCodec}.

Lemma crash_whole keep b : crash_file keep (mkWFile b (length b)) = mkWFile b (length b).
Proof. unfold crash_file. cbn [wf_synced wf_data]. by rewrite take_ge by lia. Qed.

(** No segment of the directory loses its name. *)
Definition names_kept (lost : Z -> bool) (d : Dir) : Prop :=
  forall idx, is_Some (dir_segs d !! idx) -> lost idx = false.

Lemma crash_lookup keep lost d idx :
  names_kept lost d -> dir_segs (crash keep lost d) !! idx = crash_file (keep idx) <$> dir_segs d !! idx.
Proof.
  intros Hk. unfold crash. cbn. rewrite map_lookup_imap. destruct (dir_segs d !! idx) eqn:E; [|done]. cbn.
  by rewrite (Hk idx) by (by eexists).
Qed.

Lemma numbered_crash lo n keep lost d : names_kept lost d -> numbered lo n d -> numbered lo n (crash keep lost d).
Proof.
  intros Hk (? & ? & Hd). split_and!; [done..|]. intros idx. by rewrite <- Hd, crash_lookup, fmap_is_Some.
Qed.

Lemma crash_file_twice k k' f : crash_file k' (crash_file k f) = crash_file k f.
Proof. unfold crash_file. cbn. by rewrite take_ge by lia. Qed.

(** What a crash has left is durable. *)
Lemma crash_twice keep lost keep' lost' d :
  names_kept lost' (crash keep lost d) -> crash keep' lost' (crash keep lost d) = crash keep lost d.
Proof.
  destruct d as [leg segs]. intros Hk. unfold names_kept, crash in *. cbn [dir_legacy dir_segs] in *. f_equal.
  - destruct leg; cbn; [|done]. by rewrite crash_file_twice.
  - apply map_eq. intros idx. specialize (Hk idx). rewrite !map_lookup_imap in *.
    destruct (segs !! idx); [|done]. cbn in *. destruct (lost idx); [done|]. cbn in *.
    rewrite Hk by (by eexists). by rewrite crash_file_twice.
Qed.

(** The segments of a log are numbered, whatever a crash cuts off the current one. *)
Lemma Others_numbered lo old others f hi :
  Others lo old others -> 0 <= lo -> hi = lo + Z.of_nat (length old) -> hi + 1 < 100000 ->
  exists tail, (tail = [] \/ tail = [[]]) /\
    numbered lo (S (length old + length tail)) (mkDir None (<[hi := f]> others)) /\
    forall keep lost, names_kept lost (mkDir None (<[hi := f]> others)) ->
      files_of (crash keep lost (mkDir None (<[hi := f]> others))) (seqZ lo (Z.of_nat (S (length old + length tail))))
                   (old ++ wf_data (crash_file (keep hi) f) :: tail).
Proof.
  intros [Ho Hdom] Hlo -> Hhi. set (hi := lo + Z.of_nat (length old)) in *.
  exists (match others !! (hi + 1) with Some _ => [[]] | None => [] end).
  assert (Hin : forall i, (i < length old)%nat -> is_Some (others !! (lo + Z.of_nat i))).
  { intros i [b Hb]%lookup_lt_is_Some. eexists. by apply Ho. }
  split_and!; [case_match; auto|split_and!; [done|case_match; cbn; lia|]|].
  - intros idx. cbn. destruct (decide (idx = hi)) as [->|Hne].
    { rewrite lookup_insert_eq. split; [lia|done]. }
    rewrite lookup_insert_ne by done. split.
    + intros [f' Hf']. destruct (Hdom _ _ Hf' Hne) as [?|[-> ->]]; [lia|]. rewrite Hf'. cbn. lia.
    + intros Hidx. destruct (decide (idx = hi + 1)) as [->|].
      * destruct (others !! (hi + 1)); [done|]. cbn in Hidx. lia.
      * replace idx with (lo + Z.of_nat (Z.to_nat (idx - lo))) by (case_match; cbn in *; lia).
        apply Hin. case_match; cbn in *; lia.
  - intros keep lost Hkept. set (tail := match others !! (hi + 1) with Some _ => _ | None => _ end).
    replace (Z.of_nat (S (length old + length tail))) with (Z.of_nat (length old) + Z.of_nat (S (length tail))) by lia.
    rewrite seqZ_app, (seqZ_cons (lo + _)) by lia. replace (Z.pred (Z.of_nat (S (length tail)))) with (Z.of_nat (length tail)) by lia.
    apply Forall2_app; [|constructor].
    + apply Forall2_same_length_lookup_2; [rewrite length_seqZ; lia|]. intros i idx b Hi Hb.
      apply lookup_seqZ in Hi as [-> Hi]. rewrite crash_lookup by done. cbn. rewrite lookup_insert_ne by lia.
      rewrite (Ho _ _ Hb). cbn [fmap option_fmap option_map]. by rewrite crash_whole.
    + rewrite crash_lookup by done. cbn. by rewrite lookup_insert_eq.
    + subst tail. destruct (others !! (hi + 1)) as [f'|] eqn:E; [|done].
      destruct (Hdom _ _ E) as [?|[_ ->]]; [lia|lia|]. cbn [length]. rewrite seqZ_cons by lia.
      constructor; [|done]. rewrite crash_lookup by done. cbn.
      replace (Z.succ (lo + Z.of_nat (length old))) with (hi + 1) by lia. rewrite lookup_insert_ne by lia. rewrite E. cbn. by rewrite take_nil.
Qed.

Lemma take_prefix_of {A} (l k : list A) : l `prefix_of` k -> l = take (length l) k.
Proof. intros [r ->]. by rewrite take_app_length. Qed.

(** What a reader finds after a crash: the durable messages at least, and no others than those
    of the log, in order. *)
Lemma read_log_crash log n w d keep lost :
  Log log n (w, d) -> fw_maxIndex w + 1 < 100000 -> names_kept lost d ->
  exists m e, read_log (crash keep lost d) = Ret (take m log, e) /\ (n <= m)%nat.
Proof.
  intros (old & cur & k & [Hst Hk (lo & others & Hlo & Ho & [Hmin Hmax Hcur (f & Hd & Hs & Hb)])] & -> & Hn) Hhi Hkept. cbn in *.
  apply Forall_app in Hst as [Hold Hcs]. rewrite <- (length_fmap recs old) in *. subst d.
  destruct (Others_numbered lo _ others f _ Ho Hlo eq_refl ltac:(lia)) as (tail & Ht & Hnum & Hfiles).
  specialize (Hfiles keep lost Hkept).
  assert (Hpre : wf_data f `prefix_of` recs cur) by (destruct (fw_err w); [done|by exists (fw_buf w)]).
  set (c := keep (lo + Z.of_nat (length (recs <$> old)))) in *.
  assert (Hcut : wf_data (crash_file c f) = take (min (wf_synced f + c) (length (wf_data f))) (recs cur)).
  { cbn. rewrite (take_prefix_of _ _ Hpre) at 1. by rewrite take_take. }
  destruct (read_files_cut cur (min (wf_synced f + c) (length (wf_data f))) tail Hcs Ht) as (j & e & Hr & Hj).
  exists (length (concat old) + j)%nat, e. split; [|specialize (Hj k Hk ltac:(lia)); lia].
  erewrite read_log_segments; [|done|by apply numbered_crash|exact Hfiles].
  rewrite Hcut, read_files_whole, Hr by done. by rewrite take_app_add.
Qed.
End Crash.

(** ** Starting a log *)

Section Start.
Context `{WalCodec}.

Definition durable_file (msgs : list Message) : WFile := mkWFile (recs msgs) (length (recs msgs)).

(** The segments of a directory hold [ls], whole and durable. *)
Definition holds (lo : Z) (ls : list (list Message)) (d : Dir) : Prop :=
  dir_legacy d = None /\ numbered lo (length ls) d /\
  forall i l, ls !! i = Some l -> dir_segs d !! (lo + Z.of_nat i) = Some (durable_file l).

(** A directory that a log was closed in, or a single file of the old format. *)
Definition clean (ls : list (list Message)) (d : Dir) : Prop :=
  Forall storable (concat ls) /\
  ((exists lo, holds lo ls d) \/ (exists l, ls = [l] /\ d = mkDir (Some (durable_file l)) ∅)).

(** The single file, renamed to the first segment. *)
Lemma legacy_holds l : holds 0 [l] (mkDir None {[0 := durable_file l]}).
Proof.
  split; [done|]. split.
  - split_and!; [done|cbn; lia|]. intros idx. cbn. rewrite lookup_singleton_is_Some. lia.
  - intros [|i] l' Hl; [|done]. injection Hl as <-. cbn. by rewrite lookup_singleton_eq.
Qed.

Lemma holds_Log lo ls d w :
  Forall storable (concat ls) -> holds lo ls d -> ls <> [] ->
  fw_minIndex w = lo -> fw_maxIndex w = lo + Z.of_nat (length ls) - 1 -> fw_segmentIndex w = fw_maxIndex w ->
  fw_err w = None -> fw_buf w = [] -> Log (concat ls) (length (concat ls)) (w, d).
Proof.
  intros Hst (Hleg & (Hlo & Hn & Hnum) & Hls) Hne Hmin Hmax Hcur He Hbuf.
  destruct (exists_last Hne) as (old & cur & ->). rewrite length_app in *. cbn [length] in *.
  assert (Hf : dir_segs d !! (lo + Z.of_nat (length old)) = Some (durable_file cur)).
  { apply Hls. by rewrite lookup_app_r, Nat.sub_diag by lia. }
  exists old, cur, (length cur). rewrite concat_app in *. cbn [concat] in *. rewrite app_nil_r, length_app in *.
  split_and!; [|done|done]. split; [done|done|]. exists lo, (dir_segs d). split_and!; [done| |].
  - split; rewrite ?length_fmap.
    + intros i b Hb. rewrite list_lookup_fmap in Hb. apply fmap_Some in Hb as (l & Hl & ->).
      apply Hls. by apply lookup_app_l_Some.
    + intros idx f' Hf' Hidx. left. assert (is_Some (dir_segs d !! idx)) as Hi%Hnum by by eexists. lia.
  - split; cbn; [done|lia|lia|]. exists (durable_file cur). rewrite He, Hbuf, app_nil_r, take_ge by done. cbn.
    split_and!; [|done|done|done]. rewrite insert_id by done. destruct d. cbn in *. by subst.
Qed.

Lemma buildIndex_loop_total n idx d m : exists m', buildIndex_loop no_faults n idx d m = Ret m'.
Proof.
  revert idx m. induction n as [|n IH]; intros idx m; cbn; [by exists m|]. case_match; apply IH.
Qed.

(** The range of segments that [Start] finds. *)
Lemma highest_numbered lo n d :
  numbered lo (S n) d -> foldl Z.max (-1) (indices_of d) = lo + Z.of_nat n /\
    findLowestSegmentIndex no_faults d = lo.
Proof.
  intros Hd. pose proof (indices_of_Permutation _ _ _ Hd) as Hp. destruct Hd as (Hlo & Hn & _).
  assert (Hin : forall idx, idx ∈ indices_of d <-> lo <= idx < lo + Z.of_nat (S n)) by (intros; by rewrite Hp, elem_of_seqZ).
  split.
  - apply foldl_max_spec; [apply Hin; lia|intros y Hy%Hin; lia|lia].
  - unfold findLowestSegmentIndex. change (f_readdir no_faults) with false. cbv iota zeta.
    rewrite (findLowest_fold _ lo); [by destruct (Z.ltb_spec lo 0); [lia|]|intros y Hy%Hin; lia|done|].
    right. split; [apply Hin; lia|lia].
Qed.

Lemma openSegment_ok idx w d :
  openSegment no_faults idx (w, d) =
    ((with_segment (fw_segmentIndex w) (len (seg_data idx (create_seg idx d))) (with_closed false (with_writer [] None w)),
      create_seg idx d), Ret tt).
Proof. done. Qed.

Lemma create_present idx d f : dir_segs d !! idx = Some f -> create_seg idx d = d.
Proof. intros Hf. unfold create_seg. by rewrite Hf. Qed.

Lemma wwrap_Ret {A} (m : WM A) f s s' a : m s = (s', Ret a) -> wwrap m f s = (s', Ret a).
Proof. intros E. unfold wwrap. by rewrite E. Qed.

Lemma buildIndex_ok w d : exists m, buildIndex no_faults (w, d) = ((with_heightIndex m w, d), Ret tt).
Proof.
  destruct (buildIndex_loop_total (Z.to_nat (fw_maxIndex w - fw_minIndex w + 1)) (fw_minIndex w) d (fw_heightIndex w))
    as [m E]. exists m. unfold buildIndex, wbind, wget, wdir. cbn [fst snd]. by rewrite E.
Qed.

(** The steps of a start without faults, once the last segment is found. *)
Lemma Start_steps w d d1 hi :
  fw_started w = false ->
  findHighestSegmentIndex no_faults (with_heightIndex ∅ w, d) = ((with_heightIndex ∅ w, d1), Ret hi) ->
  exists w', FileWAL_Start no_faults (w, d) = ((w', create_seg hi d1), Ret tt) /\
    fw_minIndex w' = findLowestSegmentIndex no_faults d1 /\ fw_maxIndex w' = hi /\ fw_segmentIndex w' = hi /\
    fw_err w' = None /\ fw_buf w' = [] /\ fw_started w' = true /\ fw_closed w' = false /\ fw_maxSegSize w' = fw_maxSegSize w /\
    fw_segmentSize w' = len (seg_data hi (create_seg hi d1)).
Proof.
  intros Hw Hh. unfold FileWAL_Start. rewrite (wbind_Ret wget _ _ (w, d) w), Hw by done. cbv iota.
  rewrite (wbind_Ret (wput (with_heightIndex ∅)) _ _ (with_heightIndex ∅ w, d) tt) by done.
  rewrite (wbind_Ret _ _ _ _ _ (wwrap_Ret _ _ _ _ _ Hh)). rewrite (wbind_Ret wdir _ _ (with_heightIndex ∅ w, d1) d1) by done.
  erewrite (wbind_Ret (wput _)) by reflexivity.
  edestruct buildIndex_ok as [m Em]. erewrite wbind_Ret by (apply wwrap_Ret; exact Em).
  erewrite wbind_Ret by apply openSegment_ok.
  eexists. split; [reflexivity|]. by cbn.
Qed.

(** [Start] succeeds on such a directory, and goes on with the log of it. *)
Lemma Start_clean d ls w :
  clean ls d -> fw_started w = false ->
  exists w' d', FileWAL_Start no_faults (w, d) = ((w', d'), Ret tt) /\
    Log (concat ls) (length (concat ls)) (w', d') /\ fw_err w' = None /\ fw_started w' = true /\ fw_closed w' = false /\
    fw_maxSegSize w' = fw_maxSegSize w.
Proof.
  intros [Hst Hd] Hw.
  assert (Hgoal : forall d1 hi lo ls',
    findHighestSegmentIndex no_faults (with_heightIndex ∅ w, d) = ((with_heightIndex ∅ w, d1), Ret hi) ->
    holds lo ls' (create_seg hi d1) -> ls' <> [] -> concat ls' = concat ls -> findLowestSegmentIndex no_faults d1 = lo ->
    hi = lo + Z.of_nat (length ls') - 1 -> exists w' d', FileWAL_Start no_faults (w, d) = ((w', d'), Ret tt) /\
      Log (concat ls) (length (concat ls)) (w', d') /\ fw_err w' = None /\ fw_started w' = true /\ fw_closed w' = false /\
      fw_maxSegSize w' = fw_maxSegSize w).
  { intros d1 hi lo ls' Hh Hhold Hne Hc Hlo Hhi.
    destruct (Start_steps w d d1 hi Hw Hh) as (w' & E & ? & ? & ? & ? & ? & ? & ? & ? & _).
    exists w', (create_seg hi d1). split_and!; try done. rewrite <- Hc in *.
    eapply holds_Log; try done; congruence. }
  destruct Hd as [(lo & Hhold)|(l & -> & ->)].
  - pose proof Hhold as (Hleg & Hnum & Hls). destruct ls as [|l0 ls].
    + apply (Hgoal d 0 0 [[]]); try done.
      * unfold findHighestSegmentIndex, wbind, wdir, wret. cbn [fst snd]. rewrite Hleg.
        change (f_stat no_faults) with false. change (f_readdir no_faults) with false. cbv iota zeta.
        by rewrite (proj1 (Permutation_nil_r _) (indices_of_Permutation _ _ _ Hnum)).
      * assert (Hnone : forall idx, dir_segs d !! idx = None).
        { intros idx. destruct (dir_segs d !! idx) eqn:E; [|done].
          destruct Hnum as (_ & _ & Hnum). assert (is_Some (dir_segs d !! idx)) as Hi%Hnum by by eexists. cbn in Hi. lia. }
        unfold create_seg. rewrite Hnone. split; [done|]. split.
        -- split_and!; [done|done|]. intros idx. cbn. destruct (decide (idx = 0)) as [->|].
           ++ rewrite lookup_insert_eq. split; [lia|done].
           ++ rewrite lookup_insert_ne, Hnone by done. split; [by intros []|lia].
        -- intros [|i] l Hl; [|done]. injection Hl as <-. cbn. by rewrite lookup_insert_eq.
      * unfold findLowestSegmentIndex. change (f_readdir no_faults) with false. cbv iota zeta.
        by rewrite (proj1 (Permutation_nil_r _) (indices_of_Permutation _ _ _ Hnum)).
    + pose proof (highest_numbered _ _ _ Hnum) as [Hhi Hlo].
      assert (Hlast : is_Some (dir_segs d !! (lo + Z.of_nat (length ls)))) by (apply Hnum; cbn; lia).
      destruct Hlast as [f Hf].
      apply (Hgoal d (lo + Z.of_nat (length ls)) lo (l0 :: ls)); try done.
      * unfold findHighestSegmentIndex, wbind, wdir, wret. cbn [fst snd]. rewrite Hleg.
        change (f_stat no_faults) with false. change (f_readdir no_faults) with false. cbv iota zeta. rewrite Hhi.
        destruct Hnum as [? _]. destruct (_ <? 0) eqn:E; [apply Z.ltb_lt in E; cbn in *; lia|done].
      * by rewrite (create_present _ _ _ Hf).
      * cbn [length]. lia.
  - apply (Hgoal (mkDir None {[0 := durable_file l]}) 0 0 [l]); try done.
    rewrite (create_present _ _ _ (lookup_singleton_eq _ _)). apply legacy_holds.
Qed.
End Start.
