(* ===== verification/WalSearch.v ===== *)
(** * Searching the write-ahead log, and cutting it

    What [SearchForEndHeight] finds, and which messages [Checkpoint] removes. *)

From S2P Require Export WalRecovery.

Section Search.
Context `{WalCodec}.

(** *** A flush without faults *)

Lemma flushAndSync_ok w d :
  fw_err w = None -> fw_closed w = false -> is_Ret (flushAndSync no_faults (w, d)).2 = true.
Proof.
  intros He Hc. unfold flushAndSync, buf_Flush, wbind, wget. cbn [fst snd]. rewrite He.
  case_bool_decide; cbn -[file_Sync]; [|unfold file_Write, wbind, wget; cbn [fst snd]; rewrite Hc; cbn -[file_Sync]];
    unfold file_Sync, wbind, wget; cbn [fst snd fw_closed with_writer]; by rewrite Hc.
Qed.

(** The directory holds [ls] in the segments from [lo] on, and besides at most an empty file. *)
Definition indexed (lo : Z) (ls : list (list Message)) (d : Dir) : Prop :=
  (forall i l, ls !! i = Some l -> dir_segs d !! (lo + Z.of_nat i) = Some (durable_file l)) /\
  (forall idx f, dir_segs d !! idx = Some f ->
     f = mkWFile [] 0 \/ exists i l, ls !! i = Some l /\ idx = lo + Z.of_nat i).

(** A log without an error, flushed and synced. *)
Definition settled (old : list (list Message)) (cur : list Message) (s : FileWAL * Dir) : Prop :=
  LogInv old cur (length cur) s /\ fw_err s.1 = None /\ fw_buf s.1 = [].

Lemma settled_indexed old cur w d :
  settled old cur (w, d) -> indexed (fw_minIndex w) (old ++ [cur]) d /\
    fw_maxIndex w = fw_minIndex w + Z.of_nat (length old).
Proof.
  intros ([Hst Hk (lo & others & Hlo & [Ho Hdom] & [Hmin Hmax Hcur (f & Hd & Hs & Hb)])] & He & Hbuf). cbn in *.
  rewrite He, Hbuf, app_nil_r in Hb. rewrite take_ge in Hs by done. rewrite length_fmap in *. subst d lo.
  assert (Hf : f = durable_file cur) by (destruct f; cbn in *; unfold durable_file; subst; f_equal; lia).
  split; [|done]. split.
  - intros i l [Hi|[Hi Hl]]%lookup_app_Some.
    + cbn. rewrite lookup_insert_ne by (apply lookup_lt_Some in Hi; lia). apply Ho. by rewrite list_lookup_fmap, Hi.
    + apply list_lookup_singleton_Some in Hl as [Hz <-]. replace i with (length old) by lia. cbn. by rewrite lookup_insert_eq, Hf.
  - intros idx f' Hf'. cbn in Hf'. destruct (decide (idx = fw_minIndex w + Z.of_nat (length old))) as [->|Hne].
    { right. exists (length old), cur. split; [|done]. by rewrite lookup_app_r, Nat.sub_diag by lia. }
    rewrite lookup_insert_ne in Hf' by done. destruct (Hdom _ _ Hf' Hne) as [Hr|[_ ->]]; [|by left]. right.
    destruct (lookup_lt_is_Some_2 old (Z.to_nat (idx - fw_minIndex w))) as [l Hl]; [lia|].
    exists (Z.to_nat (idx - fw_minIndex w)), l. split; [by apply lookup_app_l_Some|lia].
Qed.

(** *** One segment *)

Definition ends_height (h : Z) (m : Message) : Prop := msg_Type m = MsgTypeEndHeight /\ msg_Height m = h.

#[export] Instance ends_height_dec h m : Decision (ends_height h m).
Proof. unfold ends_height. apply _. Defined.

(** The messages behind the end of a height. *)
Fixpoint after_end (h : Z) (l : list Message) : option (list Message) :=
  match l with
  | [] => None
  | m :: l => if bool_decide (ends_height h m) then Some l else after_end h l
  end.

Lemma after_end_Some h l rest : after_end h l = Some rest -> exists pre m, l = pre ++ m :: rest /\ ends_height h m.
Proof.
  induction l as [|m l IH]; cbn; [done|]. case_bool_decide as Hm.
  - intros [= ->]. by exists [], m.
  - intros (pre & m' & -> & ?)%IH. by exists (m :: pre), m'.
Qed.

Lemma after_end_None h l : after_end h l = None -> Forall (fun m => ~ ends_height h m) l.
Proof. induction l as [|m l IH]; cbn; [done|]. case_bool_decide; [done|]. intros. constructor; auto. Qed.

Lemma search_loop_recs fuel h l :
  Forall storable l -> (length l < fuel)%nat -> search_loop fuel h (recs l) = Ret (recs <$> after_end h l).
Proof.
  intros Hs. revert fuel. induction Hs as [|m l Hm Hs IH]; intros fuel Hf; (destruct fuel as [|fuel]; [cbn in Hf; lia|]).
  { done. }
  rewrite recs_cons. cbn [search_loop after_end]. rewrite Decode_rec by done.
  assert (E : (msg_Type m =? MsgTypeEndHeight) && (msg_Height m =? h) = bool_decide (ends_height h m)).
  { apply eq_true_iff_eq. by rewrite andb_true_iff, !Z.eqb_eq, bool_decide_eq_true. }
  rewrite E. case_bool_decide; [done|]. apply IH. cbn in Hf. lia.
Qed.

Lemma searchSegment_at lo ls d h i l :
  Forall storable (concat ls) -> indexed lo ls d -> ls !! i = Some l ->
  searchSegmentForEndHeight no_faults d (lo + Z.of_nat i) h = Ret (recs <$> after_end h l).
Proof.
  intros Hst [Hls _] Hi. unfold searchSegmentForEndHeight. rewrite (Hls _ _ Hi).
  change (f_open no_faults) with false. cbv iota. cbn [wf_data durable_file].
  assert (Hl : Forall storable l).
  { apply list_elem_of_lookup_2, list_elem_of_split in Hi as (l1 & l2 & ->). rewrite concat_app in Hst.
    by apply Forall_app in Hst as [_ [Hst _]%Forall_app]. }
  apply search_loop_recs; [done|]. pose proof (recs_length l Hl). lia.
Qed.

(** A segment that the index names, whether it is one of the log or not. *)
Lemma searchSegment_indexed lo ls d idx h :
  Forall storable (concat ls) -> indexed lo ls d ->
  searchSegmentForEndHeight no_faults d idx h = Ret None \/
  exists l, l ∈ ls /\ searchSegmentForEndHeight no_faults d idx h = Ret (recs <$> after_end h l).
Proof.
  intros Hst Hd. destruct (dir_segs d !! idx) as [f|] eqn:E.
  - destruct (proj2 Hd _ _ E) as [->|(i & l & Hi & ->)].
    + left. unfold searchSegmentForEndHeight. by rewrite E.
    + right. exists l. split; [by eapply list_elem_of_lookup_2|by apply searchSegment_at with ls].
  - left. unfold searchSegmentForEndHeight. by rewrite E.
Qed.

(** *** All segments *)

(** What a search answers: the rest of a segment behind the end of the height, if there is one. *)
Definition search_answer (h : Z) (ls : list (list Message)) (r : option bytes) : Prop :=
  match r with
  | Some b => exists pre m rest, pre ++ m :: rest ∈ ls /\ ends_height h m /\ b = recs rest
  | None => Forall (fun m => ~ ends_height h m) (concat ls)
  end.

Lemma search_segments_indexed lo ls d h n j :
  Forall storable (concat ls) -> indexed lo ls d -> (j + n = length ls)%nat ->
  match search_segments no_faults n (lo + Z.of_nat j) h d with
  | Ret (Some (_, b)) => search_answer h ls (Some b)
  | Ret None => Forall (fun m => ~ ends_height h m) (concat (drop j ls))
  | _ => False
  end.
Proof.
  intros Hst Hd. revert j. induction n as [|n IH]; intros j Hj.
  { cbn. by rewrite drop_ge by lia. }
  destruct (lookup_lt_is_Some_2 ls j) as [l Hl]; [lia|]. rewrite (drop_S _ _ _ Hl). cbn [concat search_segments].
  rewrite (searchSegment_at lo ls d h j l Hst Hd Hl). cbn [rbind]. destruct (after_end h l) as [rest|] eqn:Ea; cbn.
  - apply after_end_Some in Ea as (pre & m & -> & Hm). exists pre, m, rest. split_and!; [by eapply list_elem_of_lookup_2|done|done].
  - specialize (IH (S j) ltac:(lia)). replace (lo + Z.of_nat (S j)) with (lo + Z.of_nat j + 1) in IH by lia.
    destruct (search_segments _ n _ _ _) as [[[idx b]|]|e|msg]; [done| |done|done].
    apply Forall_app. split; [by apply after_end_None|done].
Qed.

Lemma flushAndSync_min fl old cur k w d :
  LogInv old cur k (w, d) -> fw_minIndex (flushAndSync fl (w, d)).1.1 = fw_minIndex w.
Proof.
  intros [_ _ (lo & others & _ & _ & HS)]. pose proof (flushAndSync_spec fl _ _ _ _ _ _ HS) as [HS' _].
  by rewrite (st_min _ _ _ _ _ _ HS'), <- (st_min _ _ _ _ _ _ HS).
Qed.

(** The search of a log that works: it finds the end of the height if the log has it. The reader it
    returns has the rest of one segment. *)
Lemma SearchForEndHeight_settled old cur k w d h :
  LogInv old cur k (w, d) -> fw_err w = None -> fw_closed w = false -> fw_started w = true ->
  exists s r, SearchForEndHeight no_faults h (w, d) = (s, Ret r) /\ search_answer h (old ++ [cur]) r.
Proof.
  intros HL He Hc Hw. unfold SearchForEndHeight. rewrite (wbind_Ret wget _ _ (w, d) w), Hw by done. cbn [negb].
  pose proof (flushAndSync_log no_faults old cur k (w, d) HL) as Hfl. pose proof (flushAndSync_ok w d He Hc) as Hok.
  destruct (flushAndSync no_faults (w, d)) as [[w1 d1] r1] eqn:E. cbn [fst snd] in *. destruct r1 as [[]|e|msg]; [|done|done].
  rewrite (wbind_Ret _ _ _ _ _ E), (wbind_Ret wdir _ _ (w1, d1) d1) by done. cbv zeta.
  destruct Hfl as [HL1 Hcl]. destruct (settled_indexed old cur w1 d1) as [Hind Hmax]; [by split; [|apply Hcl]|].
  assert (Hst : Forall storable (concat (old ++ [cur]))).
  { pose proof (li_storable _ _ _ _ HL) as Hst. by rewrite concat_app; cbn; rewrite app_nil_r. }
  assert (Hmin : fw_minIndex w1 = fw_minIndex w) by (pose proof (flushAndSync_min no_faults old cur k w d HL) as Hm; by rewrite E in Hm).
  assert (Hmax0 : fw_maxIndex w = fw_minIndex w + Z.of_nat (length old)).
  { destruct HL as [_ _ (? & ? & _ & _ & [? ? _ _])]. cbn in *. congruence. }
  set (indexed_r := match fw_heightIndex w !! h with Some segIdx => _ | None => _ end).
  assert (Hi : indexed_r = Ret None \/ exists b, indexed_r = Ret (Some b) /\ search_answer h (old ++ [cur]) (Some b)).
  { unfold indexed_r. destruct (fw_heightIndex w !! h) as [segIdx|]; [|by left].
    destruct (searchSegment_indexed _ _ _ segIdx h Hst Hind) as [->|(l & Hl & ->)]; [by left|].
    destruct (after_end h l) as [rest|] eqn:Ea; [|by left]. right. eexists. split; [done|].
    apply after_end_Some in Ea as (pre & m & -> & Hm). by exists pre, m, rest. }
  destruct Hi as [->|(b & -> & Hb)]; [|by do 2 eexists].
  pose proof (search_segments_indexed _ _ _ h (length (old ++ [cur])) 0 Hst Hind ltac:(lia)) as Hs.
  rewrite Z.add_0_r, Hmin in Hs. replace (Z.to_nat (fw_maxIndex w - fw_minIndex w + 1)) with (length (old ++ [cur]))
    by (rewrite length_app; cbn; lia).
  destruct (search_segments _ _ _ _ _) as [[[idx b]|]|e|msg]; [|by do 2 eexists|done|done].
  do 2 eexists. split; [reflexivity|done].
Qed.

(** *** Checkpoint *)

Definition below (h : Z) (msgs : list Message) : Prop := Forall (fun m => msg_Height m <= h) msgs.

Lemma foldl_heights l h x :
  foldl (fun m msg => Z.max m (msg_Height msg)) x l <= h <-> x <= h /\ below h l.
Proof.
  revert x. induction l as [|m l IH]; intros x; cbn.
  { split; [|by intros []]. intros. split; [done|constructor]. }
  rewrite IH. unfold below. rewrite Forall_cons. split; intros Hx; split_and!; try lia; apply Hx.
Qed.

Lemma canDeleteSegment_whole d idx h l :
  Forall storable l -> dir_segs d !! idx = Some (durable_file l) ->
  canDeleteSegment no_faults d idx h = Ret (bool_decide (0 <= h /\ below h l)).
Proof.
  intros Hst Hf. unfold canDeleteSegment. change (f_open no_faults) with false. cbv iota. rewrite Hf.
  cbn [wf_data durable_file]. rewrite read_segment_records by done. rewrite bool_decide_eq_true_2 by done. cbn [negb].
  f_equal. apply eq_true_iff_eq. by rewrite Z.leb_le, bool_decide_eq_true, foldl_heights.
Qed.

(** The leading segments that can go. *)
Lemma deletable_spec d lo h n ls :
  Forall storable (concat ls) -> (forall i l, ls !! i = Some l -> dir_segs d !! (lo + Z.of_nat i) = Some (durable_file l)) ->
  n = length ls ->
  let c := deletable no_faults n lo h d in
  (c <= length ls)%nat /\ below h (concat (take c ls)) /\
  (forall l, ls !! c = Some l -> 0 <= h -> ~ below h l).
Proof.
  intros Hst Hls ->. revert lo Hls. induction ls as [|l ls IH]; intros lo Hls; cbn [length deletable].
  { split_and!; [done|constructor|done]. }
  cbn [concat] in Hst. apply Forall_app in Hst as [Hl Hst].
  pose proof (Hls 0%nat l eq_refl) as Hl0. rewrite Z.add_0_r in Hl0. rewrite (canDeleteSegment_whole _ _ _ _ Hl Hl0).
  case_bool_decide as Hb.
  - destruct (IH Hst (lo + 1)) as (Hc & Hbel & Hmax).
    { intros i l' Hi. rewrite <- (Hls (S i) l' Hi). f_equal. lia. }
    cbn [take concat lookup list_lookup]. split_and!; [lia| |done]. apply Forall_app. by destruct Hb.
  - split_and!; [lia|constructor|]. intros l' [= <-] Hh Hbel. by apply Hb.
Qed.

Lemma delete_segments_ok n idx w d :
  exists m d', delete_segments no_faults n idx (w, d) = ((with_heightIndex m w, d'), Ret tt) /\
    dir_legacy d' = dir_legacy d /\
    (forall i, dir_segs d' !! i = if bool_decide (idx <= i < idx + Z.of_nat n) then None else dir_segs d !! i).
Proof.
  revert idx w d. induction n as [|n IH]; intros idx w d.
  { exists (fw_heightIndex w), d. split_and!; [by destruct w|done|]. intros i. by rewrite bool_decide_eq_false_2 by lia. }
  set (w1 := with_heightIndex (filter (fun kv => kv.2 <> idx) (fw_heightIndex w)) w).
  set (d1 := mkDir (dir_legacy d) (delete idx (dir_segs d))).
  destruct (IH (idx + 1) w1 d1) as (m & d' & E & Hleg & Hd'). exists m, d'. split_and!.
  - cbn [delete_segments]. rewrite (wbind_Ret wdir _ _ (w, d) d) by done. change (f_remove no_faults) with false. cbn [andb].
    rewrite (wbind_Ret (wput_dir _) _ _ (w, d1) tt), (wbind_Ret (wput _) _ _ (w1, d1) tt) by done. by rewrite E.
  - done.
  - intros i. rewrite Hd'. unfold d1. cbn [dir_segs]. destruct (decide (i = idx)) as [->|Hne].
    + rewrite lookup_delete_eq. case_bool_decide; by rewrite ?bool_decide_eq_true_2 by lia.
    + rewrite lookup_delete_ne by done. by repeat case_bool_decide; try lia.
Qed.

Lemma concat_drop_Forall {A} (P : A -> Prop) n (l : list (list A)) : Forall P (concat l) -> Forall P (concat (drop n l)).
Proof. intros Hl. rewrite <- (take_drop n l), concat_app in Hl. by apply Forall_app in Hl as [_ ?]. Qed.

(** [Checkpoint] removes whole segments from the front, up to the first that has a message above
    the height. *)
Lemma Checkpoint_log old cur k w d h :
  LogInv old cur k (w, d) -> fw_started w = true ->
  exists c s, Checkpoint no_faults h (w, d) = (s, Ret tt) /\ LogInv (drop c old) cur k s /\
    below h (concat (take c old)) /\ (forall l, old !! c = Some l -> 0 <= h -> ~ below h l).
Proof.
  intros [Hst Hk (lo & others & Hlo & [Ho Hdom] & [Hmin Hmax Hcur (f & Hd & Hs & Hb)])] Hw. cbn in Hmin, Hmax, Hcur, Hd, Hs, Hb.
  apply Forall_app in Hst as [Hso Hsc]. rewrite length_fmap in *.
  destruct (deletable_spec d lo h (length old) old Hso) as (Hc & Hbel & Hnext); [|done|].
  { intros i l Hi. subst d. cbn. rewrite lookup_insert_ne by (apply lookup_lt_Some in Hi; lia).
    apply Ho. by rewrite list_lookup_fmap, Hi. }
  set (c := deletable no_faults (length old) lo h d) in *.
  destruct (delete_segments_ok c lo w d) as (m & d' & E & Hleg & Hd').
  exists c, (with_group (lo + Z.of_nat c) (fw_maxIndex w) (with_heightIndex m w), d'). split_and!; [| |done|done].
  - unfold Checkpoint. rewrite (wbind_Ret wget _ _ (w, d) w), Hw by done. cbn [negb].
    rewrite (wbind_Ret wdir _ _ (w, d) d) by done. cbv zeta.
    replace (Z.to_nat (fw_maxIndex w - fw_minIndex w)) with (length old) by lia. rewrite Hmin. fold c.
    rewrite (wbind_Ret _ _ _ _ _ E). unfold wput. cbn -[c]. by rewrite Hmin.
  - assert (Hf' : dir_segs d' !! (lo + Z.of_nat (length old)) = Some f).
    { rewrite Hd', bool_decide_eq_false_2 by lia. subst d. cbn. by rewrite lookup_insert_eq. }
    split; [apply Forall_app; split; [by apply concat_drop_Forall|done]|done|].
    exists (lo + Z.of_nat c), (dir_segs d'). rewrite fmap_drop. split_and!; [lia| |].
    + split; rewrite ?length_drop, ?length_fmap.
      * intros i b Hb'. rewrite lookup_drop in Hb'. rewrite Hd', bool_decide_eq_false_2 by lia. subst d. cbn.
        pose proof (lookup_lt_Some _ _ _ Hb') as Hlt. rewrite length_fmap in Hlt.
        rewrite lookup_insert_ne by lia. rewrite <- (Ho _ _ Hb'). f_equal. lia.
      * intros idx f' Hf'' Hne. rewrite Hd' in Hf''. case_bool_decide as Hr; [done|]. subst d. cbn in Hf''.
        rewrite lookup_insert_ne in Hf'' by lia. destruct (Hdom _ _ Hf'') as [?|[-> ->]]; [lia|left; lia|right; split; [lia|done]].
    + rewrite length_drop. split; cbn; [done|lia|lia|]. exists f. split_and!; [|lia|lia|done].
      replace (lo + Z.of_nat c + Z.of_nat (length old - c)) with (lo + Z.of_nat (length old)) by lia.
      rewrite insert_id by done. destruct d' as [leg segs]. cbn in *. by rewrite Hleg, Hd.
Qed.

(** *** Checkpoint with faults *)

Lemma deletable_faults fl n idx h d :
  f_open fl = false -> deletable fl n idx h d = deletable no_faults n idx h d.
Proof.
  intros Ho. revert idx. induction n as [|n IH]; intros idx; [done|]. cbn [deletable].
  unfold canDeleteSegment. rewrite Ho. change (f_open no_faults) with false. cbv iota. by rewrite IH.
Qed.

Lemma delete_segments_faults fl n idx s :
  f_remove fl = false -> delete_segments fl n idx s = delete_segments no_faults n idx s.
Proof.
  intros Hr. revert idx s. induction n as [|n IH]; intros idx s; [done|]. cbn [delete_segments].
  unfold wbind, wdir, wput_dir, wput. cbn [fst snd]. rewrite Hr. change (f_remove no_faults) with false.
  cbn [andb]. apply IH.
Qed.

(** The segments that can go exist: if there is one, the first removal fails. *)
Lemma delete_segments_fails fl n h w d idx :
  f_remove fl = true ->
  deletable fl n idx h d = 0%nat \/
  exists e, delete_segments fl (deletable fl n idx h d) idx (w, d) = ((w, d), Err e).
Proof.
  intros Hr. destruct n as [|n]; [by left|]. cbn [deletable].
  destruct (canDeleteSegment fl d idx h) as [[]|e|m] eqn:E; [|by left..]. right.
  unfold canDeleteSegment in E. destruct (f_open fl); [done|]. destruct (dir_segs d !! idx) eqn:Es; [|done].
  cbn [delete_segments]. rewrite (wbind_Ret wdir _ _ (w, d) d) by done. rewrite Hr, Es. by eexists.
Qed.

(** Whatever fails, a checkpoint removes whole segments from the front, none with a message above
    the height. *)
Lemma Checkpoint_faulty fl old cur k w d h :
  LogInv old cur k (w, d) ->
  exists c, LogInv (drop c old) cur k (Checkpoint fl h (w, d)).1 /\ below h (concat (take c old)).
Proof.
  intros HL. destruct (fw_started w) eqn:Hw; [|exists 0%nat; unfold Checkpoint;
    rewrite (wbind_Ret wget _ _ (w, d) w), Hw by done; split; [done|constructor]].
  assert (Hnone : forall n, deletable fl n (fw_minIndex w) h d = 0%nat ->
    n = Z.to_nat (fw_maxIndex w - fw_minIndex w) -> LogInv old cur k (Checkpoint fl h (w, d)).1).
  { intros n Hd ->. unfold Checkpoint. rewrite (wbind_Ret wget _ _ (w, d) w), Hw by done. cbn [negb].
    rewrite (wbind_Ret wdir _ _ (w, d) d) by done. cbv zeta. rewrite Hd. cbn [delete_segments].
    rewrite (wbind_Ret (wret tt) _ _ (w, d) tt) by done. unfold wput. cbn. eapply LogInv_framed; [done|cbn; lia|done..]. }
  remember (Z.to_nat (fw_maxIndex w - fw_minIndex w)) as n eqn:Hn.
  destruct (f_open fl) eqn:Hopen.
  { exists 0%nat. split; [|constructor]. apply (Hnone n); [|done]. destruct n; [done|]. cbn [deletable].
    unfold canDeleteSegment. by rewrite Hopen. }
  destruct (f_remove fl) eqn:Hrem.
  - exists 0%nat. split; [|constructor].
    destruct (delete_segments_fails fl n h w d (fw_minIndex w) Hrem) as [Ed|[e E]]; [by apply (Hnone n)|].
    unfold Checkpoint. rewrite (wbind_Ret wget _ _ (w, d) w), Hw by done. cbn [negb].
    rewrite (wbind_Ret wdir _ _ (w, d) d) by done. cbv zeta. rewrite <- Hn. unfold wbind at 1. by rewrite E.
  - destruct (Checkpoint_log old cur k w d h HL Hw) as (c & s & E & HL' & Hb & _). exists c. split; [|done].
    replace (Checkpoint fl h (w, d)) with (Checkpoint no_faults h (w, d)); [by rewrite E|].
    unfold Checkpoint, wbind, wget, wdir. cbn [fst snd]. rewrite Hw. cbn [negb].
    by rewrite (deletable_faults fl), (delete_segments_faults fl).
Qed.
End Search.
