(* ===== verification/WalSessions.v ===== *)
(** * The uses of the write-ahead log

    A session starts the log of a directory and runs operations, of which each may meet faults
    of the operating system. A use of the log is a sequence of sessions and of crashes. What a
    reader finds at its end is compared with what the log has acknowledged. *)

From S2P Require Export WalSearch.

(** ** Operations *)

Inductive wop :=
| OWrite (msg : Message)
| OWriteSync (msg : Message)
| OFlush
| OSearch (height : Z)
| OCheckpoint (height : Z)
| OStop.

Section Operations.
Context `{WalCodec}.
Variable fl : faults.

Definition run_op (op : wop) : WM unit :=
  match op with
  | OWrite msg => FileWAL_Write fl msg
  | OWriteSync msg => FileWAL_WriteSync fl msg
  | OFlush => FlushAndSync fl
  | OSearch height => SearchForEndHeight fl height >> wret tt
  | OCheckpoint height => Checkpoint fl height
  | OStop => FileWAL_Stop fl
  end.

Definition op_msgs (op : wop) : list Message :=
  match op with OWrite msg | OWriteSync msg => [msg] | _ => [] end.

(** The height up to which an operation may remove messages. *)
Definition op_cuts (op : wop) : list Z := match op with OCheckpoint height => [height] | _ => [] end.

(** The operations that sync the log when they succeed. *)
Definition op_syncs (op : wop) (started : bool) : bool :=
  match op with OWrite _ | OCheckpoint _ => false | OStop => started | _ => true end.

(** A checkpoint removes messages from the front of the log, none of them above the height. *)
Lemma Checkpoint_Log log n h :
  wtriple (Log log n) (Checkpoint fl h) (fun _ s =>
    exists p log', log = p ++ log' /\ below h p /\ Log log' (n - length p) s).
Proof.
  intros [w d] (old & cur & k & HL & -> & Hn).
  destruct (Checkpoint_faulty fl old cur k w d h HL) as (c & HL' & Hb).
  exists (concat (take c old)), (concat (drop c old) ++ cur). split_and!; [|done|].
  - by rewrite app_assoc, <- concat_app, take_drop.
  - exists (drop c old), cur, k. split_and!; [done..|].
    rewrite <- (take_drop c old), concat_app, length_app in Hn. lia.
Qed.

(** What an operation does to the log: it may append its messages, remove some that a checkpoint
    covers from the front, and make the log durable. *)
Definition op_effect (op : wop) (ok synced_now : bool) (log : list Message) (n : nat) (s : FileWAL * Dir) : Prop :=
  exists added p log', (added = op_msgs op \/ (ok = false /\ added = [])) /\ log ++ added = p ++ log' /\
    Forall (fun m => Exists (fun h => msg_Height m <= h) (op_cuts op)) p /\
    Log log' (synced (ok && synced_now) log' (n - length p)) s.

(** Operations that remove nothing. *)
Lemma op_effect_grow op ok b log n s :
  (exists log', (log' = log ++ op_msgs op \/ (ok = false /\ log' = log)) /\ Log log' (synced (ok && b) log' n) s) ->
  op_effect op ok b log n s.
Proof.
  intros (log' & Hlog & HL). destruct Hlog as [->|[-> ->]].
  - exists (op_msgs op), [], (log ++ op_msgs op). rewrite Nat.sub_0_r. auto.
  - exists [], [], log. rewrite app_nil_r, Nat.sub_0_r. auto.
Qed.

Lemma run_op_Log op log n started :
  Forall logged_msg (op_msgs op) ->
  wtriple (fun s => Log log n s /\ fw_started s.1 = started) (run_op op)
    (fun r s => op_effect op (is_Ret r) (op_syncs op started) log n s).
Proof.
  intros Hmsg. destruct op; cbn [run_op op_msgs op_syncs] in *.
  - rewrite Forall_singleton in Hmsg. eapply wtriple_weaken;
      [apply (write_message_Log fl false log n); exact Hmsg|by intros s [? _]|].
    intros r s Hr. apply op_effect_grow. by rewrite andb_false_r.
  - rewrite Forall_singleton in Hmsg. eapply wtriple_weaken;
      [apply (write_message_Log fl true log n); exact Hmsg|by intros s [? _]|].
    intros r s Hr. apply op_effect_grow. by rewrite andb_true_r.
  - eapply wtriple_weaken; [apply (FlushAndSync_Log fl log n)|by intros s [? _]|].
    intros r s Hr. apply op_effect_grow. cbn. rewrite andb_true_r, app_nil_r. eauto.
  - assert (Hgrow : forall (r : res unit) s, Log log (synced (is_Ret r) log n) s ->
      op_effect (OSearch height) (is_Ret r) true log n s).
    { intros r s Hr. apply op_effect_grow. cbn. rewrite andb_true_r, app_nil_r. eauto. }
    eapply wtriple_bind; [eapply wtriple_weaken; [apply (SearchForEndHeight_Log fl log n)|by intros s [? _]|done]| | |]; cbn.
    + intros _. apply wtriple_ret. intros s Hs. by apply (Hgrow (Ret tt)).
    + intros e s Hs. by apply (Hgrow (Err e)).
    + intros m s Hs. by apply (Hgrow (Panic m)).
  - eapply wtriple_weaken; [apply (Checkpoint_Log log n height)|by intros s [? _]|].
    intros r s (p & log' & -> & Hb & HL). exists [], p, log'. rewrite app_nil_r, andb_false_r. split_and!; [by left|done| |done].
    eapply Forall_impl; [exact Hb|]. intros m Hm. by left.
  - eapply wtriple_weaken; [apply (Stop_Log fl log n started)|done|]. intros r s Hr.
    apply op_effect_grow. cbn. rewrite app_nil_r. eauto.
Qed.

(** Nothing changes in a log that is not started. *)
Lemma run_op_stopped op w d :
  fw_started w = false ->
  exists r, run_op op (w, d) = ((w, d), r) /\ (is_Ret r = true -> op_msgs op = [] /\ op_syncs op false = false).
Proof.
  intros Hw. destruct op; cbn [run_op]; unfold FileWAL_Write, FileWAL_WriteSync, write_message, FlushAndSync,
    SearchForEndHeight, Checkpoint, FileWAL_Stop, wbind, wget; cbn; rewrite Hw; cbn; by eexists.
Qed.
End Operations.

(** ** What checkpoints keep *)

(** The messages that no checkpoint up to one of these heights may remove. *)
Definition kept (cuts : list Z) (l : list Message) : list Message :=
  filter (fun m => Forall (fun h => h < msg_Height m) cuts) l.

Lemma filter_sublist {A} (P : A -> Prop) `{forall x, Decision (P x)} (l k : list A) :
  l `sublist_of` k -> filter P l `sublist_of` filter P k.
Proof. induction 1; rewrite ?filter_cons; repeat case_decide; by repeat constructor. Qed.

Lemma kept_app cuts l k : kept cuts (l ++ k) = kept cuts l ++ kept cuts k.
Proof. apply filter_app. Qed.

Lemma kept_sublist cuts l : kept cuts l `sublist_of` l.
Proof. apply sublist_filter. Qed.

Lemma kept_kept cuts c l : kept (cuts ++ c) (kept cuts l) = kept (cuts ++ c) l.
Proof.
  unfold kept. rewrite list_filter_filter. apply list_filter_iff. intros m. rewrite Forall_app. tauto.
Qed.

(** Further checkpoints keep a part of what the earlier ones kept. *)
Lemma kept_more cuts c l k : kept cuts l `sublist_of` k -> kept (cuts ++ c) l `sublist_of` kept (cuts ++ c) k.
Proof. intros Hl. rewrite <- kept_kept. by apply filter_sublist. Qed.

Lemma kept_cut cuts c p : Forall (fun m => Exists (fun h => msg_Height m <= h) c) p -> kept (cuts ++ c) p = [].
Proof.
  induction 1 as [|m p Hm Hp IH]; [done|]. unfold kept. rewrite filter_cons, decide_False; [done|].
  rewrite Forall_app. intros [_ Hc]. rewrite Forall_forall in Hc. apply Exists_exists in Hm as (h & Hh & Hm).
  specialize (Hc h Hh). cbn in Hc. lia.
Qed.

(** ** What can be recovered from a directory *)

Section Recovery.
Context `{WalCodec}.

(** A reader of the directory finds the messages [msgs]; without any file there is no log. *)
Definition reads (d : Dir) (msgs : list Message) : Prop :=
  (exists e, read_log d = Ret (msgs, e)) \/ (read_log d = Err ErrWALNotFound /\ msgs = []).

Lemma reads_unique d l k : reads d l -> reads d k -> l = k.
Proof. intros [[e E]|[E ->]] [[e' E']|[E' ->]]; congruence. Qed.

(** After a crash that leaves the names, a reader finds a prefix of [log] with the first [n]
    messages at least. *)
Definition recovers (log : list Message) (n : nat) (d : Dir) : Prop :=
  forall keep lost, names_kept lost d -> exists m, reads (crash keep lost d) (take m log) /\ (n <= m)%nat.

Lemma Log_recovers log n w d :
  Log log n (w, d) -> fw_maxIndex w + 1 < 100000 -> recovers log n d.
Proof.
  intros HL Hi keep lost Hk. destruct (read_log_crash log n w d keep lost HL Hi Hk) as (m & e & E & Hm).
  exists m. split; [left; by exists e|done].
Qed.

Lemma read_until_single d fuel b : read_until no_faults fuel d (Single b) = decode_all fuel b.
Proof.
  revert b. induction fuel as [|fuel IH]; intros b; [done|]. cbn [read_until decode_all dir_Read].
  destruct (Decode b) as [b' [msg|e|m]]; cbn; [by rewrite IH|done..].
Qed.

(** A directory of whole and durable records loses nothing. *)
Lemma clean_reads ls d keep lost : clean ls d -> names_kept lost d -> reads (crash keep lost d) (concat ls).
Proof.
  intros [Hst [(lo & Hleg & Hnum & Hls)|(l & -> & ->)]] Hk.
  - pose proof (numbered_crash _ _ keep lost d Hk Hnum) as Hnum'.
    assert (Hleg' : dir_legacy (crash keep lost d) = None) by (cbn; by rewrite Hleg).
    destruct ls as [|l ls].
    { right. split; [|done]. unfold read_log, OpenWALForReading. change (f_stat no_faults) with false. cbv iota.
      by rewrite Hleg', (findSegments_numbered _ _ _ Hnum'). }
    left. exists (Err io_EOF). rewrite (read_log_segments _ lo (length ls) (recs <$> l :: ls)); [|done..|].
    + rewrite <- (app_nil_r (recs <$> _)), read_files_whole by done. cbn [read_files]. by rewrite app_nil_r.
    + apply Forall2_same_length_lookup_2; [rewrite length_seqZ, length_fmap; cbn; lia|].
      intros i idx b Hi Hb. apply lookup_seqZ in Hi as [-> Hi]. rewrite list_lookup_fmap in Hb.
      apply fmap_Some in Hb as (l' & Hl & ->). rewrite crash_lookup, (Hls _ _ Hl) by done. cbn [fmap option_fmap option_map].
      unfold durable_file. by rewrite crash_whole.
  - left. exists (Err io_EOF). unfold crash, read_log, OpenWALForReading. cbn [dir_legacy fmap option_fmap option_map].
    change (f_stat no_faults) with false. change (f_open no_faults) with false. cbv iota. cbn [rbind].
    unfold durable_file. rewrite crash_whole. cbn [wf_data]. rewrite read_until_single, decode_all_fuel.
    + cbn [concat] in *. rewrite app_nil_r in *. by rewrite read_segment_records.
    + unfold dir_bytes. cbn. lia.
Qed.

Lemma clean_recovers ls d : clean ls d -> recovers (concat ls) (length (concat ls)) d.
Proof.
  intros Hc keep lost Hk. exists (length (concat ls)). split; [|done]. rewrite take_ge by done. by apply clean_reads.
Qed.

(** What a clean directory holds is a prefix of the log it is from. *)
Lemma recovers_clean log n ls d : recovers log n d -> clean ls d -> exists m, concat ls = take m log /\ (n <= m)%nat.
Proof.
  intros Hr Hc. destruct (Hr (fun _ => 0%nat) (fun _ => false)) as (m & Hm & Hn); [by intros ? _|]. exists m. split; [|done].
  eapply reads_unique; [|exact Hm]. by apply clean_reads.
Qed.

Lemma recovers_crash log n d keep lost :
  recovers log n d -> names_kept lost d ->
  exists m, recovers (take m log) (length (take m log)) (crash keep lost d) /\ (n <= m)%nat.
Proof.
  intros Hr Hk. destruct (Hr keep lost Hk) as (m & Hm & Hn). exists m. split; [|done].
  intros keep' lost' Hk'. exists (length (take m log)). split; [|done].
  by rewrite crash_twice, take_ge by done.
Qed.

(** ** Starting with faults *)

Lemma findHighest_faulty fl w d :
  f_stat fl = false -> f_readdir fl = false ->
  findHighestSegmentIndex fl (w, d) = findHighestSegmentIndex no_faults (w, d) \/
  exists e, findHighestSegmentIndex fl (w, d) = ((w, d), Err e).
Proof.
  intros Hs Hr. unfold findHighestSegmentIndex, wbind, wdir. cbn [fst snd]. rewrite Hs, Hr.
  change (f_stat no_faults) with false. change (f_readdir no_faults) with false. change (f_rename no_faults) with false.
  cbv iota. destruct (dir_legacy d); [|by left]. destruct (f_rename fl); [right; by eexists|by left].
Qed.

Lemma findHighest_clean ls w d :
  clean ls d ->
  exists hi d1 ls', findHighestSegmentIndex no_faults (w, d) = ((w, d1), Ret hi) /\ clean ls' d1 /\ concat ls' = concat ls.
Proof.
  intros [Hst Hd]. unfold findHighestSegmentIndex, wbind, wdir, wput_dir, wret. cbn [fst snd].
  change (f_stat no_faults) with false. change (f_readdir no_faults) with false. change (f_rename no_faults) with false.
  cbv iota. destruct Hd as [(lo & Hh)|(l & -> & ->)].
  - rewrite (proj1 Hh). eexists _, d, ls. split_and!; [done| |done]. split; [done|]. left. by exists lo.
  - eexists _, _, [l]. split_and!; [done| |done]. split; [done|]. left. exists 0. apply legacy_holds.
Qed.

Lemma buildIndex_dir fl w d :
  exists w', (buildIndex fl (w, d)).1 = (w', d) /\ fw_started w' = fw_started w.
Proof.
  unfold buildIndex, wbind, wget, wdir. cbn [fst snd]. destruct (buildIndex_loop _ _ _ _ _); by eexists.
Qed.

Lemma buildIndex_faults fl s : f_open fl = false -> buildIndex fl s = buildIndex no_faults s.
Proof.
  intros Ho. destruct s as [w d]. unfold buildIndex, wbind, wget, wdir. cbn [fst snd].
  assert (E : forall n idx m, buildIndex_loop fl n idx d m = buildIndex_loop no_faults n idx d m).
  { induction n as [|n IH]; intros idx m; [done|]. cbn [buildIndex_loop]. rewrite Ho.
    change (f_open no_faults) with false. cbv iota. destruct (dir_segs d !! idx); apply IH. }
  by rewrite E.
Qed.

(** A start that can list the directory succeeds, or leaves the log stopped and the directory
    clean. *)
Lemma Start_faulty fl d ls w :
  clean ls d -> fw_started w = false -> f_stat fl = false -> f_readdir fl = false ->
  exists w' d', (FileWAL_Start fl (w, d)).1 = (w', d') /\
    (Log (concat ls) (length (concat ls)) (w', d') \/
     (fw_started w' = false /\ exists ls', clean ls' d' /\ concat ls' = concat ls)).
Proof.
  intros Hc Hw Hs Hr.
  assert (Hhead : forall k, (wbind wget (fun w0 => if fw_started w0 then wret tt else wput (with_heightIndex ∅) >> k)) (w, d)
                            = k (with_heightIndex ∅ w, d)).
  { intros k. unfold wbind, wget, wput. cbn [fst snd]. by rewrite Hw. }
  destruct (findHighest_faulty fl (with_heightIndex ∅ w) d Hs Hr) as [Eh|[e Eh]].
  2: { exists (with_heightIndex ∅ w), d. split; [|right; split; [done|by exists ls]].
       unfold FileWAL_Start. rewrite Hhead. unfold wwrap, wbind. by rewrite Eh. }
  destruct (f_open fl) eqn:Ho.
  - destruct (findHighest_clean ls (with_heightIndex ∅ w) d Hc) as (hi & d1 & ls' & E1 & Hc' & Hcat).
    rewrite E1 in Eh. unfold FileWAL_Start. rewrite Hhead.
    rewrite (wbind_Ret _ _ _ _ _ (wwrap_Ret _ _ _ _ _ Eh)), (wbind_Ret wdir _ _ (with_heightIndex ∅ w, d1) d1) by done.
    erewrite (wbind_Ret (wput _)) by reflexivity. cbn [fst snd].
    match goal with |- context [wbind _ _ (?x, d1)] => set (w1 := x) end.
    destruct (buildIndex_dir fl w1 d1) as (w2 & E2 & Hw2). exists w2, d1.
    assert (Hstop : fw_started w2 = false) by (by rewrite Hw2).
    split; [|right; split; [done|by exists ls']]. unfold wbind at 1, wwrap at 1.
    destruct (buildIndex fl (w1, d1)) as [s2 [[]|e|m]]; cbn [fst] in E2; subst s2; [|done..].
    unfold openSegment, wbind. by rewrite Ho.
  - destruct (Start_clean d ls w Hc Hw) as (w' & d' & E & HL & _). exists w', d'. split; [|by left].
    replace (FileWAL_Start fl (w, d)) with (FileWAL_Start no_faults (w, d)); [by rewrite E|].
    unfold FileWAL_Start. rewrite !Hhead. unfold wwrap, wbind, wdir. cbv beta. rewrite Eh.
    destruct (findHighestSegmentIndex no_faults (with_heightIndex ∅ w, d)) as [[w1 d1] [hi|e|m]]; [|done..].
    cbn [rwrap fst snd]. replace (findLowestSegmentIndex fl d1) with (findLowestSegmentIndex no_faults d1)
      by (unfold findLowestSegmentIndex; by rewrite Hr).
    unfold wput. cbn [fst snd]. rewrite (buildIndex_faults fl) by done.
    destruct (buildIndex no_faults _) as [s2 [[]|e|m]]; [|done..]. cbn [rwrap].
    unfold openSegment. by rewrite Ho, Hs.
Qed.

(** ** Sessions *)

(** A log and its directory, with the messages it has acknowledged so far, and those acknowledged
    when it last reported a sync. *)
Record session := mkSession {
  se_state : FileWAL * Dir;
  se_acked : list Message;
  se_synced : list Message }.

Definition session_step (x : session) (a : faults * wop) : session :=
  let '(s, r) := run_op a.1 a.2 (se_state x) in
  let acked := se_acked x ++ (if is_Ret r then op_msgs a.2 else []) in
  mkSession s acked (if is_Ret r && op_syncs a.2 (fw_started (se_state x).1) then acked else se_synced x).

(** Starts a log in a directory with the messages [old], and runs operations, each with its own
    faults. *)
Definition run_session (fl : faults) (w : FileWAL) (d : Dir) (old : list Message) (ops : list (faults * wop)) : session :=
  foldl session_step (mkSession (FileWAL_Start fl (w, d)).1 old old) ops.

Definition attempted (ops : list (faults * wop)) : list Message := concat ((fun a => op_msgs a.2) <$> ops).
Definition cut_at (ops : list (faults * wop)) : list Z := concat ((fun a => op_cuts a.2) <$> ops).

(** The client may expect [acked] of [log], of which the first [n] messages are durable, and
    [synced] of those. *)
Definition agrees (cuts : list Z) (acked synced tried log : list Message) (n : nat) : Prop :=
  kept cuts acked `sublist_of` log /\ log `sublist_of` tried /\ kept cuts synced `sublist_of` take n log.

(** Messages are added at the end, covered ones are removed from the front. *)
Lemma agrees_step cuts acked synced tried log n added p log' new ok_msgs c :
  agrees cuts acked synced tried log n -> (n <= length log)%nat ->
  log ++ added = p ++ log' -> Forall (fun m => Exists (fun h => msg_Height m <= h) c) p ->
  ok_msgs `sublist_of` added -> added `sublist_of` new ->
  agrees (cuts ++ c) (acked ++ ok_msgs) synced (tried ++ new) log' (n - length p) /\
  agrees (cuts ++ c) (acked ++ ok_msgs) (acked ++ ok_msgs) (tried ++ new) log' (length log').
Proof.
  intros (Ha & Ht & Hs) Hn E Hp Hok Hadd.
  assert (Hacked : kept (cuts ++ c) (acked ++ ok_msgs) `sublist_of` log').
  { etrans; [|apply (kept_sublist (cuts ++ c))]. trans (kept (cuts ++ c) (log ++ added)).
    - rewrite !kept_app. apply sublist_app; [by apply kept_more|by apply filter_sublist].
    - by rewrite E, kept_app, kept_cut. }
  assert (Htried : log' `sublist_of` tried ++ new).
  { trans (log ++ added); [rewrite E; by apply sublist_inserts_l|by apply sublist_app]. }
  split; (split; [done|split; [done|]]); [|by rewrite take_ge].
  etrans; [|apply (kept_sublist (cuts ++ c))]. etrans; [by apply kept_more|].
  replace (take n log) with (take n (p ++ log')) by (rewrite <- E; by apply take_app_le).
  rewrite take_app, kept_app, kept_cut; [done|]. by apply Forall_take.
Qed.

Definition session_ok (cuts : list Z) (tried : list Message) (x : session) : Prop :=
  exists log n, Log log n (se_state x) /\ agrees cuts (se_acked x) (se_synced x) tried log n.

Lemma session_step_ok cuts tried x a :
  Forall logged_msg (op_msgs a.2) -> session_ok cuts tried x ->
  session_ok (cuts ++ op_cuts a.2) (tried ++ op_msgs a.2) (session_step x a).
Proof.
  intros Hm (log & n & HL & Hag). unfold session_step.
  pose proof (run_op_Log a.1 a.2 log n (fw_started (se_state x).1) Hm (se_state x) (conj HL eq_refl)) as Hop.
  destruct (run_op a.1 a.2 (se_state x)) as [s r]. cbn [fst snd] in Hop.
  destruct Hop as (added & p & log' & Hadd & E & Hp & HL').
  destruct (agrees_step cuts _ _ _ _ _ added p log' (op_msgs a.2) (if is_Ret r then op_msgs a.2 else []) (op_cuts a.2)
    Hag (Log_le _ _ _ HL) E Hp) as [H1 H2].
  { destruct Hadd as [->|[-> ->]]; [destruct (is_Ret r); [done|apply sublist_nil_l]|done]. }
  { destruct Hadd as [->|[_ ->]]; [done|apply sublist_nil_l]. }
  exists log'. destruct (is_Ret r && _); cbn in *; by eexists.
Qed.

Lemma session_ops_ok cuts tried x ops :
  session_ok cuts tried x -> Forall (fun a => Forall logged_msg (op_msgs a.2)) ops ->
  session_ok (cuts ++ cut_at ops) (tried ++ attempted ops) (foldl session_step x ops).
Proof.
  intros Hx Hops. revert cuts tried x Hx. induction Hops as [|a ops Ha Hops IH]; intros cuts tried x Hx.
  { unfold cut_at, attempted. cbn. by rewrite !app_nil_r. }
  unfold cut_at, attempted. cbn [fmap list_fmap concat foldl]. rewrite !app_assoc. apply IH. by apply session_step_ok.
Qed.

(** A log that has not started stays as it is. *)
Lemma session_ops_stopped x ops :
  fw_started (se_state x).1 = false -> se_acked x = se_synced x ->
  se_state (foldl session_step x ops) = se_state x /\ se_acked (foldl session_step x ops) = se_acked x /\
  se_synced (foldl session_step x ops) = se_acked x.
Proof.
  revert x. induction ops as [|a ops IH]; intros x Hw Hx; [done|]. cbn [foldl].
  assert (E : session_step x a = x); [|rewrite E; by apply IH].
  destruct x as [[w d] acked synced]. cbn in *. subst synced. unfold session_step. cbn [se_state se_acked se_synced fst].
  destruct (run_op_stopped a.1 a.2 w d Hw) as (r & -> & Hr). rewrite Hw. destruct r as [[]|e|m]; cbn in *; [|by rewrite app_nil_r..].
  destruct Hr as [-> ->]; [done|]. by rewrite app_nil_r.
Qed.

(** ** Uses

    A log is used from a clean directory on, in sessions, each with the log started again by the
    same process or by a later one, and between crashes of the system. The indices are the
    directory, the messages acknowledged so far, the ones of them that must have reached the
    disk, all messages that were ever given to the log, and the heights of all checkpoints. What
    was not synced may be lost when a session ends.

    A session starts in a directory that ends at the end of a record and has reached the disk:
    behind a torn record the log loses what it appends. The start can list the directory; what else
    fails is arbitrary, except that in one checkpoint all removals fail or none. The names of the
    segments have five digits. *)
Inductive used : Dir -> list Message -> list Message -> list Message -> list Z -> Prop :=
| used_clean ls d : clean ls d -> used d (concat ls) (concat ls) (concat ls) []
| used_session d ls acked synced tried cuts fl w ops x :
    used d acked synced tried cuts -> clean ls d ->
    fw_started w = false -> f_stat fl = false -> f_readdir fl = false ->
    Forall (fun a => Forall logged_msg (op_msgs a.2)) ops ->
    x = run_session fl w d synced ops -> fw_maxIndex (se_state x).1 + 1 < 100000 ->
    used (se_state x).2 (se_acked x) (se_synced x) (tried ++ attempted ops) (cuts ++ cut_at ops)
| used_crash d acked synced tried cuts keep lost :
    used d acked synced tried cuts -> names_kept lost d ->
    used (crash keep lost d) synced synced tried cuts.

Definition use_ok (d : Dir) (acked synced tried : list Message) (cuts : list Z) : Prop :=
  exists log n, recovers log n d /\ (n <= length log)%nat /\ agrees cuts acked synced tried log n.

(** The end of a session or of the system: of the log, a prefix with the durable part is left. *)
Lemma agrees_take cuts acked synced tried log n m :
  agrees cuts acked synced tried log n -> (n <= m)%nat ->
  agrees cuts synced synced tried (take m log) (length (take m log)).
Proof.
  intros (_ & Ht & Hs) Hm.
  assert (Hs' : kept cuts synced `sublist_of` take m log).
  { etrans; [exact Hs|]. replace (take n log) with (take n (take m log)) by (rewrite take_take; f_equal; lia).
    apply sublist_take. }
  split; [done|]. split; [|by rewrite take_ge]. etrans; [apply sublist_take|done].
Qed.

Lemma run_session_use fl w d ls synced tried cuts ops :
  clean ls d -> agrees cuts synced synced tried (concat ls) (length (concat ls)) ->
  fw_started w = false -> f_stat fl = false -> f_readdir fl = false ->
  Forall (fun a => Forall logged_msg (op_msgs a.2)) ops ->
  let x := run_session fl w d synced ops in
  fw_maxIndex (se_state x).1 + 1 < 100000 ->
  use_ok (se_state x).2 (se_acked x) (se_synced x) (tried ++ attempted ops) (cuts ++ cut_at ops).
Proof.
  intros Hc Hag Hw Hs Hr Hops x. subst x. unfold run_session.
  destruct (Start_faulty fl d ls w Hc Hw Hs Hr) as (w' & d' & -> & [HL|(Hw' & ls' & Hc' & Hcat)]).
  - destruct (session_ops_ok cuts tried (mkSession (w', d') synced synced) ops) as (log & n & HL' & Hag');
      [by eexists _, _|done|]. intros Hi. destruct (se_state _) as [w2 d2]. exists log, n.
    split_and!; [by eapply Log_recovers|by eapply Log_le|done].
  - intros _. destruct (session_ops_stopped (mkSession (w', d') synced synced) ops Hw' eq_refl) as (-> & -> & ->).
    cbn [se_state se_acked snd]. exists (concat ls), (length (concat ls)). rewrite <- Hcat at 1 2.
    split_and!; [by apply clean_recovers|done|].
    destruct (agrees_step cuts _ _ _ _ _ [] [] (concat ls) (attempted ops) [] (cut_at ops) Hag) as [_ H2];
      [done|by rewrite app_nil_r|done|done|apply sublist_nil_l|]. by rewrite app_nil_r in H2.
Qed.

Lemma used_ok d acked synced tried cuts : used d acked synced tried cuts -> use_ok d acked synced tried cuts.
Proof.
  induction 1 as [ls d Hc|d ls acked synced tried cuts fl w ops x Hu (log & n & Hrec & Hn & Hag) Hc Hw Hs Hr Hops -> Hi
                 |d acked synced tried cuts keep lost Hu (log & n & Hrec & Hn & Hag) Hk].
  - exists (concat ls), (length (concat ls)). split_and!; [by apply clean_recovers|done|].
    unfold agrees. rewrite take_ge by done. split_and!; [apply kept_sublist|done|apply kept_sublist].
  - destruct (recovers_clean _ _ _ _ Hrec Hc) as (m & Hm & Hnm). apply run_session_use with ls; try done.
    rewrite Hm. by apply (agrees_take _ acked _ _ _ n).
  - destruct (recovers_crash _ _ _ keep lost Hrec Hk) as (m & Hrec' & Hnm). exists (take m log), (length (take m log)).
    split_and!; [done|done|by apply (agrees_take _ acked _ _ _ n)].
Qed.

(** The segments of a clean directory, for examples. *)
Fixpoint seg_map (lo : Z) (ls : list (list Message)) : gmap Z WFile :=
  match ls with
  | [] => ∅
  | l :: ls => <[lo := durable_file l]> (seg_map (lo + 1) ls)
  end.

Lemma seg_map_holds lo ls :
  0 <= lo -> lo + Z.of_nat (length ls) <= 100000 -> holds lo ls (mkDir None (seg_map lo ls)).
Proof.
  intros Hlo Hn. split; [done|]. split; [split_and!; [done..|]|].
  - clear Hn. cbn [dir_segs]. revert lo Hlo. induction ls as [|l ls IH]; intros lo Hlo idx; cbn [seg_map length].
    { rewrite lookup_empty. split; [by intros []|lia]. }
    destruct (decide (idx = lo)) as [->|Hne]; [rewrite lookup_insert_eq; split; [lia|done]|].
    rewrite lookup_insert_ne, IH by (done || lia). lia.
  - clear Hn Hlo. cbn [dir_segs]. revert lo. induction ls as [|l ls IH]; intros lo i l' Hi; [done|]. cbn [seg_map].
    destruct i as [|i]; [injection Hi as <-; by rewrite Z.add_0_r, lookup_insert_eq|].
    rewrite lookup_insert_ne by lia. rewrite <- (IH (lo + 1) i l' Hi). f_equal. lia.
Qed.

Lemma seg_map_clean lo ls d :
  Forall storable (concat ls) -> 0 <= lo -> lo + Z.of_nat (length ls) <= 100000 ->
  d = mkDir None (seg_map lo ls) -> clean ls d.
Proof. intros Hst Hlo Hn ->. split; [done|]. left. exists lo. by apply seg_map_holds. Qed.
End Recovery.
