(* ===== verification/WalTheorems.v ===== *)
(** * What the write-ahead log promises

    The properties of [FileWAL]: records are read back, synced messages survive crashes, a search
    finds the end of a height, a checkpoint keeps what is above its height. And where the log
    falls short: it goes on behind a torn record, accepts messages its reader rejects, does not
    make the names of its files durable, and takes a directory it cannot list for an empty one. *)

From S2P Require Export WalSessions.

(** ** An encoding for the examples *)

(** Type, height and round in a byte each, then the data. *)
Definition short_codec : WalCodec := {|
  marshal_Walmessage := fun m =>
    Ret (byte_of_Z (msg_Type m) :: byte_of_Z (msg_Height m) :: byte_of_Z (msg_Round m) :: msg_Data m);
  unmarshal_Walmessage := fun b =>
    match b with
    | t :: h :: r :: data => Ret (mkMessage (byte_val t) (byte_val h) (byte_val r) data)
    | _ => Err (errorf "short message")
    end;
  marshal_TimeoutMessage := fun _ => Err (errorf "unused");
  unmarshal_TimeoutMessage := fun _ => Err (errorf "unused");
  unmarshal_Commit := fun _ => Err (errorf "unused");
  unmarshal_ConsensusStateData := fun _ => Err (errorf "unused") |}.

Definition vote_message (h : Z) (b : byte) : Message := mkMessage MsgTypeVote h 0 [b].

(** A log with segments of at least 20 bytes. *)
Definition small_log : FileWAL := mkFileWAL "/wal" [] None true 0 0 false 0 0 20 ∅.

Example small_log_new : NewFileWALWithOptions true "/wal/" 20 = Ret small_log.
Proof. reflexivity. Qed.

Lemma short_storable t h r data :
  0 <= t < 256 -> 0 <= h < 256 -> 0 <= r < 256 -> 3 + len data < maxMsgSize ->
  logged_msg (H := short_codec) (mkMessage t h r data).
Proof.
  intros Ht Hh Hr Hl b [= <-]. unfold encodes. split; [done|]. split.
  - cbn. by rewrite !byte_val_of_Z, !Z.mod_small.
  - unfold len in *. cbn [length msg_Data]. lia.
Qed.

(** A sequence of operations without faults, except that [bad] of them fail to sync. *)
Definition bad_sync : faults := mkFaults None true false false false false false false.
Definition torn_write (n : nat) : faults := mkFaults (Some n) false false false false false false false.

(** ** Records *)

(** C34: a message of less than [maxMsgSize] bytes is read back from its record, whatever follows the
    record; if the record ends too early, the decoder reports the end of the file and no message. *)
Theorem Decode_reads_record `{WalCodec} (msg : Message) (data rest : bytes) (n : nat)
    (Hm : marshal_Walmessage msg = Ret data) (Hu : unmarshal_Walmessage data = Ret msg) (Hl : len data < maxMsgSize) :
  Decode (record data ++ rest) = (rest, Ret msg) /\
  ((n < length (record data))%nat ->
   exists b e, Decode (take n (record data)) = (b, Err e) /\ (e = io_EOF \/ e = io_ErrUnexpectedEOF)).
Proof. split; [by rewrite Decode_record, Hu|by apply Decode_torn]. Qed.

Lemma Decode_reads_record_witness :
  let data := [Byte.x02; Byte.x07; Byte.x00; Byte.xff] in
  Decode (H := short_codec) (record data ++ []) = ([], Ret (vote_message 7 Byte.xff)).
Proof. apply (Decode_reads_record (H := short_codec) (vote_message 7 Byte.xff) _ [] 3); reflexivity. Defined.

(** ** Durability *)

(** C10: a log that is used in any number of sessions, with writes, syncs, searches, checkpoints and
    stops that may fail, and that may be cut short by crashes of the system, is left in some
    directory, and the system crashes once more. Under the conditions of [used], and if the crash
    leaves the names of the segments, a reader finds a prefix of a log that has, in order and
    among other attempted ones, all messages acknowledged and not covered by a checkpoint; and
    the prefix has all of these that were acknowledged before the last acknowledged sync. *)
Theorem synced_messages_survive_crash `{WalCodec} (d : Dir) (acked synced tried : list Message) (cuts : list Z)
    (keep : Z -> nat) (lost : Z -> bool)
    (Hu : used d acked synced tried cuts) (Hk : names_kept lost d) :
  exists log m, reads (crash keep lost d) (take m log) /\
    kept cuts acked `sublist_of` log /\ log `sublist_of` tried /\ kept cuts synced `sublist_of` take m log.
Proof.
  destruct (used_ok _ _ _ _ _ Hu) as (log & n & Hrec & _ & Ha & Ht & Hs).
  destruct (Hrec keep lost Hk) as (m & Hm & Hn). exists log, m. split_and!; [done..|].
  etrans; [exact Hs|]. replace (take n log) with (take n (take m log)) by (rewrite take_take; f_equal; lia).
  apply sublist_take.
Qed.

(** Three votes, of which the last is not synced, and a crash; a start that fails; a session that
    fills two segments, removes the first one, and ends in a write of three bytes. *)
Definition no_open : faults := mkFaults None false true false false false false false.
Definition keep_all_names : Z -> bool := fun _ => false.

Definition ops1 : list (faults * wop) :=
  [(no_faults, OWriteSync (vote_message 1 Byte.x01)); (no_faults, OWriteSync (vote_message 1 Byte.x02));
   (no_faults, OWrite (vote_message 1 Byte.x03))].
Definition ops2 : list (faults * wop) := [(no_faults, OWriteSync (vote_message 2 Byte.x04))].
Definition ops3 : list (faults * wop) :=
  [(no_faults, OWriteSync (vote_message 2 Byte.x05)); (no_faults, OWriteSync (vote_message 2 Byte.x06));
   (no_faults, OWriteSync (vote_message 2 Byte.x07)); (no_faults, OCheckpoint 1); (torn_write 3, OWriteSync (vote_message 2 Byte.x08))].

Definition session1 : session := run_session (H := short_codec) no_faults small_log empty_dir [] ops1.
Definition dir1 : Dir := crash (fun _ => 0%nat) keep_all_names (se_state session1).2.
Definition session2 : session := run_session (H := short_codec) no_open small_log dir1 (se_synced session1) ops2.
Definition session3 : session :=
  run_session (H := short_codec) no_faults small_log (se_state session2).2 (se_synced session2) ops3.

Lemma short_logged (msgs : list Message) :
  Forall (fun m => (0 <=? msg_Type m) && (msg_Type m <? 256) && (0 <=? msg_Height m) && (msg_Height m <? 256) &&
                   (0 <=? msg_Round m) && (msg_Round m <? 256) && (3 + len (msg_Data m) <? maxMsgSize) = true) msgs ->
  Forall (logged_msg (H := short_codec)) msgs.
Proof.
  intros Hm. eapply Forall_impl; [exact Hm|]. intros [t h r data] Hb. cbn in Hb. apply short_storable; lia.
Qed.

Lemma short_storables msgs : Forall (logged_msg (H := short_codec)) msgs -> Forall (storable (H := short_codec)) msgs.
Proof. intros Hm. eapply Forall_impl; [exact Hm|]. intros m Hl. eexists. by apply Hl. Qed.

Lemma short_ops (ops : list (faults * wop)) :
  Forall (logged_msg (H := short_codec)) (attempted ops) ->
  Forall (fun a => Forall (logged_msg (H := short_codec)) (op_msgs a.2)) ops.
Proof.
  intros Hm. induction ops as [|a ops IH]; [constructor|]. unfold attempted in Hm. cbn in Hm.
  apply Forall_app in Hm as [? ?]. constructor; auto.
Qed.

Lemma empty_clean : clean (H := short_codec) [] empty_dir.
Proof. by apply (seg_map_clean 0). Qed.

(** The directory before the second and the third session. *)
Lemma dir1_clean d :
  d = mkDir None (seg_map (H := short_codec) 0 [[vote_message 1 Byte.x01; vote_message 1 Byte.x02]; []]) ->
  clean (H := short_codec) [[vote_message 1 Byte.x01; vote_message 1 Byte.x02]; []] d.
Proof.
  apply (seg_map_clean 0); [|done|vm_compute; congruence].
  apply short_storables, short_logged. by repeat constructor.
Qed.

Lemma session3_used :
  used (H := short_codec) (se_state session3).2 (se_acked session3) (se_synced session3)
    ([] ++ attempted ops1 ++ attempted ops2 ++ attempted ops3) [1].
Proof.
  rewrite !app_assoc.
  refine (used_session (H := short_codec) (se_state session2).2 _ (se_acked session2) (se_synced session2)
    (([] ++ attempted ops1) ++ attempted ops2) [] no_faults small_log ops3 session3
    _ (dir1_clean _ _) _ _ _ (short_ops _ (short_logged _ _)) _ _); [|vm_compute; reflexivity|done..|by repeat constructor|done|vm_compute; reflexivity].
  refine (used_session (H := short_codec) dir1 _ (se_synced session1) (se_synced session1) ([] ++ attempted ops1) [] no_open small_log ops2 session2
    _ (dir1_clean _ _) _ _ _ (short_ops _ (short_logged _ _)) _ _); [|vm_compute; reflexivity|done..|by repeat constructor|done|vm_compute; reflexivity].
  refine (used_crash (H := short_codec) (se_state session1).2 (se_acked session1) (se_synced session1) _ _ (fun _ => 0%nat) keep_all_names _ _); [|done].
  refine (used_session (H := short_codec) empty_dir [] _ _ [] [] no_faults small_log ops1 session1
    (used_clean [] _ empty_clean) empty_clean _ _ _ (short_ops _ (short_logged _ _)) _ _); [done..|by repeat constructor|done|vm_compute; reflexivity].
Qed.

Lemma synced_messages_survive_crash_witness :
  kept [1] (se_synced session3) = [vote_message 2 Byte.x05; vote_message 2 Byte.x06; vote_message 2 Byte.x07] /\
  exists log m, reads (H := short_codec) (crash (fun _ => 2%nat) keep_all_names (se_state session3).2) (take m log) /\
    kept [1] (se_acked session3) `sublist_of` log /\
    log `sublist_of` (attempted ops1 ++ attempted ops2 ++ attempted ops3) /\
    kept [1] (se_synced session3) `sublist_of` take m log.
Proof.
  split; [vm_compute; reflexivity|].
  apply (synced_messages_survive_crash (H := short_codec) _ _ _ _ _ (fun _ => 2%nat) keep_all_names session3_used). done.
Defined.

(** The condition on the names is needed: the log creates segments but never syncs their directory.
    If the names of all segments are lost, so are the messages that were acknowledged as synced. *)
Theorem lost_names_lose_synced `{WalCodec} (log : list Message) (n : nat) (w : FileWAL) (d : Dir) (keep : Z -> nat)
    (HL : Log log n (w, d)) :
  read_log (crash keep (fun _ => true) d) = Err ErrWALNotFound.
Proof.
  destruct HL as (old & cur & k & [_ _ (lo & others & _ & _ & [_ _ _ (f & Hd & _)])] & _ & _). cbn in Hd. subst d.
  assert (E : crash keep (fun _ => true) (mkDir None (<[lo + Z.of_nat (length old) := f]> others)) = empty_dir).
  { unfold crash, empty_dir. cbn [dir_legacy dir_segs]. f_equal. apply map_eq. intros idx.
    rewrite map_lookup_imap, lookup_empty. by destruct (_ !! idx). }
  by rewrite E.
Qed.

(** And the condition that the start can list the directory: if it cannot, [Start] takes the
    directory for an empty one, goes on in the first segment, and a message that is written
    later is read before the others. *)
Definition no_readdir : faults := mkFaults None false false false false false false true.

Theorem Start_without_ReadDir_reorders :
  let x := run_session (H := short_codec) no_faults small_log empty_dir []
    ((fun b => (no_faults, OWriteSync (vote_message 1 b))) <$> [Byte.x01; Byte.x02; Byte.x03; Byte.x04; Byte.x05]) in
  let y := run_session (H := short_codec) no_readdir small_log (se_state x).2 (se_synced x)
    [(no_faults, OWriteSync (vote_message 1 Byte.x06))] in
  se_synced y = vote_message 1 <$> [Byte.x01; Byte.x02; Byte.x03; Byte.x04; Byte.x05; Byte.x06] /\
  read_log (H := short_codec) (se_state y).2 =
    Ret (vote_message 1 <$> [Byte.x01; Byte.x02; Byte.x03; Byte.x04; Byte.x06; Byte.x05], Err io_EOF).
Proof. vm_compute. done. Qed.

(** ** Search and checkpoint *)

Section Single.
Context `{WalCodec}.

(** A log with one segment, all of it durable. *)
Lemma LogInv_single cur w :
  Forall storable cur -> fw_minIndex w = 0 -> fw_maxIndex w = 0 -> fw_segmentIndex w = 0 ->
  fw_err w = None -> fw_buf w = [] ->
  LogInv [] cur (length cur) (w, mkDir None {[0 := durable_file cur]}).
Proof.
  intros Hs E1 E2 E3 E4 E5. split; [done|done|]. exists 0, ∅. split_and!; [done|by split|].
  split; [done..|]. exists (durable_file cur). rewrite take_ge by done. cbn. rewrite E4, E5, app_nil_r. done.
Qed.
End Single.

(** C21: in a log that works, [SearchForEndHeight] finds the end of a height exactly if the log has
    it. The reader it returns reads what comes behind it in the same segment, and then ends. *)
Theorem SearchForEndHeight_finds `{WalCodec} (old : list (list Message)) (cur : list Message) (k : nat)
    (w : FileWAL) (d : Dir) (h : Z)
    (HL : LogInv old cur k (w, d)) (He : fw_err w = None) (Hc : fw_closed w = false) (Hw : fw_started w = true) :
  exists s r, SearchForEndHeight no_faults h (w, d) = (s, Ret r) /\
    match r with
    | Some b => exists pre m rest, pre ++ m :: rest ∈ old ++ [cur] /\ ends_height h m /\ read_segment b = (rest, Err io_EOF)
    | None => Forall (fun m => ~ ends_height h m) (concat old ++ cur)
    end.
Proof.
  destruct (SearchForEndHeight_settled old cur k w d h HL He Hc Hw) as (s & r & E & Hr). exists s, r. split; [done|].
  pose proof (li_storable _ _ _ _ HL) as Hst. destruct r as [b|]; cbn in Hr.
  - destruct Hr as (pre & m & rest & Hin & Hm & ->). exists pre, m, rest. split_and!; [done|done|].
    apply read_segment_records. replace (concat old ++ cur) with (concat (old ++ [cur])) in Hst
      by (rewrite concat_app; cbn; by rewrite app_nil_r).
    apply list_elem_of_split in Hin as (l1 & l2 & Hl). rewrite Hl, concat_app in Hst. cbn in Hst.
    apply Forall_app in Hst as [_ Hst]. apply Forall_app in Hst as [Hst _]. apply Forall_app in Hst as [_ Hst].
    by inversion Hst.
  - by rewrite concat_app in Hr; cbn in Hr; rewrite app_nil_r in Hr.
Qed.

Lemma SearchForEndHeight_finds_witness :
  let cur := [NewEndHeightMessage 4; vote_message 5 Byte.x01] in
  let w := mkFileWAL "/wal" [] None false 0 0 true 0 24 100 ∅ in
  exists s r, SearchForEndHeight (H := short_codec) no_faults 4 (w, mkDir None {[0 := durable_file (H := short_codec) cur]}) = (s, Ret r) /\
    match r with
    | Some b => exists pre m rest, pre ++ m :: rest ∈ [] ++ [cur] /\ ends_height 4 m /\
                  read_segment (H := short_codec) b = (rest, Err io_EOF)
    | None => Forall (fun m => ~ ends_height 4 m) (concat [] ++ cur)
    end.
Proof.
  apply (SearchForEndHeight_finds (H := short_codec) [] _ 2); [|reflexivity..].
  apply LogInv_single; [|reflexivity..]. repeat apply Forall_cons_2; [| |apply Forall_nil_2];
    (eexists; apply short_storable; [by vm_compute..|reflexivity]).
Defined.

(** C22: [Checkpoint] removes whole segments at the front of the log and keeps the rest of it as it
    was; no message above the height is removed, and the first segment that is kept, unless it
    is the current one, has such a message. *)
Theorem Checkpoint_keeps_above `{WalCodec} (old : list (list Message)) (cur : list Message) (k : nat)
    (w : FileWAL) (d : Dir) (h : Z) (Hh : 0 <= h)
    (HL : LogInv old cur k (w, d)) (Hw : fw_started w = true) :
  exists c s, Checkpoint no_faults h (w, d) = (s, Ret tt) /\ LogInv (drop c old) cur k s /\
    Forall (fun m => msg_Height m <= h) (concat (take c old)) /\
    (forall l, old !! c = Some l -> Exists (fun m => h < msg_Height m) l).
Proof.
  destruct (Checkpoint_log old cur k w d h HL Hw) as (c & s & E & HL' & Hb & Hn). exists c, s. split_and!; [done..|].
  intros l Hl. specialize (Hn l Hl Hh). unfold below in Hn. apply not_Forall_Exists in Hn; [|apply _].
  eapply Exists_impl; [exact Hn|]. cbn. lia.
Qed.

(** Two old segments, the second of them above the height. *)
Lemma Checkpoint_keeps_above_witness :
  let old := [[vote_message 1 Byte.x01]; [vote_message 2 Byte.x02]] in
  let file := durable_file (H := short_codec) in
  let w := mkFileWAL "/wal" [] None false 0 2 true 2 0 20 ∅ in
  let d := mkDir None (<[2 := file []]> {[0 := file [vote_message 1 Byte.x01]; 1 := file [vote_message 2 Byte.x02]]}) in
  exists c s, Checkpoint (H := short_codec) no_faults 1 (w, d) = (s, Ret tt) /\ LogInv (H := short_codec) (drop c old) [] 0 s /\
    Forall (fun m => msg_Height m <= 1) (concat (take c old)) /\
    (forall l, old !! c = Some l -> Exists (fun m => 1 < msg_Height m) l).
Proof.
  apply (Checkpoint_keeps_above (H := short_codec)); [done| |reflexivity]. split; [|done|].
  - repeat apply Forall_cons_2; [| |apply Forall_nil_2]; (eexists; apply short_storable; [by vm_compute..|reflexivity]).
  - eexists 0, _. split_and!; [done| |].
    2: { split; [reflexivity..|]. eexists. split; [reflexivity|]. cbn. split; [lia|done]. }
    split.
    + intros [|[|i]] b Hb; cbn in Hb; simplify_eq; reflexivity.
    + intros idx f Hf Hne. left. cbn. apply lookup_insert_Some in Hf as [[<- _]|[_ Hf]]; [lia|].
      apply lookup_singleton_Some in Hf as [<- _]. lia.
Defined.

(** ** A log without faults *)

Section Works.
Context `{WalCodec}.

(** The log is started, the writer has no error and its file is open; [size] is how far it is in
    the segment, of [max] at most. *)
Definition works (size max : Z) (s : FileWAL * Dir) : Prop :=
  fw_err s.1 = None /\ fw_closed s.1 = false /\ fw_segmentSize s.1 = size /\ fw_maxSegSize s.1 = max /\
  fw_started s.1 = true.

Lemma buf_Flush_works size max : wtriple (works size max) (buf_Flush no_faults) (fun r s => r = Ret tt /\ works size max s).
Proof.
  apply wtriple_get. intros w. destruct (fw_err w) as [e|] eqn:He.
  { apply wtriple_err. intros s [[He' _] <-]. congruence. }
  case_bool_decide; [apply wtriple_ret; by intros s [? _]|].
  intros [w0 d] [(_ & Hc & Hs) <-]. unfold file_Write, wbind, wget. cbn in *. rewrite Hc. done.
Qed.

Lemma buf_Write_direct_works size max p :
  wtriple (works size max) (buf_Write_direct no_faults p) (fun r s => r = Ret tt /\ works size max s).
Proof.
  intros [w0 d] (_ & Hc & Hs). unfold buf_Write_direct, file_Write, wbind, wget. cbn in *. rewrite Hc. done.
Qed.

Lemma buf_Write_works size max p : wtriple (works size max) (buf_Write no_faults p) (fun r s => r = Ret tt /\ works size max s).
Proof.
  apply wtriple_get. intros w. destruct (fw_err w) as [e|] eqn:He.
  { apply wtriple_err. intros s [[He' _] <-]. congruence. }
  cbv zeta. destruct (len p <=? _); [apply wtriple_put_last; intros w0 d [(? & ? & ?) _]; done|].
  case_bool_decide; [eapply wtriple_weaken; [apply buf_Write_direct_works|by intros s [? _]|done]|].
  apply (wtriple_bind _ (fun r s => r = Ret tt /\ works size max s)); [| |by intros ? ? [? _]|by intros ? ? [? _]].
  { apply wtriple_put_last. intros w0 d [(? & ? & ?) _]. done. }
  intros []. eapply wtriple_bind; [eapply wtriple_weaken; [apply (buf_Flush_works size max)|by intros s [_ ?]|done]| | |];
    [|by intros ? ? [? _]|by intros ? ? [? _]].
  intros []. destruct (_ <=? _).
  - apply wtriple_put_last. intros w0 d [_ (? & ? & ?)]. done.
  - eapply wtriple_weaken; [apply (buf_Write_direct_works size max)|by intros s [_ ?]|done].
Qed.

Lemma Encode_works size max msg data :
  marshal_Walmessage msg = Ret data ->
  wtriple (works size max) (Encode no_faults msg) (fun r s => r = Ret (4 + len data + 4) /\ works size max s).
Proof.
  intros Hm. unfold Encode. rewrite Hm. cbv zeta.
  assert (Hnext : forall A p (m : WM A) Q, wtriple (works size max) m Q -> wtriple (works size max) (buf_Write no_faults p >> m) Q).
  { intros A p m Q Hk. eapply wtriple_bind; [apply buf_Write_works| |by intros ? ? [? _]|by intros ? ? [? _]].
    intros []. eapply wtriple_weaken; [exact Hk|by intros s [_ ?]|done]. }
  do 3 apply Hnext. by apply wtriple_ret.
Qed.

Lemma flushAndSync_works size max :
  wtriple (works size max) (flushAndSync no_faults) (fun r s => r = Ret tt /\ works size max s).
Proof.
  eapply wtriple_bind; [apply buf_Flush_works| |by intros ? ? [? _]|by intros ? ? [? _]].
  intros []. intros [w d] [_ (He & Hc & Hs)]. unfold file_Sync, wbind, wget. cbn in *. rewrite Hc. done.
Qed.

Lemma Stream_put lo hi others b k f :
  (forall w, fw_minIndex (f w) = fw_minIndex w /\ fw_maxIndex (f w) = fw_maxIndex w /\
     fw_segmentIndex (f w) = fw_segmentIndex w /\ fw_buf (f w) = fw_buf w /\ fw_err (f w) = fw_err w) ->
  forall w d, Stream lo hi others b k (w, d) -> Stream lo hi others b k (f w, d).
Proof.
  intros Hf w d [? ? ? (g & ? & ? & Hb)]. destruct (Hf w) as (E1 & E2 & E3 & E4 & E5). cbn in *.
  split; cbn; [congruence..|]. exists g. rewrite E4, E5. done.
Qed.

Lemma works_put size max size' f :
  (forall w, fw_err (f w) = fw_err w /\ fw_closed (f w) = fw_closed w /\ fw_maxSegSize (f w) = fw_maxSegSize w /\
     fw_started (f w) = fw_started w /\ (fw_segmentSize w = size -> fw_segmentSize (f w) = size')) ->
  forall w d, works size max (w, d) -> works size' max (f w, d).
Proof.
  intros Hf w d (? & ? & ? & ? & ?). destruct (Hf w) as (E1 & E2 & E3 & E4 & E5). unfold works. cbn in *.
  rewrite E1, E2, E3, E4. auto.
Qed.

(** A log that works, with the bytes [b] in the current segment. *)
Definition at_work lo hi others (b : bytes) (size max : Z) (s : FileWAL * Dir) : Prop :=
  works size max s /\ exists k, Stream lo hi others b k s.

Lemma at_work_put lo hi others b size max size' f :
  (forall w, fw_minIndex (f w) = fw_minIndex w /\ fw_maxIndex (f w) = fw_maxIndex w /\
     fw_segmentIndex (f w) = fw_segmentIndex w /\ fw_buf (f w) = fw_buf w /\ fw_err (f w) = fw_err w) ->
  (forall w, fw_err (f w) = fw_err w /\ fw_closed (f w) = fw_closed w /\ fw_maxSegSize (f w) = fw_maxSegSize w /\
     fw_started (f w) = fw_started w /\ (fw_segmentSize w = size -> fw_segmentSize (f w) = size')) ->
  wtriple (at_work lo hi others b size max) (wput f) (fun r s => r = Ret tt /\ at_work lo hi others b size' max s).
Proof.
  intros H1 H2. apply wtriple_put_last. intros w d [Hw [k HS]]. split; [done|].
  split; [by eapply works_put|exists k; by apply Stream_put].
Qed.

(** A synced write without faults puts the record into the file, whatever its size. *)
Lemma WriteSync_stream lo hi others b size max msg data :
  size < max -> marshal_Walmessage msg = Ret data ->
  wtriple (at_work lo hi others b size max) (FileWAL_WriteSync no_faults msg) (fun r s =>
    r = Ret tt /\ at_work lo hi others (b ++ record data) (size + (4 + len data + 4)) max s /\
    Stream lo hi others (b ++ record data) (length (b ++ record data)) s /\ fw_buf s.1 = []).
Proof.
  intros Hsize Hm. set (size' := size + (4 + len data + 4)).
  apply wtriple_get. intros w. apply (wtriple_pure (works size max (w, empty_dir))); [by intros s [[Hs _] <-]|].
  intros (_ & _ & Hz & Hx & Hst). cbn in Hz, Hx, Hst. rewrite Hst, Hz, Hx, Z.geb_leb. cbn [negb].
  destruct (Z.leb_spec max size); [lia|].
  apply (wtriple_bind _ (fun r s => r = Ret tt /\ at_work lo hi others b size max s));
    [apply wtriple_ret; by intros s [? _]| |by intros ? ? [? _]|by intros ? ? [? _]].
  intros []. apply (wtriple_bind _ (fun r s => r = Ret (4 + len data + 4) /\ at_work lo hi others (b ++ record data) size max s));
    [| |by intros ? ? [? _]|by intros ? ? [? _]].
  { intros s [_ [Hw [k HS]]]. destruct (Encode_works size max msg data Hm s Hw) as [Er Hw'].
    pose proof (Encode_spec no_faults lo hi others b k msg data Hm s HS) as [HS' _].
    split; [done|]. split; [done|by exists k]. }
  intros n. apply (wtriple_pure (n = 4 + len data + 4)); [by intros s [[= ->] _]|intros ->].
  apply (wtriple_bind _ (fun r s => r = Ret tt /\ at_work lo hi others (b ++ record data) size' max s));
    [| |by intros ? ? [? _]|by intros ? ? [? _]].
  { eapply wtriple_weaken; [apply (at_work_put lo hi others (b ++ record data) size max size')|by intros s [_ ?]|done]; [done|].
    intros w0. cbn. split_and!; try done. unfold size'. lia. }
  intros []. apply (wtriple_bind _ (fun r s => r = Ret tt /\ at_work lo hi others (b ++ record data) size' max s));
    [| |by intros ? ? [? _]|by intros ? ? [? _]].
  { destruct (_ =? _); [|apply wtriple_ret; by intros s [_ ?]].
    eapply wtriple_weaken; [apply (at_work_put lo hi others (b ++ record data) size' max size')|by intros s [_ ?]|done]; intros w0;
      destruct (pruneHeightIndex_framed (with_heightIndex (<[msg_Height msg := fw_segmentIndex w0]> (fw_heightIndex w0)) w0))
        as [m ->]; done. }
  intros [] s [_ [Hw [k HS]]]. cbn. destruct (flushAndSync_works size' max s Hw) as [Er Hw'].
  pose proof (flushAndSync_spec no_faults lo hi others _ k s HS) as [HS' Hb]. rewrite Er in HS', Hb. cbn in HS', Hb.
  split_and!; [done|split; [done|by eexists]|done|by apply Hb].
Qed.

(** What is in the file once the buffer is empty. *)
Lemma Stream_data lo hi others b k w d :
  Stream lo hi others b k (w, d) -> fw_err w = None -> fw_buf w = [] -> seg_data (fw_segmentIndex w) d = b.
Proof.
  intros [_ _ Hcur (f & Hd & _ & Hb)] He Hbuf. cbn in *. rewrite He, Hbuf, app_nil_r in Hb.
  unfold seg_data. rewrite Hcur, Hd. cbn. by rewrite lookup_insert_eq.
Qed.
End Works.

(** ** Behind a torn record *)

Section Torn.
Context `{WalCodec}.

(** A directory with the segments [old], and in the last one behind [cur] a part of a record. *)
Definition torn (lo : Z) (old : list (list Message)) (cur : list Message) (part : bytes) (d : Dir) : Prop :=
  dir_legacy d = None /\ numbered lo (S (length old)) d /\
  (forall i l, old !! i = Some l -> dir_segs d !! (lo + Z.of_nat i) = Some (durable_file l)) /\
  dir_segs d !! (lo + Z.of_nat (length old)) = Some (mkWFile (recs cur ++ part) (length (recs cur ++ part))).

(** [Start] goes on behind the part. *)
Lemma Start_torn lo old cur part d w :
  torn lo old cur part d -> fw_started w = false ->
  exists w', FileWAL_Start no_faults (w, d) = ((w', d), Ret tt) /\
    let b := recs cur ++ part in let hi := lo + Z.of_nat (length old) in
    at_work lo hi (dir_segs d) b (len b) (fw_maxSegSize w) (w', d) /\
    Stream lo hi (dir_segs d) b (length b) (w', d) /\ fw_buf w' = [].
Proof.
  intros (Hleg & Hnum & Hold & Hcur) Hw. destruct (highest_numbered _ _ _ Hnum) as [Hhi Hlo].
  set (hi := lo + Z.of_nat (length old)) in *.
  assert (Hfind : findHighestSegmentIndex no_faults (with_heightIndex ∅ w, d) = ((with_heightIndex ∅ w, d), Ret hi)).
  { unfold findHighestSegmentIndex, wbind, wdir, wret. cbn [fst snd]. rewrite Hleg.
    change (f_stat no_faults) with false. change (f_readdir no_faults) with false. cbv iota zeta. rewrite Hhi.
    destruct Hnum as [? _]. destruct (Z.ltb_spec hi 0); [lia|done]. }
  destruct (Start_steps w d d hi Hw Hfind) as (w' & E & Emin & Emax & Eseg & Eerr & Ebuf & Est & Ecl & Ex & Esz).
  rewrite (create_present _ _ _ Hcur) in *. exists w'. split; [done|]. cbv zeta.
  assert (HS : Stream lo hi (dir_segs d) (recs cur ++ part) (length (recs cur ++ part)) (w', d)).
  { split; cbn; [congruence..|]. exists (mkWFile (recs cur ++ part) (length (recs cur ++ part))). cbn.
    split_and!; [|done|done|by rewrite Eerr, Ebuf, app_nil_r]. rewrite insert_id by done. destruct d. cbn in *. by subst. }
  split_and!; [|done|done]. split; [|by eexists]. unfold works. cbn.
  rewrite Esz. unfold seg_data. by rewrite Hcur.
Qed.

(** Synced writes without faults append their records. *)
Lemma session_appends lo hi others ms b size max x :
  Forall storable ms -> size + len (recs ms) <= max ->
  at_work lo hi others b size max (se_state x) -> Stream lo hi others b (length b) (se_state x) ->
  fw_buf (se_state x).1 = [] -> se_acked x = se_synced x ->
  let y := foldl session_step x ((fun m => (no_faults, OWriteSync m)) <$> ms) in
  fw_err (se_state y).1 = None /\ fw_buf (se_state y).1 = [] /\ se_synced y = se_synced x ++ ms /\
  Stream lo hi others (b ++ recs ms) (length (b ++ recs ms)) (se_state y).
Proof.
  intros Hms. revert b size x. induction Hms as [|m ms [data Hm] Hms IH]; intros b size x Hsize Hw HS Hb Hx.
  { cbn. rewrite !app_nil_r. split_and!; try done. by destruct Hw as [[? _] _]. }
  rewrite recs_cons, (rec_of_encodes _ _ Hm), app_assoc in *. unfold len in Hsize. rewrite length_app, record_length in Hsize.
  destruct (WriteSync_stream lo hi others b size max m data ltac:(lia) (proj1 Hm) _ Hw) as (Er & Hw' & HS' & Hb').
  cbn [fmap list_fmap foldl]. set (x' := session_step x (no_faults, OWriteSync m)).
  assert (Hstep : se_state x' = (FileWAL_WriteSync no_faults m (se_state x)).1 /\ se_acked x' = se_synced x' /\
    se_synced x' = se_synced x ++ [m]).
  { unfold x', session_step. cbn [fst snd run_op]. destruct (FileWAL_WriteSync no_faults m (se_state x)) as [s r].
    cbn in Er. subst r. cbn. by rewrite Hx. }
  destruct Hstep as (Es & Ha & Ey). rewrite <- Es in Hw', HS', Hb'.
  destruct (IH (b ++ record data) (size + (4 + len data + 4)) x' ltac:(unfold len; lia) Hw' HS' Hb' Ha) as (? & ? & E & ?). split_and!; [done..| |done].
  by rewrite E, Ey, <- app_assoc.
Qed.

(** A reader of the directory stops at the part, as long as too little is behind it. *)
Lemma torn_reads lo old cur (data y : bytes) d keep lost :
  Forall storable (concat old ++ cur) -> len data < maxMsgSize -> (length y < length data + 4)%nat ->
  torn lo old cur (PutUint32 (u32 (len data)) ++ y) d -> names_kept lost d ->
  reads (crash keep lost d) (concat old ++ cur).
Proof.
  intros [Hold Hcs]%Forall_app Hl Hy (Hleg & Hnum & Hfiles & Hcur) Hk. set (part := PutUint32 _ ++ y) in *.
  destruct (Decode_short data y Hl Hy) as (b & e & Hd & _). fold part in Hd.
  assert (Hread : read_segment (recs cur ++ part) = (cur, Err e)).
  { unfold read_segment. pose proof (recs_length cur Hcs).
    rewrite decode_all_app by (done || (rewrite length_app; lia)).
    destruct (_ - length cur)%nat eqn:En; [rewrite length_app in En; lia|]. cbn [decode_all]. by rewrite Hd, app_nil_r. }
  left. rewrite (read_log_segments _ lo (length old) ((recs <$> old) ++ [recs cur ++ part])).
  - rewrite read_files_whole by done. cbn [read_files]. rewrite Hread.
    case_bool_decide; rewrite ?app_nil_r; by eexists.
  - cbn. by rewrite Hleg.
  - by apply numbered_crash.
  - replace (Z.of_nat (S (length old))) with (Z.of_nat (length old) + 1) by lia. rewrite seqZ_app by lia.
    apply Forall2_app.
    + apply Forall2_same_length_lookup_2; [rewrite length_seqZ, length_fmap; lia|]. intros i idx b' Hi Hb.
      apply lookup_seqZ in Hi as [-> Hi]. rewrite list_lookup_fmap in Hb. apply fmap_Some in Hb as (l & Hb & ->).
      rewrite crash_lookup, (Hfiles _ _ Hb) by done. cbn [fmap option_fmap option_map].
      unfold durable_file. by rewrite crash_whole.
    + rewrite (seqZ_cons (lo + _)) by lia. constructor; [|done]. rewrite crash_lookup, Hcur by done.
      cbn [fmap option_fmap option_map]. by rewrite crash_whole.
Qed.
End Torn.

(** C37: a write that does not reach the disk whole before a crash leaves a part of its record at the
    end of the last segment. If the part has the header of the record, the log starts there
    again, and acknowledges messages as synced, but as long as they are shorter than what the
    record lacks, and fit into the segment, no reader of the log finds any of them, with or
    without a further crash: it stops at the part. *)
Theorem restart_after_torn_record_loses_synced `{WalCodec} (lo : Z) (old : list (list Message)) (cur ms : list Message)
    (data : bytes) (j : nat) (d : Dir) (w : FileWAL)
    (Hd : torn lo old cur (take j (record data)) d) (Hst : Forall storable (concat old ++ cur))
    (Hl : len data < maxMsgSize) (Hj : (4 <= j)%nat) (Hw : fw_started w = false)
    (Hms : Forall storable ms) (Hshort : (j + length (recs ms) < length (record data))%nat)
    (Hsize : len (recs cur) + len (record data) <= fw_maxSegSize w) :
  let x := run_session no_faults w d [] ((fun m => (no_faults, OWriteSync m)) <$> ms) in
  (FileWAL_Start no_faults (w, d)).2 = Ret tt /\ se_synced x = ms /\
  forall keep lost, names_kept lost (se_state x).2 -> reads (crash keep lost (se_state x).2) (concat old ++ cur).
Proof.
  destruct (Start_torn _ _ _ _ _ w Hd Hw) as (w' & E & Hwork & HS & Hb). unfold run_session. rewrite E. cbn [fst snd].
  rewrite record_length in Hshort. pose proof Hd as (Hleg & Hnum & Hfiles & Hcur).
  assert (Hfit : len (recs cur ++ take j (record data)) + len (recs ms) <= fw_maxSegSize w).
  { unfold len in *. rewrite length_app, length_take. rewrite record_length in *. lia. }
  destruct (session_appends _ _ _ ms _ _ _ (mkSession (w', d) [] []) Hms Hfit Hwork HS Hb eq_refl) as (He' & Hb' & Hsyn & HS').
  destruct (foldl session_step _ _) as [[w2 d2] acked synced]. cbn [se_state se_synced fst snd] in *.
  split_and!; [done|done|]. intros keep lost Hk.
  destruct HS' as [_ _ Hseg (f & Hd2 & Hsy & Hdata)]. cbn [fst snd] in *. rewrite He', Hb', app_nil_r in Hdata.
  destruct f as [fdata fsync]. cbn [wf_data wf_synced] in Hsy, Hdata. subst fdata.
  assert (fsync = length ((recs cur ++ take j (record data)) ++ recs ms)) as -> by lia. clear Hsy.
  apply (torn_reads lo old cur data (take (j - 4) (data ++ PutUint32 (crc32_ChecksumIEEE data)) ++ recs ms)); [done..| | |done].
  - rewrite length_app, length_take. lia.
  - assert (Hpart : take j (record data) = PutUint32 (u32 (len data)) ++ take (j - 4) (data ++ PutUint32 (crc32_ChecksumIEEE data))).
    { unfold record. by rewrite take_app, PutUint32_length, (take_ge (PutUint32 _)) by (cbn; lia). }
    rewrite Hpart in *. subst d2. cbn [dir_legacy dir_segs]. split; [done|]. split_and!.
    + destruct Hnum as (? & ? & Hnum). split_and!; [done..|]. intros idx. rewrite <- Hnum. cbn.
      destruct (decide (idx = lo + Z.of_nat (length old))) as [->|]; [|by rewrite lookup_insert_ne].
      rewrite lookup_insert_eq, Hcur. split; by eexists.
    + intros i l Hi. cbn. rewrite lookup_insert_ne by (apply lookup_lt_Some in Hi; lia). by apply Hfiles.
    + cbn. rewrite lookup_insert_eq. by rewrite <- !app_assoc.
Qed.

(** A proposal with 20 bytes of data is written, but the sync fails and the crash leaves five bytes
    of its record. *)
Definition large_log : FileWAL := mkFileWAL "/wal" [] None true 0 0 false 0 0 1000 ∅.
Definition large_proposal : Message := mkMessage MsgTypeProposal 1 0 (replicate 20 Byte.x02).
Definition torn_session : session := run_session (H := short_codec) no_faults large_log empty_dir []
  [(no_faults, OWriteSync (vote_message 1 Byte.x01)); (bad_sync, OWriteSync large_proposal)].

Lemma restart_after_torn_record_loses_synced_witness :
  let d := crash (fun _ => 5%nat) keep_all_names (se_state torn_session).2 in
  let x := run_session (H := short_codec) no_faults large_log d [] [(no_faults, OWriteSync (vote_message 1 Byte.x03))] in
  (FileWAL_Start (H := short_codec) no_faults (large_log, d)).2 = Ret tt /\ se_synced x = [vote_message 1 Byte.x03] /\
  forall keep lost, names_kept lost (se_state x).2 ->
    reads (H := short_codec) (crash keep lost (se_state x).2) [vote_message 1 Byte.x01].
Proof.
  apply (restart_after_torn_record_loses_synced (H := short_codec) 0 [] [vote_message 1 Byte.x01] [vote_message 1 Byte.x03]
    (Byte.x01 :: Byte.x01 :: Byte.x00 :: replicate 20 Byte.x02) 5); [| |done|lia|done| |vm_compute; lia|vm_compute; congruence].
  - split; [done|]. split; [|by split; [|vm_compute]]. split_and!; [done..|]. intros idx.
    replace (dir_segs _) with ({[0 := mkWFile (recs (H := short_codec) [vote_message 1 Byte.x01] ++ [Byte.x00; Byte.x00; Byte.x00; Byte.x17; Byte.x01]) 17]} : gmap Z WFile)
      by (vm_compute; reflexivity). cbn. rewrite lookup_singleton_is_Some. lia.
  - apply short_storables, short_logged. by repeat constructor.
  - apply short_storables, short_logged. by repeat constructor.
Defined.

(** ** Messages that are too large *)

(** A message of [maxMsgSize] bytes or more can be written and synced, but hides all that comes
    behind it: a reader of the segment stops there, whatever is written later. *)
Theorem oversized_message_hides_log `{WalCodec} (old : list (list Message)) (cur : list Message) (k : nat)
    (w : FileWAL) (d : Dir) (msg : Message) (data : bytes)
    (HL : LogInv old cur k (w, d)) (He : fw_err w = None) (Hc : fw_closed w = false) (Hw : fw_started w = true)
    (Hs : fw_segmentSize w < fw_maxSegSize w) (Hm : marshal_Walmessage msg = Ret data)
    (Hl : maxMsgSize <= len data < 2 ^ 32) :
  exists w' d', FileWAL_WriteSync no_faults msg (w, d) = ((w', d'), Ret tt) /\
    forall later, exists e, read_segment (seg_data (fw_segmentIndex w') d' ++ later) = (cur, Err e) /\
      errors_Is e ErrWALCorrupted = true.
Proof.
  destruct HL as [Hst _ (lo & others & _ & _ & HS)].
  destruct (WriteSync_stream _ _ _ _ (fw_segmentSize w) (fw_maxSegSize w) msg data Hs Hm (w, d)
    (conj (conj He (conj Hc (conj eq_refl (conj eq_refl Hw)))) (ex_intro _ _ HS))) as (E & [(He' & _) _] & HS' & Hb).
  destruct (FileWAL_WriteSync no_faults msg (w, d)) as [[w' d'] r]. cbn [fst snd] in *. subst r.
  exists w', d'. split; [done|]. intros later. rewrite (Stream_data _ _ _ _ _ _ _ HS' He' Hb), <- app_assoc. apply Forall_app in Hst as [_ Hst].
  exists (wrapf ErrWALCorrupted "%w: message size %d >= max %d"). split; [|reflexivity].
  unfold read_segment. pose proof (recs_length cur Hst).
  rewrite decode_all_app by (done || (rewrite length_app; lia)).
  destruct (_ - length cur)%nat eqn:En; [rewrite length_app in En; lia|]. cbn [decode_all].
  destruct (Decode_oversize data later Hl) as [b ->]. by rewrite app_nil_r.
Qed.

Lemma large_data : exists data : bytes, len data = maxMsgSize.
Proof.
  exists (replicate (Z.to_nat maxMsgSize) Byte.x00). unfold len. rewrite length_replicate. apply Z2Nat.id. by vm_compute.
Qed.

Lemma oversized_message_hides_log_witness :
  let cur := [vote_message 5 Byte.x01] in
  let w := mkFileWAL "/wal" [] None false 0 0 true 0 12 100 ∅ in
  exists msg w' d',
    FileWAL_WriteSync (H := short_codec) no_faults msg (w, mkDir None {[0 := durable_file (H := short_codec) cur]}) = ((w', d'), Ret tt) /\
    forall later, exists e, read_segment (H := short_codec) (seg_data (fw_segmentIndex w') d' ++ later) = (cur, Err e) /\
      errors_Is e ErrWALCorrupted = true.
Proof.
  destruct large_data as [data Hdata]. exists (mkMessage MsgTypeProposal 5 0 data).
  eapply (oversized_message_hides_log (H := short_codec) [] _ 1); [|reflexivity..|].
  - apply LogInv_single; [|reflexivity..]. repeat apply Forall_cons_2; [|apply Forall_nil_2].
    eexists; apply short_storable; [by vm_compute..|reflexivity].
  - unfold len, maxMsgSize in *. cbn [length msg_Data]. lia.
Defined.
