(* ===== verification/Privval.v ===== *)
(** * The file-based private validator (src/privval)

    [LastSignState.CheckHRS], signing with persistence before release, loading and saving
    of the key and state files with every system call that may fail, and the lock file. The
    main theorem follows the log of all signatures handed out by the processes that share the
    files, through failed writes, crashes and restarts. *)

From S2P Require Export Concrete.

Definition privval_ErrDoubleSign : error := sentinel "privval.ErrDoubleSign".
Definition ErrHeightRegression : error := sentinel "privval.ErrHeightRegression".
Definition ErrRoundRegression : error := sentinel "privval.ErrRoundRegression".
Definition ErrStepRegression : error := sentinel "privval.ErrStepRegression".

(** ** signer.go *)

Record LastSignState := mkLastSignState {
  lss_Height : Z;
  lss_Round : Z;
  lss_Step : Z;
  lss_Signature : Signature;
  lss_BlockHash : option Hash;
  lss_SignBytesHash : option Hash;
  lss_Timestamp : Z }.

Definition zeroLastSignState : LastSignState := mkLastSignState 0 0 0 (mkSignature []) None None 0.

Definition StepProposal : Z := 0.
Definition StepPrevote : Z := 1.
Definition StepPrecommit : Z := 2.

Definition CheckHRS (lss : LastSignState) (height round step : Z) : option error :=
  if! lss_Height lss >? height return Some ErrHeightRegression in
  if lss_Height lss =? height then
    if! lss_Round lss >? round return Some ErrRoundRegression in
    if lss_Round lss =? round then
      if! lss_Step lss >? step return Some ErrStepRegression in
      if! lss_Step lss =? step return Some privval_ErrDoubleSign in
      None
    else None
  else None.

Definition VoteStep (voteType : Z) : res Z :=
  if voteType =? VoteTypePrevote then Ret StepPrevote
  else if voteType =? VoteTypePrecommit then Ret StepPrecommit
  else Panic "privval: invalid vote type: %v".

(** gen.LastSignState lacks the sign-bytes hash and the timestamp. *)
Record gen_LastSignState := mkGenLastSignState {
  glss_Height : Z;
  glss_Round : Z;
  glss_Step : Z;
  glss_BlockHash : option Hash;
  glss_Signature : Signature }.

Definition ToGenerated (lss : LastSignState) : gen_LastSignState :=
  mkGenLastSignState (lss_Height lss) (lss_Round lss) (lss_Step lss) (lss_BlockHash lss)
    (lss_Signature lss).

Definition LastSignStateFromGenerated (g : gen_LastSignState) : LastSignState :=
  mkLastSignState (glss_Height g) (glss_Round g) (glss_Step g) (glss_Signature g)
    (glss_BlockHash g) None 0.

(** ** file_pv.go: files

    A file's content is the value its JSON text decodes to: [encoding/json] restores the
    integers and byte slices it wrote, an omitted or empty slice being empty. *)

Record FilePVKey := mkFilePVKey { key_PubKey : bytes; key_PrivKey : bytes }.

Record FilePVState := mkFilePVState {
  st_Height : Z;
  st_Round : Z;
  st_Step : Z;
  st_Signature : bytes;
  st_BlockHash : bytes;
  st_SignBytesHash : bytes;
  st_Timestamp : Z }.

Inductive file (A : Type) : Type :=
| Missing
| Unreadable
| Garbled
| File (a : A).
Arguments Missing {A}.
Arguments Unreadable {A}.
Arguments Garbled {A}.
Arguments File {A} a.

(** The permission bits belong to the key file; [disk_lock] is the process that holds the
    [flock]. *)
Record disk := mkDisk {
  disk_key : file FilePVKey;
  disk_key_perm : Z;
  disk_state : file FilePVState;
  disk_lock : option nat }.

Record FilePV := mkFilePV {
  pv_pubKey : PublicKey;
  pv_privKey : bytes;
  pv_lastSignState : LastSignState;
  pv_lockFile : bool }.

Definition with_lss (s : LastSignState) (pv : FilePV) : FilePV :=
  mkFilePV (pv_pubKey pv) (pv_privKey pv) s (pv_lockFile pv).

Definition with_state_file (f : file FilePVState) (d : disk) : disk :=
  mkDisk (disk_key d) (disk_key_perm d) f (disk_lock d).

Definition with_key_file (f : file FilePVKey) (perm : Z) (d : disk) : disk :=
  mkDisk f perm (disk_state d) (disk_lock d).

Definition with_lock (l : option nat) (d : disk) : disk :=
  mkDisk (disk_key d) (disk_key_perm d) (disk_state d) l.

(** The system calls of one save, and of taking the lock, that may fail. *)
Inductive syscall :=
| SysMkdirAll | SysWriteFile | SysOpenTmp | SysSyncTmp | SysRename | SysOpenDir | SysSyncDir
| SysOpenLock.

Definition keyFilePerm : Z := 384. (* 0600 *)

Definition state_of (lss : LastSignState) : FilePVState :=
  {| st_Height := lss_Height lss;
     st_Round := lss_Round lss;
     st_Step := lss_Step lss;
     st_Signature := sig_Data (lss_Signature lss);
     st_BlockHash := match lss_BlockHash lss with None => [] | Some h => h_Data h end;
     st_SignBytesHash := match lss_SignBytesHash lss with None => [] | Some h => h_Data h end;
     st_Timestamp := lss_Timestamp lss |}.

Definition saveState (fault : syscall -> bool) (pv : FilePV) (d : disk) : disk * res unit :=
  if! fault SysMkdirAll return (d, Err (errorf "failed to create state directory: %w")) in
  let state := state_of (pv_lastSignState pv) in
  if! fault SysWriteFile return (d, Err (errorf "failed to write temp state file: %w")) in
  if! fault SysOpenTmp return (d, Err (errorf "failed to open temp file for sync: %w")) in
  if! fault SysSyncTmp return (d, Err (errorf "failed to sync temp file: %w")) in
  if! fault SysRename return (d, Err (errorf "failed to rename state file: %w")) in
  let d := with_state_file (File state) d in
  if! fault SysOpenDir return (d, Err (errorf "failed to open dir for sync: %w")) in
  if! fault SysSyncDir return (d, Err (errorf "failed to sync directory: %w")) in
  (d, Ret tt).

Definition saveKey (fault : syscall -> bool) (pv : FilePV) (d : disk) : disk * res unit :=
  if! fault SysMkdirAll return (d, Err (errorf "failed to create key directory: %w")) in
  let key := mkFilePVKey (pk_Data (pv_pubKey pv)) (pv_privKey pv) in
  if! fault SysWriteFile return (d, Err (errorf "failed to write temp key file: %w")) in
  if! fault SysOpenTmp return (d, Err (errorf "failed to open temp key file for sync: %w")) in
  if! fault SysSyncTmp return (d, Err (errorf "failed to sync temp key file: %w")) in
  if! fault SysRename return (d, Err (errorf "failed to rename key file: %w")) in
  let d := with_key_file (File key) keyFilePerm d in
  if! fault SysOpenDir return (d, Err (errorf "failed to open dir for sync: %w")) in
  if! fault SysSyncDir return (d, Err (errorf "failed to sync directory: %w")) in
  (d, Ret tt).

(** Decoding of the optional fields: empty is absent. *)
Definition load_hash (data : bytes) (msg : string) : res (option Hash) :=
  if 0 <? len data then
    match NewHash data with Ret h => Ret (Some h) | Err e => Err (wrapf e msg) | Panic m => Panic m end
  else Ret None.

Definition load_signature (data : bytes) : res Signature :=
  if 0 <? len data then
    rwrap (NewSignature data) (fun e => wrapf e "invalid signature in state file: %w")
  else Ret (mkSignature []).

(** The part of [loadState] and [loadStateStrict] after the file has been read. *)
Definition decode_state (state : FilePVState) : res LastSignState :=
  let! sig := load_signature (st_Signature state) in
  let! blockHash := load_hash (st_BlockHash state) "invalid block hash in state file: %w" in
  let! signBytesHash := load_hash (st_SignBytesHash state) "invalid sign bytes hash in state file: %w" in
  Ret {| lss_Height := st_Height state;
         lss_Round := st_Round state;
         lss_Step := st_Step state;
         lss_Signature := sig;
         lss_BlockHash := blockHash;
         lss_SignBytesHash := signBytesHash;
         lss_Timestamp := st_Timestamp state |}.

Definition loadStateStrict (pv : FilePV) (d : disk) : res FilePV :=
  match disk_state d with
  | Missing | Unreadable => Err (errorf "failed to read state file %s: %w")
  | Garbled => Err (errorf "failed to parse state file: %w")
  | File state => let! lss := decode_state state in Ret (with_lss lss pv)
  end.

Definition loadState (fault : syscall -> bool) (pv : FilePV) (d : disk) : disk * res FilePV :=
  match disk_state d with
  | Missing =>
      let pv := with_lss zeroLastSignState pv in
      let '(d, r) := saveState fault pv d in
      (d, let! _ := r in Ret pv)
  | Unreadable => (d, Err (errorf "failed to read state file: %w"))
  | Garbled => (d, Err (errorf "failed to parse state file: %w"))
  | File state => (d, let! lss := decode_state state in Ret (with_lss lss pv))
  end.

(** The checks on a decoded key file, common to both loaders. *)
Definition decode_key (key : FilePVKey) : res (PublicKey * bytes) :=
  if! negb (len (key_PubKey key) =? 32) return Err (errorf "invalid public key size: %d") in
  if! negb (len (key_PrivKey key) =? 64) return Err (errorf "invalid private key size: %d") in
  if! negb (bool_decide (key_PubKey key = drop 32 (key_PrivKey key)))
    return Err (errorf "public key mismatch with private key") in
  let! pubKey := MustNewPublicKey (key_PubKey key) in
  Ret (pubKey, key_PrivKey key).

Definition with_key (k : PublicKey * bytes) (pv : FilePV) : FilePV :=
  mkFilePV k.1 k.2 (pv_lastSignState pv) (pv_lockFile pv).

Definition loadKeyStrict (pv : FilePV) (d : disk) : res FilePV :=
  match disk_key d with
  | Missing => Err (errorf "failed to stat key file %s: %w")
  | f =>
      if! negb (Z.land (disk_key_perm d) 63 =? 0)
        return Err (errorf "key file %s has insecure permissions %o (expected 0600 or stricter)") in
      match f with
      | Missing | Unreadable => Err (errorf "failed to read key file %s: %w")
      | Garbled => Err (errorf "failed to parse key file: %w")
      | File key => let! k := decode_key key in Ret (with_key k pv)
      end
  end.

(** [generated] is the outcome of [ed25519.GenerateKey]. *)
Definition loadKey (generated : res (bytes * bytes)) (fault : syscall -> bool) (pv : FilePV)
    (d : disk) : disk * res FilePV :=
  match disk_key d with
  | Missing =>
      match rwrap generated (fun e => wrapf e "failed to generate key: %w") with
      | Ret (pub, priv) =>
          match MustNewPublicKey pub with
          | Ret pubKey =>
              let pv := with_key (pubKey, priv) pv in
              let '(d, r) := saveKey fault pv d in
              (d, let! _ := r in Ret pv)
          | Err e => (d, Err e)
          | Panic m => (d, Panic m)
          end
      | Err e => (d, Err e)
      | Panic m => (d, Panic m)
      end
  | Unreadable => (d, Err (errorf "failed to read key file: %w"))
  | Garbled => (d, Err (errorf "failed to parse key file: %w"))
  | File key => (d, let! k := decode_key key in Ret (with_key k pv))
  end.

(** ** file_pv.go: locking and opening *)

Definition with_lockFile (b : bool) (pv : FilePV) : FilePV :=
  mkFilePV (pv_pubKey pv) (pv_privKey pv) (pv_lastSignState pv) b.

(** [me] is the process; [flock] with [LOCK_NB] fails when another open file holds the lock. *)
Definition acquireLock (fault : syscall -> bool) (me : nat) (pv : FilePV) (d : disk)
    : disk * res FilePV :=
  if! fault SysMkdirAll return (d, Err (errorf "failed to create lock directory: %w")) in
  if! fault SysOpenLock return (d, Err (errorf "failed to open lock file: %w")) in
  match disk_lock d with
  | Some _ => (d, Err (errorf "failed to acquire exclusive lock (another process may be using this validator): %w"))
  | None => (with_lock (Some me) d, Ret (with_lockFile true pv))
  end.

(** [Close]: releases the lock once. *)
Definition Close (pv : FilePV) (d : disk) : disk * FilePV :=
  if! negb (pv_lockFile pv) return (d, pv) in
  (with_lock None d, with_lockFile false pv).

Definition newFilePV : FilePV := mkFilePV (mkPublicKey []) [] zeroLastSignState false.

Definition LoadFilePV (fault : syscall -> bool) (me : nat) (d : disk) : disk * res FilePV :=
  match rwrap (loadKeyStrict newFilePV d) (fun e => wrapf e "failed to load key: %w") with
  | Err e => (d, Err e)
  | Panic m => (d, Panic m)
  | Ret pv =>
      let '(d, r) := acquireLock fault me pv d in
      match rwrap r (fun e => wrapf e "failed to acquire lock: %w") with
      | Err e => (d, Err e)
      | Panic m => (d, Panic m)
      | Ret pv =>
          match rwrap (loadStateStrict pv d) (fun e => wrapf e "failed to load state: %w") with
          | Err e => ((Close pv d).1, Err e)
          | Panic m => (d, Panic m)
          | Ret pv => (d, Ret pv)
          end
      end
  end.

(** The faults of the key save, of the lock and of the state save are given separately. *)
Definition NewFilePV (generated : res (bytes * bytes)) (kfault lfault sfault : syscall -> bool)
    (me : nat) (d : disk) : disk * res FilePV :=
  let '(d, r) := loadKey generated kfault newFilePV d in
  match r with
  | Err e => (d, Err e)
  | Panic m => (d, Panic m)
  | Ret pv =>
      let '(d, r) := acquireLock lfault me pv d in
      match rwrap r (fun e => wrapf e "failed to acquire lock: %w") with
      | Err e => (d, Err e)
      | Panic m => (d, Panic m)
      | Ret pv =>
          let '(d, r) := loadState sfault pv d in
          match r with
          | Err e => ((Close pv d).1, Err e)
          | Panic m => (d, Panic m)
          | Ret pv => (d, Ret pv)
          end
      end
  end.

Definition GenerateFilePV (generated : res (bytes * bytes)) (kfault lfault sfault : syscall -> bool)
    (me : nat) (d : disk) : disk * res FilePV :=
  match rwrap generated (fun e => wrapf e "failed to generate key: %w") with
  | Err e => (d, Err e)
  | Panic m => (d, Panic m)
  | Ret (pub, priv) =>
      match MustNewPublicKey pub with
      | Err e => (d, Err e)
      | Panic m => (d, Panic m)
      | Ret pubKey =>
          let '(d, r) := acquireLock lfault me (with_key (pubKey, priv) newFilePV) d in
          match rwrap r (fun e => wrapf e "failed to acquire lock: %w") with
          | Err e => (d, Err e)
          | Panic m => (d, Panic m)
          | Ret pv =>
              let '(d, r) := saveKey kfault pv d in
              match r with
              | Err e => ((Close pv d).1, Err e)
              | Panic m => (d, Panic m)
              | Ret _ =>
                  let '(d, r) := saveState sfault pv d in
                  match r with
                  | Err e => ((Close pv d).1, Err e)
                  | Panic m => (d, Panic m)
                  | Ret _ => (d, Ret pv)
                  end
              end
          end
      end
  end.

(** ** file_pv.go: signing *)

Section Signing.
Context `{Crypto} `{Cramberry}.

Definition GetPubKey (pv : FilePV) : PublicKey := CopyPublicKey (pv_pubKey pv).

Definition GetAddress (pv : FilePV) : bytes := take 20 (sha256_Sum256 (pk_Data (pv_pubKey pv))).

(** The comparison with the stored hash of the sign bytes. *)
Definition same_sign_bytes (stored : Hash) (signBytes : res bytes) : res bool :=
  let! signBytes := signBytes in
  let! h := MustNewHash (sha256_Sum256 signBytes) in
  Ret (HashEqual stored h).

Definition isSameProposal (lss : LastSignState) (chainID : string) (proposal : Proposal) : res bool :=
  match lss_SignBytesHash lss with
  | Some stored => same_sign_bytes stored (ProposalSignBytes chainID (Some proposal))
  | None =>
      if! negb (lss_Timestamp lss =? p_Timestamp proposal) return Ret false in
      match lss_BlockHash lss with
      | None => Ret false
      | Some h => let! blockHash := BlockHash (Some (p_Block proposal)) in Ret (HashEqual h blockHash)
      end
  end.

Definition isSameVote (lss : LastSignState) (chainID : string) (vote : Vote) : res bool :=
  match lss_SignBytesHash lss with
  | Some stored => same_sign_bytes stored (VoteSignBytes chainID (Some vote))
  | None =>
      if! negb (lss_Timestamp lss =? vt_Timestamp vote) return Ret false in
      match lss_BlockHash lss, vt_BlockHash vote with
      | None, None => Ret true
      | None, Some _ | Some _, None => Ret false
      | Some a, Some b => Ret (HashEqual a b)
      end
  end.

(** The new sign state of a vote or proposal whose sign bytes are [signBytes]. *)
Definition signed_state (privKey : bytes) (height round step : Z) (signBytes : bytes)
    (blockHash : option Hash) (timestamp : Z) : res LastSignState :=
  let! newSig := MustNewSignature (ed25519_Sign privKey signBytes) in
  let! signBytesHash := MustNewHash (sha256_Sum256 signBytes) in
  Ret {| lss_Height := height;
         lss_Round := round;
         lss_Step := step;
         lss_Signature := newSig;
         lss_BlockHash := blockHash;
         lss_SignBytesHash := Some signBytesHash;
         lss_Timestamp := timestamp |}.

(** Persisting: the new state is saved, and rolled back with a panic when that fails; the
    signature is returned only afterwards. *)
Definition persist (fault : syscall -> bool) (new : res LastSignState) (msg : string)
    (pv : FilePV) (d : disk) : FilePV * disk * res Signature :=
  match new with
  | Err e => (pv, d, Err e)
  | Panic m => (pv, d, Panic m)
  | Ret lss =>
      let pv' := with_lss lss pv in
      let '(d, r) := saveState fault pv' d in
      match r with
      | Ret _ => (pv', d, Ret (lss_Signature lss))
      | _ => (pv, d, Panic msg)
      end
  end.

(** Both signing operations return the signature that the code stores in the argument. *)
Definition SignVote (fault : syscall -> bool) (chainID : string) (vote : option Vote)
    (pv : FilePV) (d : disk) : FilePV * disk * res Signature :=
  match vote with
  | None => (pv, d, Panic "CONSENSUS CRITICAL: nil vote in SignVote")
  | Some vote =>
      match VoteStep (vt_Type vote) with
      | Err e => (pv, d, Err e)
      | Panic m => (pv, d, Panic m)
      | Ret step =>
          match CheckHRS (pv_lastSignState pv) (vt_Height vote) (vt_Round vote) step with
          | Some err =>
              if bool_decide (err = privval_ErrDoubleSign) then
                (pv, d,
                 let! same := isSameVote (pv_lastSignState pv) chainID vote in
                 if same then Ret (CopySignature (lss_Signature (pv_lastSignState pv))) else Err err)
              else (pv, d, Err err)
          | None =>
              persist fault
                (let! signBytes := VoteSignBytes chainID (Some vote) in
                 signed_state (pv_privKey pv) (vt_Height vote) (vt_Round vote) step signBytes
                   (CopyHash (vt_BlockHash vote)) (vt_Timestamp vote))
                "CONSENSUS CRITICAL: failed to persist sign state after vote: %v" pv d
          end
      end
  end.

Definition SignProposal (fault : syscall -> bool) (chainID : string) (proposal : option Proposal)
    (pv : FilePV) (d : disk) : FilePV * disk * res Signature :=
  match proposal with
  | None => (pv, d, Panic "CONSENSUS CRITICAL: nil proposal in SignProposal")
  | Some proposal =>
      match CheckHRS (pv_lastSignState pv) (p_Height proposal) (p_Round proposal) StepProposal with
      | Some err =>
          if bool_decide (err = privval_ErrDoubleSign) then
            (pv, d,
             let! same := isSameProposal (pv_lastSignState pv) chainID proposal in
             if same then Ret (CopySignature (lss_Signature (pv_lastSignState pv))) else Err err)
          else (pv, d, Err err)
      | None =>
          persist fault
            (let! signBytes := ProposalSignBytes chainID (Some proposal) in
             let! blockHash := BlockHash (Some (p_Block proposal)) in
             signed_state (pv_privKey pv) (p_Height proposal) (p_Round proposal) StepProposal signBytes
               (Some blockHash) (p_Timestamp proposal))
            "CONSENSUS CRITICAL: failed to persist sign state after proposal: %v" pv d
      end
  end.

Definition FilePV_Reset (fault : syscall -> bool) (pv : FilePV) (d : disk)
    : FilePV * disk * res unit :=
  let pv' := with_lss zeroLastSignState pv in
  let '(d, r) := saveState fault pv' d in
  match r with
  | Ret _ => (pv', d, Ret tt)
  | Err e => (pv, d, Err e)
  | Panic m => (pv, d, Panic m)
  end.
End Signing.

(** ** The validator's signing history

    Several processes may open the files over time; the log records every signature an
    operation returned. A process that crashes inside a signing call leaves the disk as some
    prefix of the call's file operations, and its lock is released; nothing is returned.
    [SignVote] and [SignProposal] do not look at the lock file, so an object signs after its
    [Close] too; [sys_misused] records that one did. [Reset], which erases the sign state, is not
    among the steps. *)

Record signed := mkSigned {
  sg_Height : Z;
  sg_Round : Z;
  sg_Step : Z;
  sg_bytes : bytes;
  sg_sig : Signature }.

Record system := mkSystem {
  sys_disk : disk;
  sys_procs : gmap nat FilePV;
  sys_log : list signed;
  sys_misused : bool }.

(** The misuse after a signing call of an object. *)
Definition misuse (b : bool) (pv : FilePV) : bool := b || negb (pv_lockFile pv).

Definition release (me : nat) (d : disk) : disk :=
  if bool_decide (disk_lock d = Some me) then with_lock None d else d.

Section System.
Context `{Crypto} `{Cramberry}.

(** The log entry of a call that returned [r] for these sign bytes. *)
Definition record (r : res Signature) (height round step : Z) (signBytes : res bytes) : list signed :=
  match r, signBytes with
  | Ret sig, Ret m => [mkSigned height round step m sig]
  | _, _ => []
  end.

Definition record_vote (chainID : string) (vote : Vote) (r : res Signature) : list signed :=
  match VoteStep (vt_Type vote) with
  | Ret step => record r (vt_Height vote) (vt_Round vote) step (VoteSignBytes chainID (Some vote))
  | _ => []
  end.

Definition record_proposal (chainID : string) (p : Proposal) (r : res Signature) : list signed :=
  record r (p_Height p) (p_Round p) StepProposal (ProposalSignBytes chainID (Some p)).

Definition opened (me : nat) (procs : gmap nat FilePV) (r : res FilePV) : gmap nat FilePV :=
  match r with Ret pv => <[me := pv]> procs | _ => procs end.

Inductive sys_step : system -> system -> Prop :=
| sys_LoadFilePV me fault d d' r procs log b :
    procs !! me = None -> LoadFilePV fault me d = (d', r) ->
    sys_step (mkSystem d procs log b) (mkSystem d' (opened me procs r) log b)
| sys_NewFilePV me gen kf lf sf d d' r procs log b :
    procs !! me = None -> NewFilePV gen kf lf sf me d = (d', r) ->
    sys_step (mkSystem d procs log b) (mkSystem d' (opened me procs r) log b)
| sys_SignVote me fault chainID vote pv pv' d d' r procs log b :
    procs !! me = Some pv -> SignVote fault chainID (Some vote) pv d = (pv', d', r) ->
    sys_step (mkSystem d procs log b)
             (mkSystem d' (<[me := pv']> procs) (log ++ record_vote chainID vote r) (misuse b pv))
| sys_SignProposal me fault chainID p pv pv' d d' r procs log b :
    procs !! me = Some pv -> SignProposal fault chainID (Some p) pv d = (pv', d', r) ->
    sys_step (mkSystem d procs log b)
             (mkSystem d' (<[me := pv']> procs) (log ++ record_proposal chainID p r) (misuse b pv))
| sys_Close me pv d procs log b :
    procs !! me = Some pv ->
    sys_step (mkSystem d procs log b)
             (mkSystem (Close pv d).1 (<[me := (Close pv d).2]> procs) log b)
| sys_crash me pv d procs log b :
    procs !! me = Some pv ->
    sys_step (mkSystem d procs log b) (mkSystem (release me d) (delete me procs) log b)
| sys_crash_SignVote me fault chainID vote pv pv' d d' r procs log b :
    procs !! me = Some pv -> SignVote fault chainID (Some vote) pv d = (pv', d', r) ->
    sys_step (mkSystem d procs log b) (mkSystem (release me d') (delete me procs) log (misuse b pv))
| sys_crash_SignProposal me fault chainID p pv pv' d d' r procs log b :
    procs !! me = Some pv -> SignProposal fault chainID (Some p) pv d = (pv', d', r) ->
    sys_step (mkSystem d procs log b) (mkSystem (release me d') (delete me procs) log (misuse b pv)).

(** A state file of a validator that never signed, or one written by a signing call. *)
Definition fresh_state (f : file FilePVState) : Prop :=
  match f with
  | File st => forall lss, decode_state st = Ret lss ->
                 lss = zeroLastSignState \/ is_Some (lss_SignBytesHash lss)
  | _ => True
  end.

Definition initial (d : disk) : system := mkSystem (with_lock None d) ∅ [] false.

(** ** The order of signing *)

Definition hrs_lt (h r s h' r' s' : Z) : Prop :=
  h < h' \/ (h = h' /\ (r < r' \/ (r = r' /\ s < s'))).

Definition entry_le (e1 e2 : signed) : Prop :=
  hrs_lt (sg_Height e1) (sg_Round e1) (sg_Step e1) (sg_Height e2) (sg_Round e2) (sg_Step e2) \/
  (sg_Height e1 = sg_Height e2 /\ sg_Round e1 = sg_Round e2 /\ sg_Step e1 = sg_Step e2 /\
   sha256_Sum256 (sg_bytes e1) = sha256_Sum256 (sg_bytes e2) /\ sg_sig e1 = sg_sig e2).

Definition before (e : signed) (lss : LastSignState) : Prop :=
  hrs_lt (sg_Height e) (sg_Round e) (sg_Step e) (lss_Height lss) (lss_Round lss) (lss_Step lss) \/
  (sg_Height e = lss_Height lss /\ sg_Round e = lss_Round lss /\ sg_Step e = lss_Step lss /\
   lss_SignBytesHash lss = Some (mkHash (sha256_Sum256 (sg_bytes e))) /\ lss_Signature lss = sg_sig e).

Definition covers (lss : LastSignState) (log : list signed) : Prop :=
  (lss = zeroLastSignState \/ is_Some (lss_SignBytesHash lss)) /\ forall e, e ∈ log -> before e lss.

(** The state file is never behind the log ... *)
Definition file_covers (f : file FilePVState) (log : list signed) : Prop :=
  match f with
  | File st => forall lss, decode_state st = Ret lss -> covers lss log
  | Missing => log = []
  | _ => True
  end.

(** ... nor behind the memory of the process that holds the lock (a failed save may have
    replaced the file and rolled the memory back). *)
Definition file_follows (f : file FilePVState) (mem : LastSignState) : Prop :=
  match f with
  | File st => forall lss, decode_state st = Ret lss ->
      hrs_lt (lss_Height mem) (lss_Round mem) (lss_Step mem)
        (lss_Height lss) (lss_Round lss) (lss_Step lss) \/
      (lss_Height mem = lss_Height lss /\ lss_Round mem = lss_Round lss /\ lss_Step mem = lss_Step lss /\
       lss_SignBytesHash mem = lss_SignBytesHash lss /\ lss_Signature mem = lss_Signature lss)
  | _ => False
  end.

Record sys_ok (sys : system) : Prop := {
  ok_holder : forall me pv, sys_procs sys !! me = Some pv -> pv_lockFile pv = true ->
    disk_lock (sys_disk sys) = Some me /\ covers (pv_lastSignState pv) (sys_log sys) /\
    file_follows (disk_state (sys_disk sys)) (pv_lastSignState pv);
  ok_state : file_covers (disk_state (sys_disk sys)) (sys_log sys);
  ok_log : StronglySorted entry_le (sys_log sys) }.
End System.

(** ** Lemmas: CheckHRS *)

Lemma CheckHRS_None lss h r s :
  CheckHRS lss h r s = None <-> hrs_lt (lss_Height lss) (lss_Round lss) (lss_Step lss) h r s.
Proof.
  unfold CheckHRS, hrs_lt. rewrite !Z.gtb_ltb.
  destruct (Z.ltb_spec h (lss_Height lss)); [split; [done|lia]|].
  destruct (Z.eqb_spec (lss_Height lss) h); [|split; [lia|done]].
  destruct (Z.ltb_spec r (lss_Round lss)); [split; [done|lia]|].
  destruct (Z.eqb_spec (lss_Round lss) r); [|split; [lia|done]].
  destruct (Z.ltb_spec s (lss_Step lss)); [split; [done|lia]|].
  destruct (Z.eqb_spec (lss_Step lss) s); split; intros; try done; lia.
Qed.

Lemma CheckHRS_DoubleSign lss h r s :
  CheckHRS lss h r s = Some privval_ErrDoubleSign <->
  lss_Height lss = h /\ lss_Round lss = r /\ lss_Step lss = s.
Proof.
  unfold CheckHRS. rewrite !Z.gtb_ltb.
  destruct (Z.ltb_spec h (lss_Height lss)); [split; [done|lia]|].
  destruct (Z.eqb_spec (lss_Height lss) h); [|split; [done|lia]].
  destruct (Z.ltb_spec r (lss_Round lss)); [split; [done|lia]|].
  destruct (Z.eqb_spec (lss_Round lss) r); [|split; [done|lia]].
  destruct (Z.ltb_spec s (lss_Step lss)); [split; [done|lia]|].
  destruct (Z.eqb_spec (lss_Step lss) s); split; intros; try done; lia.
Qed.

Lemma VoteStep_cases t step : VoteStep t = Ret step -> step = 1 \/ step = 2.
Proof. unfold VoteStep, StepPrevote, StepPrecommit. repeat case_match; naive_solver. Qed.

Section SystemLemmas.
Context `{CL : CryptoLaws} `{Cramberry}.
#[local] Set Default Proof Using "Type CL".

(** What a signing call for [(h, r, s)] and the sign bytes [sb] does to a process and the disk. *)
Inductive sign_result (pv : FilePV) (d : disk) (h r s : Z) (sb : res bytes)
    : FilePV * disk * res Signature -> Prop :=
| sr_refused res : is_Ret res = false -> sign_result pv d h r s sb (pv, d, res)
| sr_cached m :
    sb = Ret m -> lss_Height (pv_lastSignState pv) = h -> lss_Round (pv_lastSignState pv) = r ->
    lss_Step (pv_lastSignState pv) = s ->
    lss_SignBytesHash (pv_lastSignState pv) = Some (mkHash (sha256_Sum256 m)) ->
    sign_result pv d h r s sb (pv, d, Ret (lss_Signature (pv_lastSignState pv)))
| sr_not_saved lss m res :
    is_Ret res = false -> sb = Ret m ->
    hrs_lt (lss_Height (pv_lastSignState pv)) (lss_Round (pv_lastSignState pv))
      (lss_Step (pv_lastSignState pv)) h r s ->
    signed_state (pv_privKey pv) h r s m (lss_BlockHash lss) (lss_Timestamp lss) = Ret lss ->
    sign_result pv d h r s sb (pv, with_state_file (File (state_of lss)) d, res)
| sr_signed lss m :
    sb = Ret m ->
    hrs_lt (lss_Height (pv_lastSignState pv)) (lss_Round (pv_lastSignState pv))
      (lss_Step (pv_lastSignState pv)) h r s ->
    signed_state (pv_privKey pv) h r s m (lss_BlockHash lss) (lss_Timestamp lss) = Ret lss ->
    sign_result pv d h r s sb
      (with_lss lss pv, with_state_file (File (state_of lss)) d, Ret (lss_Signature lss)).

Lemma saveState_cases fault pv d :
  exists d' r, saveState fault pv d = (d', r) /\
    (d' = d \/ d' = with_state_file (File (state_of (pv_lastSignState pv))) d) /\
    (r = Ret tt -> d' = with_state_file (File (state_of (pv_lastSignState pv))) d) /\
    (forall m, r <> Panic m).
Proof.
  unfold saveState. repeat (case_match; [by eexists _, _; split_and!; eauto|]).
  eexists _, _. split_and!; eauto.
Qed.

Lemma signed_state_Ret privKey h r s m bh ts :
  signed_state privKey h r s m bh ts =
  Ret (mkLastSignState h r s (mkSignature (ed25519_Sign privKey m)) bh
         (Some (mkHash (sha256_Sum256 m))) ts).
Proof.
  unfold signed_state. rewrite MustNewSignature_64 by apply ed25519_Sign_length. cbn [rbind].
  by rewrite MustNewHash_32 by apply sha256_length.
Qed.

Lemma persist_result fault new msg pv d h r s sb m bh ts :
  sb = Ret m ->
  hrs_lt (lss_Height (pv_lastSignState pv)) (lss_Round (pv_lastSignState pv))
    (lss_Step (pv_lastSignState pv)) h r s ->
  new = signed_state (pv_privKey pv) h r s m bh ts ->
  sign_result pv d h r s sb (persist fault new msg pv d).
Proof.
  intros Hsb Hlt ->. unfold persist. rewrite signed_state_Ret.
  match goal with |- context [with_lss ?l pv] => set (lss := l) end.
  destruct (saveState_cases fault (with_lss lss pv) d) as (d' & res & -> & Hd & Hr & Hp).
  assert (Hs : signed_state (pv_privKey pv) h r s m (lss_BlockHash lss) (lss_Timestamp lss) = Ret lss)
    by apply signed_state_Ret.
  destruct res as [[]|e|m']; [|destruct Hd as [->| ->]|by destruct (Hp m')].
  - rewrite Hr by done. by eapply sr_signed.
  - by apply sr_refused.
  - by eapply sr_not_saved.
Qed.

Lemma persist_refused fault new msg pv d h r s sb :
  is_Ret new = false -> sign_result pv d h r s sb (persist fault new msg pv d).
Proof. intros Hn. unfold persist. destruct new; [done|..]; by apply sr_refused. Qed.

Lemma same_sign_bytes_true stored sb :
  same_sign_bytes stored sb = Ret true ->
  exists m, sb = Ret m /\ stored = mkHash (sha256_Sum256 m).
Proof.
  unfold same_sign_bytes. destruct sb as [m| |]; cbn [rbind]; try done.
  rewrite MustNewHash_32 by apply sha256_length. cbn [rbind]. intros [= E%HashEqual_true]. eauto.
Qed.

Lemma SignVote_result fault chainID vote pv d step :
  pv_lastSignState pv = zeroLastSignState \/ is_Some (lss_SignBytesHash (pv_lastSignState pv)) ->
  VoteStep (vt_Type vote) = Ret step ->
  sign_result pv d (vt_Height vote) (vt_Round vote) step (VoteSignBytes chainID (Some vote))
    (SignVote fault chainID (Some vote) pv d).
Proof.
  intros Hg Hstep. unfold SignVote. rewrite Hstep.
  destruct (CheckHRS _ _ _ _) as [err|] eqn:Hc.
  - case_bool_decide as He; [|by apply sr_refused]. subst err.
    apply CheckHRS_DoubleSign in Hc as (H1 & H2 & H3). rewrite CopySignature_id.
    destruct (isSameVote _ _ _) as [[]| |] eqn:Hs; cbn [rbind]; try by apply sr_refused.
    unfold isSameVote in Hs. destruct (lss_SignBytesHash (pv_lastSignState pv)) as [stored|] eqn:Hb.
    + apply same_sign_bytes_true in Hs as (m & Hm & ->). by eapply sr_cached.
    + destruct Hg as [Hz|[]]; [|done]. rewrite Hz in H3. cbn in H3.
      apply VoteStep_cases in Hstep. lia.
  - apply CheckHRS_None in Hc. destruct (VoteSignBytes _ _) as [m| |] eqn:Hm; cbn [rbind].
    + by eapply persist_result.
    + by apply persist_refused.
    + by apply persist_refused.
Qed.

Lemma SignProposal_result fault chainID p pv d :
  pv_lastSignState pv = zeroLastSignState \/ is_Some (lss_SignBytesHash (pv_lastSignState pv)) ->
  sign_result pv d (p_Height p) (p_Round p) StepProposal (ProposalSignBytes chainID (Some p))
    (SignProposal fault chainID (Some p) pv d).
Proof.
  intros Hg. unfold SignProposal. destruct (CheckHRS _ _ _ _) as [err|] eqn:Hc.
  - case_bool_decide as He; [|by apply sr_refused]. subst err.
    apply CheckHRS_DoubleSign in Hc as (H1 & H2 & H3). rewrite CopySignature_id.
    destruct (isSameProposal _ _ _) as [[]| |] eqn:Hs; cbn [rbind]; try by apply sr_refused.
    unfold isSameProposal in Hs. destruct (lss_SignBytesHash (pv_lastSignState pv)) as [stored|] eqn:Hb.
    + apply same_sign_bytes_true in Hs as (m & Hm & ->). by eapply sr_cached.
    + destruct Hg as [Hz|[]]; [|done]. rewrite Hz in Hs. cbn in Hs. by case_match.
  - apply CheckHRS_None in Hc. destruct (ProposalSignBytes _ _) as [m| |] eqn:Hm; cbn [rbind];
      [|by apply persist_refused..].
    destruct (BlockHash _); cbn [rbind]; [by eapply persist_result|by apply persist_refused..].
Qed.

(** A bad vote type panics before anything happens. *)
Lemma SignVote_bad_type fault chainID vote pv d :
  (forall step, VoteStep (vt_Type vote) <> Ret step) ->
  exists r, SignVote fault chainID (Some vote) pv d = (pv, d, r) /\ is_Ret r = false.
Proof.
  intros Hn. unfold SignVote. destruct (VoteStep (vt_Type vote)) eqn:E; [by destruct (Hn a)|eauto..].
Qed.
Lemma decode_signed privKey h r s m bh ts lss lss' :
  signed_state privKey h r s m bh ts = Ret lss -> decode_state (state_of lss) = Ret lss' ->
  lss_Height lss' = h /\ lss_Round lss' = r /\ lss_Step lss' = s /\
  lss_SignBytesHash lss' = Some (mkHash (sha256_Sum256 m)) /\ lss_Signature lss' = lss_Signature lss.
Proof.
  rewrite signed_state_Ret. intros [= <-]. unfold decode_state, state_of, load_signature, load_hash.
  cbn [st_Signature st_BlockHash st_SignBytesHash lss_Signature sig_Data lss_SignBytesHash h_Data
       lss_BlockHash lss_Height lss_Round lss_Step lss_Timestamp st_Height st_Round st_Step st_Timestamp].
  assert (E1 : NewSignature (ed25519_Sign privKey m) = Ret (mkSignature (ed25519_Sign privKey m))).
  { unfold NewSignature, len, SignatureSize. by rewrite ed25519_Sign_length, clone_id. }
  assert (E2 : NewHash (sha256_Sum256 m) = Ret (mkHash (sha256_Sum256 m)))
    by (apply NewHash_Ret; split; [done|apply sha256_length]).
  rewrite E1, E2. unfold len. rewrite ed25519_Sign_length, sha256_length.
  change (0 <? Z.of_nat 64) with true. change (0 <? Z.of_nat 32) with true. cbn [rbind rwrap].
  match goal with |- rbind ?b _ = _ -> _ => destruct b end; cbn [rbind]; [|done..].
  by intros [= <-].
Qed.

Lemma signed_state_fields privKey h r s m bh ts lss :
  signed_state privKey h r s m bh ts = Ret lss ->
  lss_Height lss = h /\ lss_Round lss = r /\ lss_Step lss = s /\
  lss_SignBytesHash lss = Some (mkHash (sha256_Sum256 m)).
Proof. rewrite signed_state_Ret. by intros [= <-]. Qed.

Lemma before_lt e lss h r s :
  before e lss -> hrs_lt (lss_Height lss) (lss_Round lss) (lss_Step lss) h r s ->
  hrs_lt (sg_Height e) (sg_Round e) (sg_Step e) h r s.
Proof. unfold before, hrs_lt. intros [|(-> & -> & -> & _)]; lia. Qed.

Lemma covers_later lss lss' log :
  covers lss log ->
  hrs_lt (lss_Height lss) (lss_Round lss) (lss_Step lss) (lss_Height lss') (lss_Round lss') (lss_Step lss') ->
  is_Some (lss_SignBytesHash lss') -> covers lss' log.
Proof. intros [_ Hb] Hlt Hs. split; [by right|]. intros e He. left. by eapply before_lt; [apply Hb|]. Qed.

Lemma covers_snoc lss log e : covers lss log -> before e lss -> covers lss (log ++ [e]).
Proof.
  intros [Hg Hb] He. split; [done|].
  intros e' [?| ->%list_elem_of_singleton]%elem_of_app; [by apply Hb|done].
Qed.

Lemma sorted_snoc (log : list signed) (e : signed) :
  StronglySorted entry_le log -> (forall e', e' ∈ log -> entry_le e' e) ->
  StronglySorted entry_le (log ++ [e]).
Proof.
  induction 1 as [|x l _ IH Hx]; intros He; cbn; [repeat constructor|].
  constructor; [apply IH; intros e' ?; apply He; by right|].
  apply Forall_app. split; [done|]. constructor; [|constructor]. apply He. by left.
Qed.

(** The entry that a state describes comes after everything the state covers. *)
Lemma covers_entry lss log m :
  covers lss log -> lss_SignBytesHash lss = Some (mkHash (sha256_Sum256 m)) ->
  forall e, e ∈ log ->
    entry_le e (mkSigned (lss_Height lss) (lss_Round lss) (lss_Step lss) m (lss_Signature lss)).
Proof.
  intros [_ Hb] Hs e He. destruct (Hb e He) as [|(? & ? & ? & E & ?)]; [by left|right]. cbn.
  rewrite Hs in E. injection E as E. split_and!; done.
Qed.

Lemma before_self lss m :
  lss_SignBytesHash lss = Some (mkHash (sha256_Sum256 m)) ->
  before (mkSigned (lss_Height lss) (lss_Round lss) (lss_Step lss) m (lss_Signature lss)) lss.
Proof. intros Hs. right. done. Qed.

(** The state file after a save of a newer state. *)
Lemma signed_file_covers privKey h r s m bh ts lss mem log :
  signed_state privKey h r s m bh ts = Ret lss -> covers mem log ->
  hrs_lt (lss_Height mem) (lss_Round mem) (lss_Step mem) h r s ->
  file_covers (File (state_of lss)) log /\ file_follows (File (state_of lss)) mem.
Proof.
  intros Hs Hc Hlt. split; intros lss' Hd;
    destruct (decode_signed _ _ _ _ _ _ _ _ _ Hs Hd) as (<- & <- & <- & Hb & _).
  - by eapply covers_later; [..|rewrite Hb].
  - by left.
Qed.

(** What a signing call preserves, whether or not its process survives it. *)
Lemma sign_effect pv d h r s sb pv' d' res log :
  sign_result pv d h r s sb (pv', d', res) ->
  covers (pv_lastSignState pv) log -> file_covers (disk_state d) log ->
  file_follows (disk_state d) (pv_lastSignState pv) -> StronglySorted entry_le log ->
  let log' := log ++ record res h r s sb in
  covers (pv_lastSignState pv') log' /\ file_covers (disk_state d') log' /\
  file_follows (disk_state d') (pv_lastSignState pv') /\ StronglySorted entry_le log' /\
  file_covers (disk_state d') log /\ disk_lock d' = disk_lock d /\ pv_lockFile pv' = pv_lockFile pv.
Proof.
  intros Hr Hc Hf Hm Hs. inversion Hr as [res0 Hn|m Hsb E1 E2 E3 Hb|lss m res0 Hn Hsb Hlt Hst|lss m Hsb Hlt Hst];
    subst; cbn [with_lss pv_lastSignState pv_lockFile with_state_file disk_state disk_lock]; unfold record.
  - destruct res; [done|..]; rewrite app_nil_r; done.
  - pose proof (before_self _ _ Hb) as He. split_and!; try done.
    + by apply covers_snoc.
    + destruct (disk_state d') as [| | |st]; try done. intros lss' Hd.
      apply covers_snoc; [by apply Hf|]. unfold before. cbn.
      destruct (Hm lss' Hd) as [Hlt|(<- & <- & <- & Eb & <-)]; [by left|right]. by rewrite <- Eb.
    + apply sorted_snoc; [done|]. by apply covers_entry.
  - destruct (signed_file_covers _ _ _ _ _ _ _ _ _ _ Hst Hc Hlt) as [H1 H2].
    destruct res; [done|..]; rewrite app_nil_r; done.
  - destruct (signed_file_covers _ _ _ _ _ _ _ _ _ _ Hst Hc Hlt) as [H1 _].
    pose proof (signed_state_fields _ _ _ _ _ _ _ _ Hst) as (<- & <- & <- & Hb).
    assert (Hc' : covers lss log) by (eapply covers_later; [done..|by rewrite Hb]).
    pose proof (before_self _ _ Hb) as He. split_and!; try done.
    + by apply covers_snoc.
    + intros lss' Hd. apply covers_snoc; [by apply H1|].
      destruct (decode_signed _ _ _ _ _ _ _ _ _ Hst Hd) as (F1 & F2 & F3 & F4 & F5).
      right. cbn. rewrite F4, F5. done.
    + intros lss' Hd. destruct (decode_signed _ _ _ _ _ _ _ _ _ Hst Hd) as (F1 & F2 & F3 & F4 & F5).
      right. rewrite F4, F5. done.
    + apply sorted_snoc; [done|]. by apply covers_entry.
Qed.
End SystemLemmas.

(** ** Lemmas: opening *)

Record opens (me : nat) (d d' : disk) (r : res FilePV) : Prop := {
  op_state : disk_state d' = disk_state d \/
             (disk_state d = Missing /\ disk_state d' = File (state_of zeroLastSignState));
  op_held : disk_lock d <> None ->
            disk_lock d' = disk_lock d /\ disk_state d' = disk_state d /\ is_Ret r = false;
  op_Ret : forall pv, r = Ret pv -> disk_lock d' = Some me /\ pv_lockFile pv = true /\
           exists st, disk_state d' = File st /\ decode_state st = Ret (pv_lastSignState pv) }.

Lemma acquireLock_cases fault me pv d d' r :
  acquireLock fault me pv d = (d', r) ->
  (d' = d /\ is_Ret r = false) \/
  (disk_lock d = None /\ d' = with_lock (Some me) d /\ r = Ret (with_lockFile true pv)).
Proof. unfold acquireLock. intros E. repeat case_match; simplify_eq; auto. Qed.

Lemma opens_refused me d r : is_Ret r = false -> opens me d d r.
Proof. intros Hr. split; [by left|done|]. intros pv ->. done. Qed.

Lemma LoadFilePV_opens fault me d d' r : LoadFilePV fault me d = (d', r) -> opens me d d' r.
Proof.
  unfold LoadFilePV. destruct (loadKeyStrict newFilePV d) as [pv|e|m]; cbn [rwrap].
  2,3: intros [= <- <-]; by apply opens_refused.
  destruct (acquireLock fault me pv d) as [d1 r1] eqn:Ea.
  apply acquireLock_cases in Ea as [[-> Hr]|(Hl & -> & ->)].
  { destruct r1; [done|..]; intros [= <- <-]; by apply opens_refused. }
  cbn [rwrap]. unfold loadStateStrict. cbn [disk_state with_lock].
  destruct (disk_state d) as [| | |st] eqn:Es; cbn [rwrap rbind].
  4: destruct (decode_state st) as [lss|e|m] eqn:Ed; cbn [rwrap rbind].
  all: intros [= <- <-]; split; cbn; try done; try (by left); try (by rewrite Hl).
  intros pv' [= <-]. cbn. eauto.
Qed.

Lemma zero_decodes : decode_state (state_of zeroLastSignState) = Ret zeroLastSignState.
Proof. reflexivity. Qed.

Lemma loadKey_disk gen fault pv d d' r :
  loadKey gen fault pv d = (d', r) -> disk_state d' = disk_state d /\ disk_lock d' = disk_lock d.
Proof.
  unfold loadKey, saveKey. intros E. repeat (case_match; simplify_eq/=; try done).
Qed.

Lemma opens_key me d0 d d' r :
  disk_state d = disk_state d0 -> disk_lock d = disk_lock d0 -> opens me d d' r -> opens me d0 d' r.
Proof. intros E1 E2 [H1 H2 H3]. rewrite E1 in *. rewrite E2 in *. by split. Qed.

Lemma NewFilePV_opens gen kf lf sf me d d' r :
  NewFilePV gen kf lf sf me d = (d', r) -> opens me d d' r.
Proof.
  unfold NewFilePV. destruct (loadKey gen kf newFilePV d) as [d0 r0] eqn:Ek.
  apply loadKey_disk in Ek as [E1 E2]. intros E. apply (opens_key me d d0 d' r E1 E2). revert E.
  clear E1 E2. destruct r0 as [pv|e|m]; [|intros [= <- <-]; by apply opens_refused..].
  destruct (acquireLock lf me pv d0) as [d1 r1] eqn:Ea.
  apply acquireLock_cases in Ea as [[-> Hr]|(Hl & -> & ->)].
  { destruct r1; [done|..]; intros [= <- <-]; by apply opens_refused. }
  cbn [rwrap]. unfold loadState. cbn [disk_state with_lock].
  destruct (disk_state d0) as [| | |st] eqn:Es; cbn [rwrap rbind].
  - destruct (saveState_cases sf (with_lss zeroLastSignState (with_lockFile true pv))
      (with_lock (Some me) d0)) as (d2 & r2 & -> & Hd & Hr2 & _).
    destruct r2 as [[]|e|m]; cbn [rbind].
    + rewrite Hr2 by done. intros [= <- <-]. split; cbn; [by right|by rewrite Hl|].
      intros pv' [= <-]. cbn. eauto using zero_decodes.
    + intros [= <- <-]. destruct Hd as [->| ->]; split; cbn; auto; try done; by rewrite Hl.
    + intros [= <- <-]. destruct Hd as [->| ->]; split; cbn; auto; try done; by rewrite Hl.
  - intros [= <- <-]; split; cbn; auto; try done; by rewrite Hl.
  - intros [= <- <-]; split; cbn; auto; try done; by rewrite Hl.
  - destruct (decode_state st) as [lss|e|m] eqn:Ed; cbn [rbind]; intros [= <- <-];
      split; cbn; auto; try done; try (by rewrite Hl). intros pv' [= <-]. cbn. eauto.
Qed.

Section SystemInvariant.
Context `{CL : CryptoLaws} `{Cramberry}.
#[local] Set Default Proof Using "Type CL".

Lemma covers_nil lss :
  (lss = zeroLastSignState \/ is_Some (lss_SignBytesHash lss)) -> covers lss [].
Proof. intros Hg. split; [done|]. intros e He. by apply not_elem_of_nil in He. Qed.

Lemma follows_self st lss : decode_state st = Ret lss -> file_follows (File st) lss.
Proof. intros Hd lss' Hd'. assert (lss' = lss) as -> by congruence. by right. Qed.

Lemma opens_ok me d d' r procs log :
  sys_ok (mkSystem d procs log false) -> opens me d d' r -> procs !! me = None ->
  sys_ok (mkSystem d' (opened me procs r) log false).
Proof.
  intros [Hh Hst Hl] [Ho1 Ho2 Ho3] Hme. cbn in *.
  assert (Hst' : file_covers (disk_state d') log).
  { destruct Ho1 as [->|[E ->]]; [done|]. rewrite E in Hst. cbn in Hst. subst log.
    intros lss. rewrite zero_decodes. intros [= <-]. apply covers_nil. by left. }
  split; cbn; [|done..]. intros me' pv' Hp Hlk.
  destruct (disk_lock d) as [x|] eqn:El.
  - destruct Ho2 as (E1 & E2 & E3); [done|]. destruct r; [done|..];
      (destruct (Hh me' pv' Hp Hlk) as (F1 & F2 & F3); rewrite E1, E2; done).
  - assert (Hno : forall k q, procs !! k = Some q -> pv_lockFile q = true -> False)
      by (intros k q Hk Hq; destruct (Hh k q Hk Hq) as [? _]; congruence).
    destruct r as [pv|e|m]; cbn in Hp; [|by exfalso; eapply Hno..].
    apply lookup_insert_Some in Hp as [[<- <-]|[_ Hp]]; [|by exfalso; eapply Hno].
    destruct (Ho3 pv eq_refl) as (F1 & F2 & st & F3 & F4). rewrite F3 in Hst' |- *. split_and!; [done| |].
    + by apply Hst'.
    + by apply follows_self.
Qed.

Lemma holder_unique sys a b p q :
  sys_ok sys -> sys_procs sys !! a = Some p -> pv_lockFile p = true ->
  sys_procs sys !! b = Some q -> pv_lockFile q = true -> a = b.
Proof.
  intros Hok Ha Hp Hb Hq. destruct (ok_holder _ Hok _ _ Ha Hp) as [? _], (ok_holder _ Hok _ _ Hb Hq) as [? _].
  congruence.
Qed.

Lemma sign_ok me pv pv' d d' h r s sb res procs log :
  sys_ok (mkSystem d procs log false) -> procs !! me = Some pv -> pv_lockFile pv = true ->
  sign_result pv d h r s sb (pv', d', res) ->
  sys_ok (mkSystem d' (<[me := pv']> procs) (log ++ record res h r s sb) false) /\
  sys_ok (mkSystem (release me d') (delete me procs) log false).
Proof.
  intros Hok Hme Hlk Hr. destruct (ok_holder _ Hok _ _ Hme Hlk) as (F1 & F2 & F3).
  destruct (sign_effect _ _ _ _ _ _ _ _ _ _ Hr F2 (ok_state _ Hok) F3 (ok_log _ Hok))
    as (G1 & G2 & G3 & G4 & G5 & G6 & G7). cbn in *.
  assert (Hno : forall k q, k <> me -> procs !! k = Some q -> pv_lockFile q = true -> False).
  { intros k q Hk Hq Hql. apply Hk. by eapply (holder_unique (mkSystem d procs log false)). }
  split; split; cbn; try done.
  - intros k q [[<- <-]|[? Hq]]%lookup_insert_Some Hql; [by rewrite G6|by exfalso; eapply Hno].
  - intros k q [? Hq]%lookup_delete_Some Hql. by exfalso; eapply Hno.
  - unfold release. by case_match.
  - apply Hok.
Qed.

Lemma SignVote_no_step fault chainID vote pv d pv' d' r :
  (forall step, VoteStep (vt_Type vote) <> Ret step) ->
  SignVote fault chainID (Some vote) pv d = (pv', d', r) ->
  pv' = pv /\ d' = d /\ record_vote chainID vote r = [].
Proof.
  intros Hn E. destruct (SignVote_bad_type fault chainID vote pv d Hn) as (r' & E' & _).
  rewrite E in E'. simplify_eq. split_and!; [done..|]. unfold record_vote.
  destruct (VoteStep (vt_Type vote)) eqn:Ev; [by destruct (Hn a)|done..].
Qed.

Lemma gone_ok me pv d procs log :
  sys_ok (mkSystem d procs log false) -> procs !! me = Some pv ->
  sys_ok (mkSystem (release me d) (delete me procs) log false).
Proof.
  intros Hok Hme. split; cbn; [|unfold release; case_match; apply (ok_state _ Hok)|apply Hok].
  intros k q [Hk Hq]%lookup_delete_Some Hql. destruct (ok_holder _ Hok _ _ Hq Hql) as (F1 & F2 & F3).
  cbn in *. unfold release. rewrite F1, bool_decide_false by congruence. done.
Qed.

Lemma VoteStep_dec t : (exists step, VoteStep t = Ret step) \/ forall step, VoteStep t <> Ret step.
Proof. destruct (VoteStep t) eqn:E; [by left; eauto|by right..]. Qed.

(** A step without misuse is a step of a system without it, by the holder of the lock if it signs. *)
Lemma misuse_false b pv : misuse b pv = false -> b = false /\ pv_lockFile pv = true.
Proof. unfold misuse. by destruct b, (pv_lockFile pv). Qed.

Lemma sys_step_misused sys sys' : sys_step sys sys' -> sys_misused sys' = false -> sys_misused sys = false.
Proof. destruct 1; cbn; try done; by intros [? _]%misuse_false. Qed.

Lemma sys_step_ok sys sys' : sys_ok sys -> sys_step sys sys' -> sys_misused sys' = false -> sys_ok sys'.
Proof.
  intros Hok Hs Hmis. pose proof (sys_step_misused _ _ Hs Hmis) as Hb. destruct Hs as
    [me fault d d' r procs log b Hme E|me gen kf lf sf d d' r procs log b Hme E
    |me fault chainID vote pv pv' d d' r procs log b Hme E
    |me fault chainID p pv pv' d d' r procs log b Hme E|me pv d procs log b Hme|me pv d procs log b Hme
    |me fault chainID vote pv pv' d d' r procs log b Hme E
    |me fault chainID p pv pv' d d' r procs log b Hme E]; cbn in Hb; subst b;
    try (pose proof (proj2 (misuse_false _ _ Hmis)) as Hlk; cbn [sys_misused] in Hmis; rewrite Hmis).
  - eapply opens_ok; [done|by eapply LoadFilePV_opens|done].
  - eapply opens_ok; [done|by eapply NewFilePV_opens|done].
  - destruct (ok_holder _ Hok _ _ Hme Hlk) as (_ & [Hg _] & _).
    destruct (VoteStep_dec (vt_Type vote)) as [[step Hstep]|Hn].
    + pose proof (SignVote_result fault chainID vote pv d step Hg Hstep) as Hr. rewrite E in Hr.
      unfold record_vote. rewrite Hstep. by eapply sign_ok.
    + apply SignVote_no_step in E as (-> & -> & ->); [|done]. rewrite app_nil_r, insert_id by done. done.
  - destruct (ok_holder _ Hok _ _ Hme Hlk) as (_ & [Hg _] & _).
    pose proof (SignProposal_result fault chainID p pv d Hg) as Hr. rewrite E in Hr. by eapply sign_ok.
  - unfold Close. destruct (pv_lockFile pv) eqn:Hlk; cbn [negb fst snd].
    2: by rewrite insert_id.
    split; cbn; [|apply (ok_state _ Hok)|apply Hok].
    intros k q [[<- <-]|[Hk Hq]]%lookup_insert_Some Hql; [done|]. exfalso. apply Hk.
    by eapply (holder_unique (mkSystem d procs log false)).
  - by eapply gone_ok.
  - destruct (ok_holder _ Hok _ _ Hme Hlk) as (_ & [Hg _] & _).
    destruct (VoteStep_dec (vt_Type vote)) as [[step Hstep]|Hn].
    + pose proof (SignVote_result fault chainID vote pv d step Hg Hstep) as Hr. rewrite E in Hr.
      by eapply sign_ok.
    + apply SignVote_no_step in E as (-> & -> & _); [|done]. by eapply gone_ok.
  - destruct (ok_holder _ Hok _ _ Hme Hlk) as (_ & [Hg _] & _).
    pose proof (SignProposal_result fault chainID p pv d Hg) as Hr. rewrite E in Hr. by eapply sign_ok.
Qed.

Lemma initial_ok d : fresh_state (disk_state d) -> sys_ok (initial d).
Proof.
  intros Hf. split; cbn; [|..].
  - intros me pv Hp. by rewrite lookup_empty in Hp.
  - destruct (disk_state d) as [| | |st]; try done. intros lss Hd. by apply covers_nil, Hf.
  - constructor.
Qed.

Lemma steps_misused sys sys' : rtc sys_step sys sys' -> sys_misused sys' = false -> sys_misused sys = false.
Proof. induction 1; eauto using sys_step_misused. Qed.

Lemma reachable_sys_ok d sys :
  fresh_state (disk_state d) -> rtc sys_step (initial d) sys -> sys_misused sys = false -> sys_ok sys.
Proof.
  intros Hf Hs. apply initial_ok in Hf. revert Hf.
  induction Hs as [|x y z Hxy Hyz IH]; intros Hok Hmis; [done|]. apply IH; [|done].
  eapply sys_step_ok; [done..|by eapply steps_misused].
Qed.

Lemma sorted_pair (log : list signed) e1 e2 :
  StronglySorted entry_le log -> e1 ∈ log -> e2 ∈ log -> e1 = e2 \/ entry_le e1 e2 \/ entry_le e2 e1.
Proof.
  induction 1 as [|x l _ IH Hx]; intros H1 H2; [by apply not_elem_of_nil in H1|].
  rewrite Forall_forall in Hx.
  apply elem_of_cons in H1. apply elem_of_cons in H2. naive_solver.
Qed.

(** C5: no double signing: over any sequence of openings, signing calls for any votes,
    proposals and chains, failed writes, crashes, restarts and closings of the processes that
    share the files, the signatures handed out come in increasing order of height, round and
    step; two for the same height, round and step are the same signature, of sign bytes with
    the same hash, provided that no object signs after its own [Close]. *)
Theorem FilePV_no_double_sign d sys :
  fresh_state (disk_state d) -> rtc sys_step (initial d) sys -> sys_misused sys = false ->
  StronglySorted entry_le (sys_log sys) /\
  forall e1 e2, e1 ∈ sys_log sys -> e2 ∈ sys_log sys ->
    sg_Height e1 = sg_Height e2 -> sg_Round e1 = sg_Round e2 -> sg_Step e1 = sg_Step e2 ->
    sha256_Sum256 (sg_bytes e1) = sha256_Sum256 (sg_bytes e2) /\ sg_sig e1 = sg_sig e2.
Proof.
  intros Hf Hs Hmis. pose proof (ok_log _ (reachable_sys_ok _ _ Hf Hs Hmis)) as Hl. split; [done|].
  intros e1 e2 H1 H2 E1 E2 E3.
  destruct (sorted_pair _ _ _ Hl H1 H2) as [->|[[Hlt|(_ & _ & _ & ? & ?)]|[Hlt|(_ & _ & _ & ? & ?)]]];
    [done|unfold hrs_lt in Hlt; lia|done|unfold hrs_lt in Hlt; lia|done].
Qed.
End SystemInvariant.

(** ** The state file *)

(** What a sign state holds when the votes carry well-formed block hashes. *)
Record state_wf (lss : LastSignState) : Prop := {
  swf_sig : sig_Data (lss_Signature lss) = [] \/ length (sig_Data (lss_Signature lss)) = 64%nat;
  swf_block : forall h, lss_BlockHash lss = Some h -> length (h_Data h) = 32%nat;
  swf_bytes : forall h, lss_SignBytesHash lss = Some h -> length (h_Data h) = 32%nat }.

Lemma load_hash_32 h msg : length (h_Data h) = 32%nat -> load_hash (h_Data h) msg = Ret (Some h).
Proof.
  intros Hl. unfold load_hash, len. rewrite Hl. change (0 <? Z.of_nat 32) with true. cbn [rbind].
  rewrite (proj2 (NewHash_Ret (h_Data h) (mkHash (h_Data h)))) by done. by destruct h.
Qed.

Lemma load_signature_64 s : length (sig_Data s) = 64%nat -> load_signature (sig_Data s) = Ret s.
Proof.
  intros Hl. unfold load_signature, len, NewSignature, len, SignatureSize.
  rewrite Hl, clone_id. by destruct s.
Qed.

Lemma decode_state_of lss : state_wf lss -> decode_state (state_of lss) = Ret lss.
Proof.
  intros [Hs Hb Hh]. destruct lss as [h r s [sg] bh sbh t]. unfold decode_state, state_of. cbn in *.
  assert (load_signature sg = Ret (mkSignature sg)) as ->.
  { destruct Hs as [->|Hs]; [done|]. by apply (load_signature_64 (mkSignature sg)). }
  cbn [rbind]. destruct bh as [bh|]; [rewrite load_hash_32 by auto|];
    (destruct sbh as [sbh|]; [rewrite load_hash_32 by auto|]); done.
Qed.

Definition no_fault : syscall -> bool := fun _ => false.

(** The state file round-trips: after a successful save, a restart restores the
    sign state exactly, and a save that failed before the rename leaves the old file. *)
Theorem saveState_loadState fault pv pv2 d :
  state_wf (pv_lastSignState pv) ->
  match saveState fault pv d with
  | (d', Ret _) => loadStateStrict pv2 d' = Ret (with_lss (pv_lastSignState pv) pv2)
  | (d', _) => d' = d \/ loadStateStrict pv2 d' = Ret (with_lss (pv_lastSignState pv) pv2)
  end.
Proof.
  intros Hw. destruct (saveState_cases fault pv d) as (d' & r & -> & Hd & Hr & _).
  assert (Hl : d' = with_state_file (File (state_of (pv_lastSignState pv))) d ->
    loadStateStrict pv2 d' = Ret (with_lss (pv_lastSignState pv) pv2)).
  { intros ->. unfold loadStateStrict. cbn. by rewrite (decode_state_of _ Hw). }
  destruct r as [[]| |]; [by apply Hl, Hr|destruct Hd; auto..].
Qed.

(** ** Examples *)

Definition key_0 : FilePVKey := mkFilePVKey (replicate 32 Byte.x0a) (replicate 64 Byte.x0a).

Definition disk_0 : disk := mkDisk (File key_0) keyFilePerm Missing None.

Definition vote_for (h : option Hash) : Vote :=
  mkVote VoteTypePrevote 1 0 h 5 (NewAccountName "a") 0 (mkSignature []).

Definition pv_0 : FilePV := mkFilePV (pk32 Byte.x0a) (replicate 64 Byte.x0a) zeroLastSignState true.

Definition disk_1 : disk := mkDisk (File key_0) keyFilePerm (File (state_of zeroLastSignState)) (Some 1%nat).

Definition sign_1 : FilePV * disk * res Signature :=
  SignVote no_fault chain_c (Some (vote_for (Some hash_1))) pv_0 disk_1.

Lemma FilePV_no_double_sign_witness :
  let log := record_vote chain_c (vote_for (Some hash_1)) sign_1.2 in
  StronglySorted entry_le log /\
  forall e1 e2, e1 ∈ log -> e2 ∈ log ->
    sg_Height e1 = sg_Height e2 -> sg_Round e1 = sg_Round e2 -> sg_Step e1 = sg_Step e2 ->
    sha256_Sum256 (sg_bytes e1) = sha256_Sum256 (sg_bytes e2) /\ sg_sig e1 = sg_sig e2.
Proof.
  apply (FilePV_no_double_sign disk_0
    (mkSystem sign_1.1.2 (<[1%nat := sign_1.1.1]> {[1%nat := pv_0]})
       ([] ++ record_vote chain_c (vote_for (Some hash_1)) sign_1.2) false)); [exact I| |reflexivity].
  eapply rtc_l.
  - apply (sys_NewFilePV 1 (Err (errorf "not used")) no_fault no_fault no_fault _ disk_1 (Ret pv_0));
      [reflexivity|vm_compute; reflexivity].
  - apply rtc_once, (sys_SignVote 1 no_fault) with (pv := pv_0) (b := false);
      [reflexivity|vm_compute; reflexivity].
Defined.

Lemma saveState_loadState_witness :
  match saveState no_fault pv_0 disk_0 with
  | (d', Ret _) => loadStateStrict newFilePV d' = Ret (with_lss (pv_lastSignState pv_0) newFilePV)
  | (d', _) => d' = disk_0 \/ loadStateStrict newFilePV d' = Ret (with_lss (pv_lastSignState pv_0) newFilePV)
  end.
Proof.
  apply (saveState_loadState no_fault pv_0 newFilePV disk_0). split; [by left|discriminate..].
Defined.

(** A vote whose block hash is neither empty nor 32 bytes long is signed and
    persisted, and the state file it leaves can no longer be loaded: the validator does not
    restart. *)
Theorem SignVote_bad_hash_bricks_state :
  exists pv d sig,
    SignVote no_fault chain_c (Some (vote_for (Some (mkHash [Byte.x01])))) pv_0 disk_1 = (pv, d, Ret sig) /\
    loadStateStrict newFilePV d =
      Err (wrapf (errorf "hash must be %d bytes, got %d") "invalid block hash in state file: %w").
Proof. do 3 eexists. split; vm_compute; reflexivity. Qed.

(** [SignVote] does not look at the lock: after [Close] another process may open the files and sign,
    and the closed object then signs a second vote for the same height, round and step. *)
Theorem SignVote_after_Close :
  exists sys e1 e2, rtc sys_step (initial disk_0) sys /\ sys_misused sys = true /\ e1 ∈ sys_log sys /\ e2 ∈ sys_log sys /\
    sg_Height e1 = sg_Height e2 /\ sg_Round e1 = sg_Round e2 /\ sg_Step e1 = sg_Step e2 /\ sg_sig e1 <> sg_sig e2.
Proof.
  set (closed := Close pv_0 disk_1). set (open2 := LoadFilePV no_fault 2 closed.1).
  set (pv2 := match open2.2 with Ret pv => pv | _ => pv_0 end).
  set (call1 := SignVote no_fault chain_c (Some (vote_for (Some hash_1))) pv2 open2.1).
  set (call2 := SignVote no_fault chain_c (Some (vote_for (Some hash_2))) closed.2 call1.1.2).
  set (r1 := record_vote chain_c (vote_for (Some hash_1)) call1.2). set (r2 := record_vote chain_c (vote_for (Some hash_2)) call2.2).
  exists (mkSystem call2.1.2 (<[1%nat := call2.1.1]> (<[2%nat := call1.1.1]> (<[2%nat := pv2]> (<[1%nat := closed.2]> {[1%nat := pv_0]}))))
    (([] ++ r1) ++ r2) true), (default (mkSigned 0 0 0 [] (mkSignature [])) (head r1)), (default (mkSigned 0 0 0 [] (mkSignature [])) (head r2)).
  split.
  - eapply rtc_l; [apply (sys_NewFilePV 1 (Err (errorf "not used")) no_fault no_fault no_fault _ disk_1 (Ret pv_0));
      [vm_compute; reflexivity|vm_compute; reflexivity]|].
    eapply rtc_l; [by apply (sys_Close 1 pv_0)|].
    eapply rtc_l; [apply (sys_LoadFilePV 2 no_fault _ open2.1 (Ret pv2)); [vm_compute; reflexivity|vm_compute; reflexivity]|].
    eapply rtc_l; [apply (sys_SignVote 2 no_fault chain_c (vote_for (Some hash_1)) pv2 call1.1.1 open2.1 call1.1.2 call1.2);
      vm_compute; reflexivity|].
    apply rtc_once. apply (sys_SignVote 1 no_fault chain_c (vote_for (Some hash_2)) closed.2 call2.1.1 call1.1.2 call2.1.2 call2.2);
      vm_compute; reflexivity.
  - split; [done|]. split; [apply list_elem_of_lookup_2 with 0%nat; vm_compute; reflexivity|].
    split; [apply list_elem_of_lookup_2 with 1%nat; vm_compute; reflexivity|]. repeat (split; [vm_compute; reflexivity|]).
    vm_compute. congruence.
Qed.
