(* ===== verification/BlockParts.v ===== *)
(** * Block parts (src/types/block_parts.go)

    Splitting of a block into parts with Merkle proofs, reassembly, and the bitmap of the
    parts a peer has. Indices and counts are [uint16]; the bitmaps are lists of [uint64]. *)

From S2P Require Export Concrete.

Definition BlockPartSize : Z := 65536.
Definition MaxBlockParts : Z := 1024.

Definition ErrPartSetInvalidIndex : error := sentinel "types.ErrPartSetInvalidIndex".
Definition ErrPartSetInvalidProof : error := sentinel "types.ErrPartSetInvalidProof".
Definition ErrPartSetAlreadyHas : error := sentinel "types.ErrPartSetAlreadyHas".
Definition ErrPartSetNotComplete : error := sentinel "types.ErrPartSetNotComplete".
Definition ErrPartSizeTooLarge : error := sentinel "types.ErrPartSizeTooLarge".
Definition ErrTooManyParts : error := sentinel "types.ErrTooManyParts".

Record BlockPart := mkBlockPart {
  part_Index : Z;
  part_Bytes : bytes;
  part_ProofPath : list Hash;
  part_ProofRoot : Hash }.

#[export] Instance BlockPart_eq_dec : EqDecision BlockPart.
Proof. solve_decision. Defined.

Record BlockPartSetHeader := mkBlockPartSetHeader { psh_Total : Z; psh_Hash : Hash }.

Definition IsZero (h : BlockPartSetHeader) : bool := psh_Total h =? 0.

Definition Equals (h other : BlockPartSetHeader) : bool :=
  (psh_Total h =? psh_Total other) && HashEqual (psh_Hash h) (psh_Hash other).

Record PartSet := mkPartSet {
  ps_total : Z;
  ps_hash : Hash;
  ps_parts : list (option BlockPart);
  ps_partsBits : list Z;
  ps_partsCount : Z;
  ps_data : option bytes }.

(** ** Bitmaps

    [bits[index/64]]: the callers guard [index < total], which keeps the word in range
    ([bits_ok] below); a missing word reads as 0. *)

Definition numWords (total : Z) : Z := (total + 63) / 64.

Definition word_at (bits : list Z) (index : Z) : Z := default 0 (bits !! Z.to_nat (index / 64)).

Definition test_bit (bits : list Z) (index : Z) : bool :=
  negb (Z.land (word_at bits index) (u64 (Z.shiftl 1 (index `mod` 64))) =? 0).

Definition set_bit (index : Z) (bits : list Z) : list Z :=
  alter (fun w => Z.lor w (u64 (Z.shiftl 1 (index `mod` 64)))) (Z.to_nat (index / 64)) bits.

Definition zero_words (total : Z) : list Z := replicate (Z.to_nat (numWords total)) 0.

(** The indices [0, ..., total - 1] of a loop. *)
Definition indices (total : Z) : list Z := seqZ 0 total.

Definition CopyBlockPart (part : option BlockPart) : option BlockPart :=
  match part with
  | None => None
  | Some part => Some
      {| part_Index := part_Index part;
         part_Bytes := clone (part_Bytes part);
         part_ProofPath := (fun h => default h (CopyHash (Some h))) <$> part_ProofPath part;
         part_ProofRoot := default (part_ProofRoot part) (CopyHash (Some (part_ProofRoot part))) |}
  end.

Section BlockParts.
Context `{Crypto} `{Cramberry}.

(** ** Merkle trees *)

(** One level: hash pairs; an odd one out is hashed with itself. *)
Fixpoint level_up (hashes : list bytes) : list bytes :=
  match hashes with
  | lft :: rgt :: rest => sha256_Sum256 (lft ++ rgt) :: level_up rest
  | [lft] => [sha256_Sum256 (lft ++ lft)]
  | [] => []
  end.

(** [for len(hashes) > 1]: every level at least halves, so the length is enough fuel
    ([merkle_loop_fuel]). *)
Fixpoint merkle_loop (fuel : nat) (hashes : list bytes) : list bytes :=
  match fuel with
  | O => hashes
  | S fuel => if 1 <? len hashes then merkle_loop fuel (level_up hashes) else hashes
  end.

Definition computeMerkleRoot (hashes : list bytes) : res Hash :=
  match hashes with
  | [] => Ret HashEmpty
  | [h] => MustNewHash h
  | _ => MustNewHash (hd [] (merkle_loop (length hashes) hashes))
  end.

(** [for _, idx := range l { proofs[idx] = append(proofs[idx], h) }] *)
Definition add_sibling (l : list nat) (h : Hash) (proofs : list (list Hash)) : list (list Hash) :=
  foldl (fun ps i => alter (fun p => p ++ [h]) i ps) proofs l.

(** One pass of the level loop: the next level, the leaves below each of its nodes, and the
    proofs with the siblings of this level appended. *)
Fixpoint build_pass (level : list bytes) (idx : list (list nat)) (proofs : list (list Hash))
    : res (list bytes * list (list nat) * list (list Hash)) :=
  match level, idx with
  | lft :: rgt :: level, li :: ri :: idx =>
      let! rightHash := MustNewHash rgt in
      let! leftHash := MustNewHash lft in
      let! (nextLevel, nextIndices, proofs) :=
        build_pass level idx (add_sibling ri leftHash (add_sibling li rightHash proofs)) in
      Ret (sha256_Sum256 (lft ++ rgt) :: nextLevel, (li ++ ri) :: nextIndices, proofs)
  | [lft], [li] =>
      let! rightHash := MustNewHash lft in
      let! leftHash := MustNewHash lft in
      Ret ([sha256_Sum256 (lft ++ lft)], [li ++ []], add_sibling li rightHash proofs)
  | _, _ => Ret ([], [], proofs)
  end.

Fixpoint build_loop (fuel : nat) (level : list bytes) (idx : list (list nat))
    (proofs : list (list Hash)) : res (list bytes * list (list Hash)) :=
  match fuel with
  | O => Ret (level, proofs)
  | S fuel =>
      if 1 <? len level then
        let! (level, idx, proofs) := build_pass level idx proofs in
        build_loop fuel level idx proofs
      else Ret (level, proofs)
  end.

Definition buildMerkleTreeWithProofs (leafHashes : list Hash) : res (Hash * list (list Hash)) :=
  match leafHashes with
  | [] => Ret (HashEmpty, [])
  | [h] => Ret (h, [[]])
  | _ =>
      let n := length leafHashes in
      let! (level, proofs) :=
        build_loop n ((fun h => clone (h_Data h)) <$> leafHashes) ((fun i => [i]) <$> seq 0 n)
          (replicate n []) in
      let! root := MustNewHash (hd [] level) in
      Ret (root, proofs)
  end.

Fixpoint verify_loop (current : bytes) (idx : Z) (proofPath : list Hash) : bytes :=
  match proofPath with
  | [] => current
  | sibling :: rest =>
      let combined := if idx `mod` 2 =? 0 then current ++ h_Data sibling else h_Data sibling ++ current in
      verify_loop (sha256_Sum256 combined) (idx / 2) rest
  end.

Definition verifyMerkleProof (partHash : Hash) (index : Z) (proofPath : list Hash) (root : Hash) : bool :=
  match proofPath with
  | [] => HashEqual partHash root
  | _ => HashEqual (mkHash (verify_loop (h_Data partHash) index proofPath)) root
  end.

(** ** PartSet *)

(** [data[i*BlockPartSize : min((i+1)*BlockPartSize, len(data))]] *)
Definition chunk (data : bytes) (i : Z) : bytes :=
  let start := i * BlockPartSize in
  let stop := Z.min (start + BlockPartSize) (len data) in
  take (Z.to_nat (stop - start)) (drop (Z.to_nat start) data).

Definition parts_total (data : bytes) : Z := (len data + BlockPartSize - 1) / BlockPartSize.

Definition NewPartSetFromData (data : bytes) : res PartSet :=
  if! len data =? 0 return Err (errorf "cannot create part set from empty data") in
  let total := parts_total data in
  if! total >? MaxBlockParts return Err (wrapf ErrTooManyParts "need %d parts, max is %d") in
  let partDatas := chunk data <$> indices total in
  let leafHashes := (fun d => mkHash (sha256_Sum256 d)) <$> partDatas in
  let! (rootHash, proofPaths) := buildMerkleTreeWithProofs leafHashes in
  Ret {| ps_total := u16 total;
         ps_hash := rootHash;
         ps_parts := imap (fun i d => Some (mkBlockPart (u16 (Z.of_nat i)) d
                                              (default [] (proofPaths !! i)) rootHash)) partDatas;
         ps_partsBits := foldl (fun bits i => set_bit i bits) (zero_words total) (indices total);
         ps_partsCount := u16 total;
         ps_data := Some data |}.

Definition NewPartSetFromHeader (header : BlockPartSetHeader) : res PartSet :=
  if! psh_Total header >? MaxBlockParts return Err (wrapf ErrTooManyParts "%d parts") in
  Ret {| ps_total := psh_Total header;
         ps_hash := psh_Hash header;
         ps_parts := replicate (Z.to_nat (psh_Total header)) None;
         ps_partsBits := zero_words (psh_Total header);
         ps_partsCount := 0;
         ps_data := None |}.

Definition Header (ps : PartSet) : BlockPartSetHeader :=
  mkBlockPartSetHeader (ps_total ps) (default (ps_hash ps) (CopyHash (Some (ps_hash ps)))).

Definition Total (ps : PartSet) : Z := ps_total ps.
Definition Count (ps : PartSet) : Z := ps_partsCount ps.
Definition IsComplete (ps : PartSet) : bool := ps_partsCount ps =? ps_total ps.

Definition hasPartUnlocked (ps : PartSet) (index : Z) : bool :=
  if! index >=? ps_total ps return false in test_bit (ps_partsBits ps) index.

Definition HasPart (ps : PartSet) (index : Z) : bool := hasPartUnlocked ps index.

Definition GetPart (ps : PartSet) (index : Z) : option BlockPart :=
  if! index >=? ps_total ps return None in
  CopyBlockPart (ps_parts ps !! Z.to_nat index ≫= id).

(** The bytes of a part of a complete set. *)
Definition part_bytes (p : option BlockPart) : bytes :=
  match p with Some p => part_Bytes p | None => [] end.

Definition with_data (data : option bytes) (ps : PartSet) : PartSet :=
  mkPartSet (ps_total ps) (ps_hash ps) (ps_parts ps) (ps_partsBits ps) (ps_partsCount ps) data.

(** Called when every part is present. *)
Definition assembleData (ps : PartSet) : PartSet * res unit :=
  let data := concat (part_bytes <$> ps_parts ps) in
  let partHashes := (fun p => sha256_Sum256 (part_bytes p)) <$> ps_parts ps in
  match computeMerkleRoot partHashes with
  | Ret computedHash =>
      if negb (HashEqual computedHash (ps_hash ps))
      then (with_data None ps, Err (errorf "assembled data hash mismatch: expected %x, got %x"))
      else (with_data (Some data) ps, Ret tt)
  | Err e => (with_data (Some data) ps, Err e)
  | Panic m => (with_data (Some data) ps, Panic m)
  end.

Definition store_part (part : BlockPart) (ps : PartSet) : PartSet :=
  {| ps_total := ps_total ps;
     ps_hash := ps_hash ps;
     ps_parts := <[Z.to_nat (part_Index part) := CopyBlockPart (Some part)]> (ps_parts ps);
     ps_partsBits := set_bit (part_Index part) (ps_partsBits ps);
     ps_partsCount := u16 (ps_partsCount ps + 1);
     ps_data := ps_data ps |}.

Definition AddPart (part : option BlockPart) (ps : PartSet) : PartSet * res unit :=
  match part with
  | None => (ps, Err (errorf "cannot add nil part"))
  | Some part =>
      if! part_Index part >=? ps_total ps return (ps, Err (wrapf ErrPartSetInvalidIndex "%d >= %d")) in
      if! len (part_Bytes part) >? BlockPartSize return (ps, Err (wrapf ErrPartSizeTooLarge "%d > %d")) in
      if! hasPartUnlocked ps (part_Index part) return (ps, Err ErrPartSetAlreadyHas) in
      if! negb (verifyMerkleProof (mkHash (sha256_Sum256 (part_Bytes part))) (part_Index part)
                  (part_ProofPath part) (ps_hash ps))
        return (ps, Err ErrPartSetInvalidProof) in
      let ps := store_part part ps in
      if ps_partsCount ps =? ps_total ps then assembleData ps else (ps, Ret tt)
  end.

Definition GetData (ps : PartSet) : res bytes :=
  if! negb (ps_partsCount ps =? ps_total ps) return Err ErrPartSetNotComplete in
  match ps_data ps with
  | None => Err (errorf "data assembly failed")
  | Some data => Ret (clone data)
  end.

Definition MissingParts (ps : PartSet) : list Z :=
  filter (fun i => hasPartUnlocked ps i = false) (indices (ps_total ps)).

Definition BlockPartsFromBlock (block : option Block) : res PartSet :=
  match block with
  | None => Err (errorf "cannot create parts from nil block")
  | Some block =>
      let! data := rwrap (marshal_Block block) (fun e => wrapf e "failed to marshal block: %w") in
      NewPartSetFromData data
  end.

Definition BlockFromParts (ps : PartSet) : res Block :=
  let! data := GetData ps in
  rwrap (unmarshal_Block data) (fun e => wrapf e "failed to unmarshal block: %w").
End BlockParts.

(** ** Lemmas: Merkle levels *)

(** Two-at-a-time induction on a level. *)
Lemma pair_ind {A} (P : list A -> Prop) :
  P [] -> (forall a, P [a]) -> (forall a b l, P l -> P (a :: b :: l)) -> forall l, P l.
Proof.
  intros H0 H1 H2 l. assert (P l /\ forall a, P (a :: l)) as [? _]; [|done].
  induction l as [|b l [IH1 IH2]]; auto.
Qed.

Section Merkle.
Context `{CL : CryptoLaws}.
#[local] Set Default Proof Using "Type CL".

Definition hash_sized (b : bytes) : Prop := length b = 32%nat.

Lemma level_up_sized l : Forall hash_sized (level_up l).
Proof. induction l as [|a|a b l IH] using pair_ind; cbn; repeat constructor; try apply sha256_length; done. Qed.

Lemma level_up_length l : length (level_up l) = Nat.div2 (S (length l)).
Proof. induction l as [|a|a b l IH] using pair_ind; cbn in *; [done..|]. by rewrite IH. Qed.

Lemma level_up_shorter l : (1 < length l)%nat -> (0 < length (level_up l) < length l)%nat.
Proof.
  rewrite level_up_length, Nat.div2_div. intros Hl.
  pose proof (Nat.div_mod_eq (S (length l)) 2). pose proof (Nat.mod_upper_bound (S (length l)) 2). lia.
Qed.

Lemma len_gt_1 {A} (l : list A) : (1 <? len l) = true <-> (1 < length l)%nat.
Proof. unfold len. rewrite Z.ltb_lt. lia. Qed.

Lemma len_le_1 {A} (l : list A) : (1 <? len l) = false <-> (length l <= 1)%nat.
Proof. unfold len. rewrite Z.ltb_ge. lia. Qed.

(** Enough fuel: a single hash is left, the same for any larger fuel. *)
Lemma merkle_loop_fuel n l :
  (length l <= n)%nat -> l <> [] ->
  length (merkle_loop n l) = 1%nat /\ forall k, (n <= k)%nat -> merkle_loop k l = merkle_loop n l.
Proof.
  revert l. induction n as [|n IH]; intros l Hn Hne; [destruct l; cbn in *; [done|lia]|].
  cbn [merkle_loop]. destruct (1 <? len l) eqn:E.
  - apply len_gt_1 in E. pose proof (level_up_shorter _ E) as Hs.
    destruct (IH (level_up l)) as [H1 H2]; [lia|by destruct (level_up l); cbn in *; [lia|]|].
    split; [done|]. intros [|k] Hk; [lia|]. cbn [merkle_loop].
    rewrite (proj2 (len_gt_1 _) E). apply H2. lia.
  - apply len_le_1 in E. destruct l as [|a []]; cbn in *; try done; [|lia].
    split; [done|]. intros [|k] _; done.
Qed.

Lemma merkle_loop_sized n l : Forall hash_sized l -> Forall hash_sized (merkle_loop n l).
Proof.
  revert l. induction n as [|n IH]; intros l Hl; cbn; [done|].
  case_match; [|done]. apply IH, level_up_sized.
Qed.

(** The root of a non-empty list of hashes. *)
Definition merkle_root (l : list bytes) : bytes := hd [] (merkle_loop (length l) l).

Lemma merkle_root_sized l : l <> [] -> Forall hash_sized l -> hash_sized (merkle_root l).
Proof.
  intros Hne Hl. unfold merkle_root.
  destruct (merkle_loop_fuel (length l) l) as [H1 _]; [lia|done|].
  pose proof (merkle_loop_sized (length l) l Hl) as Hs.
  destruct (merkle_loop (length l) l) as [|r []]; try done. by inversion Hs.
Qed.

Lemma merkle_root_step l :
  (1 < length l)%nat -> merkle_root l = merkle_root (level_up l).
Proof.
  intros Hl. unfold merkle_root. pose proof (level_up_shorter _ Hl) as Hs.
  destruct (length l) as [|n] eqn:E; [lia|]. cbn [merkle_loop].
  rewrite (proj2 (len_gt_1 l)) by lia. f_equal.
  apply (merkle_loop_fuel (length (level_up l))); [lia| |lia].
  by destruct (level_up l); cbn in *; [lia|].
Qed.

Lemma computeMerkleRoot_Ret l :
  l <> [] -> Forall hash_sized l -> computeMerkleRoot l = Ret (mkHash (merkle_root l)).
Proof.
  intros Hne Hl. pose proof (merkle_root_sized _ Hne Hl) as Hr. unfold computeMerkleRoot.
  destruct l as [|a [|b l]]; [done|by apply MustNewHash_32|by apply MustNewHash_32].
Qed.

(** ** Lemmas: injectivity up to collisions

    Two different byte strings with one digest always exist: there are more strings than
    digests. What an attacker would have to show is a pair among the strings that were in
    fact hashed, so every statement below names the finite list the pair is found in. *)

Definition collision_in (l : list bytes) : Prop :=
  exists x y, x ∈ l /\ y ∈ l /\ x <> y /\ sha256_Sum256 x = sha256_Sum256 y.

Lemma collision_mono l l' : (forall x, x ∈ l -> x ∈ l') -> collision_in l -> collision_in l'.
Proof. intros Hl (x & y & Hx & Hy & Hne & E). exists x, y. auto. Qed.

Lemma sha_inj l x y :
  x ∈ l -> y ∈ l -> sha256_Sum256 x = sha256_Sum256 y -> x = y \/ collision_in l.
Proof. intros Hx Hy E. destruct (decide (x = y)); [by left|right; by exists x, y]. Qed.

Lemma sha_map_inj l1 l2 :
  sha256_Sum256 <$> l1 = sha256_Sum256 <$> l2 -> l1 = l2 \/ collision_in (l1 ++ l2).
Proof.
  revert l2. induction l1 as [|x l1 IH]; intros [|y l2] E; try done; [by left|]. cbn in E.
  injection E as E1 E2.
  apply (sha_inj ((x :: l1) ++ y :: l2)) in E1 as [->|]; [|by right|by left|].
  - destruct (IH _ E2) as [->|Hc]; [by left|right]. eapply collision_mono, Hc.
    intros z. cbn. rewrite !elem_of_cons, !elem_of_app, !elem_of_cons. tauto.
  - apply elem_of_app. right. by left.
Qed.

(** The strings that [level_up] hashes, and those of all levels up to the root. *)
Fixpoint level_inputs (l : list bytes) : list bytes :=
  match l with
  | lft :: rgt :: l => (lft ++ rgt) :: level_inputs l
  | [lft] => [lft ++ lft]
  | [] => []
  end.

Fixpoint tree_inputs (fuel : nat) (l : list bytes) : list bytes :=
  match fuel with
  | O => []
  | S fuel => if 1 <? len l then level_inputs l ++ tree_inputs fuel (level_up l) else []
  end.

(** The strings hashed for the root of the Merkle tree of some chunks. *)
Definition hashed (chunks : list bytes) : list bytes :=
  chunks ++ tree_inputs (length chunks) (sha256_Sum256 <$> chunks).

(** The strings hashed in the check of a part's proof. *)
Fixpoint verify_inputs (current : bytes) (idx : Z) (proofPath : list Hash) : list bytes :=
  match proofPath with
  | [] => []
  | sibling :: rest =>
      let combined := if idx `mod` 2 =? 0 then current ++ h_Data sibling else h_Data sibling ++ current in
      combined :: verify_inputs (sha256_Sum256 combined) (idx / 2) rest
  end.

Definition hashed_part (p : BlockPart) : list bytes :=
  part_Bytes p :: verify_inputs (sha256_Sum256 (part_Bytes p)) (part_Index p) (part_ProofPath p).

Lemma level_up_inputs l : level_up l = sha256_Sum256 <$> level_inputs l.
Proof. induction l as [|a|a b l IH] using pair_ind; cbn; [done..|]. by rewrite IH. Qed.

Lemma level_inputs_inj l1 l2 :
  length l1 = length l2 -> Forall hash_sized l1 -> Forall hash_sized l2 ->
  level_inputs l1 = level_inputs l2 -> l1 = l2.
Proof.
  revert l2. induction l1 as [|a|a b l1 IH] using pair_ind; intros [|x [|y l2]] Hl H1 H2 E;
    try done; cbn in E; inversion_clear H1 as [|? ? Ha H1']; inversion_clear H2 as [|? ? Hx H2'].
  - injection E as E. apply app_inj_1 in E as [-> _]; [done|]. unfold hash_sized in *. lia.
  - inversion_clear H1' as [|? ? Hb H1]. inversion_clear H2' as [|? ? Hy H2].
    injection E as E1 E2. apply app_inj_1 in E1 as [-> ->]; [|unfold hash_sized in *; lia].
    cbn in Hl. by rewrite (IH l2) by (done || lia).
Qed.

Lemma tree_inputs_step n l :
  (length l <= n)%nat -> (1 < length l)%nat ->
  tree_inputs n l = level_inputs l ++ tree_inputs (pred n) (level_up l).
Proof. intros Hn Hl. destruct n as [|n]; [lia|]. cbn [tree_inputs pred]. by rewrite (proj2 (len_gt_1 l) Hl). Qed.

Lemma merkle_root_inj n l1 l2 :
  (length l1 <= n)%nat -> length l1 = length l2 -> Forall hash_sized l1 -> Forall hash_sized l2 ->
  merkle_root l1 = merkle_root l2 -> l1 = l2 \/ collision_in (tree_inputs n l1 ++ tree_inputs n l2).
Proof.
  revert l1 l2. induction n as [|n IH]; intros l1 l2 Hn Hl H1 H2 E.
  { left. destruct l1, l2; cbn in *; (done || lia). }
  destruct (decide (1 < length l1)%nat) as [Hgt|Hle].
  - rewrite (merkle_root_step l1), (merkle_root_step l2) in E by lia.
    pose proof (level_up_shorter _ Hgt). rewrite (tree_inputs_step (S n) l1), (tree_inputs_step (S n) l2) by lia. cbn [pred].
    destruct (IH (level_up l1) (level_up l2)) as [E'|Hc];
      [lia|by rewrite !level_up_length, Hl|apply level_up_sized..|done| |].
    + rewrite !level_up_inputs in E'. apply sha_map_inj in E' as [E'|Hc].
      * left. by apply level_inputs_inj.
      * right. eapply collision_mono, Hc. intros x. rewrite !elem_of_app. tauto.
    + right. eapply collision_mono, Hc. intros x. rewrite !elem_of_app. tauto.
  - left. destruct l1 as [|a []], l2 as [|b []]; cbn in *; try done; try lia.
    change (a = b) in E. by subst.
Qed.

(** ** Lemmas: proofs *)

(** The sibling of position [p] in a level, and the proof path from [p] to the root. *)
Definition sibling (l : list bytes) (p : nat) : bytes :=
  if Nat.even p then default (l !!! p) (l !! S p) else l !!! (pred p).

Fixpoint proof_path (fuel : nat) (l : list bytes) (p : nat) : list Hash :=
  match fuel with
  | O => []
  | S fuel => if 1 <? len l then mkHash (sibling l p) :: proof_path fuel (level_up l) (Nat.div2 p)
              else []
  end.

Lemma level_inputs_lookup l p b :
  l !! p = Some b ->
  level_inputs l !! Nat.div2 p = Some (if Nat.even p then b ++ sibling l p else sibling l p ++ b).
Proof.
  revert p. induction l as [|x|x y l IH] using pair_ind; intros p Hp; [done|..].
  - destruct p; [|done]. injection Hp as ->. done.
  - destruct p as [|[|p]]; [injection Hp as ->; done|injection Hp as ->; done|].
    cbn [Nat.div2 level_inputs]. cbn in Hp. rewrite lookup_cons. rewrite (IH p Hp).
    unfold sibling. change (Nat.even (S (S p))) with (Nat.even p).
    destruct (Nat.even p) eqn:Ev; [done|]. destruct p; [done|]. done.
Qed.

Lemma level_up_lookup l p b :
  l !! p = Some b ->
  level_up l !! Nat.div2 p =
    Some (sha256_Sum256 (if Nat.even p then b ++ sibling l p else sibling l p ++ b)).
Proof. intros Hp. by rewrite level_up_inputs, list_lookup_fmap, (level_inputs_lookup _ _ _ Hp). Qed.

Lemma even_mod p : (Z.of_nat p `mod` 2 =? 0) = Nat.even p.
Proof.
  rewrite <- Nat2Z.inj_mod with (m := 2%nat). destruct (Nat.even p) eqn:Ev.
  - apply Nat.even_spec in Ev as [k ->]. rewrite Nat.mul_comm, Nat.Div0.mod_mul. done.
  - rewrite <- Nat.negb_odd in Ev. apply negb_false_iff, Nat.odd_spec in Ev as [k ->].
    rewrite Nat.add_comm, Nat.mul_comm, Nat.Div0.mod_add. done.
Qed.

Lemma half_div p : Z.of_nat p / 2 = Z.of_nat (Nat.div2 p).
Proof. rewrite Nat.div2_div, Nat2Z.inj_div. done. Qed.

(** Following the path from a leaf of the level gives the root. *)
Lemma verify_proof_path fuel l p b :
  (length l <= fuel)%nat -> l !! p = Some b ->
  verify_loop b (Z.of_nat p) (proof_path fuel l p) = merkle_root l.
Proof.
  revert l p b. induction fuel as [|fuel IH]; intros l p b Hf Hp.
  { destruct l; [done|cbn in Hf; lia]. }
  cbn [proof_path]. destruct (1 <? len l) eqn:E.
  - apply len_gt_1 in E. cbn [verify_loop h_Data].
    rewrite even_mod, half_div.
    rewrite (merkle_root_step l) by done. apply IH.
    + pose proof (level_up_shorter _ E). lia.
    + by apply level_up_lookup.
  - apply len_le_1 in E. destruct l as [|a []]; [done| |cbn in E; lia].
    destruct p; [|done]. injection Hp as ->. done.
Qed.

(** The Merkle check is sound: a path as long as the tree is high proves only the leaf that is
    at the position, up to a collision among the strings hashed. *)
Lemma verify_loop_sound n l p h path :
  (length l <= n)%nat -> Forall hash_sized l -> (p < length l)%nat -> hash_sized h ->
  length path = length (proof_path n l p) ->
  verify_loop h (Z.of_nat p) path = merkle_root l ->
  l !! p = Some h \/ collision_in (tree_inputs n l ++ verify_inputs h (Z.of_nat p) path).
Proof.
  revert l p h path. induction n as [|n IH]; intros l p h path Hn Hl Hp Hh Hlen E; [lia|].
  cbn [proof_path] in Hlen. destruct (1 <? len l) eqn:Hgt.
  - pose proof (proj1 (len_gt_1 _) Hgt) as Hgt'. pose proof (level_up_shorter _ Hgt').
    destruct path as [|s path]; [done|]. cbn in Hlen. injection Hlen as Hlen.
    cbn [verify_loop verify_inputs] in *. rewrite tree_inputs_step by done. cbn [pred].
    rewrite even_mod, half_div in *. rewrite merkle_root_step in E by done.
    destruct (lookup_lt_is_Some_2 l p Hp) as [b Hb].
    set (c := if Nat.even p then h ++ h_Data s else h_Data s ++ h) in *.
    destruct (IH (level_up l) (Nat.div2 p) (sha256_Sum256 c) path) as [E'|Hc];
      [lia|apply level_up_sized|eapply lookup_lt_Some, level_up_lookup, Hb|apply sha256_length|done..| |].
    + rewrite (level_up_lookup _ _ _ Hb) in E'. injection E' as E'.
      apply (sha_inj ((level_inputs l ++ tree_inputs n (level_up l)) ++
                      c :: verify_inputs (sha256_Sum256 c) (Z.of_nat (Nat.div2 p)) path)) in E' as [E'|];
        [left|by right| |apply elem_of_app; right; by left].
      * rewrite Hb. f_equal. pose proof (Forall_lookup_1 _ _ _ _ Hl Hb) as Hb'. unfold hash_sized in *.
        unfold c in E'. destruct (Nat.even p);
          [apply app_inj_1 in E' as [-> _]|apply app_inj_2 in E' as [_ ->]]; done || lia.
      * rewrite !elem_of_app. do 2 left. by eapply list_elem_of_lookup_2, level_inputs_lookup.
    + right. eapply collision_mono, Hc. intros x. rewrite !elem_of_app, elem_of_cons. tauto.
  - apply len_le_1 in Hgt. destruct path; [|done]. destruct l as [|a []]; [cbn in Hp; lia| |cbn in Hgt; lia].
    destruct p; [|cbn in Hp; lia]. left. cbn in E. change (h = a) in E. by subst.
Qed.

(** The parents of the leaf groups. *)
Fixpoint pair_up (idx : list (list nat)) : list (list nat) :=
  match idx with
  | li :: ri :: idx => (li ++ ri) :: pair_up idx
  | [li] => [li ++ []]
  | [] => []
  end.

Lemma pair_up_concat idx : concat (pair_up idx) = concat idx.
Proof. induction idx as [|a|a b l IH] using pair_ind; cbn; rewrite ?IH, ?app_nil_r, <- ?app_assoc; done. Qed.

Lemma pair_up_lookup idx p li i :
  idx !! p = Some li -> i ∈ li -> exists l, pair_up idx !! Nat.div2 p = Some l /\ i ∈ l.
Proof.
  revert p. induction idx as [|a|a b l IH] using pair_ind; intros p Hp Hi; [done|..].
  - destruct p; [|done]. injection Hp as ->. exists (li ++ []). split; [done|by rewrite app_nil_r].
  - destruct p as [|[|p]]; cbn in Hp; [simplify_eq..|by apply IH].
    + exists (li ++ b). split; [done|]. apply elem_of_app. by left.
    + exists (a ++ li). split; [done|]. apply elem_of_app. by right.
Qed.

Lemma pair_up_length (l : list bytes) idx : length idx = length l -> length (pair_up idx) = length (level_up l).
Proof.
  revert idx. induction l as [|a|a b l IH] using pair_ind; intros [|x [|y idx]] Hl; cbn in *; try done.
  f_equal. apply IH. lia.
Qed.

Lemma add_sibling_spec l h proofs i :
  NoDup l ->
  add_sibling l h proofs !! i =
    if decide (i ∈ l) then (fun p => p ++ [h]) <$> proofs !! i else proofs !! i.
Proof.
  unfold add_sibling. revert proofs. induction l as [|j l IH]; intros proofs Hn; [done|].
  apply NoDup_cons in Hn as [Hj Hn]. cbn [foldl]. rewrite IH by done.
  destruct (decide (i = j)) as [->|Hne].
  - rewrite decide_False by done. rewrite list_lookup_alter_eq, decide_True by (by left). done.
  - rewrite list_lookup_alter_ne by done.
    destruct (decide (i ∈ l)); [rewrite decide_True by (by right)|rewrite decide_False by set_solver]; done.
Qed.
Lemma build_pass_spec l idx proofs :
  Forall hash_sized l -> length idx = length l -> NoDup (concat idx) ->
  exists proofs', build_pass l idx proofs = Ret (level_up l, pair_up idx, proofs') /\
    (forall i, (i ∉ concat idx) -> proofs' !! i = proofs !! i) /\
    forall p li i, idx !! p = Some li -> i ∈ li ->
      proofs' !! i = (fun path => path ++ [mkHash (sibling l p)]) <$> proofs !! i.
Proof.
  revert idx proofs. induction l as [|a|a b l IH] using pair_ind; intros [|x [|y idx]] proofs Hs Hl Hn; try done.
  - exists proofs. split_and!; done.
  - inversion_clear Hs as [|? ? Ha _]. cbn [build_pass]. rewrite MustNewHash_32 by done. cbn [rbind].
    cbn in Hn. rewrite app_nil_r in Hn. eexists. split; [done|]. split.
    + intros i Hi. cbn in Hi. rewrite app_nil_r in Hi. by rewrite add_sibling_spec, decide_False.
    + intros [|p] li i Hp Hi; [|done]. injection Hp as ->. by rewrite add_sibling_spec, decide_True.
  - inversion_clear Hs as [|? ? Ha Hs']. inversion_clear Hs' as [|? ? Hb Hs]. cbn in Hl.
    cbn [build_pass]. rewrite !MustNewHash_32 by done. cbn [rbind]. cbn in Hn. rewrite app_assoc in Hn.
    apply NoDup_app in Hn as (Hxy & Hd & Hn). apply NoDup_app in Hxy as (Hx & Hdxy & Hy).
    destruct (IH idx (add_sibling y (mkHash a) (add_sibling x (mkHash b) proofs))) as (pr & -> & H1 & H2);
      [done|lia|done|]. cbn [rbind]. exists pr. split; [done|].
    assert (Hin : forall i, i ∈ x \/ i ∈ y -> pr !! i = (fun path => path ++ [mkHash (if decide (i ∈ x) then b else a)]) <$> proofs !! i).
    { intros i Hi. rewrite H1 by (apply Hd, elem_of_app; done). rewrite !add_sibling_spec by done.
      destruct (decide (i ∈ x)) as [Hix|]; [by rewrite decide_False by (by apply Hdxy)|].
      by rewrite decide_True by naive_solver. }
    split.
    + intros i Hi. cbn in Hi. rewrite !not_elem_of_app in Hi. destruct Hi as (? & ? & ?).
      by rewrite H1, !add_sibling_spec, !decide_False.
    + intros [|[|p]] li i Hp Hi; cbn in Hp; [simplify_eq..|].
      * rewrite Hin by auto. by rewrite decide_True by done.
      * rewrite Hin by auto. rewrite decide_False; [done|]. intros Hix. by apply (Hdxy i Hix).
      * assert (Hc : i ∈ concat idx) by (eapply elem_of_concat_lookup; eauto).
        assert (i ∉ x) by (intros ?; apply (Hd i); [apply elem_of_app; auto|done]).
        assert (i ∉ y) by (intros ?; apply (Hd i); [apply elem_of_app; auto|done]).
        rewrite (H2 _ _ _ Hp Hi), !add_sibling_spec, !decide_False by done.
        unfold sibling. change (Nat.even (S (S p))) with (Nat.even p).
        destruct (Nat.even p) eqn:Ev; [done|]. by destruct p.
Qed.

Lemma build_loop_spec fuel l idx proofs :
  (length l <= fuel)%nat -> l <> [] -> Forall hash_sized l -> length idx = length l ->
  NoDup (concat idx) ->
  exists proofs', build_loop fuel l idx proofs = Ret (merkle_loop fuel l, proofs') /\
    forall p li i path, idx !! p = Some li -> i ∈ li -> proofs !! i = Some path ->
      proofs' !! i = Some (path ++ proof_path fuel l p).
Proof.
  revert l idx proofs. induction fuel as [|fuel IH]; intros l idx proofs Hf Hne Hs Hl Hn.
  { destruct l; [done|cbn in Hf; lia]. }
  cbn [build_loop merkle_loop proof_path]. destruct (1 <? len l) eqn:E.
  - apply len_gt_1 in E. destruct (build_pass_spec l idx proofs Hs Hl Hn) as (pr & -> & H1 & H2).
    cbn [rbind]. pose proof (level_up_shorter _ E).
    destruct (IH (level_up l) (pair_up idx) pr) as (pr' & -> & H3);
      [lia|by destruct (level_up l); cbn in *; [lia|]|apply level_up_sized|by apply pair_up_length|
       by rewrite pair_up_concat|].
    exists pr'. split; [done|]. intros p li i path Hp Hi Hpath.
    destruct (pair_up_lookup _ _ _ _ Hp Hi) as (l' & Hp' & Hi').
    rewrite (H3 _ _ _ (path ++ [mkHash (sibling l p)]) Hp' Hi'); [by rewrite <- app_assoc|].
    by rewrite (H2 _ _ _ Hp Hi), Hpath.
  - exists proofs. split; [done|]. intros p li i path _ _ ->. by rewrite app_nil_r.
Qed.
Lemma seq_singletons n : concat ((fun i => [i]) <$> seq 0 n) = seq 0 n.
Proof. induction (seq 0 n) as [|x l IH]; cbn; [done|]. by f_equal. Qed.

Lemma hashes_clone (l : list Hash) : (fun h => clone (h_Data h)) <$> l = h_Data <$> l.
Proof. apply list_fmap_ext. intros. apply clone_id. Qed.

Lemma buildMerkle_spec leaves :
  leaves <> [] -> Forall (fun h => hash_sized (h_Data h)) leaves ->
  exists proofs,
    buildMerkleTreeWithProofs leaves = Ret (mkHash (merkle_root (h_Data <$> leaves)), proofs) /\
    forall i h, leaves !! i = Some h ->
      verifyMerkleProof h (Z.of_nat i) (default [] (proofs !! i))
        (mkHash (merkle_root (h_Data <$> leaves))) = true /\
      default [] (proofs !! i) = proof_path (length leaves) (h_Data <$> leaves) i.
Proof.
  intros Hne Hs. destruct leaves as [|h0 [|h1 rest]]; [done|..].
  { destruct h0 as [d0]. exists [[]]. split; [done|]. intros [|i] h; [|done]. intros [= <-].
    split; [apply HashEqual_refl|done]. }
  set (leaves := h0 :: h1 :: rest) in *. set (n := length leaves).
  assert (Hs' : Forall hash_sized (h_Data <$> leaves)) by (by apply Forall_fmap).
  assert (Hne' : h_Data <$> leaves <> []) by done.
  assert (Hn : length (h_Data <$> leaves) = n) by apply length_fmap.
  destruct (build_loop_spec n (h_Data <$> leaves) ((fun i => [i]) <$> seq 0 n) (replicate n []))
    as (pr & Hb & Hp); [by rewrite Hn|done|done|by rewrite !length_fmap, length_seq|
    rewrite seq_singletons; apply NoDup_seq|].
  exists pr. split.
  - change (buildMerkleTreeWithProofs leaves) with
      (let! (level, proofs) := build_loop n ((fun h => clone (h_Data h)) <$> leaves)
         ((fun i => [i]) <$> seq 0 n) (replicate n []) in
       let! root := MustNewHash (hd [] level) in Ret (root, proofs)).
    rewrite hashes_clone, Hb. cbn [rbind]. pose proof (merkle_root_sized _ Hne' Hs') as Hr.
    unfold merkle_root in Hr. rewrite Hn in Hr. rewrite MustNewHash_32 by done.
    cbn [rbind]. unfold merkle_root. by rewrite Hn.
  - intros i h Hi. assert (Hlt : (i < n)%nat) by (by eapply lookup_lt_Some).
    rewrite (Hp i [i] i []); cycle 1.
    + rewrite list_lookup_fmap, lookup_seq_lt by done. done.
    + by left.
    + by apply lookup_replicate_2.
    + split; [|done]. cbn [app default]. assert (Hd : (h_Data <$> leaves) !! i = Some (h_Data h))
        by (by rewrite list_lookup_fmap, Hi).
      pose proof (verify_proof_path n _ i _ ltac:(by rewrite Hn) Hd) as Hv.
      unfold verifyMerkleProof. destruct (proof_path n (h_Data <$> leaves) i) as [|q path] eqn:Ep.
      { change n with (S (S (length rest))) in Ep. cbn [proof_path] in Ep.
        by rewrite (proj2 (len_gt_1 _)) in Ep by (cbn; lia). }
      unfold id. rewrite Hv. apply HashEqual_refl.
Qed.
End Merkle.

(** ** Lemmas: bitmaps *)

Definition bits_ok (total : Z) (bits : list Z) : Prop :=
  len bits = numWords total /\ Forall (fun w => 0 <= w < 2 ^ 64) bits.

Lemma u64_bit k : 0 <= k < 64 -> u64 (Z.shiftl 1 k) = 2 ^ k.
Proof.
  intros Hk. rewrite Z.shiftl_1_l. apply Z.mod_small. split; [apply Z.pow_nonneg; lia|].
  apply Z.pow_lt_mono_r; lia.
Qed.

Lemma test_bit_testbit bits i :
  0 <= i -> test_bit bits i = Z.testbit (word_at bits i) (i `mod` 64).
Proof.
  intros Hi. unfold test_bit. pose proof (Z.mod_pos_bound i 64 ltac:(lia)) as Hb.
  rewrite u64_bit by done. set (k := i `mod` 64) in *. set (w := word_at bits i).
  assert (Z.land w (2 ^ k) = if Z.testbit w k then 2 ^ k else 0) as ->.
  { apply Z.bits_inj'. intros j Hj. rewrite Z.land_spec, Z.pow2_bits_eqb by lia.
    destruct (Z.eqb_spec k j) as [->|Hne].
    - destruct (Z.testbit w j); [by rewrite Z.pow2_bits_true by lia|by rewrite Z.bits_0].
    - rewrite andb_false_r. destruct (Z.testbit w k);
        [by rewrite Z.pow2_bits_false by lia|by rewrite Z.bits_0]. }
  destruct (Z.testbit w k); [|done]. pose proof (Z.pow_pos_nonneg 2 k ltac:(lia) ltac:(lia)).
  by rewrite (proj2 (Z.eqb_neq _ _)) by lia.
Qed.

Lemma index_word total i bits :
  bits_ok total bits -> 0 <= i < total -> (Z.to_nat (i / 64) < length bits)%nat.
Proof.
  intros [Hl _] Hi. unfold len, numWords in Hl.
  enough (i / 64 < (total + 63) / 64) by (assert (0 <= i / 64) by (apply Z.div_pos; lia); lia).
  Z.to_euclidean_division_equations; lia.
Qed.

Lemma word_at_set_bit total bits i j :
  bits_ok total bits -> 0 <= i < total -> 0 <= j ->
  word_at (set_bit i bits) j =
    if i / 64 =? j / 64 then Z.lor (word_at bits j) (u64 (Z.shiftl 1 (i `mod` 64))) else word_at bits j.
Proof.
  intros Hok Hi Hj. pose proof (index_word _ _ _ Hok Hi) as Hlt. unfold word_at, set_bit.
  pose proof (Z.div_pos i 64 ltac:(lia) ltac:(lia)). pose proof (Z.div_pos j 64 ltac:(lia) ltac:(lia)).
  destruct (Z.eqb_spec (i / 64) (j / 64)) as [E|Hne].
  - rewrite <- E, list_lookup_alter_eq. apply lookup_lt_is_Some_2 in Hlt as [w ->]. done.
  - rewrite list_lookup_alter_ne by lia. done.
Qed.

Lemma test_bit_set_bit total bits i j :
  bits_ok total bits -> 0 <= i < total -> 0 <= j ->
  test_bit (set_bit i bits) j = (i =? j) || test_bit bits j.
Proof.
  intros Hok Hi Hj. rewrite !test_bit_testbit by done. rewrite (word_at_set_bit total) by done.
  pose proof (Z.mod_pos_bound i 64 ltac:(lia)). pose proof (Z.mod_pos_bound j 64 ltac:(lia)).
  pose proof (Z.div_mod i 64 ltac:(lia)). pose proof (Z.div_mod j 64 ltac:(lia)).
  destruct (Z.eqb_spec (i / 64) (j / 64)) as [E|Hne].
  - rewrite Z.lor_spec, u64_bit, Z.pow2_bits_eqb by lia.
    rewrite orb_comm. f_equal. apply eq_true_iff_eq. rewrite !Z.eqb_eq. lia.
  - destruct (Z.eqb_spec i j); [|done]. subst. done.
Qed.

Lemma set_bit_ok total bits i : bits_ok total bits -> 0 <= i -> bits_ok total (set_bit i bits).
Proof.
  intros [Hl Hw] Hi. unfold bits_ok, set_bit, len in *. split; [by rewrite length_alter|].
  apply Forall_alter; [done|]. intros w _ Hr. cbn.
  assert (0 <= u64 (Z.shiftl 1 (i `mod` 64)) < 2 ^ 64) by (apply Z.mod_pos_bound; lia).
  split; [apply Z.lor_nonneg; lia|].
  destruct (decide (Z.lor w (u64 (Z.shiftl 1 (i `mod` 64))) = 0)) as [->|Hne]; [lia|].
  apply Z.log2_lt_cancel. rewrite Z.log2_lor, Z.log2_pow2 by lia.
  assert (Hlog : forall z, 0 <= z < 2 ^ 64 -> Z.log2 z < 64).
  { intros z Hz. destruct (decide (z = 0)) as [->|]; [done|]. apply Z.log2_lt_pow2; lia. }
  pose proof (Hlog w Hr). pose proof (Hlog (u64 (Z.shiftl 1 (i `mod` 64))) ltac:(lia)). lia.
Qed.

Lemma zero_words_ok total : 0 <= total -> bits_ok total (zero_words total).
Proof.
  intros Ht. unfold bits_ok, zero_words, len, numWords. rewrite length_replicate. split.
  - assert (0 <= (total + 63) / 64) by (apply Z.div_pos; lia). lia.
  - apply Forall_replicate. lia.
Qed.

Lemma test_bit_zero total i : 0 <= i -> test_bit (zero_words total) i = false.
Proof.
  intros Hi. rewrite test_bit_testbit by done. unfold word_at, zero_words.
  destruct (replicate _ 0 !! _) as [w|] eqn:E; [|apply Z.bits_0]. apply lookup_replicate_1 in E as [-> _]. apply Z.bits_0.
Qed.

(** ** Well-formed part sets *)

Definition present (parts : list (option BlockPart)) : list BlockPart := omap id parts.

Section WellFormed.
Context `{CL : CryptoLaws}.
#[local] Set Default Proof Using "Type CL".

Definition part_ok (root : Hash) (i : nat) (p : BlockPart) : Prop :=
  part_Index p = Z.of_nat i /\ len (part_Bytes p) <= BlockPartSize /\
  verifyMerkleProof (mkHash (sha256_Sum256 (part_Bytes p))) (part_Index p) (part_ProofPath p) root = true.

Definition part_hashes (parts : list (option BlockPart)) : list bytes :=
  (fun p => sha256_Sum256 (part_bytes p)) <$> parts.

Record PartSet_wf (ps : PartSet) : Prop := {
  wf_total : 0 <= ps_total ps <= MaxBlockParts;
  wf_parts : len (ps_parts ps) = ps_total ps;
  wf_bits : bits_ok (ps_total ps) (ps_partsBits ps);
  wf_has : forall i : nat, Z.of_nat i < ps_total ps ->
    test_bit (ps_partsBits ps) (Z.of_nat i) = true <-> exists p, ps_parts ps !! i = Some (Some p);
  wf_part : forall i p, ps_parts ps !! i = Some (Some p) -> part_ok (ps_hash ps) i p;
  wf_count : ps_partsCount ps = len (present (ps_parts ps));
  wf_data : forall d, ps_data ps = Some d ->
    ps_partsCount ps = ps_total ps /\ d = concat (part_bytes <$> ps_parts ps) /\
    mkHash (merkle_root (part_hashes (ps_parts ps))) = ps_hash ps }.

Lemma CopyBlockPart_id p : CopyBlockPart p = p.
Proof.
  destruct p as [[i b path r]|]; [|done]. unfold CopyBlockPart.
  rewrite clone_id, CopyHash_id, fmap_id_ext by (intros h; by rewrite CopyHash_id). done.
Qed.

Lemma present_insert parts i p :
  parts !! i = Some None -> length (present (<[i := Some p]> parts)) = S (length (present parts)).
Proof.
  unfold present. revert i. induction parts as [|q parts IH]; intros [|i] Hi; cbn in Hi; try done.
  - injection Hi as ->. done.
  - csimpl. destruct q; csimpl; by rewrite IH.
Qed.

Lemma present_length parts : (length (present parts) <= length parts)%nat.
Proof. unfold present. induction parts as [|[p|] parts IH]; csimpl; lia. Qed.

Lemma present_all parts : length (present parts) = length parts -> forall i q, parts !! i = Some q -> is_Some q.
Proof.
  induction parts as [|p parts IH]; intros Hl i q Hq; [done|].
  pose proof (present_length parts). unfold present in *. destruct p; csimpl in *; [|lia].
  destruct i; cbn in Hq; [by simplify_eq|]. eapply IH; [lia|done].
Qed.

Lemma PartSet_wf_insert ps part i :
  PartSet_wf ps -> part_Index part = Z.of_nat i -> Z.of_nat i < ps_total ps ->
  ps_parts ps !! i = Some None -> part_ok (ps_hash ps) i part -> ps_data ps = None ->
  PartSet_wf (store_part part ps).
Proof.
  intros [Ht Hp Hb Hh Hpt Hc Hd] Hi Hlt Hnone Hok Hdata.
  assert (Hcount : u16 (ps_partsCount ps + 1) = len (present (<[i := Some part]> (ps_parts ps)))).
  { unfold len in *. rewrite present_insert, Hc by done. rewrite u16_small; [lia|].
    pose proof (present_length (ps_parts ps)). unfold in_u16, MaxBlockParts in *. lia. }
  unfold store_part. rewrite Hi, Nat2Z.id, CopyBlockPart_id. split; cbn; try done.
  - unfold len. by rewrite length_insert.
  - apply set_bit_ok; [done|lia].
  - intros j Hj. rewrite (test_bit_set_bit (ps_total ps)) by (done || lia).
    destruct (decide (i = j)) as [->|Hne].
    + rewrite Z.eqb_refl. cbn. rewrite list_lookup_insert_eq by (unfold len in *; lia). split; [eauto|done].
    + rewrite (proj2 (Z.eqb_neq _ _)) by lia. cbn. rewrite list_lookup_insert_ne by done. by apply Hh.
  - intros j p Hj. apply list_lookup_insert_Some in Hj as [(<- & [= <-] & _)|[_ Hj]]; [done|by apply Hpt].
  - intros d Hd'. congruence.
Qed.

Lemma part_hashes_bytes parts : part_hashes parts = sha256_Sum256 <$> (part_bytes <$> parts).
Proof. unfold part_hashes. by rewrite <- list_fmap_compose. Qed.

Lemma hash_sized_part_hashes parts : Forall hash_sized (part_hashes parts).
Proof. apply Forall_fmap, Forall_true. intros. apply sha256_length. Qed.

(** The condition under which the assembled data is kept. *)
Definition root_matches (ps : PartSet) : Prop :=
  mkHash (merkle_root (part_hashes (ps_parts ps))) = ps_hash ps.

Lemma assembleData_cases ps :
  ps_parts ps <> [] ->
  (root_matches ps /\ assembleData ps = (with_data (Some (concat (part_bytes <$> ps_parts ps))) ps, Ret tt)) \/
  (~ root_matches ps /\ exists e, assembleData ps = (with_data None ps, Err e)).
Proof.
  intros Hne. unfold assembleData, root_matches.
  change ((fun p => sha256_Sum256 (part_bytes p)) <$> ps_parts ps) with (part_hashes (ps_parts ps)).
  rewrite computeMerkleRoot_Ret; [|by intros ?%fmap_nil_inv|apply hash_sized_part_hashes].
  destruct (HashEqual _ _) eqn:E; cbn [negb]; [left|right].
  - by apply HashEqual_true in E.
  - split; [|eauto]. intros E'. by rewrite E', HashEqual_refl in E.
Qed.

(** What [AddPart] does with a part whose index is a [uint16]. *)
Definition add_part_outcome (ps : PartSet) (part : BlockPart) (r : PartSet * res unit) : Prop :=
  let i := Z.to_nat (part_Index part) in
  match r with
  | (ps', Ret _) =>
      ps_parts ps !! i = Some None /\ part_ok (ps_hash ps) i part /\ PartSet_wf ps' /\
      ps_parts ps' = <[i := Some part]> (ps_parts ps) /\ ps_hash ps' = ps_hash ps /\
      ps_total ps' = ps_total ps /\
      (IsComplete ps' = true -> GetData ps' = Ret (concat (part_bytes <$> ps_parts ps')))
  | (ps', Err e) =>
      (ps' = ps /\
       ((errors_Is e ErrPartSetInvalidIndex = true /\ ps_total ps <= part_Index part) \/
        (errors_Is e ErrPartSizeTooLarge = true /\ BlockPartSize < len (part_Bytes part)) \/
        (e = ErrPartSetAlreadyHas /\ exists p, ps_parts ps !! i = Some (Some p)) \/
        (e = ErrPartSetInvalidProof /\ ~ part_ok (ps_hash ps) i part))) \/
      (PartSet_wf ps' /\ ps_parts ps' = <[i := Some part]> (ps_parts ps) /\
       ps_hash ps' = ps_hash ps /\ ps_total ps' = ps_total ps /\
       IsComplete ps' = true /\ ~ root_matches ps' /\ exists e', GetData ps' = Err e')
  | (_, Panic _) => False
  end.

Lemma wf_with_data ps d :
  PartSet_wf ps ->
  (forall b, d = Some b -> ps_partsCount ps = ps_total ps /\ b = concat (part_bytes <$> ps_parts ps) /\
     root_matches ps) -> PartSet_wf (with_data d ps).
Proof. by intros [Ht Hp Hb Hh Hpt Hc Hd] Hd'. Qed.

Lemma has_part_iff ps i :
  PartSet_wf ps -> Z.of_nat i < ps_total ps ->
  hasPartUnlocked ps (Z.of_nat i) = true <-> exists p, ps_parts ps !! i = Some (Some p).
Proof.
  intros Hw Hi. unfold hasPartUnlocked. rewrite Z.geb_leb, (proj2 (Z.leb_gt _ _)) by lia.
  by apply (wf_has _ Hw).
Qed.

Lemma AddPart_cases ps part :
  PartSet_wf ps -> 0 <= part_Index part -> add_part_outcome ps part (AddPart (Some part) ps).
Proof.
  intros Hw Hi. unfold AddPart. rewrite Z.geb_leb. destruct (Z.leb_spec (ps_total ps) (part_Index part)).
  { left. split; [done|]. by left. }
  rewrite Z.gtb_ltb. destruct (Z.ltb_spec BlockPartSize (len (part_Bytes part))).
  { left. split; [done|]. right; left. done. }
  remember (Z.to_nat (part_Index part)) as i eqn:Ei.
  assert (Hidx : part_Index part = Z.of_nat i) by lia.
  assert (Hlt : (i < length (ps_parts ps))%nat) by (pose proof (wf_parts _ Hw); unfold len in *; lia).
  pose proof (has_part_iff ps i Hw ltac:(lia)) as Hhas. rewrite <- Hidx in Hhas.
  destruct (hasPartUnlocked ps (part_Index part)).
  { left. split; [done|]. right; right; left. rewrite <- Ei. split; [done|]. by apply Hhas. }
  assert (Hnone : ps_parts ps !! i = Some None).
  { apply lookup_lt_is_Some_2 in Hlt as [[p|] Hp]; [|done].
    enough (false = true) by done. apply Hhas. eauto. }
  assert (Hnodata : ps_data ps = None).
  { destruct (ps_data ps) as [d|] eqn:Ed; [|done]. destruct (wf_data _ Hw d Ed) as (Hc & _).
    rewrite (wf_count _ Hw), <- (wf_parts _ Hw) in Hc. unfold len in Hc.
    destruct (present_all (ps_parts ps) ltac:(lia) _ _ Hnone). done. }
  destruct (verifyMerkleProof _ _ _ _) eqn:Hv; cbn [negb].
  2: { left. split; [done|]. right; right; right. split; [done|]. intros (_ & _ & E). congruence. }
  assert (Hok : part_ok (ps_hash ps) i part) by (split_and!; done).
  pose proof (PartSet_wf_insert ps part i Hw Hidx ltac:(lia) Hnone Hok Hnodata) as Hw'.
  assert (Hparts : ps_parts (store_part part ps) = <[i := Some part]> (ps_parts ps))
    by (unfold store_part; cbn [ps_parts]; by rewrite <- Ei, CopyBlockPart_id).
  unfold add_part_outcome. rewrite <- Ei. destruct (ps_partsCount (store_part part ps) =? ps_total (store_part part ps)) eqn:Ec.
  - destruct (assembleData_cases (store_part part ps)) as [[Hm ->]|[Hm [e ->]]].
    { rewrite Hparts. destruct (ps_parts ps); [done|]. destruct i; done. }
    + split_and!; try done.
      * apply wf_with_data; [done|]. intros b [= <-]. apply Z.eqb_eq in Ec. done.
      * intros _. unfold GetData. cbn -[store_part]. rewrite Ec. cbn [negb]. by rewrite clone_id.
    + right. split_and!; try done.
      * by apply wf_with_data.
      * unfold GetData. cbn -[store_part]. rewrite Ec. cbn [negb]. eauto.
  - split_and!; try done. intros Hc. unfold IsComplete in Hc. congruence.
Qed.
End WellFormed.

(** ** Splitting *)

Section Splitting.
Context `{CL : CryptoLaws}.
#[local] Set Default Proof Using "Type CL".

Lemma BlockPartSize_pos : 0 < BlockPartSize.
Proof. done. Qed.

Lemma chunk_eq data i :
  0 <= i -> i * BlockPartSize <= len data ->
  chunk data i = take (Z.to_nat BlockPartSize) (drop (Z.to_nat (i * BlockPartSize)) data).
Proof.
  intros Hi Hle. pose proof BlockPartSize_pos. unfold chunk.
  destruct (Z.min_spec (i * BlockPartSize + BlockPartSize) (len data)) as [[Hm ->]|[Hm ->]].
  - do 2 f_equal. lia.
  - rewrite !take_ge; [done|rewrite length_drop; unfold len in *; lia..].
Qed.

Lemma parts_total_bounds data :
  data <> [] ->
  0 < parts_total data /\ (parts_total data - 1) * BlockPartSize < len data <= parts_total data * BlockPartSize.
Proof.
  intros Hne. unfold parts_total. pose proof BlockPartSize_pos. generalize dependent BlockPartSize.
  intros B HB. assert (0 < len data) by (unfold len; destruct data; cbn; [done|lia]).
  pose proof (Z.div_mod (len data + B - 1) B ltac:(lia)). pose proof (Z.mod_pos_bound (len data + B - 1) B HB).
  split_and!; nia.
Qed.

Lemma concat_chunks_prefix data k :
  Z.of_nat k <= parts_total data -> data <> [] ->
  concat (chunk data <$> (Z.of_nat <$> seq 0 k)) = take (Z.to_nat (Z.of_nat k * BlockPartSize)) data.
Proof.
  intros Hk Hne. destruct (parts_total_bounds data Hne) as (Ht & Hlo & Hhi). pose proof BlockPartSize_pos.
  induction k as [|k IH]; [by rewrite Z.mul_0_l|].
  rewrite seq_S, !fmap_app, concat_app, IH by lia. cbn [fmap list_fmap concat]. rewrite app_nil_r.
  rewrite chunk_eq by nia. rewrite take_take_drop. f_equal. lia.
Qed.

Lemma indices_seq total : indices total = Z.of_nat <$> seq 0 (Z.to_nat total).
Proof.
  unfold indices, seqZ. apply list_fmap_ext. intros. lia.
Qed.

Definition chunks (data : bytes) : list bytes := chunk data <$> indices (parts_total data).

Lemma concat_chunks data : data <> [] -> concat (chunks data) = data.
Proof.
  intros Hne. destruct (parts_total_bounds data Hne) as (Ht & Hlo & Hhi).
  unfold chunks. rewrite indices_seq, concat_chunks_prefix by (done || lia).
  apply take_ge. unfold len in *. lia.
Qed.

Lemma chunks_length data : data <> [] -> len (chunks data) = parts_total data.
Proof.
  intros Hne. destruct (parts_total_bounds data Hne) as (Ht & _). unfold chunks, len.
  rewrite length_fmap, indices_seq, length_fmap, length_seq. lia.
Qed.

Lemma chunk_size data i : len (chunk data i) <= BlockPartSize.
Proof.
  unfold chunk, len. rewrite length_take. pose proof BlockPartSize_pos. lia.
Qed.

(** The root of the parts of [data], and what [NewPartSetFromData] returns. *)
Definition data_root (data : bytes) : Hash := mkHash (merkle_root (sha256_Sum256 <$> chunks data)).

Lemma chunks_ne data : data <> [] -> chunks data <> [].
Proof.
  intros Hne E. pose proof (chunks_length data Hne) as Hl. rewrite E in Hl.
  destruct (parts_total_bounds data Hne). unfold len in *. cbn in *. lia.
Qed.

Lemma all_bits_set total k :
  0 <= total -> Z.of_nat k <= total ->
  bits_ok total (foldl (fun bits i => set_bit i bits) (zero_words total) (Z.of_nat <$> seq 0 k)) /\
  forall j, 0 <= j -> test_bit (foldl (fun bits i => set_bit i bits) (zero_words total) (Z.of_nat <$> seq 0 k)) j
                      = (j <? Z.of_nat k).
Proof.
  intros Ht. induction k as [|k IH]; intros Hk.
  - cbn. split; [by apply zero_words_ok|]. intros j Hj. rewrite test_bit_zero by done.
    symmetry. apply Z.ltb_ge. lia.
  - rewrite seq_S, fmap_app, foldl_app. cbn. destruct IH as [IH1 IH2]; [lia|]. split; [apply set_bit_ok; [done|lia]|].
    intros j Hj. rewrite (test_bit_set_bit total), IH2 by (done || lia). apply eq_true_iff_eq.
    rewrite orb_true_iff, Z.eqb_eq, !Z.ltb_lt. lia.
Qed.

Lemma present_imap (f : nat -> bytes -> BlockPart) l :
  length (present (imap (fun i d => Some (f i d)) l)) = length l.
Proof.
  unfold present. revert f. induction l as [|d l IH]; intros f; [done|].
  cbn [imap]. csimpl. f_equal. apply (IH (fun i => f (S i))).
Qed.

Lemma NewPartSetFromData_cases data :
  data <> [] -> parts_total data <= MaxBlockParts ->
  exists ps, NewPartSetFromData data = Ret ps /\ PartSet_wf ps /\ IsComplete ps = true /\
    ps_total ps = parts_total data /\ ps_hash ps = data_root data /\ GetData ps = Ret data /\
    forall i, (i < length (chunks data))%nat ->
      exists p, ps_parts ps !! i = Some (Some p) /\ Some (part_Bytes p) = chunks data !! i /\
        part_ProofPath p = proof_path (length (chunks data)) (sha256_Sum256 <$> chunks data) i.
Proof.
  intros Hne Hmax. destruct (parts_total_bounds data Hne) as (Ht & Hlo & Hhi).
  unfold NewPartSetFromData. destruct (len data =? 0) eqn:E; [by apply len_0 in E|].
  rewrite Z.gtb_ltb, (proj2 (Z.ltb_ge _ _)) by done.
  change (chunk data <$> indices (parts_total data)) with (chunks data).
  set (leaves := (fun d => mkHash (sha256_Sum256 d)) <$> chunks data).
  assert (Hd : h_Data <$> leaves = sha256_Sum256 <$> chunks data)
    by (unfold leaves; by rewrite <- list_fmap_compose).
  destruct (buildMerkle_spec leaves) as (proofs & -> & Hp).
  { unfold leaves. intros E'%fmap_nil_inv. by apply (chunks_ne data). }
  { apply Forall_fmap, Forall_true. intros. apply sha256_length. }
  rewrite Hd. cbn [rbind]. fold (data_root data).
  assert (Hu : u16 (parts_total data) = parts_total data)
    by (apply u16_small; unfold in_u16, MaxBlockParts in *; lia).
  rewrite Hu. eexists. split; [done|].
  pose proof (chunks_length data Hne) as Hcl. unfold len in Hcl.
  set (parts := imap _ (chunks data)).
  assert (Hparts : forall i d, chunks data !! i = Some d ->
    parts !! i = Some (Some (mkBlockPart (u16 (Z.of_nat i)) d (default [] (proofs !! i)) (data_root data)))).
  { intros i d Hi. unfold parts. by rewrite list_lookup_imap, Hi. }
  assert (Hbytes : part_bytes <$> parts = chunks data).
  { apply list_eq. intros i. rewrite list_lookup_fmap. unfold parts. rewrite list_lookup_imap.
    by destruct (chunks data !! i). }
  assert (Hidx : forall i, (i < length (chunks data))%nat -> u16 (Z.of_nat i) = Z.of_nat i)
    by (intros i Hi; apply u16_small; unfold in_u16, MaxBlockParts in *; lia).
  destruct (all_bits_set (parts_total data) (Z.to_nat (parts_total data)) ltac:(lia) ltac:(lia)) as [Hb1 Hb2].
  rewrite <- indices_seq in Hb1, Hb2.
  split_and!; cbn; try done.
  - split; cbn; try done; [lia| | | | |].
    + unfold len, parts. rewrite length_imap. done.
    + intros i Hi. rewrite Hb2, Z.ltb_lt by lia. split; [intros _|lia].
      destruct (lookup_lt_is_Some_2 (chunks data) i) as [d Hd']; [lia|]. eexists. by apply Hparts.
    + intros i p Hi. unfold parts in Hi. rewrite list_lookup_imap in Hi.
      destruct (chunks data !! i) as [d|] eqn:Ec; [|done]. injection Hi as <-.
      pose proof (lookup_lt_Some _ _ _ Ec). unfold part_ok. cbn. rewrite Hidx by done.
      split_and!; [done| |].
      * unfold chunks in Ec. rewrite list_lookup_fmap in Ec.
        destruct (indices _ !! i); [|done]. injection Ec as <-. apply chunk_size.
      * specialize (Hp i (mkHash (sha256_Sum256 d))). rewrite Hd in Hp. apply Hp.
        unfold leaves. by rewrite list_lookup_fmap, Ec.
    + unfold len, parts. rewrite present_imap. lia.
    + intros d [= <-]. split_and!; [done|by rewrite Hbytes, concat_chunks|].
      change (mkHash (merkle_root (part_hashes parts)) = data_root data).
      by rewrite part_hashes_bytes, Hbytes.
  - unfold IsComplete. cbn. apply Z.eqb_refl.
  - unfold GetData. cbn. rewrite Z.eqb_refl. cbn [negb]. by rewrite clone_id.
  - intros i Hi. destruct (lookup_lt_is_Some_2 (chunks data) i Hi) as [d Hd']. eexists.
    split; [by apply Hparts|]. split; [done|]. cbn. specialize (Hp i (mkHash (sha256_Sum256 d))).
    rewrite Hd in Hp. rewrite (proj2 (Hp ltac:(unfold leaves; by rewrite list_lookup_fmap, Hd'))).
    unfold leaves. by rewrite length_fmap.
Qed.
End Splitting.

Section PartProperties.
Context `{CL : CryptoLaws}.
#[local] Set Default Proof Using "Type CL".

Definition add_all (ps : PartSet) (parts : list (option BlockPart)) : PartSet :=
  foldl (fun ps p => (AddPart p ps).1) ps parts.

Lemma NewPartSetFromData_inv data ps0 :
  NewPartSetFromData data = Ret ps0 ->
  data <> [] /\ parts_total data <= MaxBlockParts /\ PartSet_wf ps0 /\ IsComplete ps0 = true /\
  ps_total ps0 = parts_total data /\ ps_hash ps0 = data_root data /\ GetData ps0 = Ret data /\
  part_bytes <$> ps_parts ps0 = chunks data.
Proof.
  intros E. assert (Hne : data <> []).
  { intros ->. done. }
  assert (Hmax : parts_total data <= MaxBlockParts).
  { unfold NewPartSetFromData in E. destruct (len data =? 0); [done|]. rewrite Z.gtb_ltb in E.
    destruct (Z.ltb_spec MaxBlockParts (parts_total data)); [done|lia]. }
  destruct (NewPartSetFromData_cases data Hne Hmax) as (ps & E' & Hw & Hc & Ht & Hh & Hg & Hp).
  assert (ps = ps0) as -> by congruence. split_and!; try done.
  pose proof (wf_parts _ Hw) as Hl. pose proof (chunks_length data Hne) as Hl'. unfold len in *.
  apply list_eq. intros i. rewrite list_lookup_fmap. destruct (decide (i < length (chunks data))%nat) as [Hi|Hi].
  - destruct (Hp i Hi) as (p & -> & <- & _). done.
  - rewrite (lookup_ge_None_2 (chunks data)), (lookup_ge_None_2 (ps_parts ps0)) by lia. done.
Qed.

Lemma NewPartSetFromData_part data ps0 i p :
  NewPartSetFromData data = Ret ps0 -> ps_parts ps0 !! i = Some (Some p) ->
  chunks data !! i = Some (part_Bytes p) /\
  part_ProofPath p = proof_path (length (chunks data)) (sha256_Sum256 <$> chunks data) i.
Proof.
  intros E Hi. destruct (NewPartSetFromData_inv _ _ E) as (Hne & Hmax & _ & _ & _ & _ & _ & Hb).
  destruct (NewPartSetFromData_cases data Hne Hmax) as (ps & E' & _ & _ & _ & _ & _ & Hp).
  assert (ps = ps0) as -> by congruence. destruct (Hp i) as (p' & Hi' & <- & Hpath).
  { rewrite <- Hb, length_fmap. by eapply lookup_lt_Some. }
  by simplify_eq.
Qed.

Lemma present_none n : present (replicate n None) = [].
Proof. by induction n. Qed.

Lemma NewPartSetFromHeader_cases ps0 ps1 :
  PartSet_wf ps0 -> NewPartSetFromHeader (Header ps0) = Ret ps1 ->
  PartSet_wf ps1 /\ ps_total ps1 = ps_total ps0 /\ ps_hash ps1 = ps_hash ps0 /\
  ps_partsCount ps1 = 0 /\ ps_parts ps1 = replicate (length (ps_parts ps0)) None.
Proof.
  intros Hw. unfold NewPartSetFromHeader, Header. rewrite CopyHash_id. cbn [default psh_Total psh_Hash].
  destruct (wf_total _ Hw). rewrite Z.gtb_ltb, (proj2 (Z.ltb_ge _ _)) by done. intros [= <-].
  pose proof (wf_parts _ Hw) as Hl. unfold len in Hl.
  assert (Hnone : forall (i : nat) (p : BlockPart), replicate (Z.to_nat (ps_total ps0)) None !! i = Some (Some p) -> False)
    by (intros i p Hi; by apply lookup_replicate_1 in Hi as [? _]).
  split_and!; cbn; try done; [|f_equal; lia]. split; cbn; try done.
  - unfold len. rewrite length_replicate. lia.
  - by apply zero_words_ok.
  - intros i Hi. rewrite test_bit_zero by lia. split; [done|]. intros [p Hp]. exfalso; exact (Hnone _ _ Hp).
  - intros i p Hp. exfalso; exact (Hnone _ _ Hp).
  - by rewrite present_none.
Qed.

Lemma add_part_keeps ps part :
  PartSet_wf ps -> (forall p, part = Some p -> in_u16 (part_Index p)) ->
  PartSet_wf (AddPart part ps).1 /\ ps_total (AddPart part ps).1 = ps_total ps /\
  ps_hash (AddPart part ps).1 = ps_hash ps.
Proof.
  intros Hw Hi. destruct part as [part|]; [|done]. destruct (Hi part eq_refl) as [Hi' _].
  pose proof (AddPart_cases ps part Hw Hi') as Ho. destruct (AddPart (Some part) ps) as [ps' []]; cbn in *;
    [naive_solver|naive_solver|done].
Qed.

Lemma add_all_keeps ps parts :
  PartSet_wf ps -> (forall p, Some p ∈ parts -> in_u16 (part_Index p)) ->
  PartSet_wf (add_all ps parts) /\ ps_total (add_all ps parts) = ps_total ps /\
  ps_hash (add_all ps parts) = ps_hash ps.
Proof.
  revert ps. induction parts as [|p parts IH]; intros ps Hw Hi; [done|]. cbn.
  destruct (add_part_keeps ps p Hw) as (Hw' & <- & <-); [intros q ->; apply Hi; by left|].
  apply IH; [done|]. intros q Hq. apply Hi. by right.
Qed.

(** [AddPart] on every branch: a part is stored exactly when its index is in range
    and free, its size fits and its proof leads to the root; each refusal has its error and
    changes nothing; when the last part arrives the data is assembled, or, if the assembled
    data does not hash to the root, an error is returned and the data stays unavailable. All
    of this preserves the set's well-formedness (bitmap, count and parts agree). *)
Theorem AddPart_spec ps part :
  PartSet_wf ps -> in_u16 (part_Index part) -> add_part_outcome ps part (AddPart (Some part) ps).
Proof. intros Hw [Hi _]. by apply AddPart_cases. Qed.

Lemma sha_map_sized (l : list bytes) : Forall hash_sized (sha256_Sum256 <$> l).
Proof. apply Forall_fmap, Forall_true. intros. apply sha256_length. Qed.

(** A part that is held under the header of [data], with a proof as long as the tree is high. *)
Lemma held_part_sound data ps0 ps i p q :
  NewPartSetFromData data = Ret ps0 -> PartSet_wf ps -> ps_hash ps = ps_hash ps0 ->
  ps_parts ps !! i = Some (Some p) -> ps_parts ps0 !! i = Some (Some q) ->
  length (part_ProofPath p) = length (part_ProofPath q) ->
  part_Bytes p = part_Bytes q \/ collision_in (hashed (chunks data) ++ hashed_part p).
Proof.
  intros E0 Hw Hh Hp Hq Hlen. destruct (NewPartSetFromData_part _ _ _ _ E0 Hq) as [Hc Hpath].
  destruct (NewPartSetFromData_inv _ _ E0) as (_ & _ & _ & _ & _ & Hh0 & _).
  destruct (wf_part _ Hw _ _ Hp) as (Hidx & _ & Hv). rewrite Hh, Hh0, Hidx in Hv.
  rewrite Hpath in Hlen.
  assert (Hroot : verify_loop (sha256_Sum256 (part_Bytes p)) (Z.of_nat i) (part_ProofPath p)
                  = merkle_root (sha256_Sum256 <$> chunks data)).
  { unfold verifyMerkleProof in Hv. destruct (part_ProofPath p); apply HashEqual_true in Hv; by injection Hv. }
  apply (verify_loop_sound (length (chunks data))) in Hroot;
    [|by rewrite length_fmap|apply sha_map_sized|rewrite length_fmap; by eapply lookup_lt_Some
     |apply sha256_length|done].
  destruct Hroot as [Hl|Hl].
  - rewrite list_lookup_fmap, Hc in Hl. cbn in Hl. injection Hl as Hl. symmetry in Hl.
    apply (sha_inj (hashed (chunks data) ++ hashed_part p)) in Hl; [done|apply elem_of_app; right; by left|].
    unfold hashed. rewrite !elem_of_app. do 2 left. by eapply list_elem_of_lookup_2.
  - right. eapply collision_mono, Hl. intros x. unfold hashed, hashed_part.
    rewrite Hidx, !elem_of_app, elem_of_cons. tauto.
Qed.

Lemma merkle_root_chunks (c1 c2 : list bytes) :
  length c1 = length c2 -> merkle_root (sha256_Sum256 <$> c1) = merkle_root (sha256_Sum256 <$> c2) ->
  c1 = c2 \/ collision_in (hashed c1 ++ hashed c2).
Proof.
  intros Hl E. unfold hashed. apply (merkle_root_inj (length c1)) in E;
    [|by rewrite length_fmap|by rewrite !length_fmap|apply sha_map_sized..].
  destruct E as [E|E]; [apply sha_map_inj in E as [E|E]; [by left|]|]; right; rewrite <- ?Hl;
    (eapply collision_mono, E; intros x; rewrite !elem_of_app; tauto).
Qed.

(** C19: block gossip is tamper-proof. Whatever parts arrive, in whatever order, at a set that
    was created from the header of some data: a part that the set holds with a proof as long
    as the genuine one has the bytes of the genuine part, and if the set yields data, it is
    that data. Otherwise two different byte strings with one SHA-256 digest are found among
    those that were hashed: for the Merkle tree of the data on one side, and for the check of
    the part, or of the assembled parts, on the other. *)
Theorem GetData_integrity data ps0 ps1 parts :
  NewPartSetFromData data = Ret ps0 -> NewPartSetFromHeader (Header ps0) = Ret ps1 ->
  (forall p, Some p ∈ parts -> in_u16 (part_Index p)) ->
  let ps := add_all ps1 parts in
  (forall i p q, ps_parts ps !! i = Some (Some p) -> ps_parts ps0 !! i = Some (Some q) ->
     length (part_ProofPath p) = length (part_ProofPath q) ->
     part_Bytes p = part_Bytes q \/ collision_in (hashed (chunks data) ++ hashed_part p)) /\
  (forall d, GetData ps = Ret d ->
     d = data \/ collision_in (hashed (chunks data) ++ hashed (part_bytes <$> ps_parts ps))).
Proof.
  intros E0 E1 Hi ps. destruct (NewPartSetFromData_inv _ _ E0) as (Hne & _ & Hw0 & _ & Ht0 & Hh0 & _).
  destruct (NewPartSetFromHeader_cases _ _ Hw0 E1) as (Hw1 & Ht1 & Hh1 & _).
  destruct (add_all_keeps ps1 parts Hw1 Hi) as (Hw & Ht & Hh). fold ps in Hw, Ht, Hh.
  split; [intros i p q; apply held_part_sound; congruence|]. intros d Hg.
  unfold GetData in Hg. destruct (ps_partsCount ps =? ps_total ps); [|done]. cbn [negb] in Hg.
  destruct (ps_data ps) as [b|] eqn:Eb; [|done]. rewrite clone_id in Hg. injection Hg as ->.
  destruct (wf_data _ Hw d Eb) as (_ & -> & Hroot).
  rewrite Hh, Hh1, Hh0 in Hroot. injection Hroot as Hroot. rewrite part_hashes_bytes in Hroot. symmetry in Hroot.
  apply merkle_root_chunks in Hroot as [Hroot|]; [left|by right|].
  - rewrite <- Hroot. by apply concat_chunks.
  - pose proof (wf_parts _ Hw) as Hl. pose proof (chunks_length data Hne) as Hl'. unfold len in *.
    rewrite !length_fmap. lia.
Qed.

(** A set in which exactly the parts [added] of the complete set [ps0] are present. *)
Record holds (ps0 ps : PartSet) (added : list (option BlockPart)) : Prop := {
  hold_wf : PartSet_wf ps;
  hold_total : ps_total ps = ps_total ps0;
  hold_hash : ps_hash ps = ps_hash ps0;
  hold_parts : forall i p, ps_parts ps0 !! i = Some p ->
    ps_parts ps !! i = Some (if decide (p ∈ added) then p else None);
  hold_data : IsComplete ps = true -> GetData ps = Ret (concat (part_bytes <$> ps_parts ps)) }.

Lemma complete_parts ps i q :
  PartSet_wf ps -> IsComplete ps = true -> ps_parts ps !! i = Some q ->
  exists p, q = Some p /\ part_ok (ps_hash ps) i p.
Proof.
  intros Hw Hc Hq. apply Z.eqb_eq in Hc. rewrite (wf_count _ Hw), <- (wf_parts _ Hw) in Hc. unfold len in Hc.
  destruct (present_all (ps_parts ps) ltac:(lia) _ _ Hq) as [p ->]. exists p. split; [done|]. by apply (wf_part _ Hw).
Qed.

Lemma parts_NoDup ps : PartSet_wf ps -> IsComplete ps = true -> NoDup (ps_parts ps).
Proof.
  intros Hw Hc. apply NoDup_alt. intros i j q Hi Hj.
  destruct (complete_parts _ _ _ Hw Hc Hi) as (p & -> & Hp & _).
  destruct (complete_parts _ _ _ Hw Hc Hj) as (p' & [= <-] & Hp' & _). lia.
Qed.
Lemma holds_step ps0 ps added i p :
  PartSet_wf ps0 -> IsComplete ps0 = true -> root_matches ps0 -> holds ps0 ps added ->
  ps_parts ps0 !! i = Some (Some p) -> (Some p ∉ added) ->
  holds ps0 (AddPart (Some p) ps).1 (added ++ [Some p]).
Proof.
  intros Hw0 Hc0 Hroot [Hw Ht Hh Hp Hd] Hi Hn. pose proof (wf_part _ Hw0 _ _ Hi) as Hok.
  pose proof Hok as (Hidx & Hsize & Hproof).
  assert (Hlt : Z.of_nat i < ps_total ps0).
  { apply lookup_lt_Some in Hi. rewrite <- (wf_parts _ Hw0). unfold len. lia. }
  pose proof (Hp _ _ Hi) as Hnone. rewrite decide_False in Hnone by done.
  assert (Hto : Z.to_nat (part_Index p) = i) by lia.
  pose proof (AddPart_cases ps p Hw ltac:(lia)) as Ho. unfold add_part_outcome in Ho. rewrite Hto in Ho.
  assert (Hparts : forall l, l = <[i := Some p]> (ps_parts ps) -> forall j q, ps_parts ps0 !! j = Some q ->
    l !! j = Some (if decide (q ∈ added ++ [Some p]) then q else None)).
  { intros l -> j q Hj. pose proof (lookup_lt_Some _ _ _ Hnone). destruct (decide (i = j)) as [<-|Hne].
    - rewrite list_lookup_insert_eq by done. assert (q = Some p) as -> by congruence.
      rewrite decide_True; [done|]. apply elem_of_app. right. by left.
    - rewrite list_lookup_insert_ne by done. rewrite (Hp _ _ Hj).
      assert (q <> Some p) by (intros ->; apply Hne; by eapply (NoDup_lookup _ _ _ _ (parts_NoDup _ Hw0 Hc0))).
      destruct (decide (q ∈ added)); [rewrite decide_True|rewrite decide_False]; set_solver. }
  assert (Hfull : forall ps', PartSet_wf ps' -> ps_parts ps' = <[i := Some p]> (ps_parts ps) ->
    ps_hash ps' = ps_hash ps -> ps_total ps' = ps_total ps -> IsComplete ps' = true -> root_matches ps').
  { intros ps' Hw' E1 E2 E3 Hc'. unfold root_matches. rewrite E2, Hh, <- Hroot.
    enough (ps_parts ps' = ps_parts ps0) as -> by done. apply list_eq. intros j.
    destruct (ps_parts ps0 !! j) as [q|] eqn:Hj.
    - pose proof (Hparts _ E1 j q Hj) as Hl. destruct (complete_parts _ _ _ Hw' Hc' Hl) as (q' & Hq & _).
      destruct (decide _); [done|by rewrite Hq in Hl; congruence].
    - apply lookup_ge_None. apply lookup_ge_None in Hj.
      pose proof (wf_parts _ Hw') as L1. pose proof (wf_parts _ Hw0) as L2. unfold len in *. lia. }
  destruct (AddPart (Some p) ps) as [ps' [[]|e|m]]; cbn [fst]; [| |done].
  - destruct Ho as (_ & _ & Hw' & E1 & E2 & E3 & Hg). split; [done|congruence|congruence| |done].
    by apply Hparts.
  - exfalso. destruct Ho as [(_ & Ho)|(Hw' & E1 & E2 & E3 & Hc & Hm & _)]; [|by apply Hm, Hfull].
    destruct Ho as [[_ Ho]|[[_ Ho]|[(_ & q & Hq)|[_ Ho]]]]; [lia|lia|congruence|].
    apply Ho. by rewrite Hh.
Qed.

Lemma holds_all ps0 ps added rest :
  PartSet_wf ps0 -> IsComplete ps0 = true -> root_matches ps0 -> holds ps0 ps added ->
  added ++ rest ≡ₚ ps_parts ps0 -> holds ps0 (add_all ps rest) (added ++ rest).
Proof.
  intros Hw0 Hc0 Hroot. revert ps added. induction rest as [|q rest IH]; intros ps added Hh Hp.
  { by rewrite app_nil_r. }
  assert (Hq : q ∈ ps_parts ps0) by (rewrite <- Hp; apply elem_of_app; right; by left).
  apply list_elem_of_lookup in Hq as [i Hi]. destruct (complete_parts _ _ _ Hw0 Hc0 Hi) as (p & -> & _).
  assert (Hn : Some p ∉ added).
  { pose proof (parts_NoDup _ Hw0 Hc0) as Hnd. rewrite <- Hp in Hnd.
    apply NoDup_app in Hnd as (_ & Hd & _). intros Hin. apply (Hd _ Hin). by left. }
  replace (added ++ Some p :: rest) with ((added ++ [Some p]) ++ rest) in * by (by rewrite <- app_assoc).
  cbn [add_all foldl]. apply (IH (AddPart (Some p) ps).1); [by eapply holds_step|done].
Qed.

(** C20: a block's parts reassemble to the block: adding the parts of some data, in any
    order, to a set created from their header never fails, and yields the data. *)
Theorem parts_reassemble data ps0 ps1 order :
  NewPartSetFromData data = Ret ps0 -> NewPartSetFromHeader (Header ps0) = Ret ps1 ->
  order ≡ₚ ps_parts ps0 -> GetData (add_all ps1 order) = Ret data.
Proof.
  intros (Hne & _ & Hw0 & Hc0 & Ht0 & Hh0 & _ & Hb)%NewPartSetFromData_inv E1 Hp.
  destruct (NewPartSetFromHeader_cases _ _ Hw0 E1) as (Hw1 & Ht1 & Hh1 & Hc1 & Hps1).
  destruct (parts_total_bounds data Hne) as [Hpos _].
  assert (Hroot : root_matches ps0).
  { unfold root_matches. by rewrite part_hashes_bytes, Hb, Hh0. }
  assert (Hh : holds ps0 ps1 []).
  { split; try done.
    - intros i p Hi. rewrite decide_False by apply not_elem_of_nil. rewrite Hps1.
      apply lookup_replicate_2. by eapply lookup_lt_Some.
    - unfold IsComplete. rewrite Hc1. intros E%Z.eqb_eq. lia. }
  pose proof (holds_all _ _ _ order Hw0 Hc0 Hroot Hh Hp) as [Hw Ht Hh' Hparts Hd]. cbn [app] in *.
  assert (E : ps_parts (add_all ps1 order) = ps_parts ps0).
  { apply list_eq. intros i. destruct (ps_parts ps0 !! i) as [q|] eqn:Hq.
    - rewrite (Hparts _ _ Hq), decide_True; [done|]. rewrite Hp. by eapply list_elem_of_lookup_2.
    - apply lookup_ge_None in Hq. apply lookup_ge_None.
      pose proof (wf_parts _ Hw) as L1. pose proof (wf_parts _ Hw0) as L2. unfold len in *. lia. }
  rewrite Hd, E, Hb, concat_chunks; [done..|].
  unfold IsComplete. rewrite (wf_count _ Hw), E, <- (wf_count _ Hw0), Ht. exact Hc0.
Qed.

(** No domain separation between parts and inner nodes: for data of two parts, the
    64 bytes that concatenate the two leaf hashes are accepted as part 1 with an empty proof
    path; the genuine part 1 is then refused. *)
Theorem AddPart_accepts_inner_node data ps0 ps1 h0 h1 root part1 :
  NewPartSetFromData data = Ret ps0 -> NewPartSetFromHeader (Header ps0) = Ret ps1 ->
  sha256_Sum256 <$> chunks data = [h0; h1] -> part_Index part1 = 1 -> len (part_Bytes part1) <= BlockPartSize ->
  exists ps2, AddPart (Some (mkBlockPart 1 (h0 ++ h1) [] root)) ps1 = (ps2, Ret tt) /\
              AddPart (Some part1) ps2 = (ps2, Err ErrPartSetAlreadyHas).
Proof.
  intros (Hne & _ & Hw0 & Hc0 & Ht0 & Hh0 & _ & Hb)%NewPartSetFromData_inv E1 Hl Hidx Hsz.
  destruct (NewPartSetFromHeader_cases _ _ Hw0 E1) as (Hw1 & Ht1 & Hh1 & Hc1 & Hps1).
  pose proof (chunks_length data Hne) as Hcl. unfold len in Hcl.
  assert (length (chunks data) = 2%nat) as Hlen by (rewrite <- (length_fmap sha256_Sum256), Hl; done).
  set (bad := mkBlockPart 1 (h0 ++ h1) [] root).
  assert (Hhash : ps_hash ps1 = mkHash (sha256_Sum256 (h0 ++ h1)))
    by (rewrite Hh1, Hh0; unfold data_root; by rewrite Hl).
  assert (Hlh : length h0 = 32%nat /\ length h1 = 32%nat).
  { assert (Forall hash_sized [h0; h1]) as Hf by (rewrite <- Hl; apply Forall_fmap, Forall_true;
      intros; apply sha256_length). inversion_clear Hf as [|? ? ? Hf']. by inversion_clear Hf'. }
  assert (Hnone : ps_parts ps1 !! 1%nat = Some None).
  { rewrite Hps1. apply lookup_replicate_2. pose proof (wf_parts _ Hw0). unfold len in *. lia. }
  assert (Hbad : part_ok (ps_hash ps1) 1 bad).
  { split_and!; [done| |]; cbn.
    - unfold len, BlockPartSize. rewrite length_app. lia.
    - rewrite Hhash. apply HashEqual_refl. }
  pose proof (AddPart_cases ps1 bad Hw1 ltac:(cbn; lia)) as Ho. unfold add_part_outcome in Ho.
  change (Z.to_nat (part_Index bad)) with 1%nat in Ho.
  destruct (AddPart (Some bad) ps1) as [ps2 [[]|e|m]] eqn:Ea; [| |done].
  - destruct Ho as (_ & _ & Hw2 & Ep & Eh & Et & _). exists ps2. split; [done|].
    unfold AddPart. rewrite Hidx, Et, Ht1, Ht0, Z.geb_leb, (proj2 (Z.leb_gt _ _)) by lia.
    rewrite Z.gtb_ltb, (proj2 (Z.ltb_ge _ _)) by done.
    pose proof (has_part_iff ps2 1 Hw2 ltac:(lia)) as Hhas. change (Z.of_nat 1) with 1 in Hhas.
    rewrite (proj2 Hhas); [done|]. exists bad. rewrite Ep, list_lookup_insert_eq; [done|].
    by eapply lookup_lt_Some.
  - exfalso. destruct Ho as [(_ & Ho)|(Hw2 & Ep & Eh & Et & Hc & _)].
    + destruct Ho as [[_ Ho]|[[_ Ho]|[(_ & q & Hq)|[_ Ho]]]]; [cbn in Ho; lia| |congruence|done].
      destruct Hbad as (_ & Hs & _). lia.
    + assert (Hn0 : ps_parts ps2 !! 0%nat = Some None).
      { rewrite Ep, list_lookup_insert_ne by done. rewrite Hps1. apply lookup_replicate_2.
        pose proof (wf_parts _ Hw0). unfold len in *. lia. }
      by destruct (complete_parts _ _ _ Hw2 Hc Hn0) as (p & ? & _).
Qed.
End PartProperties.

(** ** PartSetBitmap *)

Record PartSetBitmap := mkPartSetBitmap { pb_bits : list Z; pb_total : Z }.

Definition NewPartSetBitmap (total : Z) : PartSetBitmap := mkPartSetBitmap (zero_words total) total.

Definition PartSetBitmap_Set (index : Z) (pb : PartSetBitmap) : PartSetBitmap :=
  if! index >=? pb_total pb return pb in
  mkPartSetBitmap (set_bit index (pb_bits pb)) (pb_total pb).

Definition PartSetBitmap_Has (pb : PartSetBitmap) (index : Z) : bool :=
  if! index >=? pb_total pb return false in test_bit (pb_bits pb) index.

Definition PartSetBitmap_Missing (pb : PartSetBitmap) : list Z :=
  filter (fun i => test_bit (pb_bits pb) i = false) (indices (pb_total pb)).

(** [for j := 0; j < 8; j++ { byte(word >> (j * 8)) }] *)
Definition word_bytes (word : Z) : bytes := (fun j => byte_of_Z (Z.shiftr word (j * 8))) <$> seqZ 0 8.

Definition ToBytes (pb : PartSetBitmap) : bytes :=
  [byte_of_Z (pb_total pb); byte_of_Z (Z.shiftr (pb_total pb) 8)] ++
  concat (word_bytes <$> pb_bits pb).

(** [word |= uint64(data[j]) << (j * 8)] *)
Definition word_of_bytes (data : bytes) : Z :=
  foldl (fun word j => Z.lor word (u64 (Z.shiftl (byte_val (data !!! Z.to_nat j)) (j * 8)))) 0 (seqZ 0 8).

Definition PartSetBitmapFromBytes (data : bytes) : res PartSetBitmap :=
  if! len data <? 2 return Err (errorf "bitmap data too short") in
  let total := Z.lor (byte_val (data !!! 0%nat)) (u16 (Z.shiftl (byte_val (data !!! 1%nat)) 8)) in
  if! total >? MaxBlockParts return Err (errorf "bitmap total %d exceeds MaxBlockParts %d") in
  let n := numWords total in
  let expectedLen := 2 + n * 8 in
  if! len data <? expectedLen return Err (errorf "bitmap data incomplete") in
  Ret {| pb_bits := (fun i => word_of_bytes (drop (Z.to_nat (2 + i * 8)) data)) <$> seqZ 0 n;
         pb_total := total |}.

Definition PartSetBitmap_Diff (pb other : PartSetBitmap) : list Z :=
  filter (fun i => test_bit (pb_bits pb) i = true /\ test_bit (pb_bits other) i = false)
    (indices (pb_total pb)).

Definition PartSetBitmap_String (pb : PartSetBitmap) : string :=
  let count := len (filter (fun i => test_bit (pb_bits pb) i = true) (indices (pb_total pb))) in
  "PartSetBitmap{total=" +:+ pretty (pb_total pb) +:+ ", have=" +:+ pretty count +:+ "/" +:+
  pretty (pb_total pb) +:+ "}".

Record PartSetBitmap_wf (pb : PartSetBitmap) : Prop := {
  pbw_total : in_u16 (pb_total pb);
  pbw_bits : bits_ok (pb_total pb) (pb_bits pb) }.

(** *** Bytes of a word *)

Lemma word_bytes_length w : length (word_bytes w) = 8%nat.
Proof. done. Qed.

Lemma byte_of_Z_bits z j n :
  0 <= j -> Z.testbit (byte_val (byte_of_Z (Z.shiftr z n))) j = (j <? 8) && Z.testbit z (j + n).
Proof.
  intros Hj. rewrite byte_val_of_Z. change 256 with (2 ^ 8). destruct (Z.ltb_spec j 8).
  - rewrite Z.mod_pow2_bits_low, Z.shiftr_spec by lia. done.
  - rewrite Z.mod_pow2_bits_high by lia. done.
Qed.

Lemma u64_bits z j : 0 <= j -> Z.testbit (u64 z) j = (j <? 64) && Z.testbit z j.
Proof.
  intros Hj. unfold u64. destruct (Z.ltb_spec j 64).
  - by rewrite Z.mod_pow2_bits_low by lia.
  - by rewrite Z.mod_pow2_bits_high by lia.
Qed.

Lemma bits_above z n j : 0 <= z < 2 ^ n -> 0 <= n -> n <= j -> Z.testbit z j = false.
Proof.
  intros Hz Hn Hj. rewrite <- (Z.mod_small z (2 ^ n)) by done. by rewrite Z.mod_pow2_bits_high by lia.
Qed.

(** The bit [b] of the word rebuilt from the first [k] bytes. *)
Lemma word_of_word_bytes w rest : 0 <= w < 2 ^ 64 -> word_of_bytes (word_bytes w ++ rest) = w.
Proof.
  intros Hw. apply Z.bits_inj'. intros b Hb.
  assert (Hterm : forall j, 0 <= j < 8 ->
    Z.testbit (u64 (Z.shiftl (byte_val ((word_bytes w ++ rest) !!! Z.to_nat j)) (j * 8))) b =
    (j =? b / 8) && Z.testbit w b).
  { intros j Hj. rewrite lookup_total_app_l by (rewrite word_bytes_length; lia).
    assert (word_bytes w !!! Z.to_nat j = byte_of_Z (Z.shiftr w (j * 8))) as ->.
    { assert (j = 0 \/ j = 1 \/ j = 2 \/ j = 3 \/ j = 4 \/ j = 5 \/ j = 6 \/ j = 7) as Hc by lia.
      destruct Hc as [->|[->|[->|[->|[->|[->|[->| ->]]]]]]]; done. }
    rewrite u64_bits, Z.shiftl_spec by lia. destruct (Z.ltb_spec (b - j * 8) 0) as [Hneg|Hnn].
    - rewrite Z.testbit_neg_r by done. rewrite andb_false_r.
      destruct (Z.eqb_spec j (b / 8)); [|done]. Z.to_euclidean_division_equations; lia.
    - rewrite byte_of_Z_bits by done. replace (b - j * 8 + j * 8) with b by lia.
      destruct (Z.ltb_spec b 64).
      + cbn [andb]. f_equal. apply eq_true_iff_eq. rewrite Z.ltb_lt, Z.eqb_eq.
        Z.to_euclidean_division_equations; lia.
      + rewrite (bits_above w 64 b) by lia. by rewrite !andb_false_r. }
  unfold word_of_bytes. change (seqZ 0 8) with [0; 1; 2; 3; 4; 5; 6; 7]. cbn [foldl].
  rewrite !Z.lor_spec, !Hterm, Z.bits_0 by lia.
  destruct (Z.testbit w b) eqn:Eb; [|by rewrite !andb_false_r].
  assert (b < 64) by (destruct (Z.ltb_spec b 64); [done|rewrite (bits_above w 64 b) in Eb by lia; done]).
  assert (0 <= b / 8 < 8) by (Z.to_euclidean_division_equations; lia).
  rewrite !andb_true_r. generalize dependent (b / 8). intros q _ Hq.
  assert (q = 0 \/ q = 1 \/ q = 2 \/ q = 3 \/ q = 4 \/ q = 5 \/ q = 6 \/ q = 7) as Hc by lia.
  destruct Hc as [->|[->|[->|[->|[->|[->|[->| ->]]]]]]]; done.
Qed.

Lemma drop_words (ws : list Z) (i : nat) :
  (i <= length ws)%nat -> drop (i * 8) (concat (word_bytes <$> ws)) = concat (word_bytes <$> drop i ws).
Proof.
  revert ws. induction i as [|i IH]; intros ws Hi; [done|]. destruct ws as [|w ws]; cbn in Hi; [lia|].
  cbn [drop fmap list_fmap concat]. rewrite <- IH by lia.
  replace (S i * 8)%nat with (length (word_bytes w) + i * 8)%nat by (rewrite word_bytes_length; lia).
  by rewrite drop_app_add.
Qed.

Lemma words_roundtrip ws :
  Forall (fun w => 0 <= w < 2 ^ 64) ws ->
  forall i w, ws !! i = Some w -> word_of_bytes (drop (i * 8) (concat (word_bytes <$> ws))) = w.
Proof.
  intros Hw i w Hi. pose proof (lookup_lt_Some _ _ _ Hi). rewrite drop_words by lia.
  rewrite (drop_S ws w i Hi). cbn. apply word_of_word_bytes.
  by apply (Forall_lookup_1 _ _ _ _ Hw Hi).
Qed.

Lemma concat_words_length ws : length (concat (word_bytes <$> ws)) = (length ws * 8)%nat.
Proof. induction ws as [|w ws IH]; [done|]. cbn. rewrite <- IH. done. Qed.

Lemma total_bytes t : in_u16 t ->
  Z.lor (byte_val (byte_of_Z t)) (u16 (Z.shiftl (byte_val (byte_of_Z (Z.shiftr t 8))) 8)) = t.
Proof.
  intros Ht. unfold in_u16 in Ht. apply Z.bits_inj'. intros b Hb.
  assert (Ht0 : byte_of_Z t = byte_of_Z (Z.shiftr t 0)) by done.
  rewrite Z.lor_spec, Ht0, byte_of_Z_bits by done. rewrite Z.add_0_r. unfold u16.
  destruct (Z.ltb_spec b 16) as [Hlt|Hge].
  - rewrite Z.mod_pow2_bits_low, Z.shiftl_spec by lia. destruct (Z.ltb_spec (b - 8) 0).
    + rewrite (Z.testbit_neg_r _ (b - 8)) by lia. rewrite (proj2 (Z.ltb_lt b 8)) by lia. by rewrite orb_false_r.
    + rewrite byte_of_Z_bits by done. rewrite (proj2 (Z.ltb_ge b 8)), (proj2 (Z.ltb_lt (b - 8) 8)) by lia.
      cbn. f_equal. lia.
  - rewrite Z.mod_pow2_bits_high by lia. rewrite (bits_above t 16 b) by lia. by rewrite andb_false_r.
Qed.

(** The bitmap serialization round-trips for the totals the decoder accepts, and the
    decoder rejects every larger total. *)
Theorem PartSetBitmap_roundtrip pb :
  PartSetBitmap_wf pb ->
  PartSetBitmapFromBytes (ToBytes pb) =
    if pb_total pb >? MaxBlockParts then Err (errorf "bitmap total %d exceeds MaxBlockParts %d")
    else Ret pb.
Proof.
  intros [Ht [Hl Hw]]. unfold PartSetBitmapFromBytes, ToBytes. cbn [app].
  set (body := concat (word_bytes <$> pb_bits pb)).
  assert (Hbody : len body = numWords (pb_total pb) * 8)
    by (unfold body, len in *; rewrite concat_words_length; lia).
  assert (0 <= numWords (pb_total pb)) by (unfold numWords, in_u16 in *; apply Z.div_pos; lia).
  unfold len in *. cbn [length]. rewrite (proj2 (Z.ltb_ge _ 2)) by lia. cbn [lookup_total list_lookup_total].
  rewrite total_bytes by done. destruct (pb_total pb >? MaxBlockParts); [done|].
  rewrite (proj2 (Z.ltb_ge _ _)) by lia. destruct pb as [bits total]. cbn in *. do 2 f_equal.
  apply list_eq. intros i. rewrite list_lookup_fmap.
  destruct (decide (Z.of_nat i < numWords total)) as [Hi|Hi].
  - rewrite lookup_seqZ_lt by done. cbn [fmap option_fmap option_map].
    destruct (lookup_lt_is_Some_2 bits i) as [w Hi']; [lia|]. rewrite Hi'. f_equal.
    replace (Z.to_nat (2 + (0 + Z.of_nat i) * 8)) with (S (S (i * 8))) by lia. cbn [drop].
    by apply words_roundtrip.
  - rewrite lookup_seqZ_ge by lia. symmetry. apply lookup_ge_None. lia.
Qed.

(** [Set] and [Has] on a bitmap: a set index reads back, every other index is
    unchanged, indices beyond the total are ignored; [Missing] and [Diff] list exactly the
    indices that [Has] says. *)
Theorem PartSetBitmap_spec pb other i j :
  PartSetBitmap_wf pb -> PartSetBitmap_wf other -> pb_total other = pb_total pb -> 0 <= i -> 0 <= j ->
  PartSetBitmap_wf (PartSetBitmap_Set i pb) /\
  PartSetBitmap_Has (PartSetBitmap_Set i pb) j = ((i =? j) && (i <? pb_total pb)) || PartSetBitmap_Has pb j /\
  (j ∈ PartSetBitmap_Missing pb <-> j < pb_total pb /\ PartSetBitmap_Has pb j = false) /\
  (j ∈ PartSetBitmap_Diff pb other <-> PartSetBitmap_Has pb j = true /\ PartSetBitmap_Has other j = false).
Proof.
  intros [Ht Hb] [_ _] E Hi Hj. unfold PartSetBitmap_Set, PartSetBitmap_Has.
  assert (Hidx : forall z, z ∈ indices (pb_total pb) <-> 0 <= z < pb_total pb)
    by (intros z; unfold indices; rewrite elem_of_seqZ; lia).
  rewrite E, !Z.geb_leb. split_and!.
  - destruct (Z.leb_spec (pb_total pb) i); split; cbn; try done. apply set_bit_ok; [done|lia].
  - destruct (Z.leb_spec (pb_total pb) i) as [Hge|Hlt].
    + rewrite (proj2 (Z.ltb_ge i _)), andb_false_r by done. done.
    + cbn. rewrite (proj2 (Z.ltb_lt i _)), andb_true_r by done. destruct (Z.leb_spec (pb_total pb) j).
      * by rewrite (proj2 (Z.eqb_neq i j)) by lia.
      * by apply (test_bit_set_bit (pb_total pb)).
  - unfold PartSetBitmap_Missing. rewrite list_elem_of_filter, Hidx.
    destruct (Z.leb_spec (pb_total pb) j); naive_solver lia.
  - unfold PartSetBitmap_Diff. rewrite list_elem_of_filter, Hidx.
    destruct (Z.leb_spec (pb_total pb) j); naive_solver lia.
Qed.

(** ** Examples *)

Definition empty_set : PartSet := mkPartSet 0 (mkHash []) [] [] 0 None.

Definition set_of_data (data : bytes) : PartSet :=
  match NewPartSetFromData data with Ret ps => ps | _ => empty_set end.

Definition set_of_header (ps : PartSet) : PartSet :=
  match NewPartSetFromHeader (Header ps) with Ret ps => ps | _ => empty_set end.

Definition small_data : bytes := [Byte.x01; Byte.x02; Byte.x03].
Definition small_full : PartSet := set_of_data small_data.
Definition small_empty : PartSet := set_of_header small_full.

(** Data of 65537 bytes: two parts. *)
Definition big_data : bytes := replicate (Z.to_nat 65537) Byte.x07.
Definition big_full : PartSet := set_of_data big_data.
Definition big_empty : PartSet := set_of_header big_full.
Definition part_of (ps : PartSet) (i : nat) : BlockPart :=
  match ps_parts ps !! i with Some (Some p) => p | _ => mkBlockPart 0 [] [] (mkHash []) end.

Lemma small_full_eq : NewPartSetFromData small_data = Ret small_full.
Proof. vm_compute. reflexivity. Qed.

Lemma small_empty_eq : NewPartSetFromHeader (Header small_full) = Ret small_empty.
Proof. vm_compute. reflexivity. Qed.

Lemma small_empty_wf : PartSet_wf small_empty.
Proof.
  apply (NewPartSetFromHeader_cases small_full); [|apply small_empty_eq].
  apply (NewPartSetFromData_inv small_data small_full), small_full_eq.
Qed.

Lemma AddPart_spec_witness :
  add_part_outcome small_empty (part_of small_full 0) (AddPart (Some (part_of small_full 0)) small_empty).
Proof. apply (AddPart_spec small_empty (part_of small_full 0) small_empty_wf). vm_compute. split; congruence. Defined.

Definition is_ret {A} (r : res A) : bool := match r with Ret _ => true | _ => false end.

Lemma set_of_data_eq data : is_ret (NewPartSetFromData data) = true -> NewPartSetFromData data = Ret (set_of_data data).
Proof. unfold set_of_data. by destruct (NewPartSetFromData data). Qed.

Lemma set_of_header_eq ps :
  is_ret (NewPartSetFromHeader (Header ps)) = true -> NewPartSetFromHeader (Header ps) = Ret (set_of_header ps).
Proof. unfold set_of_header. by destruct (NewPartSetFromHeader _). Qed.

(** A forged part for position 0 of the two-part data is refused; the genuine one is held. *)
Definition forged_part : BlockPart :=
  mkBlockPart 0 [Byte.x09] (part_ProofPath (part_of big_full 0)) (ps_hash big_full).
Definition arriving : list (option BlockPart) := [Some forged_part; None; Some (part_of big_full 1); Some (part_of big_full 0)].

Definition yields (r : res bytes) (d : bytes) : bool :=
  match r with Ret b => bool_decide (b = d) | _ => false end.

Lemma yields_eq r d : yields r d = true -> r = Ret d.
Proof. destruct r as [b| |]; cbn; [|done..]. by intros ->%bool_decide_eq_true. Qed.

Definition in_range (q : option BlockPart) : bool :=
  match q with Some p => (0 <=? part_Index p) && (part_Index p <=? 65535) | None => true end.

Lemma parts_in_range l p : forallb in_range l = true -> Some p ∈ l -> in_u16 (part_Index p).
Proof.
  rewrite forallb_forall. intros Hl Hp%list_elem_of_In. specialize (Hl _ Hp). cbn in Hl.
  unfold in_u16. lia.
Qed.

Lemma GetData_integrity_witness :
  GetData (add_all big_empty arriving) = Ret big_data /\
  (part_Bytes (part_of big_full 1) = part_Bytes (part_of big_full 1) \/
   collision_in (hashed (chunks big_data) ++ hashed_part (part_of big_full 1))) /\
  (big_data = big_data \/
   collision_in (hashed (chunks big_data) ++ hashed (part_bytes <$> ps_parts (add_all big_empty arriving)))).
Proof.
  assert (E : GetData (add_all big_empty arriving) = Ret big_data) by (apply yields_eq; vm_compute; reflexivity).
  assert (E0 : NewPartSetFromData big_data = Ret big_full) by (apply set_of_data_eq; vm_compute; reflexivity).
  assert (E1 : NewPartSetFromHeader (Header big_full) = Ret big_empty)
    by (apply set_of_header_eq; vm_compute; reflexivity).
  pose proof (GetData_integrity big_data big_full big_empty arriving E0 E1
    (fun p => parts_in_range arriving p ltac:(vm_compute; reflexivity))) as HG.
  split; [exact E|]. split; [|exact (proj2 HG big_data E)].
  apply (proj1 HG 1%nat); vm_compute; reflexivity.
Defined.

Lemma parts_reassemble_witness : GetData (add_all small_empty (reverse (ps_parts small_full))) = Ret small_data.
Proof.
  apply (parts_reassemble small_data small_full small_empty _ small_full_eq small_empty_eq).
  apply reverse_Permutation.
Defined.

(** The hashes of the two parts of [big_data], and its second part. *)
Definition big_h0 : bytes := replicate 32 Byte.x07.
Definition big_h1 : bytes := Byte.x07 :: replicate 31 Byte.x00.
Definition big_part1 : BlockPart := mkBlockPart 1 [Byte.x07] [mkHash big_h0] (mkHash []).

Lemma AddPart_accepts_inner_node_witness :
  exists ps2, AddPart (Some (mkBlockPart 1 (big_h0 ++ big_h1) [] (mkHash []))) big_empty = (ps2, Ret tt) /\
              AddPart (Some big_part1) ps2 = (ps2, Err ErrPartSetAlreadyHas).
Proof.
  apply (AddPart_accepts_inner_node big_data big_full).
  - apply set_of_data_eq. vm_compute. reflexivity.
  - apply set_of_header_eq. vm_compute. reflexivity.
  - refine (bool_decide_eq_true_1 _ _). vm_compute. reflexivity.
  - reflexivity.
  - vm_compute. congruence.
Defined.

Definition bitmap_3 : PartSetBitmap := PartSetBitmap_Set 2 (NewPartSetBitmap 70).

Lemma bitmap_3_wf : PartSetBitmap_wf bitmap_3.
Proof. split; [by vm_compute; split|]. split; [done|]. repeat constructor; vm_compute; congruence. Qed.

Lemma PartSetBitmap_roundtrip_witness :
  PartSetBitmapFromBytes (ToBytes bitmap_3) =
    if pb_total bitmap_3 >? MaxBlockParts then Err (errorf "bitmap total %d exceeds MaxBlockParts %d")
    else Ret bitmap_3.
Proof. apply (PartSetBitmap_roundtrip bitmap_3). exact bitmap_3_wf. Defined.

Lemma PartSetBitmap_spec_witness :
  PartSetBitmap_wf (PartSetBitmap_Set 5 bitmap_3) /\
  PartSetBitmap_Has (PartSetBitmap_Set 5 bitmap_3) 2 =
    ((5 =? 2) && (5 <? pb_total bitmap_3)) || PartSetBitmap_Has bitmap_3 2 /\
  (2 ∈ PartSetBitmap_Missing bitmap_3 <-> 2 < pb_total bitmap_3 /\ PartSetBitmap_Has bitmap_3 2 = false) /\
  (2 ∈ PartSetBitmap_Diff bitmap_3 bitmap_3 <->
   PartSetBitmap_Has bitmap_3 2 = true /\ PartSetBitmap_Has bitmap_3 2 = false).
Proof. apply (PartSetBitmap_spec bitmap_3 bitmap_3 5 2); [exact bitmap_3_wf..|reflexivity|lia|lia]. Defined.
