(* ===== verification/Consensus.v ===== *)
(** * The consensus state machine (src/engine/state.go)

    Every handler of [ConsensusState] as a computation on the state of one node; the lock is
    held for the whole of a handler, so a handler is atomic. The private validator, the block
    executor and the write-ahead log are interfaces with a state of their own. *)

From S2P Require Export Evidence Timeout Wal.

(** ** Interfaces *)

(** A signing operation returns the signature the code stores in its argument. *)
Class PrivValidator (PV : Type) := {
  pv_GetPubKey : PV -> PublicKey;
  pv_SignVote : string -> Vote -> PV -> PV * res Signature;
  pv_SignProposal : string -> Proposal -> PV -> PV * res Signature }.

Record ValidatorUpdate := mkValidatorUpdate {
  vu_Name : AccountName;
  vu_PublicKey : PublicKey;
  vu_VotingPower : Z }.

Class BlockExecutor (X : Type) := {
  exec_CreateProposalBlock : Z -> option Commit -> AccountName -> X -> X * res Block;
  exec_ValidateBlock : Block -> X -> X * res unit;
  exec_ApplyBlock : Block -> Commit -> X -> X * res (list ValidatorUpdate) }.

Definition ErrAlreadyStarted : error := sentinel "engine.ErrAlreadyStarted".
Definition ErrNotStarted : error := sentinel "engine.ErrNotStarted".

(** ** State

    [cs_trace] is not in the code: it records, in order, the votes the node casts, what it
    sends to its peers and the blocks it commits, with its validator set at that time. *)

Inductive event :=
| Sent_proposal (p : Proposal)
| Voted (vals : ValidatorSet) (v : Vote)
| Sent_vote (v : Vote)
| Committed (vals : ValidatorSet) (b : Block) (c : Commit).

(** The fields of the Go struct under "current consensus state", locking, votes and last
    commit. *)
Record RoundState := mkRoundState {
  rs_validatorSet : ValidatorSet;
  rs_height : Z;
  rs_round : Z;
  rs_step : Z;
  rs_proposal : option Proposal;
  rs_proposalBlock : option Block;
  rs_lockedRound : Z;
  rs_lockedBlock : option Block;
  rs_validRound : Z;
  rs_validBlock : option Block;
  rs_votes : HeightVoteSet;
  rs_lastCommit : option Commit }.

(** The other fields. *)
Record ConsensusState (PV X W : Type) := mkConsensusState {
  cs_config : Config;
  cs_state : RoundState;
  cs_privVal : option PV;
  cs_wal : option W;
  cs_timeoutTicker : TimeoutTicker;
  cs_blockExecutor : option X;
  cs_onProposal : bool;
  cs_onVote : bool;
  cs_evidencePool : option Pool;
  cs_started : bool;
  cs_ticks : nat;
  cs_trace : list event }.
Arguments mkConsensusState {PV X W}.
Arguments cs_config {PV X W}.
Arguments cs_state {PV X W}.
Arguments cs_privVal {PV X W}.
Arguments cs_wal {PV X W}.
Arguments cs_timeoutTicker {PV X W}.
Arguments cs_blockExecutor {PV X W}.
Arguments cs_onProposal {PV X W}.
Arguments cs_onVote {PV X W}.
Arguments cs_evidencePool {PV X W}.
Arguments cs_started {PV X W}.
Arguments cs_ticks {PV X W}.
Arguments cs_trace {PV X W}.

(** ** Field updates *)

Definition set_validatorSet (x : ValidatorSet) (s : RoundState) : RoundState :=
  mkRoundState x (rs_height s) (rs_round s) (rs_step s) (rs_proposal s) (rs_proposalBlock s)
    (rs_lockedRound s) (rs_lockedBlock s) (rs_validRound s) (rs_validBlock s) (rs_votes s)
    (rs_lastCommit s).
Definition set_height (x : Z) (s : RoundState) : RoundState :=
  mkRoundState (rs_validatorSet s) x (rs_round s) (rs_step s) (rs_proposal s) (rs_proposalBlock s)
    (rs_lockedRound s) (rs_lockedBlock s) (rs_validRound s) (rs_validBlock s) (rs_votes s)
    (rs_lastCommit s).
Definition set_round (x : Z) (s : RoundState) : RoundState :=
  mkRoundState (rs_validatorSet s) (rs_height s) x (rs_step s) (rs_proposal s)
    (rs_proposalBlock s) (rs_lockedRound s) (rs_lockedBlock s) (rs_validRound s) (rs_validBlock s)
    (rs_votes s) (rs_lastCommit s).
Definition set_step (x : Z) (s : RoundState) : RoundState :=
  mkRoundState (rs_validatorSet s) (rs_height s) (rs_round s) x (rs_proposal s)
    (rs_proposalBlock s) (rs_lockedRound s) (rs_lockedBlock s) (rs_validRound s) (rs_validBlock s)
    (rs_votes s) (rs_lastCommit s).
Definition set_proposal (x : option Proposal) (s : RoundState) : RoundState :=
  mkRoundState (rs_validatorSet s) (rs_height s) (rs_round s) (rs_step s) x (rs_proposalBlock s)
    (rs_lockedRound s) (rs_lockedBlock s) (rs_validRound s) (rs_validBlock s) (rs_votes s)
    (rs_lastCommit s).
Definition set_proposalBlock (x : option Block) (s : RoundState) : RoundState :=
  mkRoundState (rs_validatorSet s) (rs_height s) (rs_round s) (rs_step s) (rs_proposal s) x
    (rs_lockedRound s) (rs_lockedBlock s) (rs_validRound s) (rs_validBlock s) (rs_votes s)
    (rs_lastCommit s).
Definition set_lockedRound (x : Z) (s : RoundState) : RoundState :=
  mkRoundState (rs_validatorSet s) (rs_height s) (rs_round s) (rs_step s) (rs_proposal s)
    (rs_proposalBlock s) x (rs_lockedBlock s) (rs_validRound s) (rs_validBlock s) (rs_votes s)
    (rs_lastCommit s).
Definition set_lockedBlock (x : option Block) (s : RoundState) : RoundState :=
  mkRoundState (rs_validatorSet s) (rs_height s) (rs_round s) (rs_step s) (rs_proposal s)
    (rs_proposalBlock s) (rs_lockedRound s) x (rs_validRound s) (rs_validBlock s) (rs_votes s)
    (rs_lastCommit s).
Definition set_validRound (x : Z) (s : RoundState) : RoundState :=
  mkRoundState (rs_validatorSet s) (rs_height s) (rs_round s) (rs_step s) (rs_proposal s)
    (rs_proposalBlock s) (rs_lockedRound s) (rs_lockedBlock s) x (rs_validBlock s) (rs_votes s)
    (rs_lastCommit s).
Definition set_validBlock (x : option Block) (s : RoundState) : RoundState :=
  mkRoundState (rs_validatorSet s) (rs_height s) (rs_round s) (rs_step s) (rs_proposal s)
    (rs_proposalBlock s) (rs_lockedRound s) (rs_lockedBlock s) (rs_validRound s) x (rs_votes s)
    (rs_lastCommit s).
Definition set_votes (x : HeightVoteSet) (s : RoundState) : RoundState :=
  mkRoundState (rs_validatorSet s) (rs_height s) (rs_round s) (rs_step s) (rs_proposal s)
    (rs_proposalBlock s) (rs_lockedRound s) (rs_lockedBlock s) (rs_validRound s) (rs_validBlock s)
    x (rs_lastCommit s).
Definition set_lastCommit (x : option Commit) (s : RoundState) : RoundState :=
  mkRoundState (rs_validatorSet s) (rs_height s) (rs_round s) (rs_step s) (rs_proposal s)
    (rs_proposalBlock s) (rs_lockedRound s) (rs_lockedBlock s) (rs_validRound s) (rs_validBlock s)
    (rs_votes s) x.

Section Updates.
Context {PV X W : Type}.
Notation CS := (ConsensusState PV X W).

Definition with_state (x : RoundState) (s : CS) : CS :=
  mkConsensusState (cs_config s) x (cs_privVal s) (cs_wal s) (cs_timeoutTicker s)
    (cs_blockExecutor s) (cs_onProposal s) (cs_onVote s) (cs_evidencePool s) (cs_started s)
    (cs_ticks s) (cs_trace s).
Definition with_privVal (x : option PV) (s : CS) : CS :=
  mkConsensusState (cs_config s) (cs_state s) x (cs_wal s) (cs_timeoutTicker s)
    (cs_blockExecutor s) (cs_onProposal s) (cs_onVote s) (cs_evidencePool s) (cs_started s)
    (cs_ticks s) (cs_trace s).
Definition with_wal (x : option W) (s : CS) : CS :=
  mkConsensusState (cs_config s) (cs_state s) (cs_privVal s) x (cs_timeoutTicker s)
    (cs_blockExecutor s) (cs_onProposal s) (cs_onVote s) (cs_evidencePool s) (cs_started s)
    (cs_ticks s) (cs_trace s).
Definition with_timeoutTicker (x : TimeoutTicker) (s : CS) : CS :=
  mkConsensusState (cs_config s) (cs_state s) (cs_privVal s) (cs_wal s) x (cs_blockExecutor s)
    (cs_onProposal s) (cs_onVote s) (cs_evidencePool s) (cs_started s) (cs_ticks s) (cs_trace s).
Definition with_blockExecutor (x : option X) (s : CS) : CS :=
  mkConsensusState (cs_config s) (cs_state s) (cs_privVal s) (cs_wal s) (cs_timeoutTicker s) x
    (cs_onProposal s) (cs_onVote s) (cs_evidencePool s) (cs_started s) (cs_ticks s) (cs_trace s).
Definition with_evidencePool (x : option Pool) (s : CS) : CS :=
  mkConsensusState (cs_config s) (cs_state s) (cs_privVal s) (cs_wal s) (cs_timeoutTicker s)
    (cs_blockExecutor s) (cs_onProposal s) (cs_onVote s) x (cs_started s) (cs_ticks s)
    (cs_trace s).
Definition with_started (x : bool) (s : CS) : CS :=
  mkConsensusState (cs_config s) (cs_state s) (cs_privVal s) (cs_wal s) (cs_timeoutTicker s)
    (cs_blockExecutor s) (cs_onProposal s) (cs_onVote s) (cs_evidencePool s) x (cs_ticks s)
    (cs_trace s).
Definition with_ticks (x : nat) (s : CS) : CS :=
  mkConsensusState (cs_config s) (cs_state s) (cs_privVal s) (cs_wal s) (cs_timeoutTicker s)
    (cs_blockExecutor s) (cs_onProposal s) (cs_onVote s) (cs_evidencePool s) (cs_started s) x
    (cs_trace s).
Definition with_trace (x : list event) (s : CS) : CS :=
  mkConsensusState (cs_config s) (cs_state s) (cs_privVal s) (cs_wal s) (cs_timeoutTicker s)
    (cs_blockExecutor s) (cs_onProposal s) (cs_onVote s) (cs_evidencePool s) (cs_started s)
    (cs_ticks s) x.
End Updates.

(** ** Computations

    A handler ends, panics (the process dies; the state is kept to tell how far it came), or
    runs out of fuel, which the code does not: [fuel_enough] below. *)

Inductive outcome (S A : Type) :=
| Done (a : A) (s : S)
| Panicked (msg : string) (s : S)
| OutOfFuel.
Arguments Done {S A} a s.
Arguments Panicked {S A} msg s.
Arguments OutOfFuel {S A}.

Definition M (S A : Type) : Type := S -> outcome S A.

Definition mret {S A} (a : A) : M S A := fun s => Done a s.
Definition mbind {S A B} (m : M S A) (k : A -> M S B) : M S B := fun s =>
  match m s with Done a s => k a s | Panicked msg s => Panicked msg s | OutOfFuel => OutOfFuel end.
Definition mpanic {S A} (msg : string) : M S A := fun s => Panicked msg s.
Definition mget {S} : M S S := fun s => Done s s.
Definition mmodify {S} (f : S -> S) : M S unit := fun s => Done tt (f s).

(** A call that returns a value or an error. *)
Definition mtry {S A B} (r : res A) (ok : A -> M S B) (err : error -> M S B) : M S B :=
  match r with Ret a => ok a | Err e => err e | Panic msg => mpanic msg end.

Notation "'let*' x ':=' m 'in' k" := (mbind m (fun x => k))
  (at level 10, x pattern, m at level 100, k at level 200) : go_scope.
Notation "m ';;' k" := (mbind m (fun _ => k)) (at level 100, right associativity) : go_scope.

(** ** applyValidatorUpdates *)

(** Rounding of an integer to 53 significant bits, ties to even: [float64(z)]. *)
Definition float64 (z : Z) : Z :=
  let e := Z.max 0 (Z.log2 (Z.abs z) - 52) in
  let q := Z.abs z / 2 ^ e in
  let r := Z.abs z `mod` 2 ^ e in
  let half := 2 ^ e / 2 in
  let q := if (e =? 0) || (r <? half) || ((r =? half) && Z.even q) then q else q + 1 in
  Z.sgn z * (q * 2 ^ e).

(** [-int64(float64(totalPower) * 1.125)]: the product, in eighths, is rounded to a
    [float64], and the conversion truncates. *)
Definition newValidatorPenalty (totalPower : Z) : Z :=
  wrap64 (- Z.quot (float64 (9 * float64 totalPower)) 8).

(** One iteration of the first pass: the current validators and the new names. *)
Definition apply_update (st : gmap string NamedValidator * gset string) (update : ValidatorUpdate)
    : gmap string NamedValidator * gset string :=
  let '(currentVals, newNames) := st in
  let name := AccountNameString (vu_Name update) in
  if vu_VotingPower update =? 0 then (delete name currentVals, newNames) else
  match currentVals !! name with
  | Some existing =>
      (<[name := {| nv_Name := nv_Name existing;
                    nv_Index := nv_Index existing;
                    nv_PublicKey := vu_PublicKey update;
                    nv_VotingPower := vu_VotingPower update;
                    nv_ProposerPriority := nv_ProposerPriority existing |}]> currentVals, newNames)
  | None =>
      (<[name := {| nv_Name := vu_Name update;
                    nv_Index := 0;
                    nv_PublicKey := vu_PublicKey update;
                    nv_VotingPower := vu_VotingPower update;
                    nv_ProposerPriority := 0 |}]> currentVals, {[name]} ∪ newNames)
  end.

Definition vals_by_name (vs : ValidatorSet) : gmap string NamedValidator :=
  foldl (fun m v => <[AccountNameString (nv_Name v) := v]> m) ∅ (vals_Validators vs).

Definition power_sum (vals : list NamedValidator) : Z :=
  foldl (fun s v => wrap64 (s + nv_VotingPower v)) 0 vals.

(** The sum runs over a map; the order does not matter for wrapping addition. *)
Definition applyValidatorUpdates (vs : ValidatorSet) (updates : list ValidatorUpdate)
    : res ValidatorSet :=
  let '(currentVals, newNames) := foldl apply_update (vals_by_name vs, ∅) updates in
  let totalPower := power_sum (map_to_list currentVals).*2 in
  let currentVals :=
    map_imap (fun name v => Some (if bool_decide (name ∈ newNames)
                                  then set_priority (newValidatorPenalty totalPower) v else v)) currentVals in
  let newVals := merge_sort name_le (map_to_list currentVals).*2 in
  if! len newVals =? 0 return Err (errorf "validator set would be empty after updates") in
  let! newSet := rwrap (NewValidatorSet (Some <$> newVals))
                   (fun e => wrapf e "failed to create new validator set: %w") in
  match WithIncrementedPriority 1 newSet with
  | Err _ => Panic "CONSENSUS CRITICAL: failed to increment priority on new validator set: %v"
  | r => r
  end.

Definition stepToGenerated (step : Z) : Z :=
  if (0 <=? step) && (step <=? 7) then step else RoundStepNewHeight.

(** ** Proof of lock *)

Section POL.
Context `{Crypto} `{Cramberry}.

(** The loop of [validatePOL]: the power of the votes seen. *)
Fixpoint validatePOL_loop (chainID : string) (vs : ValidatorSet) (proposal : Proposal)
    (blockHash : Hash) (votes : list Vote) (seenValidators : gset Z) (polPower : Z) : res Z :=
  match votes with
  | [] => Ret polPower
  | vote :: votes =>
      if! negb (vt_Type vote =? VoteTypePrevote)
        return Err (errorf "POL vote %d is not a prevote (type=%d)") in
      if! negb (vt_Height vote =? p_Height proposal)
        return Err (errorf "POL vote %d has wrong height: %d != %d") in
      if! negb (vt_Round vote =? p_PolRound proposal)
        return Err (errorf "POL vote %d has wrong round: %d != %d") in
      match vt_BlockHash vote with
      | None => Err (errorf "POL vote %d has nil block hash")
      | Some h =>
          if! negb (HashEqual h blockHash) return Err (errorf "POL vote %d is for different block") in
          match GetByIndex vs (vt_ValidatorIndex vote) with
          | None => Err (errorf "POL vote %d from unknown validator index %d")
          | Some val =>
              if! negb (AccountNameEqual (nv_Name val) (vt_Validator vote))
                return Err (errorf "POL vote %d validator name mismatch") in
              if! bool_decide (vt_ValidatorIndex vote ∈ seenValidators)
                return Err (errorf "duplicate POL vote from validator %d") in
              let! _ := rwrap (VerifyVoteSignature chainID (Some vote) (nv_PublicKey val))
                          (fun e => wrapf e "POL vote %d has invalid signature: %w") in
              validatePOL_loop chainID vs proposal blockHash votes
                ({[vt_ValidatorIndex vote]} ∪ seenValidators) (wrap64 (polPower + nv_VotingPower val))
          end
      end
  end.

Definition validatePOL (chainID : string) (vs : ValidatorSet) (proposal : Proposal) : res unit :=
  if! len (p_PolVotes proposal) =? 0 return Err (errorf "POL round %d set but no POL votes provided") in
  let! blockHash := BlockHash (Some (p_Block proposal)) in
  let! polPower := validatePOL_loop chainID vs proposal blockHash (p_PolVotes proposal) ∅ 0 in
  let required := TwoThirdsMajority vs in
  if! polPower <? required return Err (errorf "POL has insufficient power: %d < %d") in
  Ret tt.

Definition canUnlock (chainID : string) (vs : ValidatorSet) (lockedRound : Z)
    (proposal : option Proposal) : res bool :=
  match proposal with
  | None => Ret false
  | Some proposal =>
      if! p_PolRound proposal <? 0 return Ret false in
      if! p_PolRound proposal <=? lockedRound return Ret false in
      if! p_PolRound proposal >=? p_Round proposal return Ret false in
      match validatePOL chainID vs proposal with
      | Ret _ => Ret true
      | Err _ => Ret false
      | Panic m => Panic m
      end
  end.
End POL.

(** ** The handlers

    [clock] is the sequence of values [time.Now] returns; [cs_ticks] counts the readings. *)

Section StateMachine.
Context `{Crypto} `{Cramberry} `{MapOrder}.
Context {PV X W : Type} `{PrivValidator PV} `{BlockExecutor X} `{WAL W}.
Variable clock : nat -> Z.

Notation CS := (ConsensusState PV X W).
Notation M := (M CS).

Definition get_state : M RoundState := fun s => Done (cs_state s) s.
Definition put (f : RoundState -> RoundState) : M unit := mmodify (fun s => with_state (f (cs_state s)) s).
Definition emit (e : event) : M unit := mmodify (fun s => with_trace (cs_trace s ++ [e]) s).

Definition time_Now : M Z := fun s => Done (clock (cs_ticks s)) (with_ticks (S (cs_ticks s)) s).

Definition scheduleTimeout (ti : TimeoutInfo) : M unit :=
  mmodify (fun s => with_timeoutTicker (ScheduleTimeout ti (cs_timeoutTicker s)) s).

Definition hash_of_block (b : Block) : M Hash := mtry (BlockHash (Some b)) mret (fun _ => mpanic "unreachable").

(** Dereference of a vote set obtained from [cs.votes]. *)
Definition deref_set (l : nat) : M VoteSet :=
  let* rs := get_state in
  match hvs_heap (rs_votes rs) !! l with
  | Some s => mret s
  | None => mpanic "invalid memory address or nil pointer dereference"
  end.

(** [cs.votes.AddVote] reads the clock. *)
Definition votes_AddVote (vote : Vote) : M (res bool) :=
  let* now := time_Now in
  let* rs := get_state in
  let '(votes, r) := HeightVoteSet_AddVote now vote (rs_votes rs) in
  put (set_votes votes) ;; mret r.

(** A WAL write whose failure is fatal; no write without a WAL. *)
Definition wal_write (sync : bool) (msg : res Message) (create_err write_err : string) : M unit :=
  fun s =>
    match cs_wal s with
    | None => Done tt s
    | Some w =>
        match msg with
        | Err _ => Panicked create_err s
        | Panic m => Panicked m s
        | Ret msg =>
            let '(w, r) := if sync then wal_WriteSync msg w else wal_Write msg w in
            let s := with_wal (Some w) s in
            match r with Ret _ => Done tt s | Err _ => Panicked write_err s | Panic m => Panicked m s end
        end
    end.

(** Calls of the private validator, present by the callers' checks. *)
Definition priv_call {A} (f : PV -> PV * res A) : M (res A) := fun s =>
  match cs_privVal s with
  | None => Panicked "invalid memory address or nil pointer dereference" s
  | Some pv => let '(pv, r) := f pv in Done r (with_privVal (Some pv) s)
  end.

Definition exec_call {A} (f : X -> X * res A) : M (res A) := fun s =>
  match cs_blockExecutor s with
  | None => Panicked "invalid memory address or nil pointer dereference" s
  | Some x => let '(x, r) := f x in Done r (with_blockExecutor (Some x) s)
  end.

Definition writeStateLocked : M unit :=
  let* rs := get_state in
  let* s := mget in
  match cs_wal s with
  | None => mret tt
  | Some _ =>
      let* locked := match rs_lockedBlock rs with
                     | None => mret (0, None)
                     | Some b => let* h := hash_of_block b in mret (rs_lockedRound rs, Some h)
                     end in
      let* valid := match rs_validBlock rs with
                    | None => mret (0, None)
                    | Some b => let* h := hash_of_block b in mret (rs_validRound rs, Some h)
                    end in
      wal_write true
        (NewStateMessage {| csd_Height := rs_height rs;
                            csd_Round := rs_round rs;
                            csd_Step := stepToGenerated (rs_step rs);
                            csd_LockedRound := locked.1;
                            csd_LockedBlockHash := locked.2;
                            csd_ValidRound := valid.1;
                            csd_ValidBlockHash := valid.2 |})
        "CONSENSUS CRITICAL: failed to create state WAL message: %v"
        "CONSENSUS CRITICAL: failed to write state to WAL: %v"
  end.

(** [after_vote] is the quorum check after an own vote, the only recursive call. *)
Section Handlers.
Variable after_vote : Vote -> M unit.

Definition with_signature (vote : Vote) (sig : Signature) : Vote :=
  mkVote (vt_Type vote) (vt_Height vote) (vt_Round vote) (vt_BlockHash vote) (vt_Timestamp vote)
    (vt_Validator vote) (vt_ValidatorIndex vote) sig.

Definition signAndSendVoteLocked (voteType : Z) (blockHash : option Hash) : M unit :=
  let* s := mget in
  let rs := cs_state s in
  match cs_privVal s with
  | None => mret tt
  | Some pv =>
      let pubKey := pv_GetPubKey pv in
      match List.find (fun v => PublicKeyEqual (nv_PublicKey v) pubKey) (vals_Validators (rs_validatorSet rs)) with
      | None => mret tt
      | Some v =>
          let valIndex := nv_Index v in
          match GetByIndex (rs_validatorSet rs) valIndex with
          | None => mret tt
          | Some validator =>
              let* now := time_Now in
              let vote := {| vt_Type := voteType;
                             vt_Height := rs_height rs;
                             vt_Round := rs_round rs;
                             vt_BlockHash := blockHash;
                             vt_Timestamp := now;
                             vt_Validator := nv_Name validator;
                             vt_ValidatorIndex := valIndex;
                             vt_Signature := mkSignature [] |} in
              let* r := priv_call (pv_SignVote (cf_ChainID (cs_config s)) vote) in
              mtry r (fun sig =>
                let vote := with_signature vote sig in
                wal_write true (NewVoteMessage (vt_Height vote) (vt_Round vote) vote)
                  "CONSENSUS CRITICAL: failed to create WAL message for own vote: %v"
                  "CONSENSUS CRITICAL: failed to write own vote to WAL: %v" ;;
                let* added := votes_AddVote vote in
                match added with
                | Err _ => mpanic "CONSENSUS CRITICAL: failed to add own vote: %v"
                | Panic m => mpanic m
                | Ret false => mpanic "CONSENSUS CRITICAL: own vote was not added (duplicate?)"
                | Ret true =>
                    emit (Voted (rs_validatorSet rs) vote) ;;
                    after_vote vote ;;
                    if cs_onVote s then emit (Sent_vote (default vote (CopyVote (Some vote)))) else mret tt
                end) (fun _ => mret tt)
          end
      end
  end.

(** The block hash to prevote: the locking rules. The second component tells to unlock. *)
Definition decidePrevote (chainID : string) (rs : RoundState) : res (option Hash * bool) :=
  match rs_lockedBlock rs with
  | Some lockedBlock =>
      let! lockedHash := BlockHash (Some lockedBlock) in
      match rs_proposalBlock rs with
      | Some proposalBlock =>
          let! proposalHash := BlockHash (Some proposalBlock) in
          if HashEqual proposalHash lockedHash then Ret (Some lockedHash, false) else
          let! unlock := canUnlock chainID (rs_validatorSet rs) (rs_lockedRound rs) (rs_proposal rs) in
          Ret (if unlock then (Some proposalHash, true) else (None, false))
      | None => Ret (None, false)
      end
  | None =>
      match rs_proposalBlock rs with
      | Some proposalBlock => let! hash := BlockHash (Some proposalBlock) in Ret (Some hash, false)
      | None => Ret (None, false)
      end
  end.

Definition unlock (rs : RoundState) : RoundState := set_lockedBlock None (set_lockedRound (-1) rs).

Definition enterPrevoteLocked (height round : Z) : M unit :=
  let* rs := get_state in
  if! negb (rs_height rs =? height) || negb (rs_round rs =? round) || (rs_step rs >=? RoundStepPrevote)
    return mret tt in
  put (set_step RoundStepPrevote) ;;
  let* s := mget in
  mtry (decidePrevote (cf_ChainID (cs_config s)) (cs_state s)) (fun '(blockHash, do_unlock) =>
    (if do_unlock : bool then put unlock else mret tt) ;;
    signAndSendVoteLocked VoteTypePrevote blockHash) (fun _ => mpanic "unreachable").

Definition enterPrevoteWaitLocked (height round : Z) : M unit :=
  let* rs := get_state in
  if! negb (rs_height rs =? height) || negb (rs_round rs =? round) || (rs_step rs >=? RoundStepPrevoteWait)
    return mret tt in
  put (set_step RoundStepPrevoteWait) ;;
  scheduleTimeout (mkTimeoutInfo 0 height round RoundStepPrevoteWait).

(** The POL votes of an own proposal: the prevotes of the valid round. *)
Definition pol_votes (rs : RoundState) : M (list Vote) :=
  if rs_validRound rs >=? 0 then
    match Prevotes (rs_votes rs) (rs_validRound rs) with
    | None => mret []
    | Some l => let* prevotes := deref_set l in mret (VoteSet_GetVotes prevotes)
    end
  else mret [].

(** The block to propose; [None] when the function returns. *)
Definition block_to_propose (rs : RoundState) (proposer : NamedValidator) : M (option Block) :=
  match rs_validBlock rs, rs_lockedBlock rs with
  | Some block, _ => mret (Some block)
  | None, Some block => mret (Some block)
  | None, None =>
      let* s := mget in
      match cs_blockExecutor s with
      | None => mret None
      | Some _ =>
          let* r := exec_call (exec_CreateProposalBlock (rs_height rs) (rs_lastCommit rs) (nv_Name proposer)) in
          mtry r (fun block => mret (Some block)) (fun _ => mret None)
      end
  end.

Definition with_p_Signature (p : Proposal) (sig : Signature) : Proposal :=
  {| p_Height := p_Height p;
     p_Round := p_Round p;
     p_Timestamp := p_Timestamp p;
     p_Block := p_Block p;
     p_PolRound := p_PolRound p;
     p_PolVotes := p_PolVotes p;
     p_Proposer := p_Proposer p;
     p_Signature := sig |}.

Definition createAndSendProposalLocked : M unit :=
  let* s := mget in
  let rs := cs_state s in
  match GetProposerForRound (rs_validatorSet rs) (rs_round rs) with
  | None => mret tt
  | Some proposer =>
      let* block := block_to_propose rs proposer in
      match block with
      | None => mret tt
      | Some block =>
          let* now := time_Now in
          let* polVotes := pol_votes rs in
          let proposal := {| p_Height := rs_height rs;
                             p_Round := rs_round rs;
                             p_Timestamp := now;
                             p_Block := block;
                             p_PolRound := rs_validRound rs;
                             p_PolVotes := polVotes;
                             p_Proposer := nv_Name proposer;
                             p_Signature := mkSignature [] |} in
          let* r := priv_call (pv_SignProposal (cf_ChainID (cs_config s)) proposal) in
          mtry r (fun sig =>
            let proposal := with_p_Signature proposal sig in
            wal_write true (NewProposalMessage (p_Height proposal) (p_Round proposal) proposal)
              "CONSENSUS CRITICAL: failed to create WAL message for own proposal: %v"
              "CONSENSUS CRITICAL: failed to write own proposal to WAL: %v" ;;
            put (set_proposal (Some proposal)) ;;
            put (set_proposalBlock (CopyBlock (Some block))) ;;
            (if cs_onProposal s then emit (Sent_proposal (default proposal (CopyProposal (Some proposal))))
             else mret tt) ;;
            enterPrevoteLocked (rs_height rs) (rs_round rs)) (fun _ => mret tt)
      end
  end.

(** "Reset round state". *)
Definition start_round (round : Z) (rs : RoundState) : RoundState :=
  let rs := set_step RoundStepNewRound (set_round round rs) in
  let rs := set_proposalBlock None (set_proposal None rs) in
  let rs := if round =? 0 then set_validBlock None (set_validRound (-1) rs) else rs in
  set_step RoundStepPropose rs.

(** The end of [enterNewRoundLocked]: propose if it is this node's turn. *)
Definition propose_if_proposer : M unit :=
  let* s := mget in
  match GetProposerForRound (rs_validatorSet (cs_state s)) (rs_round (cs_state s)) with
  | None => mret tt
  | Some proposer =>
      match cs_privVal s with
      | Some pv => if PublicKeyEqual (nv_PublicKey proposer) (pv_GetPubKey pv)
                   then createAndSendProposalLocked else mret tt
      | None => mret tt
      end
  end.

Definition enterNewRoundLocked (height round : Z) : M unit :=
  let* rs := get_state in
  if! negb (rs_height rs =? height) || (round <? rs_round rs) return mret tt in
  put (start_round round) ;;
  scheduleTimeout (mkTimeoutInfo 0 height round RoundStepPropose) ;;
  propose_if_proposer.

(** The new validator set of [finalizeCommitLocked]. *)
Definition next_validators (vs : ValidatorSet) (updates : list ValidatorUpdate) : M ValidatorSet :=
  if 0 <? len updates then
    mtry (applyValidatorUpdates vs updates) mret
      (fun _ => mpanic "CONSENSUS CRITICAL: failed to apply validator updates at height %d: %v")
  else
    mtry (WithIncrementedPriority 1 vs) mret
      (fun _ => mpanic "CONSENSUS CRITICAL: failed to update validator set: %v").

(** The block of [finalizeCommitLocked]: the locked block, else the proposal's. *)
Definition block_to_commit (rs : RoundState) : option Block :=
  match rs_lockedBlock rs with Some b => Some b | None => rs_proposalBlock rs end.

(** "Move to next height": the fields and the votes. *)
Definition next_height (height : Z) (commit : Commit) (newValSet : ValidatorSet) (rs : RoundState)
    : RoundState :=
  {| rs_validatorSet := newValSet;
     rs_height := wrap64 (height + 1);
     rs_round := 0;
     rs_step := RoundStepNewHeight;
     rs_proposal := None;
     rs_proposalBlock := None;
     rs_lockedRound := -1;
     rs_lockedBlock := None;
     rs_validRound := -1;
     rs_validBlock := None;
     rs_votes := Reset (wrap64 (height + 1)) newValSet (rs_votes rs);
     rs_lastCommit := Some commit |}.

(** The call of [ApplyBlock], if there is an executor. *)
Definition apply_block (block : Block) (commit : Commit) : M (list ValidatorUpdate) :=
  let* s := mget in
  match cs_blockExecutor s with
  | None => mret []
  | Some _ =>
      let* r := exec_call (exec_ApplyBlock block commit) in
      mtry r mret (fun _ => mpanic "CONSENSUS CRITICAL: failed to apply committed block at height %d: %v")
  end.

Definition finalizeCommitLocked (height : Z) (commit : Commit) : M unit :=
  let* rs := get_state in
  match block_to_commit rs with
  | None => mpanic "CONSENSUS CRITICAL: finalizeCommit called with no block at height %d"
  | Some block =>
      let* blockHash := hash_of_block block in
      if! negb (HashEqual blockHash (cm_BlockHash commit))
        return mpanic "CONSENSUS CRITICAL: block hash mismatch at height %d: block=%x commit=%x" in
      let* valUpdates := apply_block block commit in
      emit (Committed (rs_validatorSet rs) block commit) ;;
      let* newValSet := next_validators (rs_validatorSet rs) valUpdates in
      wal_write true (Ret (NewEndHeightMessage height)) ""
        "CONSENSUS CRITICAL: failed to write EndHeight to WAL: %v" ;;
      put (next_height height commit newValSet) ;;
      let* s := mget in
      let rs := cs_state s in
      if negb (cf_SkipTimeoutCommit (cs_config s)) then
        scheduleTimeout (mkTimeoutInfo 0 (rs_height rs) 0 RoundStepCommit)
      else enterNewRoundLocked (rs_height rs) 0
  end.

(** The loop of [enterCommitLocked], over the rounds [n - 1, ..., 0]. *)
Fixpoint find_commit (n : nat) : M (option Commit) :=
  match n with
  | O => mret None
  | S n =>
      let* rs := get_state in
      match Precommits (rs_votes rs) (Z.of_nat n) with
      | None => find_commit n
      | Some l =>
          let* precommits := deref_set l in
          let '(blockHash, ok) := VoteSet_TwoThirdsMajority precommits in
          if ok && negb (IsHashEmpty blockHash) then
            match MakeCommit precommits with
            | Some commit => mret (Some commit)
            | None => find_commit n
            end
          else find_commit n
      end
  end.

Definition enterCommitLocked (height : Z) : M unit :=
  let* rs := get_state in
  if! negb (rs_height rs =? height) || (rs_step rs >=? RoundStepCommit) return mret tt in
  put (set_step RoundStepCommit) ;;
  let* commit := find_commit (Z.to_nat (rs_round rs + 1)) in
  match commit with
  | Some commit => finalizeCommitLocked height commit
  | None => mpanic "CONSENSUS CRITICAL: enterCommit called at height %d but no commit found"
  end.

Definition lock_on (round : Z) (block : Block) (rs : RoundState) : RoundState :=
  set_validBlock (Some block) (set_validRound round (set_lockedBlock (Some block) (set_lockedRound round rs))).

Definition enterPrecommitLocked (height round : Z) : M unit :=
  let* rs := get_state in
  if! negb (rs_height rs =? height) || negb (rs_round rs =? round) || (rs_step rs >=? RoundStepPrecommit)
    return mret tt in
  put (set_step RoundStepPrecommit) ;;
  let precommit_nil := signAndSendVoteLocked VoteTypePrecommit None in
  match Prevotes (rs_votes rs) round with
  | None => precommit_nil
  | Some l =>
      let* prevotes := deref_set l in
      let '(blockHash, ok) := VoteSet_TwoThirdsMajority prevotes in
      if! negb ok return precommit_nil in
      match blockHash with
      | None => put unlock ;; precommit_nil
      | Some h =>
          if! IsHashEmpty (Some h) return put unlock ;; precommit_nil in
          match rs_proposalBlock rs with
          | None => precommit_nil
          | Some proposalBlock =>
              let* proposalHash := hash_of_block proposalBlock in
              if HashEqual proposalHash h then
                put (lock_on round proposalBlock) ;;
                writeStateLocked ;;
                signAndSendVoteLocked VoteTypePrecommit blockHash
              else precommit_nil
          end
      end
  end.

Definition enterPrecommitWaitLocked (height round : Z) : M unit :=
  let* rs := get_state in
  if! negb (rs_height rs =? height) || negb (rs_round rs =? round) || (rs_step rs >=? RoundStepPrecommitWait)
    return mret tt in
  put (set_step RoundStepPrecommitWait) ;;
  scheduleTimeout (mkTimeoutInfo 0 height round RoundStepPrecommitWait).

Definition get_height : M Z := let* rs := get_state in mret (rs_height rs).

Definition handlePrevoteLocked (vote : Vote) : M unit :=
  let* rs := get_state in
  match Prevotes (rs_votes rs) (vt_Round vote) with
  | None => mret tt
  | Some l =>
      let* prevotes := deref_set l in
      if (vt_Round vote >? rs_round rs) && HasTwoThirdsAny prevotes then
        enterNewRoundLocked (rs_height rs) (vt_Round vote) ;;
        let* prevotes := deref_set l in
        let* height := get_height in
        if HasTwoThirdsMajority prevotes then enterPrecommitLocked height (vt_Round vote)
        else enterPrevoteLocked height (vt_Round vote)
      else if vt_Round vote =? rs_round rs then
        if HasTwoThirdsMajority prevotes then
          if (rs_step rs =? RoundStepPrevote) || (rs_step rs =? RoundStepPrevoteWait)
          then enterPrecommitLocked (rs_height rs) (rs_round rs) else mret tt
        else if HasTwoThirdsAny prevotes then
          if rs_step rs =? RoundStepPrevote
          then enterPrevoteWaitLocked (rs_height rs) (rs_round rs) else mret tt
        else mret tt
      else mret tt
  end.

Definition handlePrecommitLocked (vote : Vote) : M unit :=
  let* rs := get_state in
  match Precommits (rs_votes rs) (vt_Round vote) with
  | None => mret tt
  | Some l =>
      let* precommits := deref_set l in
      let '(blockHash, ok) := VoteSet_TwoThirdsMajority precommits in
      if ok && negb (IsHashEmpty blockHash) then
        (if vt_Round vote >? rs_round rs then put (set_round (vt_Round vote)) else mret tt) ;;
        enterCommitLocked (rs_height rs)
      else if (vt_Round vote >? rs_round rs) && HasTwoThirdsAny precommits then
        enterNewRoundLocked (rs_height rs) (vt_Round vote) ;;
        let* height := get_height in
        enterPrevoteLocked height (vt_Round vote) ;;
        let* height := get_height in
        enterPrecommitLocked height (vt_Round vote)
      else if vt_Round vote =? rs_round rs then
        if HasTwoThirdsAny precommits && (rs_step rs =? RoundStepPrecommit)
        then enterPrecommitWaitLocked (rs_height rs) (rs_round rs) else mret tt
      else mret tt
  end.

(** The [switch] on the type of a vote that was added. *)
Definition vote_added (vote : Vote) : M unit :=
  if vt_Type vote =? VoteTypePrevote then handlePrevoteLocked vote
  else if vt_Type vote =? VoteTypePrecommit then handlePrecommitLocked vote
  else mret tt.
End Handlers.

(** The fuel bounds the nesting of own votes within one handler. *)
Fixpoint after_vote (fuel : nat) (vote : Vote) : M unit :=
  match fuel with
  | O => fun _ => OutOfFuel
  | S fuel => vote_added (after_vote fuel) vote
  end.

(** ** The event handlers *)

Definition Start (fuel : nat) (height : Z) (lastCommit : option Commit) : M (res unit) :=
  let* s := mget in
  if! cs_started s return mret (Err ErrAlreadyStarted) in
  put (set_height height) ;;
  put (set_lastCommit lastCommit) ;;
  put (fun rs => set_votes (NewHeightVoteSet (cf_ChainID (cs_config s)) height (rs_validatorSet rs)) rs) ;;
  mmodify (with_started true) ;;
  mmodify (fun s => with_timeoutTicker (TimeoutTicker_Start (cs_timeoutTicker s)) s) ;;
  enterNewRoundLocked (after_vote fuel) height 0 ;;
  mret (Ret tt).

Definition Stop : M (res unit) :=
  let* s := mget in
  if! negb (cs_started s) return mret (Err ErrNotStarted) in
  mmodify (with_started false) ;;
  mmodify (fun s => with_timeoutTicker (TimeoutTicker_Stop (cs_timeoutTicker s)) s) ;;
  mret (Ret tt).

Definition validate_block (block : Block) : M (res unit) :=
  let* s := mget in
  match cs_blockExecutor s with
  | None => mret (Ret tt)
  | Some _ => exec_call (exec_ValidateBlock block)
  end.

Definition handleProposal (fuel : nat) (proposal : Proposal) : M unit :=
  let* s := mget in
  let rs := cs_state s in
  if! negb (p_Height proposal =? rs_height rs) || negb (p_Round proposal =? rs_round rs) return mret tt in
  match rs_proposal rs with
  | Some _ => mret tt
  | None =>
      match GetProposerForRound (rs_validatorSet rs) (p_Round proposal) with
      | None => mret tt
      | Some proposer =>
          if! negb (AccountNameEqual (p_Proposer proposal) (nv_Name proposer)) return mret tt in
          mtry (ProposalSignBytes (cf_ChainID (cs_config s)) (Some proposal)) (fun signBytes =>
            if! negb (VerifySignature (nv_PublicKey proposer) signBytes (p_Signature proposal)) return mret tt in
            mtry (if p_PolRound proposal >=? 0
                  then validatePOL (cf_ChainID (cs_config s)) (rs_validatorSet rs) proposal else Ret tt) (fun _ =>
              let* valid := validate_block (p_Block proposal) in
              mtry valid (fun _ =>
                wal_write true (NewProposalMessage (p_Height proposal) (p_Round proposal) proposal)
                  "CONSENSUS CRITICAL: failed to create WAL message for proposal: %v"
                  "CONSENSUS CRITICAL: failed to write proposal to WAL: %v" ;;
                put (set_proposal (Some proposal)) ;;
                put (set_proposalBlock (CopyBlock (Some (p_Block proposal)))) ;;
                enterPrevoteLocked (after_vote fuel) (rs_height rs) (rs_round rs))
              (fun _ => mret tt))
            (fun _ => mret tt))
          (fun _ => mpanic "unreachable")
      end
  end.

(** The equivocation check of [handleVote]: the evidence pool, if there is one. *)
Definition check_evidence (vote : Vote) : M unit :=
  let* s := mget in
  match cs_evidencePool s with
  | None => mret tt
  | Some pool =>
      let* now := time_Now in
      let valSet := Some (rs_validatorSet (cs_state s)) in
      let chainID := cf_ChainID (cs_config s) in
      let '(pool, r) := CheckVote now (Some vote) valSet chainID pool in
      mmodify (with_evidencePool (Some pool)) ;;
      mtry r (fun dve =>
        match dve with
        | None => mret tt
        | Some _ =>
            let '(pool, r) := AddDuplicateVoteEvidence dve chainID valSet pool in
            mmodify (with_evidencePool (Some pool)) ;;
            mtry r mret (fun _ => mret tt)
        end) (fun _ => mret tt)
  end.

Definition handleVote (fuel : nat) (vote : Vote) : M unit :=
  check_evidence vote ;;
  wal_write false (NewVoteMessage (vt_Height vote) (vt_Round vote) vote)
    "CONSENSUS CRITICAL: failed to create WAL message for vote: %v"
    "CONSENSUS CRITICAL: failed to write vote to WAL: %v" ;;
  let* added := votes_AddVote vote in
  mtry added (fun added => if added : bool then vote_added (after_vote fuel) vote else mret tt) (fun _ => mret tt).

Definition handleTimeout (fuel : nat) (ti : TimeoutInfo) : M unit :=
  let* rs := get_state in
  if! negb (ti_Height ti =? rs_height rs) || (ti_Round ti <? rs_round rs) return mret tt in
  if ti_Step ti =? RoundStepPropose then
    if rs_step rs =? RoundStepPropose
    then enterPrevoteLocked (after_vote fuel) (rs_height rs) (rs_round rs) else mret tt
  else if ti_Step ti =? RoundStepPrevoteWait then
    if rs_step rs =? RoundStepPrevoteWait
    then enterPrecommitLocked (after_vote fuel) (rs_height rs) (rs_round rs) else mret tt
  else if ti_Step ti =? RoundStepPrecommitWait then
    if rs_step rs =? RoundStepPrecommitWait then
      let nextRound := wrap32 (rs_round rs + 1) in
      let nextRound := if nextRound <? 0 then MaxInt32 else nextRound in
      enterNewRoundLocked (after_vote fuel) (rs_height rs) nextRound
    else mret tt
  else if ti_Step ti =? RoundStepCommit then
    enterNewRoundLocked (after_vote fuel) (rs_height rs) 0
  else mret tt.
End StateMachine.

(** ** The event loop *)

(** What the loop of [receiveRoutine] takes: a message of one of the channels, or a timeout; the
    routine of the ticker changes the ticker in between. *)
Inductive input :=
| In_proposal (p : Proposal)
| In_vote (v : Vote)
| In_timeout (ti : TimeoutInfo)
| In_ticker (t : TimeoutTicker).

Definition proposalChannelSize : nat := 100.
Definition voteChannelSize : nat := 10000.

(** The channels of a node, oldest message first, and the counts of dropped messages. *)
Record Channels := mkChannels {
  proposalCh : list Proposal;
  voteCh : list Vote;
  droppedProposals : Z;
  droppedVotes : Z }.

Definition AddProposal (p : Proposal) (ch : Channels) : Channels :=
  if (length (proposalCh ch) <? proposalChannelSize)%nat
  then mkChannels (proposalCh ch ++ [p]) (voteCh ch) (droppedProposals ch) (droppedVotes ch)
  else mkChannels (proposalCh ch) (voteCh ch) (u64 (droppedProposals ch + 1)) (droppedVotes ch).

Definition AddVote (v : Vote) (ch : Channels) : Channels :=
  if (length (voteCh ch) <? voteChannelSize)%nat
  then mkChannels (proposalCh ch) (voteCh ch ++ [v]) (droppedProposals ch) (droppedVotes ch)
  else mkChannels (proposalCh ch) (voteCh ch) (droppedProposals ch) (u64 (droppedVotes ch + 1)).

Definition GetDroppedMessageCounts (ch : Channels) : Z * Z := (droppedProposals ch, droppedVotes ch).

Section EventLoop.
Context `{Crypto} `{Cramberry} `{MapOrder} {PV X W : Type} `{PrivValidator PV} `{BlockExecutor X} `{WAL W}.
Variables (clock : nat -> Z) (fuel : nat).

Definition handle (i : input) : M (ConsensusState PV X W) unit :=
  match i with
  | In_proposal p => handleProposal clock fuel p
  | In_vote v => handleVote clock fuel v
  | In_timeout ti => handleTimeout clock fuel ti
  | In_ticker t => mmodify (with_timeoutTicker t)
  end.

(** The cases of the [select] of [receiveRoutine] that are ready. *)
Inductive ready := Proposal_ready | Vote_ready | Timeout_ready.

(** One iteration of the loop for a case: the message, and what is left. *)
Definition receive (r : ready) (ch : Channels) (s : ConsensusState PV X W)
    : option (input * Channels * ConsensusState PV X W) :=
  match r with
  | Proposal_ready =>
      match proposalCh ch with
      | [] => None
      | p :: l => Some (In_proposal p, mkChannels l (voteCh ch) (droppedProposals ch) (droppedVotes ch), s)
      end
  | Vote_ready =>
      match voteCh ch with
      | [] => None
      | v :: l => Some (In_vote v, mkChannels (proposalCh ch) l (droppedProposals ch) (droppedVotes ch), s)
      end
  | Timeout_ready =>
      match receive_tock (cs_timeoutTicker s) with
      | None => None
      | Some (ti, ticker) => Some (In_timeout ti, ch, with_timeoutTicker ticker s)
      end
  end.

Definition receiveRoutine (r : ready) (ch : Channels) (s : ConsensusState PV X W)
    : option (Channels * outcome (ConsensusState PV X W) unit) :=
  match receive r ch s with
  | None => None
  | Some (i, ch, s) => Some (ch, handle i s)
  end.
End EventLoop.

(** [NewConsensusState]. The votes are created by [Start], which runs before any handler. *)
Definition NewConsensusState {PV X W : Type} (config : Config) (valSet : ValidatorSet)
    (privVal : option PV) (wal : option W) (executor : option X) : ConsensusState PV X W :=
  {| cs_config := config;
     cs_state := {| rs_validatorSet := valSet;
                    rs_height := 0;
                    rs_round := 0;
                    rs_step := RoundStepNewHeight;
                    rs_proposal := None;
                    rs_proposalBlock := None;
                    rs_lockedRound := -1;
                    rs_lockedBlock := None;
                    rs_validRound := -1;
                    rs_validBlock := None;
                    rs_votes := NewHeightVoteSet (cf_ChainID config) 0 valSet;
                    rs_lastCommit := None |};
     cs_privVal := privVal;
     cs_wal := wal;
     cs_timeoutTicker := NewTimeoutTicker (cf_Timeouts config);
     cs_blockExecutor := executor;
     cs_onProposal := false;
     cs_onVote := false;
     cs_evidencePool := None;
     cs_started := false;
     cs_ticks := 0;
     cs_trace := [] |}.

Definition SetBroadcastCallbacks {PV X W : Type} (onProposal onVote : bool) (s : ConsensusState PV X W)
    : ConsensusState PV X W :=
  mkConsensusState (cs_config s) (cs_state s) (cs_privVal s) (cs_wal s) (cs_timeoutTicker s)
    (cs_blockExecutor s) onProposal onVote (cs_evidencePool s) (cs_started s) (cs_ticks s) (cs_trace s).

Definition SetEvidencePool {PV X W : Type} (pool : option Pool) (s : ConsensusState PV X W)
    : ConsensusState PV X W := with_evidencePool pool s.

Definition GetState {PV X W : Type} (s : ConsensusState PV X W) : Z * Z * Z :=
  (rs_height (cs_state s), rs_round (cs_state s), rs_step (cs_state s)).

Definition GetValidatorSet {PV X W : Type} (s : ConsensusState PV X W) : option ValidatorSet :=
  match ValidatorSet_Copy (rs_validatorSet (cs_state s)) with Ret vs => Some vs | _ => None end.

Definition StepString (step : Z) : string :=
  if step =? RoundStepNewHeight then "NewHeight"
  else if step =? RoundStepNewRound then "NewRound"
  else if step =? RoundStepPropose then "Propose"
  else if step =? RoundStepPrevote then "Prevote"
  else if step =? RoundStepPrevoteWait then "PrevoteWait"
  else if step =? RoundStepPrecommit then "Precommit"
  else if step =? RoundStepPrecommitWait then "PrecommitWait"
  else if step =? RoundStepCommit then "Commit"
  else "Unknown(" +:+ pretty step +:+ ")".
