(* ===== verification/Safety.v ===== *)
(** * Invariants of the consensus state machine

    What holds of every run of one node, whatever messages and timeouts it receives: its state
    is well-formed, every lock is backed by a quorum of prevotes, its commits verify and are
    consecutive, and the locking rule bounds what it may prevote after a precommit. *)

From S2P Require Export OwnVotes Consensus.

(** ** Quorums of votes

    [quorum_for]: votes of one type, height and round by distinct validators, each signed with
    the validator's key, of more than two thirds of the power for one block key. *)
Section Quorums.
Context `{Crypto} `{Cramberry}.

Definition vote_signed (chainID : string) (vals : ValidatorSet) (v : Vote) : Prop :=
  exists val, GetByIndex vals (vt_ValidatorIndex v) = Some val /\ nv_Name val = vt_Validator v /\
    VerifyVoteSignature chainID (Some v) (nv_PublicKey val) = Ret tt.

Definition quorum_for (chainID : string) (vals : ValidatorSet) (typ height round : Z) (key : string) : Prop :=
  exists log, NoDup (vt_ValidatorIndex <$> log) /\ has_quorum vals log key /\
    forall v, v ∈ log -> vt_Type v = typ /\ vt_Height v = height /\ vt_Round v = round /\
      vote_signed chainID vals v.

Lemma represents_quorum s log key :
  represents s log -> has_quorum (vset_validatorSet s) log key ->
  quorum_for (vset_chainID s) (vset_validatorSet s) (vset_voteType s) (vset_height s) (vset_round s) key.
Proof.
  intros Hr Hq. exists log. split_and!; [apply (rep_distinct _ _ Hr)|done|]. intros v Hv.
  destruct (rep_valid _ _ Hr v Hv) as [Hm (val & m & Hg & Hn & Hsb & Hs)]. unfold vote_matches in Hm.
  bool_to_prop. split_and!; [done..|]. exists val. split_and!; [done..|].
  by apply (VerifySignature_vote _ _ _ m).
Qed.

(** A prevote for the proposed block and the POL round. *)
Definition pol_vote (chainID : string) (vals : ValidatorSet) (p : Proposal) (h : Hash) (v : Vote) : Prop :=
  vt_Type v = VoteTypePrevote /\ vt_Height v = p_Height p /\ vt_Round v = p_PolRound p /\
  vt_BlockHash v = Some h /\ vote_signed chainID vals v.

(** The loop of [validatePOL]; [log] is the part already seen. *)
Lemma validatePOL_loop_log chainID vals p h votes log seen total :
  ValidatorSet_core vals -> NoDup (vt_ValidatorIndex <$> log) ->
  (forall i, i ∈ seen <-> i ∈ vt_ValidatorIndex <$> log) ->
  validatePOL_loop chainID vals p h votes seen (sumZ (vote_power vals) log) = Ret total ->
  NoDup (vt_ValidatorIndex <$> log ++ votes) /\ total = sumZ (vote_power vals) (log ++ votes) /\
  forall v, v ∈ votes -> pol_vote chainID vals p h v.
Proof.
  intros Hc. revert log seen. induction votes as [|v votes IH]; intros log seen Hn Hs Hl.
  { cbn in *. injection Hl as <-. rewrite app_nil_r. split_and!; [done..|]. intros v Hv. by apply not_elem_of_nil in Hv. }
  cbn [validatePOL_loop] in Hl. destruct (Z.eqb_spec (vt_Type v) VoteTypePrevote); [|done].
  destruct (Z.eqb_spec (vt_Height v) (p_Height p)); [|done].
  destruct (Z.eqb_spec (vt_Round v) (p_PolRound p)); [|done]. cbn [negb] in Hl.
  destruct (vt_BlockHash v) as [d|] eqn:Ed; [|done].
  destruct (HashEqual d h) eqn:Eh; [|done]. apply HashEqual_true in Eh as ->. cbn [negb] in Hl.
  destruct (GetByIndex vals _) as [val|] eqn:Eg; [|done].
  destruct (AccountNameEqual _ _) eqn:En; [|done]. apply AccountNameEqual_true in En. cbn [negb] in Hl.
  case_bool_decide as Hd; [done|]. rewrite Hs in Hd. destruct (rwrap _ _) as [[]| |] eqn:Ev; [|done..].
  cbn [rbind] in Hl. apply rwrap_Ret in Ev.
  assert (Epow : vote_power vals v = nv_VotingPower val) by (unfold vote_power; by rewrite Eg).
  assert (Hn' : NoDup (vt_ValidatorIndex <$> log ++ [v])).
  { rewrite fmap_app. apply NoDup_app. split_and!; [done| |apply NoDup_singleton].
    intros i Hi ->%list_elem_of_singleton. done. }
  assert (Esum : wrap64 (sumZ (vote_power vals) log + nv_VotingPower val) = sumZ (vote_power vals) (log ++ [v])).
  { rewrite sumZ_app. cbn. rewrite Epow, wrap64_small; [lia|]. apply (total_i64 vals); [done|].
    pose proof (votes_power_bound vals _ Hc Hn') as Hb. rewrite sumZ_app in Hb. cbn in Hb. lia. }
  rewrite Esum in Hl. apply IH in Hl as (Hnd & -> & Hv); [|done|].
  - rewrite <- app_assoc in *. split_and!; [done..|].
    intros w [->|Hw]%elem_of_cons; [|by apply Hv]. split_and!; [done..|]. exists val. by split_and!.
  - intros i. rewrite elem_of_union, Hs, fmap_app, elem_of_app, elem_of_singleton. cbn.
    rewrite list_elem_of_singleton. tauto.
Qed.

(** A validated proof of lock is a quorum of prevotes for the proposed block. *)
Lemma validatePOL_quorum chainID vals p h :
  ValidatorSet_wf vals -> BlockHash (Some (p_Block p)) = Ret h -> validatePOL chainID vals p = Ret tt ->
  quorum_for chainID vals VoteTypePrevote (p_Height p) (p_PolRound p) (blockHashKey (Some h)).
Proof.
  intros Hw Hh Hv. pose proof (wf_core _ Hw) as Hc. unfold validatePOL in Hv. destruct (len _ =? 0); [done|].
  rewrite Hh in Hv. cbn [rbind] in Hv. destruct (validatePOL_loop _ _ _ _ _ _ _) as [total| |] eqn:El; [|done..].
  cbn [rbind] in Hv. destruct (Z.ltb_spec total (TwoThirdsMajority vals)) as [|Hq]; [done|].
  apply (validatePOL_loop_log chainID vals p h (p_PolVotes p) []) in El as (Hn & -> & Hpol);
    [|done|constructor|set_solver].
  exists (p_PolVotes p). split_and!; [done| |intros v Hin; by destruct (Hpol v Hin) as (? & ? & ? & _ & ?)].
  unfold has_quorum. apply TwoThirds_quorum; [split; [apply (wf_total_pos _ Hw)|apply (core_bound _ Hc)]|].
  unfold same_block. rewrite list_filter_all; [done|]. intros v Hin. by destruct (Hpol v Hin) as (_ & _ & _ & -> & _).
Qed.
End Quorums.

(** ** Traces *)

Definition commits (trace : list event) : list Commit :=
  omap (fun e => match e with Committed _ _ c => Some c | _ => None end) trace.

Fixpoint heights_from (h : Z) (cs : list Commit) : Prop :=
  match cs with [] => True | c :: cs => cm_Height c = h /\ heights_from (wrap64 (h + 1)) cs end.

(** The height after some commits. *)
Definition height_after (h : Z) (cs : list Commit) : Z := foldl (fun h _ => wrap64 (h + 1)) h cs.

(** The votes cast at the current height: those after the last commit. *)
Definition segment_step (seg : list (ValidatorSet * Vote)) (e : event) : list (ValidatorSet * Vote) :=
  match e with
  | Committed _ _ _ => []
  | Voted vals v => seg ++ [(vals, v)]
  | _ => seg
  end.

Definition segment (trace : list event) : list (ValidatorSet * Vote) := foldl segment_step [] trace.

Lemma segment_snoc trace e : segment (trace ++ [e]) = segment_step (segment trace) e.
Proof. unfold segment. by rewrite foldl_app. Qed.

Lemma commits_snoc trace e : commits (trace ++ [e]) = commits trace ++ commits [e].
Proof. unfold commits. by rewrite omap_app. Qed.

Lemma heights_from_snoc h cs c :
  heights_from h (cs ++ [c]) <-> heights_from h cs /\ cm_Height c = height_after h cs.
Proof. revert h. induction cs as [|d cs IH]; intros h; cbn; [tauto|]. rewrite IH. tauto. Qed.

Lemma height_after_snoc h cs c : height_after h (cs ++ [c]) = wrap64 (height_after h cs + 1).
Proof. unfold height_after. by rewrite foldl_app. Qed.

(** A vote for a block. *)
Definition for_a_block (typ : Z) (v : Vote) : Prop := vt_Type v = typ /\ IsHashEmpty (vt_BlockHash v) = false.

Section Rules.
Context `{Crypto} `{Cramberry}.
Variable chainID : string.

(** Prevotes, in some round between two, with a quorum for something else than a block. The
    round is below the second one, except where a round can start again: the first round (when
    the commit timeout fires late) and the largest round number (after which the round stays). *)
Definition moved_on (vals : ValidatorSet) (height r1 r2 : Z) (key : string) : Prop :=
  exists r key', r1 <= r <= r2 /\ (r < r2 \/ r = r1 \/ r = MaxInt32) /\ key' <> key /\
    quorum_for chainID vals VoteTypePrevote height r key'.

(** A precommit for a block has a quorum of prevotes of its round; a later prevote for
    another block needs a quorum of prevotes for something else in between; the rounds do not
    decrease; a validator casts one vote of a type in a round. *)
Record voting_rules (seg : list (ValidatorSet * Vote)) : Prop := {
  vr_precommit : forall vals v, (vals, v) ∈ seg -> for_a_block VoteTypePrecommit v ->
    quorum_for chainID vals VoteTypePrevote (vt_Height v) (vt_Round v) (blockHashKey (vt_BlockHash v));
  vr_lock : forall i j vals1 v1 vals2 v2, (i < j)%nat ->
    seg !! i = Some (vals1, v1) -> seg !! j = Some (vals2, v2) ->
    for_a_block VoteTypePrecommit v1 -> for_a_block VoteTypePrevote v2 -> vt_BlockHash v1 <> vt_BlockHash v2 ->
    moved_on vals1 (vt_Height v1) (vt_Round v1) (vt_Round v2) (blockHashKey (vt_BlockHash v1));
  vr_rounds : forall i j vals1 v1 vals2 v2, (i < j)%nat ->
    seg !! i = Some (vals1, v1) -> seg !! j = Some (vals2, v2) -> vt_Round v1 <= vt_Round v2;
  vr_once : forall i j vals1 v1 vals2 v2, (i < j)%nat ->
    seg !! i = Some (vals1, v1) -> seg !! j = Some (vals2, v2) ->
    vt_Type v1 = vt_Type v2 -> vt_Round v1 = vt_Round v2 -> vt_ValidatorIndex v1 <> vt_ValidatorIndex v2 }.

Definition commit_valid (e : event) : Prop :=
  match e with
  | Committed vals b c => ValidatorSet_wf vals /\ BlockHash (Some b) = Ret (cm_BlockHash c) /\
      VerifyCommit chainID (Some vals) (cm_BlockHash c) (cm_Height c) (Some c) = Ret tt
  | _ => True
  end.

Record safe (h0 : Z) (trace : list event) : Prop := {
  safe_commits : Forall commit_valid trace;
  safe_heights : heights_from h0 (commits trace);
  safe_vote_heights : forall t vals v rest, trace = t ++ Voted vals v :: rest ->
    vt_Height v = height_after h0 (commits t);
  safe_votes : forall t rest, trace = t ++ rest -> voting_rules (segment t) }.

Lemma voting_rules_nil : voting_rules [].
Proof. split; [by intros ? ? ?%not_elem_of_nil|done..]. Qed.

Lemma safe_nil h0 : safe h0 [].
Proof.
  split; [done|done| |]; [by intros [|? ?] ? ? ? ?|]. intros t rest E. symmetry in E. apply app_nil in E as [-> _].
  apply voting_rules_nil.
Qed.

(** The height of a vote is the one after the commits before it. *)
Definition event_height (h : Z) (e : event) : Prop :=
  match e with Voted _ v => vt_Height v = h | _ => True end.

Lemma safe_snoc h0 trace e :
  safe h0 trace -> commit_valid e -> heights_from h0 (commits (trace ++ [e])) ->
  event_height (height_after h0 (commits trace)) e ->
  voting_rules (segment (trace ++ [e])) -> safe h0 (trace ++ [e]).
Proof.
  intros [Hc Hh Hvh Hv] He Hh' Heh Hv'. split; [by apply Forall_app; auto|done| |].
  - intros t vals v rest E. destruct rest as [|x rest _] using rev_ind.
    + apply app_inj_tail in E as [<- ->]. exact Heh.
    + rewrite app_comm_cons, app_assoc in E. apply app_inj_tail in E as [E _]. by eapply Hvh.
  - intros t rest E. destruct rest as [|x rest _] using rev_ind; [rewrite app_nil_r in E; by subst t|].
    rewrite app_assoc in E. apply app_inj_tail in E as [E _]. by eapply Hv.
Qed.
End Rules.

(** ** The state *)

Section StateInvariant.
Context `{Crypto} `{Cramberry}.
Variable chainID : string.

(** A block with a quorum of prevotes at a round up to the current one; none is round -1. *)
Definition lock_ok (rs : RoundState) (round : Z) (block : option Block) : Prop :=
  match block with
  | None => round = -1
  | Some b => 0 <= round <= rs_round rs /\ exists h, BlockHash (Some b) = Ret h /\
      IsHashEmpty (Some h) = false /\
      quorum_for chainID (rs_validatorSet rs) VoteTypePrevote (rs_height rs) round (blockHashKey (Some h))
  end.

Record rs_ok (rs : RoundState) : Prop := {
  rok_vals : ValidatorSet_wf (rs_validatorSet rs);
  rok_votes : HeightVoteSet_inv False (rs_votes rs);
  rok_chain : hvs_chainID (rs_votes rs) = chainID;
  rok_height : hvs_height (rs_votes rs) = rs_height rs;
  rok_vset : hvs_validatorSet (rs_votes rs) = rs_validatorSet rs;
  rok_round : 0 <= rs_round rs;
  rok_step : RoundStepNewHeight <= rs_step rs <= RoundStepCommit;
  rok_proposal : forall p, rs_proposal rs = Some p -> p_Height p = rs_height rs /\ p_Round p <= rs_round rs /\
    rs_proposalBlock rs = Some (p_Block p);
  rok_locked : lock_ok rs (rs_lockedRound rs) (rs_lockedBlock rs);
  rok_valid : lock_ok rs (rs_validRound rs) (rs_validBlock rs) }.

(** Moved on from a block, so that prevotes of the rounds to come may be for another one. *)
Definition moved_by (rs : RoundState) (v : Vote) : Prop :=
  exists r key', vt_Round v <= r <= rs_round rs /\
    (r < rs_round rs \/ r = vt_Round v \/ r = MaxInt32 \/ RoundStepPrecommit <= rs_step rs) /\
    key' <> blockHashKey (vt_BlockHash v) /\
    quorum_for chainID (rs_validatorSet rs) VoteTypePrevote (rs_height rs) r key'.

(** After a precommit for a block: still locked on it since that round, or moved on. *)
Definition lock_kept (rs : RoundState) (v : Vote) : Prop :=
  (exists b h, rs_lockedBlock rs = Some b /\ BlockHash (Some b) = Ret h /\ vt_BlockHash v = Some h /\
     vt_Round v <= rs_lockedRound rs) \/
  moved_by rs v.

Definition segment_ok (rs : RoundState) (seg : list (ValidatorSet * Vote)) : Prop :=
  forall vals v, (vals, v) ∈ seg -> vals = rs_validatorSet rs /\ vt_Height v = rs_height rs /\
    0 <= vt_Round v <= rs_round rs /\ recorded (rs_votes rs) v /\
    (for_a_block VoteTypePrecommit v -> lock_kept rs v).

(** The invariant of a node started at height [h0]; [trace] is what it did. *)
Record inv_on (h0 : Z) (rs : RoundState) (trace : list event) : Prop := {
  inv_rs : rs_ok rs;
  inv_safe : safe chainID h0 trace;
  inv_height : rs_height rs = height_after h0 (commits trace);
  inv_segment : segment_ok rs (segment trace) }.

(** Updates that keep the height and the votes and do not go back, except to start a round
    again that may be. *)
Record advances (rs rs' : RoundState) : Prop := {
  adv_height : rs_height rs' = rs_height rs;
  adv_vals : rs_validatorSet rs' = rs_validatorSet rs;
  adv_votes : sets_grow (rs_votes rs) (rs_votes rs');
  adv_round : rs_round rs <= rs_round rs';
  adv_step : rs_round rs < rs_round rs' \/ rs_round rs' = 0 \/ rs_round rs' = MaxInt32 \/
    rs_step rs <= rs_step rs' }.

Lemma inv_update h0 rs rs' trace :
  inv_on h0 rs trace -> rs_ok rs' -> advances rs rs' ->
  (forall v, 0 <= vt_Round v <= rs_round rs -> lock_kept rs v -> lock_kept rs' v) -> inv_on h0 rs' trace.
Proof.
  intros [Hr Hs Hh Hseg] Hr' [Eh Ev Hg Hle _] Hl. split; [done|done|by rewrite Eh|].
  intros vals v Hin. destruct (Hseg vals v Hin) as (-> & Hv & Hrd & Hrec & Hk).
  rewrite Eh, Ev. split_and!; [done|done|lia|lia|by eapply recorded_grow|auto].
Qed.

Lemma moved_by_advances rs rs' v :
  advances rs rs' -> 0 <= vt_Round v -> moved_by rs v -> moved_by rs' v.
Proof.
  intros [Eh Ev _ Hle Hst] H0v (r & k & Hr & Hs & Hk & Hq). exists r, k. rewrite Eh, Ev.
  split_and!; [lia|lia| |done..]. lia.
Qed.

(** The lock fields untouched. *)
Lemma lock_kept_same rs rs' v :
  advances rs rs' -> 0 <= vt_Round v -> rs_lockedRound rs' = rs_lockedRound rs ->
  rs_lockedBlock rs' = rs_lockedBlock rs -> lock_kept rs v -> lock_kept rs' v.
Proof.
  unfold lock_kept. intros Ha Hv -> -> [?|?]; [by left|right]. by eapply moved_by_advances.
Qed.

Lemma lock_ok_round rs rs' round block :
  rs_height rs' = rs_height rs -> rs_validatorSet rs' = rs_validatorSet rs -> rs_round rs <= rs_round rs' ->
  lock_ok rs round block -> lock_ok rs' round block.
Proof. unfold lock_ok. intros -> -> Hle. destruct block; [|done]. intros [? ?]. split; [lia|done]. Qed.
End StateInvariant.

(** ** Triples

    [postF F Q E o]: if the computation ended, [Q] holds of its result, if it panicked, [E]
    holds of the state left behind, and if it ran out of fuel, [F]. *)
Section Triples.
Context {S : Type}.
Implicit Types (F : Prop) (E : S -> Prop).

Definition postF {A} (F : Prop) (Q : A -> S -> Prop) (E : S -> Prop) (o : outcome S A) : Prop :=
  match o with Done a s => Q a s | Panicked _ s => E s | OutOfFuel => F end.

Lemma post_bind {A B} F (m : M S A) (k : A -> M S B) Q E s :
  postF F (fun a s' => postF F Q E (k a s')) E (m s) -> postF F Q E (mbind m k s).
Proof. unfold mbind. by destruct (m s). Qed.

Lemma post_mono {A} F F' (Q Q' : A -> S -> Prop) E E' o :
  postF F Q E o -> (forall a s, Q a s -> Q' a s) -> (forall s, E s -> E' s) -> (F -> F') -> postF F' Q' E' o.
Proof. destruct o; cbn; auto. Qed.

Lemma post_try {A B} F (r : res A) (ok : A -> M S B) err Q E s :
  (forall a, r = Ret a -> postF F Q E (ok a s)) -> (forall e, postF F Q E (err e s)) -> E s ->
  postF F Q E (mtry r ok err s).
Proof. destruct r; cbn; auto. Qed.
End Triples.

Notation post := (postF True).

Section Frames.
Context `{Crypto} `{Cramberry}.
Context {PV X W : Type} `{PrivValidator PV} `{BlockExecutor X} `{WAL W}.
Variable clock : nat -> Z.

Notation CS := (ConsensusState PV X W).

(** The equations of the primitive computations. *)
Lemma bind_get_state {B} (k : RoundState -> M CS B) s : mbind get_state k s = k (cs_state s) s.
Proof. done. Qed.

Lemma bind_mget {B} (k : CS -> M CS B) s : mbind mget k s = k s s.
Proof. done. Qed.

Lemma bind_ret {A B} (a : A) (k : A -> M CS B) s : mbind (mret a) k s = k a s.
Proof. done. Qed.

Lemma bind_put {B} f (k : unit -> M CS B) s : mbind (put f) k s = k tt (with_state (f (cs_state s)) s).
Proof. done. Qed.

Lemma bind_mmodify {B} f (k : unit -> M CS B) s : mbind (mmodify f) k s = k tt (f s).
Proof. done. Qed.

Lemma state_with rs (s : CS) : cs_state (with_state rs s) = rs.
Proof. done. Qed.

Lemma with_state_with rs rs' (s : CS) : with_state rs (with_state rs' s) = with_state rs s.
Proof. done. Qed.

Lemma put_eq f (s : CS) : put f s = Done tt (with_state (f (cs_state s)) s).
Proof. done. Qed.

Lemma bind_emit {B} e (k : unit -> M CS B) s :
  mbind (emit e) k s = k tt (with_trace (cs_trace s ++ [e]) s).
Proof. done. Qed.

(** The parts of the state the invariants are about. *)
Definition same (s s' : CS) : Prop :=
  cs_config s' = cs_config s /\ cs_state s' = cs_state s /\ cs_trace s' = cs_trace s.

Lemma same_refl s : same s s.
Proof. done. Qed.

Lemma same_trans s1 s2 s3 : same s1 s2 -> same s2 s3 -> same s1 s3.
Proof. unfold same. intros (-> & -> & ->) (-> & -> & ->). done. Qed.

(** A computation that leaves them alone; [R] says what its result is. *)
Definition framed {A} (m : M CS A) (R : CS -> A -> Prop) : Prop :=
  forall s, postF False (fun a s' => same s s' /\ R s a) (same s) (m s).

Lemma framed_bind {A B} F (m : M CS A) (k : A -> M CS B) R Q (E : CS -> Prop) s :
  framed m R -> (forall a s', same s s' -> R s a -> postF F Q E (k a s')) ->
  (forall s', same s s' -> E s') -> postF F Q E (mbind m k s).
Proof. intros Hm Hk HE. apply post_bind. eapply post_mono; [apply Hm|naive_solver|done..]. Qed.

Lemma framed_ret {A} (a : A) : framed (mret a) (fun _ x => x = a).
Proof. intros s. cbn. auto using same_refl. Qed.

Lemma framed_panic {A} msg (R : CS -> A -> Prop) : framed (mpanic msg) R.
Proof. intros s. cbn. apply same_refl. Qed.

Lemma time_Now_framed : framed (time_Now clock) (fun _ _ => True).
Proof. intros s. by cbn. Qed.

Lemma scheduleTimeout_framed ti : framed (scheduleTimeout (PV := PV) (X := X) (W := W) ti) (fun _ _ => True).
Proof. intros s. by cbn. Qed.

Lemma wal_write_framed sync msg e1 e2 :
  framed (wal_write (PV := PV) (X := X) sync msg e1 e2) (fun _ _ => True).
Proof. intros s. unfold wal_write. repeat case_match; by cbn. Qed.

Lemma priv_call_framed {A} (f : PV -> PV * res A) : framed (priv_call (X := X) (W := W) f) (fun _ _ => True).
Proof. intros s. unfold priv_call. repeat case_match; by cbn. Qed.

Lemma exec_call_framed {A} (f : X -> X * res A) :
  framed (exec_call (PV := PV) (W := W) f) (fun s r => exists x, cs_blockExecutor s = Some x /\ r = (f x).2).
Proof. intros s. unfold exec_call. repeat case_match; cbn; [|done]. split; [done|]. exists x. by rewrite H5. Qed.

Lemma hash_of_block_framed b :
  framed (hash_of_block (PV := PV) (X := X) (W := W) b) (fun _ h => BlockHash (Some b) = Ret h).
Proof. intros s. unfold hash_of_block. destruct (BlockHash (Some b)); by cbn. Qed.

Lemma deref_set_framed l :
  framed (deref_set (PV := PV) (X := X) (W := W) l) (fun s v => hvs_heap (rs_votes (cs_state s)) !! l = Some v).
Proof. intros s. unfold deref_set, mbind, get_state. by destruct (_ !! l) eqn:E. Qed.

Lemma writeStateLocked_framed : framed (writeStateLocked (PV := PV) (X := X) (W := W)) (fun _ _ => True).
Proof.
  assert (Hh : forall (o : option Block) (r : Z), framed
    (match o with None => mret (0, None) | Some b => let* h := hash_of_block b in mret (r, Some h) end
      : M CS (Z * option Hash)) (fun _ _ => True)).
  { intros [b|] r s; [|by cbn]. eapply framed_bind; [apply hash_of_block_framed| |done]. by cbn. }
  intros s. unfold writeStateLocked. rewrite bind_get_state, bind_mget. destruct (cs_wal s); [|by cbn].
  eapply framed_bind; [apply Hh| |done]. intros locked s1 S1 _.
  eapply framed_bind; [apply Hh| |intros; by eapply same_trans]. intros valid s2 S2 _.
  eapply post_mono; [apply wal_write_framed|intros ? ? [? _]; split; [|done]|intros ? ?|done];
    eauto using same_trans.
Qed.

Lemma block_to_propose_framed rs proposer :
  framed (block_to_propose (PV := PV) (X := X) (W := W) rs proposer) (fun _ _ => True).
Proof.
  intros s. unfold block_to_propose. destruct (rs_validBlock rs); [by cbn|]. destruct (rs_lockedBlock rs); [by cbn|].
  apply post_bind. cbn. destruct (cs_blockExecutor s); [|by cbn].
  eapply framed_bind; [apply exec_call_framed| |done]. intros r s' Hs _. by destruct r; cbn.
Qed.

Lemma pol_votes_framed rs : framed (pol_votes (PV := PV) (X := X) (W := W) rs) (fun _ _ => True).
Proof.
  intros s. unfold pol_votes. destruct (_ >=? 0); [|by cbn]. destruct (Prevotes _ _); [|by cbn].
  eapply framed_bind; [apply deref_set_framed| |done]. by cbn.
Qed.

Lemma validate_block_framed b : framed (validate_block (PV := PV) (X := X) (W := W) b) (fun _ _ => True).
Proof.
  intros s. unfold validate_block. apply post_bind. cbn. destruct (cs_blockExecutor s); [|by cbn].
  eapply post_mono; [apply exec_call_framed|by intros ? ? [? _]|done..].
Qed.

Lemma next_validators_framed vs updates :
  framed (next_validators (PV := PV) (X := X) (W := W) vs updates)
    (fun _ vs' => if 0 <? len updates then applyValidatorUpdates vs updates = Ret vs'
                  else WithIncrementedPriority 1 vs = Ret vs').
Proof.
  intros s. unfold next_validators. destruct (0 <? len updates).
  - by destruct (applyValidatorUpdates vs updates); cbn.
  - by destruct (WithIncrementedPriority 1 vs); cbn.
Qed.
(** A commit made from the precommits of some round. *)
Definition made_from (rs : RoundState) (c : Commit) : Prop :=
  exists r l vset, Precommits (rs_votes rs) r = Some l /\ hvs_heap (rs_votes rs) !! l = Some vset /\
    MakeCommit vset = Some c.

Lemma find_commit_framed n :
  framed (find_commit (PV := PV) (X := X) (W := W) n)
    (fun s oc => forall c, oc = Some c -> made_from (cs_state s) c).
Proof.
  induction n as [|n IH]; intros s; [by cbn|]. cbn [find_commit]. rewrite bind_get_state.
  destruct (Precommits _ _) as [l|] eqn:El; [|apply IH].
  eapply framed_bind; [apply deref_set_framed| |done]. intros vset s' Hs Hv. pose proof Hs as (_ & Est & _).
  assert (HIH : postF False (fun oc s'' => same s s'' /\ forall c, oc = Some c -> made_from (cs_state s) c) (same s)
    (find_commit n s')).
  { eapply post_mono; [apply IH|intros a s2 [S2 R2]|intros s2 S2|done]; [|by eapply same_trans].
    split; [by eapply same_trans|]. by rewrite <- Est. }
  destruct (VoteSet_TwoThirdsMajority vset) as [h ok]. destruct (ok && _); [|exact HIH].
  destruct (MakeCommit vset) as [c|] eqn:Ec; [|exact HIH]. split; [done|]. intros c' [= <-].
  by exists (Z.of_nat n), l, vset.
Qed.

Lemma apply_block_framed b c :
  framed (apply_block (PV := PV) (X := X) (W := W) b c)
    (fun _ us => us = [] \/ exists x, (exec_ApplyBlock b c x).2 = Ret us).
Proof.
  intros s. unfold apply_block. rewrite bind_mget. destruct (cs_blockExecutor s).
  - eapply framed_bind; [apply exec_call_framed| |done]. intros r s' Hs (x' & _ & Hr).
    destruct r as [us| |]; cbn; [|done..]. split; [done|]. right. by exists x'.
  - cbn. split; [done|]. by left.
Qed.

Lemma check_evidence_framed `{MapOrder} vote :
  framed (check_evidence (PV := PV) (X := X) (W := W) clock vote) (fun _ _ => True).
Proof.
  intros s. unfold check_evidence. rewrite bind_mget. destruct (cs_evidencePool s) as [pool|]; [|by cbn].
  eapply framed_bind; [apply time_Now_framed| |done]. intros now s1 S1 _.
  destruct (CheckVote _ _ _ _ _) as [pool1 [[dve|]| |]]; [|done..].
  unfold mbind, mmodify, mtry. destruct (AddDuplicateVoteEvidence _ _ _ _) as [pool2 [[]| |]]; done.
Qed.

End Frames.

(** ** The next validator set *)

(** The powers an executor returns are [int64] values. *)
Class ExecutorLaws (X : Type) `{BlockExecutor X} : Prop :=
  exec_powers : forall b c x us, (exec_ApplyBlock b c x).2 = Ret us -> forall u, u ∈ us -> in_i64 (vu_VotingPower u).

Definition powers_ok (m : gmap string NamedValidator) : Prop :=
  forall name v, m !! name = Some v -> in_i64 (nv_VotingPower v).

Lemma apply_update_powers st u :
  powers_ok st.1 -> in_i64 (vu_VotingPower u) -> powers_ok (apply_update st u).1.
Proof.
  destruct st as [m names]. intros Hm Hu. unfold apply_update.
  destruct (_ =? 0); [|destruct (m !! _) as [e|] eqn:Ee]; cbn; intros name v Hl.
  - apply lookup_delete_Some in Hl as [_ Hl]. by eapply Hm.
  - apply lookup_insert_Some in Hl as [[_ <-]|[_ Hl]]; [done|by eapply Hm].
  - apply lookup_insert_Some in Hl as [[_ <-]|[_ Hl]]; [done|by eapply Hm].
Qed.

Lemma apply_updates_powers us st :
  powers_ok st.1 -> (forall u, u ∈ us -> in_i64 (vu_VotingPower u)) -> powers_ok (foldl apply_update st us).1.
Proof.
  revert st. induction us as [|u us IH]; intros st Hm Hu; [done|]. cbn. apply IH.
  - apply apply_update_powers; [done|]. apply Hu. left.
  - intros w Hw. apply Hu. by right.
Qed.

Lemma vals_by_name_powers vs : ValidatorSet_core vs -> powers_ok (vals_by_name vs).
Proof.
  intros Hc. unfold vals_by_name. enough (forall l m, powers_ok m -> l ⊆ vals_Validators vs ->
    powers_ok (foldl (fun (m : gmap string NamedValidator) v => <[AccountNameString (nv_Name v) := v]> m) m l)) as Hl.
  { apply Hl; [|done]. intros name v Hv. by rewrite lookup_empty in Hv. }
  induction l as [|w l IH]; intros m Hm Hs; [done|]. cbn. apply IH.
  - intros name v [[_ <-]|[_ Hv]]%lookup_insert_Some; [|by eapply Hm].
    assert (Hw : w ∈ vals_Validators vs) by (apply Hs; left). pose proof (core_positive _ _ Hc Hw).
    pose proof (votes_power_bound vs [] Hc) as _.
    assert (nv_VotingPower w <= sumZ nv_VotingPower (vals_Validators vs)).
    { apply sumZ_elem_le; [|done]. intros y Hy. pose proof (core_positive _ _ Hc Hy). lia. }
    apply (total_i64 vs); [done|]. rewrite (core_total _ Hc). lia.
  - intros x Hx. apply Hs. by right.
Qed.

Lemma applyValidatorUpdates_wf vs us vs' :
  ValidatorSet_wf vs -> (forall u, u ∈ us -> in_i64 (vu_VotingPower u)) ->
  applyValidatorUpdates vs us = Ret vs' -> ValidatorSet_wf vs'.
Proof.
  intros Hw Hu. unfold applyValidatorUpdates.
  pose proof (apply_updates_powers us (vals_by_name vs, ∅) (vals_by_name_powers _ (wf_core _ Hw)) Hu) as Hp.
  destruct (foldl apply_update _ us) as [m names]. cbn [fst] in Hp.
  set (m' := map_imap _ m). set (ws := merge_sort name_le _).
  destruct (len ws =? 0); [done|].
  assert (Hws : forall w, w ∈ ws -> in_i64 (nv_VotingPower w)).
  { intros w Hin. unfold ws in Hin. rewrite merge_sort_Permutation in Hin.
    apply list_elem_of_fmap in Hin as ([name v] & -> & Hin). apply elem_of_map_to_list in Hin.
    unfold m' in Hin. rewrite map_lookup_imap in Hin. destruct (m !! name) as [x|] eqn:Ex; [|done].
    cbn in *. injection Hin as <-. specialize (Hp _ _ Ex). by case_bool_decide. }
  pose proof (NewValidatorSet_cases ws Hws) as Hc. destruct (NewValidatorSet _) as [newSet| |]; [|done..].
  destruct Hc as (_ & Hw' & _). cbn [rwrap rbind]. rewrite (WithIncrementedPriority_wf _ _ Hw').
  intros [= <-]. by apply Increment_wf.
Qed.

(** ** Preservation *)

Lemma HeightVoteSet_AddVote_static `{Crypto} `{Cramberry} now vote hvs :
  hvs_chainID (HeightVoteSet_AddVote now vote hvs).1 = hvs_chainID hvs /\
  hvs_height (HeightVoteSet_AddVote now vote hvs).1 = hvs_height hvs /\
  hvs_validatorSet (HeightVoteSet_AddVote now vote hvs).1 = hvs_validatorSet hvs.
Proof.
  assert (Hc : forall {A} l (f : VoteSet -> VoteSet * res A) h, hvs_chainID (call l f h).1 = hvs_chainID h /\
    hvs_height (call l f h).1 = hvs_height h /\ hvs_validatorSet (call l f h).1 = hvs_validatorSet h)
    by (intros; unfold call; by repeat case_match).
  unfold HeightVoteSet_AddVote, prevotes_at, precommits_at.
  repeat case_match; simplify_eq; try done;
    match goal with |- context [call ?l ?f ?h] => destruct (Hc _ l f h) as (-> & -> & ->); done end.
Qed.

(** For an update that leaves height, validators and votes alone. *)
Ltac advance := split; cbn; [done|done|apply sets_grow_refl|lia|lia].

Section Preservation.
Context `{Crypto} `{Cramberry} `{MapOrder}.
Context {PV X W : Type} `{PrivValidator PV} `{!BlockExecutor X} `{!ExecutorLaws X} `{WAL W}.
Variables (clock : nat -> Z) (chainID : string) (h0 : Z).
#[local] Set Default Proof Using "Type*".

Notation CS := (ConsensusState PV X W).

Definition inv (s : CS) : Prop :=
  cf_ChainID (cs_config s) = chainID /\ inv_on chainID h0 (cs_state s) (cs_trace s).

(** What is left of it when the node dies. *)
Definition dead (s : CS) : Prop := safe chainID h0 (cs_trace s).

Definition keeps {A} (m : M CS A) : Prop := forall s, inv s -> post (fun _ s' => inv s') dead (m s).

Lemma inv_same s s' : same s s' -> inv s -> inv s'.
Proof. unfold inv. by intros (-> & -> & ->). Qed.

Lemma inv_dead s : inv s -> dead s.
Proof. intros [_ Hi]. apply (inv_safe _ _ _ _ Hi). Qed.

Lemma dead_same s s' : same s s' -> inv s -> dead s'.
Proof. intros Hs Hi. by eapply inv_dead, inv_same. Qed.

Lemma keeps_framed {A} (m : M CS A) R : framed m R -> keeps m.
Proof.
  intros Hm s Hi. eapply post_mono; [apply Hm|intros ? ? [? _]; by eapply inv_same|..].
  - intros s' Hs. by eapply dead_same.
  - done.
Qed.

Lemma keeps_bind {A B} (m : M CS A) (k : A -> M CS B) : keeps m -> (forall a, keeps (k a)) -> keeps (mbind m k).
Proof. intros Hm Hk s Hi. apply post_bind. eapply post_mono; [by apply Hm|intros a s' Hs; by apply Hk|done..]. Qed.

Lemma keeps_ret {A} (a : A) : keeps (mret a).
Proof. intros s Hi. exact Hi. Qed.

Lemma keeps_panic {A} msg : keeps (mpanic msg : M CS A).
Proof. intros s Hi. by apply inv_dead. Qed.

(** Sequencing with a framed computation. *)
Lemma framed_then {A B} (m : M CS A) (k : A -> M CS B) R Q s :
  inv s -> framed m R ->
  (forall a s', same s s' -> inv s' -> R s a -> post Q dead (k a s')) -> post Q dead (mbind m k s).
Proof.
  intros Hi Hm Hk. eapply framed_bind; [exact Hm| |].
  - intros a s' Hs HR. apply Hk; [done|by eapply inv_same|done].
  - intros s' Hs. by eapply dead_same.
Qed.

Lemma keeps_put f : (forall rs tr, inv_on chainID h0 rs tr -> inv_on chainID h0 (f rs) tr) -> keeps (put f).
Proof. intros Hf s [Hc Hi]. split; [done|]. by apply Hf. Qed.

Lemma keeps_sent e :
  (forall seg, segment_step seg e = seg) -> commits [e] = [] -> commit_valid chainID e ->
  (forall h, event_height h e) -> keeps (emit e).
Proof.
  intros Hseg Hcm Hv Heh s [Hc [Hr Hs Hh Hsg]]. split; [done|]. cbn.
  assert (E : commits (cs_trace s ++ [e]) = commits (cs_trace s)) by (rewrite commits_snoc, Hcm; apply app_nil_r).
  split; [done| |by rewrite E|by rewrite segment_snoc, Hseg].
  apply safe_snoc; [done..|rewrite E; apply (safe_heights _ _ _ Hs)|done|].
  rewrite segment_snoc, Hseg. apply (safe_votes _ _ _ Hs _ []). by rewrite app_nil_r.
Qed.

(** A vote that may be cast in a state. *)
Record vote_allowed (rs : RoundState) (trace : list event) (typ : Z) (h : option Hash) : Prop := {
  va_precommit : typ = VoteTypePrecommit -> IsHashEmpty h = false ->
    quorum_for chainID (rs_validatorSet rs) VoteTypePrevote (rs_height rs) (rs_round rs) (blockHashKey h) /\
    exists b d, rs_lockedBlock rs = Some b /\ BlockHash (Some b) = Ret d /\ h = Some d /\
      rs_round rs <= rs_lockedRound rs;
  va_prevote : typ = VoteTypePrevote -> IsHashEmpty h = false ->
    forall vals v, (vals, v) ∈ segment trace -> for_a_block VoteTypePrecommit v -> vt_BlockHash v <> h ->
    moved_on chainID (rs_validatorSet rs) (rs_height rs) (vt_Round v) (rs_round rs) (blockHashKey (vt_BlockHash v)) }.

Lemma vote_allowed_nil rs trace typ h : IsHashEmpty h = true -> vote_allowed rs trace typ h.
Proof. intros E. split; rewrite E; done. Qed.

(** A vote of a node at its height and round, that its vote set has just taken: [rs'] is [rs]
    with the set that took it. *)
Lemma voting_rules_snoc rs trace v :
  inv_on chainID h0 rs trace -> vote_allowed rs trace (vt_Type v) (vt_BlockHash v) ->
  vt_Height v = rs_height rs -> vt_Round v = rs_round rs -> ~ recorded (rs_votes rs) v ->
  voting_rules chainID (segment trace ++ [(rs_validatorSet rs, v)]).
Proof.
  intros [Hr Hs Hh Hsg] [Hpc Hpv] Eh Er Hnew.
  pose proof (safe_votes _ _ _ Hs trace [] ltac:(by rewrite app_nil_r)) as [Hvp Hvl Hvr Hvo].
  assert (Hlast : forall i j vals1 v1 vals2 v2, (i < j)%nat ->
    (segment trace ++ [(rs_validatorSet rs, v)]) !! i = Some (vals1, v1) ->
    (segment trace ++ [(rs_validatorSet rs, v)]) !! j = Some (vals2, v2) ->
    segment trace !! i = Some (vals1, v1) /\
    (segment trace !! j = Some (vals2, v2) \/
     (vals1, v1) ∈ segment trace /\ vals2 = rs_validatorSet rs /\ v2 = v)).
  { intros i j vals1 v1 vals2 v2 Hij Hi Hj. apply lookup_app_Some in Hj as [Hj|[Hlen Hj]].
    - pose proof (lookup_lt_Some _ _ _ Hj). rewrite lookup_app_l in Hi by lia. auto.
    - apply list_lookup_singleton_Some in Hj as [Hj0 [= <- <-]]. rewrite lookup_app_l in Hi by lia.
      split; [done|]. right. split_and!; [by eapply list_elem_of_lookup_2|done..]. }
  split.
  - intros vals w [Hw|[= -> ->]%list_elem_of_singleton]%elem_of_app [Ht Hn]; [by apply Hvp|].
    rewrite Eh, Er. by apply Hpc.
  - intros i j vals1 v1 vals2 v2 Hij Hi Hj Hf1 [Ht Hn] Hne.
    destruct (Hlast _ _ _ _ _ _ Hij Hi Hj) as [Hi' [Hj'|(Hin & -> & ->)]]; [by eapply (Hvl i j)|].
    destruct (Hsg _ _ Hin) as (-> & Eh1 & _). rewrite Eh1, Er. by apply (Hpv Ht Hn _ _ Hin).
  - intros i j vals1 v1 vals2 v2 Hij Hi Hj.
    destruct (Hlast _ _ _ _ _ _ Hij Hi Hj) as [Hi' [Hj'|(Hin & -> & ->)]]; [by eapply (Hvr i j)|].
    destruct (Hsg _ _ Hin) as (_ & _ & Hle & _). lia.
  - intros i j vals1 v1 vals2 v2 Hij Hi Hj Et Erd.
    destruct (Hlast _ _ _ _ _ _ Hij Hi Hj) as [Hi' [Hj'|(Hin & -> & ->)]]; [by eapply (Hvo i j)|].
    destruct (Hsg _ _ Hin) as (_ & _ & _ & Hrec & _). intros Ei. apply Hnew.
    unfold recorded in *. by rewrite <- Et, <- Erd, <- Ei.
Qed.

Lemma inv_on_voted rs rs' trace v :
  inv_on chainID h0 rs trace -> inv_on chainID h0 rs' trace ->
  vote_allowed rs trace (vt_Type v) (vt_BlockHash v) ->
  (exists hvs, rs' = set_votes hvs rs) -> recorded (rs_votes rs') v -> ~ recorded (rs_votes rs) v ->
  vt_Height v = rs_height rs -> vt_Round v = rs_round rs ->
  inv_on chainID h0 rs' (trace ++ [Voted (rs_validatorSet rs) v]).
Proof.
  intros Hi [Hr' Hs' Hh' Hsg'] Ha [hvs Ers] Hrec Hnew Eh Er.
  pose proof (voting_rules_snoc rs trace v Hi Ha Eh Er Hnew) as Hvr.
  pose proof (inv_rs _ _ _ _ Hi) as Hrs. pose proof (rok_round _ _ Hrs) as H0r.
  assert (E : commits (trace ++ [Voted (rs_validatorSet rs) v]) = commits trace)
    by (rewrite commits_snoc; apply app_nil_r).
  split; [done| |by rewrite E|].
  - apply safe_snoc; [done..|rewrite E; apply (safe_heights _ _ _ Hs')| |by rewrite segment_snoc].
    cbn. by rewrite Eh, (inv_height _ _ _ _ Hi).
  - rewrite segment_snoc. cbn. intros vals w [Hw|[= -> ->]%list_elem_of_singleton]%elem_of_app; [by apply Hsg'|].
    subst rs'. cbn in *. split_and!; [done|done|lia|lia|done|]. intros [Ht Hn]. left.
    destruct (va_precommit _ _ _ _ Ha Ht Hn) as (_ & b & d & Hb & Hd & Hv & Hle).
    exists b, d. cbn. split_and!; [done..|lia].
Qed.

Lemma inv_on_set_votes rs trace now vote :
  inv_on chainID h0 rs trace ->
  inv_on chainID h0 (set_votes (HeightVoteSet_AddVote now vote (rs_votes rs)).1 rs) trace.
Proof.
  intros Hi. pose proof (inv_rs _ _ _ _ Hi) as [Hv Hvs Hc Hh Hvv Hr Hst Hp Hl Hva].
  destruct (HeightVoteSet_AddVote_static now vote (rs_votes rs)) as (E1 & E2 & E3).
  apply (inv_update chainID h0 rs); [done| | |done].
  - split; cbn; [done| |by rewrite E1|by rewrite E2|by rewrite E3|done..]. by apply HeightVoteSet_AddVote_ok.
  - split; cbn; [done..|apply HeightVoteSet_AddVote_grows|lia|lia].
Qed.

(** Adding a vote only changes the votes; a vote that is added is new. *)
Lemma votes_AddVote_post vote s :
  inv s -> post (fun added s' => inv s' /\ cs_trace s' = cs_trace s /\ cs_config s' = cs_config s /\
                   (exists hvs, cs_state s' = set_votes hvs (cs_state s)) /\
                   (added = Ret true -> ~ recorded (rs_votes (cs_state s)) vote /\
                                        recorded (rs_votes (cs_state s')) vote)) dead (votes_AddVote clock vote s).
Proof.
  intros [Hc Hi]. unfold votes_AddVote, mbind, time_Now, get_state, put, mmodify, mret. cbn.
  pose proof (inv_on_set_votes _ _ (clock (cs_ticks s)) vote Hi) as Hi'.
  destruct (HeightVoteSet_AddVote _ _ _) as [hvs r] eqn:Ea. cbn in *.
  split_and!; [by split|done|done|by eauto|]. intros ->. by apply HeightVoteSet_AddVote_adds in Ea.
Qed.

(** The step changes. *)
Lemma inv_on_step rs trace step :
  RoundStepNewHeight <= step <= RoundStepCommit -> rs_step rs <= step ->
  inv_on chainID h0 rs trace -> inv_on chainID h0 (set_step step rs) trace.
Proof.
  intros Hst Hle Hi. pose proof (inv_rs _ _ _ _ Hi) as [].
  assert (Ha : advances rs (set_step step rs)) by advance.
  apply (inv_update chainID h0 rs); [done|by split|done|].
  intros v [Hv _]. by apply lock_kept_same.
Qed.

(** Unlocking, when a quorum shows that the others have moved on from the locked block. *)
Lemma inv_on_unlock rs trace r key :
  inv_on chainID h0 rs trace -> rs_lockedRound rs <= r <= rs_round rs ->
  r < rs_round rs \/ RoundStepPrecommit <= rs_step rs ->
  quorum_for chainID (rs_validatorSet rs) VoteTypePrevote (rs_height rs) r key ->
  (forall b d, rs_lockedBlock rs = Some b -> BlockHash (Some b) = Ret d -> key <> blockHashKey (Some d)) ->
  inv_on chainID h0 (unlock rs) trace.
Proof.
  intros Hi Hr Hst Hq Hk. pose proof (inv_rs _ _ _ _ Hi) as [].
  apply (inv_update chainID h0 rs); [done|by split|by advance|].
  intros v _ [(b & d & Hb & Hd & Hv & Hle)|Hm]; [|by right]. right. exists r, key. cbn.
  split_and!; [lia|lia|lia| |done]. rewrite Hv. by eapply Hk.
Qed.

(** Before the precommit step, the rounds moved on in are below the current one, up to the exceptions. *)
Lemma moved_by_on rs v :
  rs_step rs < RoundStepPrecommit -> moved_by chainID rs v ->
  moved_on chainID (rs_validatorSet rs) (rs_height rs) (vt_Round v) (rs_round rs) (blockHashKey (vt_BlockHash v)).
Proof. intros Hst (r & k & Hr & Hs & Hk & Hq). exists r, k. split_and!; [lia|lia|lia|done..]. Qed.

Lemma canUnlock_true rs trace p :
  inv_on chainID h0 rs trace -> rs_proposal rs = Some p ->
  canUnlock chainID (rs_validatorSet rs) (rs_lockedRound rs) (Some p) = Ret true ->
  rs_lockedRound rs < p_PolRound p < rs_round rs /\
  forall d, BlockHash (Some (p_Block p)) = Ret d ->
    quorum_for chainID (rs_validatorSet rs) VoteTypePrevote (rs_height rs) (p_PolRound p) (blockHashKey (Some d)).
Proof.
  intros Hi Hp. pose proof (inv_rs _ _ _ _ Hi) as Hr. destruct (rok_proposal _ _ Hr _ Hp) as (Eh & Hle & _).
  unfold canUnlock. destruct (Z.ltb_spec (p_PolRound p) 0); [done|].
  destruct (Z.leb_spec (p_PolRound p) (rs_lockedRound rs)); [done|].
  rewrite Z.geb_leb. destruct (Z.leb_spec (p_Round p) (p_PolRound p)); [done|].
  destruct (validatePOL _ _ _) as [[]| |] eqn:Ev; [|done..]. intros _. split; [lia|]. intros d Hd.
  rewrite <- Eh. apply validatePOL_quorum; [apply (rok_vals _ _ Hr)|done..].
Qed.

Lemma locked_hash rs b :
  rs_ok chainID rs -> rs_lockedBlock rs = Some b ->
  exists d, BlockHash (Some b) = Ret d /\ IsHashEmpty (Some d) = false.
Proof. intros Hr Hb. pose proof (rok_locked _ _ Hr) as Hl. rewrite Hb in Hl. destruct Hl as (_ & d & ? & ? & _). eauto. Qed.

(** The decision of [enterPrevoteLocked]: to unlock takes a newer quorum, and the prevote is
    one that may be cast. *)
Lemma decidePrevote_ok rs trace h u :
  inv_on chainID h0 rs trace -> rs_step rs < RoundStepPrecommit -> decidePrevote chainID rs = Ret (h, u) ->
  (u = true -> inv_on chainID h0 (unlock rs) trace) /\
  vote_allowed (if u : bool then unlock rs else rs) trace VoteTypePrevote h.
Proof.
  intros Hi Hstep. pose proof (inv_rs _ _ _ _ Hi) as Hr. unfold decidePrevote.
  assert (Hseg : forall vals v, (vals, v) ∈ segment trace -> for_a_block VoteTypePrecommit v -> lock_kept chainID rs v).
  { intros vals v Hv Hf. destruct (inv_segment _ _ _ _ Hi _ _ Hv) as (_ & _ & _ & _ & ?). auto. }
  pose proof (moved_by_on rs) as Hmv.
  destruct (rs_lockedBlock rs) as [b|] eqn:Hb.
  - destruct (locked_hash rs b Hr Hb) as (d & Hd & Hne). rewrite Hd. cbn [rbind].
    destruct (rs_proposalBlock rs) as [pb|] eqn:Hpb; [|intros [= <- <-]; split; [done|by apply vote_allowed_nil]].
    destruct (BlockHash (Some pb)) as [ph| |] eqn:Hph; [|done..]. cbn [rbind].
    destruct (HashEqual ph d) eqn:Eh.
    + apply HashEqual_true in Eh as ->. intros [= <- <-]. split; [done|]. split; [done|].
      intros _ _ vals v Hv Hf Hnv. destruct (Hseg _ _ Hv Hf) as [(b' & d' & Hb' & Hd' & Ev & _)|]; [congruence|auto].
    + destruct (canUnlock _ _ _ _) as [[]| |] eqn:Hu; [| |done..];
        [|intros [= <- <-]; split; [done|by apply vote_allowed_nil]]. intros [= <- <-].
      destruct (rs_proposal rs) as [p|] eqn:Hp; [|done]. destruct (rok_proposal _ _ Hr _ Hp) as (_ & _ & Epb).
      destruct (canUnlock_true rs trace p Hi Hp Hu) as [Hrd Hq]. assert (pb = p_Block p) as -> by congruence.
      specialize (Hq _ Hph). assert (Hk : blockHashKey (Some ph) <> blockHashKey (Some d)).
      { rewrite (blockHashKey_Some _ _ Hne). intros [= ->]. by rewrite HashEqual_refl in Eh. }
      split.
      * intros _. apply (inv_on_unlock _ _ (p_PolRound p) (blockHashKey (Some ph))); [done|lia|lia|done|].
        intros b' d' Hb' Hd'. congruence.
      * split; [done|]. intros _ _ vals v Hv Hf Hnv. cbn.
        destruct (Hseg _ _ Hv Hf) as [(b' & d' & Hb' & Hd' & Ev & Hle)|]; [|auto].
        assert (d' = d) as -> by congruence. rewrite Ev.
        exists (p_PolRound p), (blockHashKey (Some ph)). split_and!; [lia|lia|lia|done|done].
  - assert (Hal : forall g, vote_allowed rs trace VoteTypePrevote g).
    { intros g. split; [done|]. intros _ _ vals v Hv Hf Hnv.
      destruct (Hseg _ _ Hv Hf) as [(b' & d' & Hb' & _)|]; [congruence|auto]. }
    destruct (rs_proposalBlock rs) as [pb|]; [|by intros [= <- <-]].
    destruct (BlockHash (Some pb)); [|done..]. by intros [= <- <-].
Qed.

Lemma wait_keeps step ti s :
  RoundStepNewHeight <= step <= RoundStepCommit -> rs_step (cs_state s) <= step -> inv s ->
  post (fun _ s' => inv s') dead ((put (PV := PV) (X := X) (W := W) (set_step step) ;; scheduleTimeout ti) s).
Proof.
  intros Hst Hle [Hc Hi]. rewrite bind_put. apply (keeps_framed _ _ (scheduleTimeout_framed ti)).
  split; [done|]. by apply inv_on_step.
Qed.

Lemma enterPrevoteWait_keeps height round : keeps (enterPrevoteWaitLocked (PV := PV) (X := X) (W := W) height round).
Proof.
  intros s Hi. unfold enterPrevoteWaitLocked. rewrite bind_get_state. destruct (_ || _) eqn:Eg; [exact Hi|].
  bool_to_prop. apply wait_keeps; [done|lia|done].
Qed.

Lemma enterPrecommitWait_keeps height round :
  keeps (enterPrecommitWaitLocked (PV := PV) (X := X) (W := W) height round).
Proof.
  intros s Hi. unfold enterPrecommitWaitLocked. rewrite bind_get_state. destruct (_ || _) eqn:Eg; [exact Hi|].
  bool_to_prop. apply wait_keeps; [done|lia|done].
Qed.

(** Taking a proposal of the current height and round. *)
Lemma inv_on_proposal rs trace p :
  inv_on chainID h0 rs trace -> p_Height p = rs_height rs -> p_Round p = rs_round rs ->
  inv_on chainID h0 (set_proposalBlock (CopyBlock (Some (p_Block p))) (set_proposal (Some p) rs)) trace.
Proof.
  intros Hi Eh Er. pose proof (inv_rs _ _ _ _ Hi) as []. rewrite CopyBlock_id.
  apply (inv_update chainID h0 rs); [done| |by advance|done]. split; try done.
  intros q [= <-]. split_and!; [done|cbn; lia|done].
Qed.

(** A round may start if it is a later one, or one of the two that may start again. *)
Definition may_start (rs : RoundState) (round : Z) : Prop :=
  rs_round rs < round \/ rs_round rs = round /\ (round = 0 \/ round = MaxInt32).

Lemma inv_on_start_round rs trace round :
  inv_on chainID h0 rs trace -> may_start rs round -> inv_on chainID h0 (start_round round rs) trace.
Proof.
  intros Hi Hms. pose proof (inv_rs _ _ _ _ Hi) as []. unfold may_start in Hms.
  assert (Ha : advances rs (start_round round rs)) by (unfold start_round; destruct (round =? 0); by advance).
  assert (Hl : forall r b, lock_ok chainID rs r b -> lock_ok chainID (start_round round rs) r b).
  { intros r b. unfold start_round. destruct (round =? 0); apply lock_ok_round; cbn; done || lia. }
  apply (inv_update chainID h0 rs); [done| |done|].
  - unfold start_round in *. destruct (round =? 0); split; cbn; try done; try lia; by apply Hl.
  - intros v [Hv _]. apply lock_kept_same; [done|done|unfold start_round; by destruct (round =? 0)..].
Qed.

(** *** Commits *)

Lemma made_from_verifies rs c :
  rs_ok chainID rs -> made_from rs c ->
  cm_Height c = rs_height rs /\
  VerifyCommit chainID (Some (rs_validatorSet rs)) (cm_BlockHash c) (rs_height rs) (Some c) = Ret tt.
Proof.
  intros Hr (r & l & vset & Hl & Hh & Hm). pose proof (rok_votes _ _ Hr) as Hv.
  destruct (hok_precommits _ _ Hv _ _ Hl) as (vset' & Hh' & E1 & E2 & E3 & _ & E5 & _).
  assert (vset' = vset) as -> by congruence. destruct (hok_heap _ _ Hv _ _ Hh) as ([log Hlog] & _).
  pose proof (MakeCommit_cases _ _ Hlog) as Hc. rewrite Hm in Hc. destruct Hc as (Ht & h & Hne & Hq & ->).
  rewrite (rok_chain _ _ Hr) in E1. rewrite (rok_height _ _ Hr) in E2. rewrite (rok_vset _ _ Hr) in E5.
  split; [done|]. apply VerifyCommit_ok; [apply (rok_vals _ _ Hr)|]. rewrite <- E1, <- E2, <- E5.
  by apply commit_of_log_ok.
Qed.

(** Between the commit and the move to the next height. *)
Record committed_state (s : CS) : Prop := {
  cst_chain : cf_ChainID (cs_config s) = chainID;
  cst_rs : rs_ok chainID (cs_state s);
  cst_safe : safe chainID h0 (cs_trace s);
  cst_height : wrap64 (rs_height (cs_state s) + 1) = height_after h0 (commits (cs_trace s));
  cst_segment : segment (cs_trace s) = [] }.

Lemma committed_same s s' : same s s' -> committed_state s -> committed_state s'.
Proof. intros (E1 & E2 & E3) []. split; by rewrite ?E1, ?E2, ?E3. Qed.

Lemma committed_framed {A B} (m : M CS A) (k : A -> M CS B) R Q s :
  committed_state s -> framed m R ->
  (forall a s', same s s' -> committed_state s' -> R s a -> post Q dead (k a s')) -> post Q dead (mbind m k s).
Proof.
  intros Hi Hm Hk. eapply framed_bind; [exact Hm| |].
  - intros a s' Hs HR. apply Hk; [done|by eapply committed_same|done].
  - intros s' Hs. eapply cst_safe, committed_same; done.
Qed.

Lemma commit_event s b c :
  inv s -> BlockHash (Some b) = Ret (cm_BlockHash c) -> made_from (cs_state s) c ->
  committed_state (with_trace (cs_trace s ++ [Committed (rs_validatorSet (cs_state s)) b c]) s).
Proof.
  intros [Hc [Hr Hs Hh Hsg]] Hb Hm. destruct (made_from_verifies _ _ Hr Hm) as [Eh Hv].
  set (e := Committed _ b c).
  assert (Hcm : commits (cs_trace s ++ [e]) = commits (cs_trace s) ++ [c]) by (by rewrite commits_snoc).
  assert (Hseg : segment (cs_trace s ++ [e]) = []) by (by rewrite segment_snoc).
  split; [done|done|change (safe chainID h0 (cs_trace s ++ [e]))| |exact Hseg].
  - apply safe_snoc; [done| | |done|by rewrite Hseg; apply voting_rules_nil].
    + unfold commit_valid, e. rewrite Eh. split_and!; [apply (rok_vals _ _ Hr)|done..].
    + rewrite Hcm. apply heights_from_snoc. split; [apply (safe_heights _ _ _ Hs)|congruence].
  - change (wrap64 (rs_height (cs_state s) + 1) = height_after h0 (commits (cs_trace s ++ [e]))).
    by rewrite Hcm, height_after_snoc, Hh.
Qed.

Lemma inv_next_height s c vs :
  committed_state s -> ValidatorSet_wf vs ->
  inv (with_state (next_height (rs_height (cs_state s)) c vs (cs_state s)) s).
Proof.
  intros [Hc Hr Hs Hh Hsg] Hw. split; [done|]. cbn. pose proof (rok_votes _ _ Hr) as Hv.
  split; [|done|done|rewrite Hsg; intros ? ? Hin; by apply not_elem_of_nil in Hin].
  split; cbn; try done; [by apply Reset_ok|apply (rok_chain _ _ Hr)].
Qed.

Lemma applied_powers b c us :
  us = [] \/ (exists x, (exec_ApplyBlock b c x).2 = Ret us) -> forall u, u ∈ us -> in_i64 (vu_VotingPower u).
Proof. intros [->|[x Hx]] u Hu; [by apply not_elem_of_nil in Hu|by apply (exec_powers b c x us)]. Qed.

Lemma next_validators_wf vs us vs' :
  ValidatorSet_wf vs -> (forall u, u ∈ us -> in_i64 (vu_VotingPower u)) ->
  (if 0 <? len us then applyValidatorUpdates vs us = Ret vs' else WithIncrementedPriority 1 vs = Ret vs') ->
  ValidatorSet_wf vs'.
Proof.
  intros Hw Hu. destruct (0 <? len us); [by apply applyValidatorUpdates_wf|].
  rewrite (WithIncrementedPriority_wf _ _ Hw). intros [= <-]. by apply Increment_wf.
Qed.

(** *** Precommits *)

Lemma prevotes_quorum rs r l vset h :
  rs_ok chainID rs -> Prevotes (rs_votes rs) r = Some l -> hvs_heap (rs_votes rs) !! l = Some vset ->
  VoteSet_TwoThirdsMajority vset = (h, true) ->
  quorum_for chainID (rs_validatorSet rs) VoteTypePrevote (rs_height rs) r (blockHashKey h).
Proof.
  intros Hr Hl Hh Hm. pose proof (rok_votes _ _ Hr) as Hv.
  destruct (hok_prevotes _ _ Hv _ _ Hl) as (vset' & Hh' & E1 & E2 & E3 & E4 & E5 & _).
  assert (vset' = vset) as -> by congruence. destruct (hok_heap _ _ Hv _ _ Hh) as ([log Hlog] & _).
  pose proof (TwoThirds_cases _ _ Hlog) as Hc. rewrite Hm in Hc. destruct Hc as [Hq _].
  rewrite (rok_chain _ _ Hr) in E1. rewrite (rok_height _ _ Hr) in E2. rewrite (rok_vset _ _ Hr) in E5.
  rewrite <- E1, <- E2, <- E3, <- E4, <- E5. by eapply represents_quorum.
Qed.

Lemma inv_on_unlock_nil rs trace :
  inv_on chainID h0 rs trace -> RoundStepPrecommit <= rs_step rs ->
  quorum_for chainID (rs_validatorSet rs) VoteTypePrevote (rs_height rs) (rs_round rs) "nil" ->
  inv_on chainID h0 (unlock rs) trace.
Proof.
  intros Hi Hst Hq. pose proof (inv_rs _ _ _ _ Hi) as Hr.
  apply (inv_on_unlock _ _ (rs_round rs) "nil"); [done| |by right|done|].
  - split; [|lia]. pose proof (rok_locked _ _ Hr) as Hl. pose proof (rok_round _ _ Hr).
    destruct (rs_lockedBlock rs); cbn in Hl; [by destruct Hl as [[_ ?] _]|lia].
  - intros b d Hb Hd E. destruct (locked_hash rs b Hr Hb) as (d' & Hd' & Hne). assert (d' = d) as -> by congruence.
    symmetry in E. apply blockHashKey_nil in E. congruence.
Qed.

Lemma inv_on_lock rs trace b d :
  inv_on chainID h0 rs trace -> RoundStepPrecommit <= rs_step rs ->
  BlockHash (Some b) = Ret d -> IsHashEmpty (Some d) = false ->
  quorum_for chainID (rs_validatorSet rs) VoteTypePrevote (rs_height rs) (rs_round rs) (blockHashKey (Some d)) ->
  inv_on chainID h0 (lock_on (rs_round rs) b rs) trace.
Proof.
  intros Hi Hst Hd Hne Hq. pose proof (inv_rs _ _ _ _ Hi) as Hr. pose proof Hr as [].
  apply (inv_update chainID h0 rs); [done| |by advance|].
  - assert (Hl : lock_ok chainID rs (rs_round rs) (Some b)) by (split; [lia|eauto]). by split.
  - intros v Hle Hk. destruct (decide (vt_BlockHash v = Some d)) as [Ev|Hnv].
    + left. exists b, d. cbn. split_and!; [done..|lia].
    + right. destruct Hk as [(b' & d' & Hb' & Hd' & Ev & Hlr)|Hm]; [|exact Hm].
      exists (rs_round rs), (blockHashKey (Some d)). cbn. split_and!; [lia|lia|lia| |done].
      intros E. symmetry in E. apply (blockHashKey_Some _ _ Hne) in E. congruence.
Qed.

Lemma precommit_allowed rs trace b d :
  BlockHash (Some b) = Ret d ->
  quorum_for chainID (rs_validatorSet rs) VoteTypePrevote (rs_height rs) (rs_round rs) (blockHashKey (Some d)) ->
  vote_allowed (lock_on (rs_round rs) b rs) trace VoteTypePrecommit (Some d).
Proof. intros Hd Hq. split; [|done]. intros _ _. split; [done|]. exists b, d. split_and!; [done..|cbn; lia]. Qed.

(** *** Votes *)

Lemma keeps_deref {B} l (k : VoteSet -> M CS B) : (forall v, keeps (k v)) -> keeps (mbind (deref_set l) k).
Proof. intros Hk. apply keeps_bind; [eapply keeps_framed, deref_set_framed|done]. Qed.

Lemma keeps_get_height {B} (k : Z -> M CS B) : (forall h, keeps (k h)) -> keeps (mbind get_height k).
Proof. intros Hk s Hi. change (post (fun _ s' => inv s') dead (k (rs_height (cs_state s)) s)). by apply Hk. Qed.

Lemma set_round_keeps rs trace round :
  inv_on chainID h0 rs trace -> rs_round rs < round -> inv_on chainID h0 (set_round round rs) trace.
Proof.
  intros Hi Hle. pose proof (inv_rs _ _ _ _ Hi) as [].
  assert (Ha : advances rs (set_round round rs)) by advance.
  apply (inv_update chainID h0 rs); [done| |done|].
  - split; cbn; try done; try lia; [|apply (lock_ok_round _ rs); [done|done|cbn; lia|done]..].
    intros p Hp. destruct (rok_proposal0 p Hp) as (? & ? & ?). split_and!; [done|lia|done].
  - intros v [Hv _]. by apply lock_kept_same.
Qed.

Section WithAfterVote.
Variable after_vote : Vote -> M CS unit.
Hypothesis after_vote_keeps : forall v, keeps (after_vote v).

Lemma sign_keeps typ h s :
  inv s -> vote_allowed (cs_state s) (cs_trace s) typ h ->
  post (fun _ s' => inv s') dead (signAndSendVoteLocked clock after_vote typ h s).
Proof.
  intros Hi Ha. unfold signAndSendVoteLocked. rewrite bind_mget. destruct (cs_privVal s) as [pv|]; [|exact Hi].
  destruct (List.find _ _) as [w|]; [|exact Hi]. destruct (GetByIndex _ _) as [val|]; [|exact Hi].
  eapply framed_then; [done|apply time_Now_framed|]. intros now s1 S1 I1 _.
  eapply framed_then; [done|apply priv_call_framed|]. intros r s2 S2 I2 _.
  apply post_try; [|done|by apply inv_dead]. intros sig _.
  eapply framed_then; [done|apply wal_write_framed|]. intros _ s3 S3 I3 _.
  apply post_bind. eapply post_mono; [by apply votes_AddVote_post| |done..].
  intros added s4 (I4 & Et & Ec & Es & Hrec). destruct added as [[]| |]; [|by apply inv_dead..].
  destruct (Hrec eq_refl) as [Hnew Hin].
  assert (S : same s s3) by (by eapply same_trans; [eapply same_trans|]). destruct S as (Sc & Ss & St).
  rewrite bind_emit.
  assert (I5 : inv (with_trace (cs_trace s4 ++ [Voted (rs_validatorSet (cs_state s)) (with_signature
    (mkVote typ (rs_height (cs_state s)) (rs_round (cs_state s)) h now (nv_Name val) (nv_Index w) (mkSignature []))
    sig)]) s4)).
  { destruct I4 as [C4 I4], Hi as [_ Hi]. split; [done|]. cbn. rewrite Ss, Et, St in *.
    by apply (inv_on_voted (cs_state s)). }
  apply post_bind. eapply post_mono; [by apply after_vote_keeps| |done..]. intros ? s6 I6. cbn in I6.
  destruct (cs_onVote s); [|exact I6]. by apply keeps_sent.
Qed.

Lemma sign_nil_keeps typ : keeps (signAndSendVoteLocked clock after_vote typ None).
Proof. intros s Hi. apply sign_keeps; [done|]. by apply vote_allowed_nil. Qed.

Lemma enterPrevote_keeps height round : keeps (enterPrevoteLocked clock after_vote height round).
Proof.
  intros s Hi. unfold enterPrevoteLocked. rewrite bind_get_state. destruct (_ || _) eqn:Eg; [exact Hi|].
  rewrite bind_put, bind_mget. destruct Hi as [Hc Hi].
  assert (Hi' : inv_on chainID h0 (set_step RoundStepPrevote (cs_state s)) (cs_trace s))
    by (bool_to_prop; apply inv_on_step; [done|lia|done]).
  apply post_try; [|intros; by apply inv_dead|by apply (inv_safe _ _ _ _ Hi)].
  intros [h u]. cbn [with_state cs_state cs_config]. rewrite Hc. intros Hd.
  destruct (decidePrevote_ok _ _ _ _ Hi' eq_refl Hd) as [Hu Ha]. destruct u.
  - rewrite bind_put. apply sign_keeps; [split; [done|by apply Hu]|exact Ha].
  - rewrite bind_ret. apply sign_keeps; [by split|exact Ha].
Qed.

Lemma createAndSendProposal_keeps : keeps (createAndSendProposalLocked clock after_vote).
Proof.
  intros s Hi. unfold createAndSendProposalLocked. rewrite bind_mget.
  destruct (GetProposerForRound _ _) as [proposer|]; [|exact Hi].
  eapply framed_then; [done|apply block_to_propose_framed|]. intros block s1 S1 I1 _.
  destruct block as [block|]; [|exact I1].
  eapply framed_then; [done|apply time_Now_framed|]. intros now s2 S2 I2 _.
  eapply framed_then; [done|apply pol_votes_framed|]. intros polVotes s3 S3 I3 _.
  eapply framed_then; [done|apply priv_call_framed|]. intros r s4 S4 I4 _.
  apply post_try; [|done|by apply inv_dead]. intros sig _.
  eapply framed_then; [done|apply wal_write_framed|]. intros _ s5 S5 I5 _.
  rewrite !bind_put. set (p := with_p_Signature _ sig).
  assert (Hs : same s s5) by (repeat (eapply same_trans; [eassumption|]); apply same_refl).
  assert (I6 : inv (with_state (set_proposalBlock (CopyBlock (Some (p_Block p)))
    (set_proposal (Some p) (cs_state s5))) s5)).
  { destruct I5 as [C5 I5]. destruct Hs as (_ & Hst & _). split; [done|].
    apply inv_on_proposal; [done|by rewrite Hst..]. }
  apply post_bind. eapply post_mono.
  - destruct (cs_onProposal s); [by apply (keeps_sent (Sent_proposal _) (fun _ => eq_refl) eq_refl I)|].
    by apply keeps_ret.
  - intros ? s6 I7. by apply enterPrevote_keeps.
  - done.
  - done.
Qed.

Lemma propose_keeps : keeps (propose_if_proposer clock after_vote).
Proof.
  intros s Hi. unfold propose_if_proposer. rewrite bind_mget. repeat case_match; try exact Hi.
  by apply createAndSendProposal_keeps.
Qed.

Lemma enterNewRound_post height round s :
  inv s -> (rs_round (cs_state s) <= round -> may_start (cs_state s) round) ->
  post (fun _ s' => inv s') dead (enterNewRoundLocked clock after_vote height round s).
Proof.
  intros Hi Hms. unfold enterNewRoundLocked. rewrite bind_get_state.
  destruct (negb _) eqn:Eh; cbn [orb]; [exact Hi|]. destruct (Z.ltb_spec round (rs_round (cs_state s))); [exact Hi|].
  rewrite bind_put. apply keeps_bind; [eapply keeps_framed, scheduleTimeout_framed|intros; apply propose_keeps|].
  destruct Hi as [Hc Hi]. split; [done|]. apply inv_on_start_round; [done|auto].
Qed.

Lemma enterNewRound_0_keeps height : keeps (enterNewRoundLocked clock after_vote height 0).
Proof.
  intros s Hi. apply enterNewRound_post; [done|]. intros Hle. destruct Hi as [_ Hi].
  pose proof (rok_round _ _ (inv_rs _ _ _ _ Hi)). right. lia.
Qed.

Lemma finalizeCommit_keeps c s :
  inv s -> made_from (cs_state s) c ->
  post (fun _ s' => inv s') dead (finalizeCommitLocked clock after_vote (rs_height (cs_state s)) c s).
Proof.
  intros Hi Hm. unfold finalizeCommitLocked. rewrite bind_get_state.
  destruct (block_to_commit _) as [b|]; [|by apply inv_dead].
  eapply framed_then; [done|apply hash_of_block_framed|]. intros h s1 S1 I1 Hb.
  destruct (HashEqual h (cm_BlockHash c)) eqn:Eh; cbn [negb]; [|by apply inv_dead].
  apply HashEqual_true in Eh as ->.
  eapply framed_then; [done|apply apply_block_framed|]. intros us s2 S2 I2 Hus.
  assert (Hst : cs_state s2 = cs_state s) by (destruct S1 as (_ & <- & _); apply S2).
  rewrite bind_emit, <- Hst. rewrite <- Hst in Hm.
  pose proof (commit_event s2 b c I2 Hb Hm) as Hc. set (s3 := with_trace _ s2) in *.
  assert (E3 : cs_state s2 = cs_state s3) by done. rewrite E3. clearbody s3.
  eapply committed_framed; [done|apply next_validators_framed|]. intros vs s4 S4 C4 Hvs.
  pose proof (next_validators_wf _ _ _ (rok_vals _ _ (cst_rs _ Hc)) (applied_powers _ _ _ Hus) Hvs) as Hw.
  eapply committed_framed; [done|apply wal_write_framed|]. intros _ s5 S5 C5 _.
  assert (Hst5 : cs_state s5 = cs_state s3) by (destruct S4 as (_ & <- & _); apply S5).
  rewrite bind_put, <- Hst5, bind_mget. pose proof (inv_next_height s5 c vs C5 Hw) as I6.
  revert I6. generalize (with_state (next_height (rs_height (cs_state s5)) c vs (cs_state s5)) s5). intros s6 I6.
  destruct (negb _); [by apply (keeps_framed _ _ (scheduleTimeout_framed _))|by apply enterNewRound_0_keeps].
Qed.

Lemma enterCommit_keeps height : keeps (enterCommitLocked clock after_vote height).
Proof.
  intros s Hi. unfold enterCommitLocked. rewrite bind_get_state.
  destruct (Z.eqb_spec (rs_height (cs_state s)) height) as [<-|]; cbn [negb orb]; [|exact Hi].
  destruct (_ >=? _) eqn:Eg; [exact Hi|]. rewrite bind_put. bool_to_prop.
  assert (I1 : inv (with_state (set_step RoundStepCommit (cs_state s)) s)).
  { destruct Hi as [Hc Hi]. split; [done|]. apply inv_on_step; [done|lia|done]. }
  assert (E1 : rs_height (cs_state (with_state (set_step RoundStepCommit (cs_state s)) s)) = rs_height (cs_state s)) by done.
  revert I1 E1. generalize (with_state (set_step RoundStepCommit (cs_state s)) s). intros s1 I1 E1.
  eapply framed_then; [done|apply find_commit_framed|]. intros oc s2 S2 I2 Hoc.
  destruct oc as [c|]; [|by apply inv_dead]. destruct S2 as (_ & Hst & _).
  specialize (Hoc c eq_refl). rewrite <- Hst in Hoc. rewrite <- E1, <- Hst. by apply finalizeCommit_keeps.
Qed.

Lemma enterPrecommit_keeps height round : keeps (enterPrecommitLocked clock after_vote height round).
Proof.
  intros s Hi. unfold enterPrecommitLocked. rewrite bind_get_state.
  destruct (negb (_ =? height)); cbn [orb]; [exact Hi|].
  destruct (Z.eqb_spec (rs_round (cs_state s)) round) as [<-|]; cbn [negb orb]; [|exact Hi].
  destruct (_ >=? _) eqn:Eg; [exact Hi|]. rewrite bind_put. bool_to_prop.
  set (s1 := with_state (set_step RoundStepPrecommit (cs_state s)) s).
  assert (I1 : inv s1) by (destruct Hi as [Hc Hi]; split; [done|]; apply inv_on_step; [done|lia|done]).
  assert (St1 : RoundStepPrecommit <= rs_step (cs_state s1)) by done.
  change (rs_votes (cs_state s)) with (rs_votes (cs_state s1)).
  change (rs_round (cs_state s)) with (rs_round (cs_state s1)).
  change (rs_proposalBlock (cs_state s)) with (rs_proposalBlock (cs_state s1)). clearbody s1. clear Hi Eg.
  destruct (Prevotes _ _) as [l|] eqn:El; [|by apply sign_nil_keeps].
  eapply framed_then; [done|apply deref_set_framed|]. intros vset s2 S2 I2 Hv.
  destruct (VoteSet_TwoThirdsMajority vset) as [h ok] eqn:Em. destruct ok; cbn [negb]; [|by apply sign_nil_keeps].
  pose proof I1 as [_ J1]. pose proof (prevotes_quorum _ _ _ _ _ (inv_rs _ _ _ _ J1) El Hv Em) as Hq.
  destruct S2 as (_ & Hst & _). rewrite <- Hst in Hq.
  assert (Hnil : IsHashEmpty h = true -> post (fun _ s' => inv s') dead
    ((put unlock ;; signAndSendVoteLocked clock after_vote VoteTypePrecommit None) s2)).
  { intros E. apply blockHashKey_nil in E. rewrite E in Hq. rewrite bind_put. apply sign_nil_keeps.
    destruct I2 as [C2 J2]. split; [done|]. apply inv_on_unlock_nil; [done|by rewrite Hst|done]. }
  destruct h as [d|]; [|by apply Hnil]. destruct (IsHashEmpty (Some d)) eqn:Hne; [by apply Hnil|]. clear Hnil.
  rewrite <- Hst. destruct (rs_proposalBlock _) as [pb|]; [|by apply sign_nil_keeps].
  eapply framed_then; [done|apply hash_of_block_framed|]. intros ph s3 S3 I3 Hph.
  destruct (HashEqual ph d) eqn:Eh; [|by apply sign_nil_keeps]. apply HashEqual_true in Eh as ->.
  destruct S3 as (_ & Hst3 & _). rewrite <- Hst, <- Hst3 in St1. rewrite <- Hst3 in *. rewrite bind_put.
  assert (I4 : inv (with_state (lock_on (rs_round (cs_state s3)) pb (cs_state s3)) s3)).
  { destruct I3 as [C3 J3]. split; [done|]. by apply (inv_on_lock _ _ pb d). }
  eapply framed_then; [done|apply writeStateLocked_framed|]. intros _ s5 (_ & Hst5 & _) I5 _.
  apply sign_keeps; [done|]. rewrite Hst5. by apply precommit_allowed.
Qed.

(** A vote set read through a pointer. *)
Lemma deref_then {B} l (k : VoteSet -> M CS B) s :
  inv s -> (forall v s', cs_state s' = cs_state s -> inv s' -> post (fun _ s' => inv s') dead (k v s')) ->
  post (fun _ s' => inv s') dead (mbind (deref_set l) k s).
Proof.
  intros Hi Hk. eapply framed_then; [done|apply deref_set_framed|]. intros v s' (_ & Hst & _) I' _. by apply Hk.
Qed.

Lemma handlePrevote_keeps vote : keeps (handlePrevoteLocked clock after_vote vote).
Proof.
  intros s Hi. unfold handlePrevoteLocked. rewrite bind_get_state.
  destruct (Prevotes _ _) as [l|]; [|exact Hi]. apply deref_then; [done|]. intros prevotes s1 <- I1.
  destruct (Z.gtb_spec (vt_Round vote) (rs_round (cs_state s1))) as [Hgt|Hle]; cbn [andb].
  - destruct (HasTwoThirdsAny prevotes).
    { apply post_bind. eapply post_mono; [apply enterNewRound_post; [done|by left]| |done..]. intros ? s2 I2.
      revert s2 I2. apply keeps_deref. intros prevotes'. apply keeps_get_height. intros h.
      destruct (HasTwoThirdsMajority _); [apply enterPrecommit_keeps|apply enterPrevote_keeps]. }
    destruct (Z.eqb_spec (vt_Round vote) (rs_round (cs_state s1))); [lia|done].
  - clear Hle. generalize (cs_state s1). intros rs. revert s1 I1.
    repeat (case_match; [|]); first [apply keeps_ret|apply enterPrecommit_keeps|apply enterPrevoteWait_keeps].
Qed.

Lemma handlePrecommit_keeps vote : keeps (handlePrecommitLocked clock after_vote vote).
Proof.
  intros s Hi. unfold handlePrecommitLocked. rewrite bind_get_state.
  destruct (Precommits _ _) as [l|]; [|exact Hi]. apply deref_then; [done|]. intros precommits s1 <- I1.
  destruct (VoteSet_TwoThirdsMajority _) as [h ok]. destruct (ok && _).
  - destruct (Z.gtb_spec (vt_Round vote) (rs_round (cs_state s1))) as [Hgt|];
      [rewrite bind_put|rewrite bind_ret]; apply enterCommit_keeps; [|done].
    destruct I1 as [Hc I1]. split; [done|]. apply set_round_keeps; [done|lia].
  - destruct (Z.gtb_spec (vt_Round vote) (rs_round (cs_state s1))) as [Hgt|Hle]; cbn [andb].
    + destruct (HasTwoThirdsAny precommits).
      { apply post_bind. eapply post_mono; [apply enterNewRound_post; [done|by left]| |done..]. intros ? s2 I2.
        revert s2 I2. apply keeps_get_height. intros h1.
        apply keeps_bind; [apply enterPrevote_keeps|]. intros _. apply keeps_get_height. intros h2.
        apply enterPrecommit_keeps. }
      destruct (Z.eqb_spec (vt_Round vote) (rs_round (cs_state s1))); [lia|done].
    + clear Hle. generalize (cs_state s1). intros rs. revert s1 I1.
      repeat (case_match; [|]); first [apply keeps_ret|apply enterPrecommitWait_keeps].
Qed.

Lemma vote_added_keeps vote : keeps (vote_added clock after_vote vote).
Proof.
  unfold vote_added. repeat (case_match; [|]);
    first [apply handlePrevote_keeps|apply handlePrecommit_keeps|apply keeps_ret].
Qed.
End WithAfterVote.

Lemma after_vote_keeps fuel vote : keeps (after_vote clock fuel vote).
Proof.
  revert vote. induction fuel as [|fuel IH]; intros vote; [by intros s _|]. cbn. by apply vote_added_keeps.
Qed.

(** ** The event handlers *)

Lemma handleProposal_keeps fuel p : keeps (handleProposal clock fuel p).
Proof.
  intros s Hi. unfold handleProposal. rewrite bind_mget.
  destruct (Z.eqb_spec (p_Height p) (rs_height (cs_state s))) as [Eh|]; cbn [negb orb]; [|exact Hi].
  destruct (Z.eqb_spec (p_Round p) (rs_round (cs_state s))) as [Er|]; cbn [negb orb]; [|exact Hi].
  destruct (rs_proposal _); [exact Hi|]. destruct (GetProposerForRound _ _) as [proposer|]; [|exact Hi].
  destruct (negb _); [exact Hi|]. apply post_try; [|intros; by apply inv_dead|by apply inv_dead]. intros sb _.
  destruct (negb _); [exact Hi|]. apply post_try; [|done|by apply inv_dead]. intros _ _.
  eapply framed_then; [done|apply validate_block_framed|]. intros valid s1 S1 I1 _.
  apply post_try; [|done|by apply inv_dead]. intros _ _.
  eapply framed_then; [done|apply wal_write_framed|]. intros _ s2 S2 I2 _.
  rewrite !bind_put. assert (Hst : cs_state s2 = cs_state s) by (destruct S1 as (_ & <- & _); apply S2).
  assert (I3 : inv (with_state (set_proposalBlock (CopyBlock (Some (p_Block p)))
    (set_proposal (Some p) (cs_state s2))) s2)).
  { destruct I2 as [C2 I2]. split; [done|]. apply inv_on_proposal; [done|by rewrite Hst..]. }
  apply enterPrevote_keeps; [apply after_vote_keeps|exact I3].
Qed.

Lemma handleVote_keeps fuel vote : keeps (handleVote clock fuel vote).
Proof.
  apply keeps_bind; [apply (keeps_framed _ _ (check_evidence_framed clock vote))|]. intros _.
  apply keeps_bind; [eapply keeps_framed, wal_write_framed|]. intros _ s Hi.
  apply post_bind. eapply post_mono; [by apply votes_AddVote_post| |done..]. intros added s1 (I1 & _).
  apply post_try; [|done|by apply inv_dead]. intros [] _; [|exact I1].
  apply vote_added_keeps; [apply after_vote_keeps|done].
Qed.

(** The next round, or the largest one again. *)
Lemma next_round_may_start (s : CS) :
  let next := wrap32 (rs_round (cs_state s) + 1) in
  let next := if next <? 0 then MaxInt32 else next in
  rs_round (cs_state s) <= next -> may_start (cs_state s) next.
Proof.
  cbn. unfold may_start. destruct (Z.ltb_spec (wrap32 (rs_round (cs_state s) + 1)) 0); [lia|].
  pose proof (wrap32_succ_ne (rs_round (cs_state s))). lia.
Qed.

Lemma handleTimeout_keeps fuel ti : keeps (handleTimeout clock fuel ti).
Proof.
  intros s Hi. unfold handleTimeout. rewrite bind_get_state. pose proof (after_vote_keeps fuel) as Hav.
  pose proof (next_round_may_start s) as Hn. cbn zeta in Hn.
  repeat (case_match; [|]); first [exact Hi|by apply enterPrevote_keeps|by apply enterPrecommit_keeps
    |by apply enterNewRound_0_keeps|by apply enterNewRound_post].
Qed.
End Preservation.
