(* ===== verification/Network.v ===== *)
(** * A network of nodes

    Several nodes run the state machine, each with its own key files; a node receives the
    messages the others sent, in any order, late or never, and its own timeouts. Every node
    follows the code: there is no Byzantine one. *)

From S2P Require Export Consensus Privval.

(** ** [FilePV] as the private validator of a node *)

#[export] Instance FilePV_validator `{Crypto} `{Cramberry} : PrivValidator (FilePV * disk) := {|
  pv_GetPubKey := fun s => GetPubKey s.1;
  pv_SignVote := fun chainID vote s => SignVote no_fault chainID (Some vote) s.1 s.2;
  pv_SignProposal := fun chainID p s => SignProposal no_fault chainID (Some p) s.1 s.2 |}.

(** ** The network *)

Section Network.
Context `{Crypto} `{Cramberry} `{MapOrder}.
Context {PV X W : Type} `{PrivValidator PV} `{BlockExecutor X} `{WAL W}.
Variables (clock : nat -> Z) (fuel : nat).

Notation CS := (ConsensusState PV X W).

(** [Deliver i j k]: node [i] receives the [k]-th event of node [j], a message it sent. The
    ticker of a node takes a request, its timer fires, or the node takes the timeout. *)
Inductive action :=
| Deliver (i j k : nat)
| Ticker_run (i : nat)
| Ticker_fire (i : nat)
| Timeout (i : nat).

Definition run_handler (h : M CS unit) (s : CS) : option CS :=
  match h s with Done _ s => Some s | _ => None end.

Definition node_act (a : action) (net : list CS) (s : CS) : option CS :=
  match a with
  | Deliver _ j k =>
      t ← net !! j; e ← cs_trace t !! k;
      match e with
      | Sent_vote v => run_handler (handleVote clock fuel v) s
      | Sent_proposal p => run_handler (handleProposal clock fuel p) s
      | _ => None
      end
  | Ticker_run _ => Some (with_timeoutTicker (run_tick (cs_timeoutTicker s)) s)
  | Ticker_fire _ => Some (with_timeoutTicker (timer_fire (cs_timeoutTicker s)) s)
  | Timeout _ =>
      '(ti, ticker) ← receive_tock (cs_timeoutTicker s);
      run_handler (handleTimeout clock fuel ti) (with_timeoutTicker ticker s)
  end.

Definition actor (a : action) : nat :=
  match a with Deliver i _ _ | Ticker_run i | Ticker_fire i | Timeout i => i end.

Definition act (a : action) (net : list CS) : option (list CS) :=
  s ← net !! actor a; s' ← node_act a net s; Some (<[actor a := s']> net).

Definition net_step (net net' : list CS) : Prop := exists a, act a net = Some net'.

Fixpoint run (actions : list action) (net : list CS) : option (list CS) :=
  match actions with [] => Some net | a :: l => act a net ≫= run l end.

Lemma run_steps actions net net' : run actions net = Some net' -> rtc net_step net net'.
Proof.
  revert net. induction actions as [|a l IH]; intros net E; cbn in E; [by simplify_eq; constructor|].
  destruct (act a net) as [n|] eqn:Ea; [|done]. eapply rtc_l; [by exists a|by apply IH].
Qed.
End Network.

(** ** Four validators *)

Definition key4 (b : byte) : bytes := replicate 64 b.

Definition val4 (name : string) (b : byte) : NamedValidator :=
  mkNamedValidator (NewAccountName name) 0 (pk32 b) 1 0.

Definition set_4 : ValidatorSet :=
  match NewValidatorSet (Some <$> [val4 "a" Byte.x0a; val4 "b" Byte.x0b; val4 "c" Byte.x0c; val4 "d" Byte.x0d])
  with Ret vs => vs | _ => emptyValidatorSet end.

(** Proposes a block that names the proposer; accepts every block. *)
#[export] Instance toy_executor : BlockExecutor unit := {|
  exec_CreateProposalBlock := fun height lastCommit proposer x =>
    (x, Ret (mkBlock (mkBlockHeader chain_c height 5 None None None None None 0 [] proposer)
               (mkBlockData []) None lastCommit));
  exec_ValidateBlock := fun _ x => (x, Ret tt);
  exec_ApplyBlock := fun _ _ x => (x, Ret []) |}.

Definition node_key (b : byte) : FilePV * disk :=
  (mkFilePV (pk32 b) (key4 b) zeroLastSignState true,
   mkDisk (File (mkFilePVKey (replicate 32 b) (key4 b))) keyFilePerm (File (state_of zeroLastSignState)) (Some 0%nat)).

Definition config_c : Config :=
  mkConfig chain_c DefaultTimeoutConfig "wal" true 1000 true 0 false.

Definition CS4 : Type := ConsensusState (FilePV * disk) unit unit.

(** A constant clock, within the drift the vote sets accept. *)
Definition clock_5 (n : nat) : Z := 5.

Definition new_node (b : byte) : CS4 :=
  SetBroadcastCallbacks true true
    (SetEvidencePool (Some pool_0)
       (NewConsensusState config_c set_4 (Some (node_key b)) (Some tt) (Some tt))).

Definition start_node (b : byte) : CS4 :=
  match Start clock_5 2 1 None (new_node b) with Done _ s => s | _ => new_node b end.

Definition net_4 : list CS4 := start_node <$> [Byte.x0a; Byte.x0b; Byte.x0c; Byte.x0d].

(** The schedule of the fork. *)
Definition timeouts (n : nat) (i : nat) : list action := replicate n (Ticker_run i) ++ [Ticker_fire i; Timeout i].

Definition round_0 : list action :=
  [Deliver 1 0 0; Deliver 3 0 0] ++ timeouts 1 2 ++
  [Deliver 2 0 2; Deliver 2 1 1] ++ timeouts 1 2 ++
  [Deliver 0 1 1; Deliver 0 3 1; Deliver 3 0 2; Deliver 3 1 1; Deliver 1 0 2; Deliver 1 3 1;
   Deliver 1 0 4; Deliver 1 3 3;
   Deliver 0 3 3; Deliver 0 2 3; Deliver 3 0 4; Deliver 3 2 3; Deliver 2 0 4; Deliver 2 3 3] ++
  timeouts 2 0 ++ timeouts 2 3 ++ timeouts 1 2.

Definition round_1 : list action :=
  timeouts 1 0 ++ timeouts 1 3 ++ timeouts 1 2 ++
  [Deliver 0 3 5; Deliver 0 2 5; Deliver 3 0 6; Deliver 3 2 5; Deliver 2 0 6; Deliver 2 3 5;
   Deliver 0 3 7; Deliver 0 2 7; Deliver 3 0 8; Deliver 3 2 7; Deliver 2 0 8; Deliver 2 3 7] ++
  timeouts 1 0 ++ timeouts 1 3 ++ timeouts 1 2.

Definition round_2 : list action :=
  [Deliver 0 2 8; Deliver 3 2 8;
   Deliver 0 3 9; Deliver 0 2 10; Deliver 3 0 10; Deliver 3 2 10; Deliver 2 0 10; Deliver 2 3 9;
   Deliver 2 0 12; Deliver 2 3 11].

Definition fork_schedule : list action := round_0 ++ round_1 ++ round_2.

(** The blocks a node committed. *)
Definition committed (s : CS4) : list (Block * Commit) :=
  omap (fun e => match e with Committed _ b c => Some (b, c) | _ => None end) (cs_trace s).

Definition commit_verifies (b : Block) (c : Commit) : bool :=
  bool_decide (BlockHash (Some b) = Ret (cm_BlockHash c)) &&
  bool_decide (VerifyCommit chain_c (Some set_4) (cm_BlockHash c) 1 (Some c) = Ret tt).

Definition forked (net : list CS4) : bool :=
  match committed <$> net !! 1%nat, committed <$> net !! 2%nat with
  | Some [(b1, c1)], Some [(b2, c2)] =>
      commit_verifies b1 c1 && commit_verifies b2 c2 && negb (bool_decide (cm_BlockHash c1 = cm_BlockHash c2))
  | _, _ => false
  end.

Lemma fork_computed : (forked <$> run clock_5 2 fork_schedule net_4) = Some true.
Proof. vm_compute. reflexivity. Qed.

Lemma committed_event s b c : (b, c) ∈ committed s -> exists vals, Committed vals b c ∈ cs_trace s.
Proof.
  unfold committed. intros (e & He & Hm)%list_elem_of_omap. destruct e; try done.
  injection Hm as -> ->. eauto.
Qed.

(** C18: agreement fails without any fault: four nodes of equal power that all follow the code,
    with messages delivered late, reach a state in which two of them have committed different
    blocks at height 1, both with valid commits. Two nodes locked on the first block prevote
    nil when no proposal reaches them, and the quorum of nil prevotes unlocks them. *)
Theorem agreement_fails :
  exists net s1 s2 vals1 vals2 b1 b2 c1 c2,
    rtc (net_step clock_5 2) net_4 net /\ net !! 1%nat = Some s1 /\ net !! 2%nat = Some s2 /\
    Committed vals1 b1 c1 ∈ cs_trace s1 /\ Committed vals2 b2 c2 ∈ cs_trace s2 /\
    VerifyCommit chain_c (Some set_4) (cm_BlockHash c1) 1 (Some c1) = Ret tt /\
    VerifyCommit chain_c (Some set_4) (cm_BlockHash c2) 1 (Some c2) = Ret tt /\
    BlockHash (Some b1) = Ret (cm_BlockHash c1) /\ BlockHash (Some b2) = Ret (cm_BlockHash c2) /\
    cm_BlockHash c1 <> cm_BlockHash c2.
Proof.
  pose proof fork_computed as Hf. destruct (run clock_5 2 fork_schedule net_4) as [net|] eqn:Hr; [|done].
  apply run_steps in Hr. injection Hf as Hf. unfold forked in Hf.
  destruct (committed <$> _) as [[|[b1 c1] []]|] eqn:E1 in Hf; [done| |done..].
  destruct (committed <$> _) as [[|[b2 c2] []]|] eqn:E2 in Hf; [done| |done..].
  apply fmap_Some in E1 as (s1 & H1 & E1), E2 as (s2 & H2 & E2).
  unfold commit_verifies in Hf. bool_to_prop.
  destruct (committed_event s1 b1 c1) as [vals1 ?]; [rewrite <- E1; by left|].
  destruct (committed_event s2 b2 c2) as [vals2 ?]; [rewrite <- E2; by left|].
  exists net, s1, s2, vals1, vals2, b1, b2, c1, c2. done.
Qed.

(** ** A commit without the block *)

(** The first three nodes prevote and precommit the first block; the proposal has not reached
    node 2, but the precommits do. *)
Definition crash_schedule : list action :=
  [Deliver 1 0 0; Deliver 3 0 0] ++ timeouts 1 2 ++
  [Deliver 0 1 1; Deliver 0 3 1; Deliver 3 0 2; Deliver 3 1 1; Deliver 1 0 2; Deliver 1 3 1;
   Deliver 2 0 4; Deliver 2 1 3].

(** The panic of delivering the [k]-th event of node [j] to node [i]. *)
Definition panics_on (i j k : nat) (net : list CS4) : option string :=
  s ← net !! i; t ← net !! j; e ← cs_trace t !! k;
  match e with
  | Sent_vote v => match handleVote clock_5 2 v s with Panicked msg _ => Some msg | _ => None end
  | _ => None
  end.

Lemma crash_computed :
  (run clock_5 2 crash_schedule net_4 ≫= panics_on 2 3 3) =
    Some "CONSENSUS CRITICAL: finalizeCommit called with no block at height %d".
Proof. vm_compute. reflexivity. Qed.

(** A node that has not received the proposal dies when the precommits of the others
    arrive: four nodes that follow the code reach a state in which one of them panics on a vote
    that another has sent. There is no way to wait for the block. *)
Theorem commit_without_block_panics :
  exists net s t v s',
    rtc (net_step clock_5 2) net_4 net /\ net !! 2%nat = Some s /\ net !! 3%nat = Some t /\
    Sent_vote v ∈ cs_trace t /\
    handleVote clock_5 2 v s = Panicked "CONSENSUS CRITICAL: finalizeCommit called with no block at height %d" s'.
Proof.
  pose proof crash_computed as Hc. apply bind_Some in Hc as (net & Hr & Hc). apply run_steps in Hr.
  apply bind_Some in Hc as (s & Es & Hc). apply bind_Some in Hc as (t & Et & Hc).
  apply bind_Some in Hc as (e & Ee & Hc). destruct e as [| |v|]; try done.
  destruct (handleVote clock_5 2 v s) as [|msg s'|] eqn:Eh; [done| |done]. injection Hc as ->.
  exists net, s, t, v, s'. split_and!; [done..|by eapply list_elem_of_lookup_2|done].
Qed.

(** ** A round that starts twice *)

(** Height 1 is committed by nodes 0 and 1; the timer of node 1 fires first, it proposes, and its
    proposal reaches node 0 before the timer of node 0 fires. *)
Definition early_schedule : list action :=
  [Deliver 1 0 0; Deliver 3 0 0;
   Deliver 0 1 1; Deliver 0 3 1; Deliver 1 0 2; Deliver 1 3 1; Deliver 3 0 2; Deliver 3 1 1;
   Deliver 0 1 3; Deliver 0 3 3; Deliver 1 0 4; Deliver 1 3 3] ++ timeouts 2 1 ++
  [Deliver 0 1 5; Ticker_run 0; Ticker_run 0; Ticker_fire 0].

(** From the first state to the second, the node goes back from the prevote step to the propose
    step of the same round, without its proposal. *)
Definition goes_back (s s' : CS4) : bool :=
  (rs_height (cs_state s') =? rs_height (cs_state s)) && (rs_round (cs_state s') =? rs_round (cs_state s)) &&
  (rs_step (cs_state s) =? RoundStepPrevote) && (rs_step (cs_state s') =? RoundStepPropose) &&
  bool_decide (is_Some (rs_proposal (cs_state s))) && bool_decide (rs_proposal (cs_state s') = None) &&
  (length (cs_trace s') =? length (cs_trace s))%nat.

Lemma early_computed :
  (net ← run clock_5 2 early_schedule net_4; net' ← act clock_5 2 (Timeout 0) net;
   s ← net !! 0%nat; s' ← net' !! 0%nat; Some (goes_back s s')) = Some true.
Proof. vm_compute. reflexivity. Qed.

(** A proposal that arrives before the node's commit timeout is lost: in a network where all
    follow the code, a node that has taken the proposal of its height and prevoted
    goes back, when its own timer of the previous height fires, to the propose step of the same
    round with no proposal. *)
Theorem commit_timeout_drops_proposal :
  exists net net' s s',
    rtc (net_step clock_5 2) net_4 net /\ act clock_5 2 (Timeout 0) net = Some net' /\
    net !! 0%nat = Some s /\ net' !! 0%nat = Some s' /\
    rs_height (cs_state s') = rs_height (cs_state s) /\ rs_round (cs_state s') = rs_round (cs_state s) /\
    rs_step (cs_state s) = RoundStepPrevote /\ rs_step (cs_state s') = RoundStepPropose /\
    is_Some (rs_proposal (cs_state s)) /\ rs_proposal (cs_state s') = None.
Proof.
  pose proof early_computed as Hc. apply bind_Some in Hc as (net & Hr & Hc). apply run_steps in Hr.
  apply bind_Some in Hc as (net' & Ha & Hc). apply bind_Some in Hc as (s & Es & Hc).
  apply bind_Some in Hc as (s' & Es' & Hc). injection Hc as Hc. unfold goes_back in Hc. bool_to_prop.
  exists net, net', s, s'. done.
Qed.

(** ** A proof of lock that nobody accepts *)

(** All four nodes prevote in round 0, node 2 for nil; node 1 locks the block, moves to round 1, and
    proposes it again. *)
Definition pol_schedule : list action :=
  [Deliver 1 0 0; Deliver 3 0 0] ++ timeouts 1 2 ++
  [Deliver 1 0 2; Deliver 1 2 1; Deliver 1 3 1; Deliver 2 0 2; Deliver 2 3 1] ++ timeouts 1 2 ++
  [Deliver 0 1 1; Deliver 0 3 1; Deliver 1 0 4; Deliver 1 2 3] ++ timeouts 3 1.

Definition rejected_proposal (s : CS4) : option Proposal :=
  e ← cs_trace s !! 4%nat;
  match e with
  | Sent_proposal p =>
      if (p_Round p =? 1) && (p_PolRound p =? 0) &&
         match validatePOL chain_c set_4 p with Err _ => true | _ => false end
      then Some p else None
  | _ => None
  end.

Lemma pol_computed :
  (net ← run clock_5 2 pol_schedule net_4; s ← net !! 1%nat; p ← rejected_proposal s; Some (p_Height p)) = Some 1.
Proof. vm_compute. reflexivity. Qed.

(** A node that follows the code sends a proposal that all others must reject: it attaches all
    prevotes of its valid round as the proof of lock, the nil prevote of another node too, and
    [validatePOL] accepts only prevotes for the block. *)
Theorem honest_proposal_rejected :
  exists net s p,
    rtc (net_step clock_5 2) net_4 net /\ net !! 1%nat = Some s /\ Sent_proposal p ∈ cs_trace s /\
    p_Round p = 1 /\ p_PolRound p = 0 /\
    exists e, validatePOL chain_c set_4 p = Err e.
Proof.
  pose proof pol_computed as Hc. apply bind_Some in Hc as (net & Hr & Hc). apply run_steps in Hr.
  apply bind_Some in Hc as (s & Es & Hc). apply bind_Some in Hc as (p & Hp & _).
  apply bind_Some in Hp as (e & Ee & Hp). destruct e as [q| | |]; try done.
  destruct (_ && _) eqn:Hb in Hp; [|done]. injection Hp as ->. bool_to_prop.
  destruct (validatePOL chain_c set_4 p) as [|err|] eqn:Ev; [done| |done].
  exists net, s, p. split_and!; [done..|by eapply list_elem_of_lookup_2|done|done|by exists err].
Qed.
