(* ===== verification/Termination.v ===== *)
(** * Termination of the handlers

    The handlers call one another through [signAndSendVoteLocked], which checks the quorums
    again after an own vote. Unless [SkipTimeoutCommit] is set, an own prevote leads to at most one
    own precommit, and an own precommit to no further vote: fuel 2 is enough for every
    handler, and more changes nothing. *)

From S2P Require Export Network Safety.

Section Termination.
Context `{Crypto} `{Cramberry} `{MapOrder}.
Context {PV X W : Type} `{PrivValidator PV} `{BlockExecutor X} `{WAL W}.
Variable clock : nat -> Z.

Notation CS := (ConsensusState PV X W).

Definition noskip (s : CS) : Prop := cf_SkipTimeoutCommit (cs_config s) = false.

(** From [s], two computations do the same, and have enough fuel. *)
Definition ok {A} (m1 m2 : M CS A) (s : CS) : Prop :=
  m1 s = m2 s /\ postF False (fun _ s' => noskip s') (fun _ => True) (m1 s).

Definition agrees {A} (m1 m2 : M CS A) : Prop := forall s, noskip s -> ok m1 m2 s.

Lemma noskip_same s s' : same s s' -> noskip s -> noskip s'.
Proof. unfold noskip. by intros (-> & _). Qed.

Lemma ok_ret {A} (a : A) s : noskip s -> ok (mret a) (mret a) s.
Proof. by split. Qed.

Lemma ok_panic {A} msg s : ok (mpanic msg : M CS A) (mpanic msg) s.
Proof. by split. Qed.

Lemma ok_bind {A B} (m1 m2 : M CS A) (k1 k2 : A -> M CS B) s :
  ok m1 m2 s -> (forall a s', noskip s' -> ok (k1 a) (k2 a) s') -> ok (mbind m1 k1) (mbind m2 k2) s.
Proof.
  intros [E Hp] Hk. unfold ok, mbind. rewrite <- E. destruct (m1 s) as [a s'| |]; cbn in *; [|done..]. by apply Hk.
Qed.

Lemma ok_framed {A B} (m : M CS A) R (k1 k2 : A -> M CS B) s :
  noskip s -> framed m R -> (forall a s', same s s' -> noskip s' -> ok (k1 a) (k2 a) s') ->
  ok (mbind m k1) (mbind m k2) s.
Proof.
  intros Hs Hm Hk. unfold ok, mbind. specialize (Hm s). destruct (m s) as [a s'| |]; cbn in *; [|done..].
  destruct Hm as [Hsame _]. apply Hk; [done|]. by eapply noskip_same.
Qed.

Lemma ok_framed_last {A} (m : M CS A) R s : noskip s -> framed m R -> ok m m s.
Proof.
  intros Hs Hm. split; [done|]. eapply post_mono; [apply Hm| |done..]. intros a s' [Hsame _]. by eapply noskip_same.
Qed.

Lemma ok_try {A B} (r : res A) (k1 k2 : A -> M CS B) e1 e2 s :
  (forall a, r = Ret a -> ok (k1 a) (k2 a) s) -> (forall e, ok (e1 e) (e2 e) s) ->
  ok (mtry r k1 e1) (mtry r k2 e2) s.
Proof. intros Hk He. destruct r; cbn; [by apply Hk|by apply He|by split]. Qed.

Lemma ok_put {B} f (k1 k2 : unit -> M CS B) s :
  ok (k1 tt) (k2 tt) (with_state (f (cs_state s)) s) -> ok (mbind (put f) k1) (mbind (put f) k2) s.
Proof. done. Qed.

Lemma ok_emit {B} e (k1 k2 : unit -> M CS B) s :
  ok (k1 tt) (k2 tt) (with_trace (cs_trace s ++ [e]) s) -> ok (mbind (emit e) k1) (mbind (emit e) k2) s.
Proof. done. Qed.

Lemma ok_get_state {B} (k1 k2 : RoundState -> M CS B) s :
  ok (k1 (cs_state s)) (k2 (cs_state s)) s -> ok (mbind get_state k1) (mbind get_state k2) s.
Proof. done. Qed.

Lemma ok_mget {B} (k1 k2 : CS -> M CS B) s : ok (k1 s) (k2 s) s -> ok (mbind mget k1) (mbind mget k2) s.
Proof. done. Qed.

Lemma ok_height {B} (k1 k2 : Z -> M CS B) s :
  ok (k1 (rs_height (cs_state s))) (k2 (rs_height (cs_state s))) s -> ok (mbind get_height k1) (mbind get_height k2) s.
Proof. done. Qed.

(** The quorum check after an own vote: a vote of the current round. *)
Definition own_ok (typ : Z) (av1 av2 : Vote -> M CS unit) : Prop :=
  forall v s, noskip s -> vt_Type v = typ -> vt_Round v = rs_round (cs_state s) -> ok (av1 v) (av2 v) s.

Section Handlers.
Variables av1 av2 : Vote -> M CS unit.

Lemma votes_AddVote_ok {B} vote (k1 k2 : res bool -> M CS B) s :
  noskip s ->
  (forall r s', noskip s' -> rs_round (cs_state s') = rs_round (cs_state s) -> ok (k1 r) (k2 r) s') ->
  ok (mbind (votes_AddVote clock vote) k1) (mbind (votes_AddVote clock vote) k2) s.
Proof.
  intros Hs Hk. unfold ok, votes_AddVote, mbind, time_Now, get_state, put, mmodify, mret. cbn.
  destruct (HeightVoteSet_AddVote _ _ _) as [hvs r]. cbn. by apply Hk.
Qed.

Lemma signAndSend_ok typ h : own_ok typ av1 av2 ->
  agrees (signAndSendVoteLocked clock av1 typ h) (signAndSendVoteLocked clock av2 typ h).
Proof.
  intros Hav s Hs. unfold signAndSendVoteLocked. apply ok_mget. destruct (cs_privVal s); [|by apply ok_ret].
  destruct (List.find _ _); [|by apply ok_ret]. destruct (GetByIndex _ _); [|by apply ok_ret].
  eapply ok_framed; [done|apply time_Now_framed|]. intros now s1 S1 N1.
  eapply ok_framed; [done|apply priv_call_framed|]. intros r s2 S2 N2.
  apply ok_try; [intros sig _|intros; by apply ok_ret].
  eapply ok_framed; [done|apply wal_write_framed|]. intros _ s3 S3 N3.
  assert (S : same s s3) by (by eapply same_trans; [eapply same_trans|]).
  apply votes_AddVote_ok; [done|]. intros added s4 N4 E4.
  destruct added as [[]| |]; [|by apply ok_panic..]. apply ok_emit. apply ok_bind.
  - apply Hav; [done..|]. destruct S as (_ & S & _). cbn. by rewrite E4, S.
  - intros _ s5 N5. destruct (cs_onVote s); [by split|by apply ok_ret].
Qed.

Lemma enterPrevote_ok height round : own_ok VoteTypePrevote av1 av2 ->
  agrees (enterPrevoteLocked clock av1 height round) (enterPrevoteLocked clock av2 height round).
Proof.
  intros Hav s Hs. unfold enterPrevoteLocked. apply ok_get_state. destruct (_ || _); [by apply ok_ret|].
  apply ok_put, ok_mget, ok_try; [|intros; by apply ok_panic]. intros [h []] _.
  - apply ok_put. by apply signAndSend_ok.
  - by apply (signAndSend_ok _ _ Hav).
Qed.

Lemma enterPrecommit_ok height round : own_ok VoteTypePrecommit av1 av2 ->
  agrees (enterPrecommitLocked clock av1 height round) (enterPrecommitLocked clock av2 height round).
Proof.
  intros Hav s Hs. unfold enterPrecommitLocked. apply ok_get_state. destruct (_ || _); [by apply ok_ret|].
  apply ok_put. destruct (Prevotes _ _) as [l|]; [|by apply signAndSend_ok].
  eapply ok_framed; [done|apply deref_set_framed|]. intros vset s1 S1 N1.
  destruct (VoteSet_TwoThirdsMajority vset) as [[d|] []]; cbn [negb];
    [|by apply signAndSend_ok|apply ok_put; by apply signAndSend_ok|by apply signAndSend_ok].
  destruct (IsHashEmpty _); [apply ok_put; by apply signAndSend_ok|].
  destruct (rs_proposalBlock _) as [pb|]; [|by apply signAndSend_ok].
  eapply ok_framed; [done|apply hash_of_block_framed|]. intros ph s2 S2 N2.
  destruct (HashEqual ph d); [|by apply signAndSend_ok]. apply ok_put.
  eapply ok_framed; [done|apply writeStateLocked_framed|]. intros _ s3 S3 N3. by apply signAndSend_ok.
Qed.

(** Without [SkipTimeoutCommit], a commit ends with a timeout and casts no vote. *)
Lemma finalizeCommit_ok height c :
  agrees (finalizeCommitLocked clock av1 height c) (finalizeCommitLocked clock av2 height c).
Proof.
  intros s Hs. unfold finalizeCommitLocked. apply ok_get_state.
  destruct (block_to_commit _) as [b|]; [|by apply ok_panic].
  eapply ok_framed; [done|apply hash_of_block_framed|]. intros h s2 S2 N2.
  destruct (negb _); [by apply ok_panic|].
  eapply ok_framed; [done|apply apply_block_framed|]. intros us s3 S3 N3. apply ok_emit.
  eapply ok_framed; [done|apply next_validators_framed|]. intros vs s4 S4 N4.
  eapply ok_framed; [done|apply wal_write_framed|]. intros _ s5 S5 N5.
  apply ok_put, ok_mget. match goal with |- ok _ _ ?st => assert (N6 : noskip st) by exact N5; revert N6; generalize st end.
  intros s6 N6. rewrite N6. cbn [negb]. eapply ok_framed_last; [done|apply scheduleTimeout_framed].
Qed.

Lemma enterCommit_ok height : agrees (enterCommitLocked clock av1 height) (enterCommitLocked clock av2 height).
Proof.
  intros s Hs. unfold enterCommitLocked. apply ok_get_state. destruct (_ || _); [by apply ok_ret|]. apply ok_put.
  eapply ok_framed; [done|apply find_commit_framed|]. intros [c|] s1 S1 N1; [|by apply ok_panic].
  by apply finalizeCommit_ok.
Qed.

Lemma wait_ok height round :
  agrees (enterPrevoteWaitLocked (PV := PV) (X := X) (W := W) height round) (enterPrevoteWaitLocked height round) /\
  agrees (enterPrecommitWaitLocked (PV := PV) (X := X) (W := W) height round) (enterPrecommitWaitLocked height round).
Proof.
  unfold enterPrevoteWaitLocked, enterPrecommitWaitLocked.
  split; intros s Hs; apply ok_get_state; destruct (_ || _); [by apply ok_ret|by split|by apply ok_ret|by split].
Qed.

(** An own precommit: no further vote. *)
Lemma own_precommit_ok v s :
  noskip s -> vt_Round v = rs_round (cs_state s) ->
  ok (handlePrecommitLocked clock av1 v) (handlePrecommitLocked clock av2 v) s.
Proof.
  intros Hs Hv. unfold handlePrecommitLocked. apply ok_get_state. destruct (Precommits _ _) as [l|]; [|by apply ok_ret].
  eapply ok_framed; [done|apply deref_set_framed|]. intros vset s1 S1 N1.
  destruct (VoteSet_TwoThirdsMajority vset) as [h okq].
  rewrite Hv, Z.gtb_ltb, Z.ltb_irrefl, Z.eqb_refl. cbn [andb].
  destruct (okq && _); [by apply enterCommit_ok|]. destruct (_ && _); [by apply wait_ok|by apply ok_ret].
Qed.

(** An own prevote: at most a precommit. *)
Lemma own_prevote_ok v s :
  own_ok VoteTypePrecommit av1 av2 -> noskip s -> vt_Round v = rs_round (cs_state s) ->
  ok (handlePrevoteLocked clock av1 v) (handlePrevoteLocked clock av2 v) s.
Proof.
  intros Hav Hs Hv. unfold handlePrevoteLocked. apply ok_get_state. destruct (Prevotes _ _) as [l|]; [|by apply ok_ret].
  eapply ok_framed; [done|apply deref_set_framed|]. intros vset s1 S1 N1.
  rewrite Hv, Z.gtb_ltb, Z.ltb_irrefl, Z.eqb_refl. cbn [andb].
  repeat (case_match; [|]); first [by apply ok_ret|by apply enterPrecommit_ok|by apply wait_ok].
Qed.

(** The rest depends on the votes cast through these two. *)
Hypotheses (Hpv : own_ok VoteTypePrevote av1 av2) (Hpc : own_ok VoteTypePrecommit av1 av2).

Lemma createAndSendProposal_ok :
  agrees (createAndSendProposalLocked clock av1) (createAndSendProposalLocked clock av2).
Proof using Hpv.
  intros s Hs. unfold createAndSendProposalLocked. apply ok_mget. destruct (GetProposerForRound _ _); [|by apply ok_ret].
  eapply ok_framed; [done|apply block_to_propose_framed|]. intros [b|] s1 S1 N1; [|by apply ok_ret].
  eapply ok_framed; [done|apply time_Now_framed|]. intros now s2 S2 N2.
  eapply ok_framed; [done|apply pol_votes_framed|]. intros votes s3 S3 N3.
  eapply ok_framed; [done|apply priv_call_framed|]. intros r s4 S4 N4.
  apply ok_try; [intros sig _|intros; by apply ok_ret].
  eapply ok_framed; [done|apply wal_write_framed|]. intros _ s5 S5 N5. apply ok_put, ok_put, ok_bind.
  - destruct (cs_onProposal s); by split.
  - intros _ s6 N6. by apply enterPrevote_ok.
Qed.

Lemma enterNewRound_ok height round :
  agrees (enterNewRoundLocked clock av1 height round) (enterNewRoundLocked clock av2 height round).
Proof using Hpv.
  intros s Hs. unfold enterNewRoundLocked. apply ok_get_state. destruct (_ || _); [by apply ok_ret|]. apply ok_put.
  eapply ok_framed; [done|apply scheduleTimeout_framed|]. intros _ s1 S1 N1. unfold propose_if_proposer. apply ok_mget.
  repeat case_match; first [by apply ok_ret|by apply createAndSendProposal_ok].
Qed.

Lemma handlePrevote_ok v : agrees (handlePrevoteLocked clock av1 v) (handlePrevoteLocked clock av2 v).
Proof using Hpv Hpc.
  intros s Hs. unfold handlePrevoteLocked. apply ok_get_state. destruct (Prevotes _ _) as [l|]; [|by apply ok_ret].
  eapply ok_framed; [done|apply deref_set_framed|]. intros vset s1 S1 N1. destruct (_ && _).
  - apply ok_bind; [by apply enterNewRound_ok|]. intros _ s2 N2.
    eapply ok_framed; [done|apply deref_set_framed|]. intros vset' s3 S3 N3. apply ok_height.
    destruct (HasTwoThirdsMajority _); [by apply enterPrecommit_ok|by apply enterPrevote_ok].
  - repeat (case_match; [|]); first [by apply ok_ret|by apply enterPrecommit_ok|by apply wait_ok].
Qed.

Lemma handlePrecommit_ok v : agrees (handlePrecommitLocked clock av1 v) (handlePrecommitLocked clock av2 v).
Proof using Hpv Hpc.
  intros s Hs. unfold handlePrecommitLocked. apply ok_get_state. destruct (Precommits _ _) as [l|]; [|by apply ok_ret].
  eapply ok_framed; [done|apply deref_set_framed|]. intros vset s1 S1 N1.
  destruct (VoteSet_TwoThirdsMajority vset) as [h okq]. destruct (okq && _).
  - apply ok_bind; [destruct (_ >? _); by split|]. intros _ s2 N2. by apply enterCommit_ok.
  - destruct (_ && _).
    + apply ok_bind; [by apply enterNewRound_ok|]. intros _ s2 N2. apply ok_height.
      apply ok_bind; [by apply enterPrevote_ok|]. intros _ s3 N3. apply ok_height. by apply enterPrecommit_ok.
    + repeat (case_match; [|]); first [by apply ok_ret|by apply wait_ok].
Qed.

Lemma vote_added_ok v : agrees (vote_added clock av1 v) (vote_added clock av2 v).
Proof using Hpv Hpc.
  intros s Hs. unfold vote_added.
  repeat (case_match; [|]); first [by apply handlePrevote_ok|by apply handlePrecommit_ok|by apply ok_ret].
Qed.
End Handlers.

(** ** Fuel *)

Lemma after_precommit_ok f1 f2 : own_ok VoteTypePrecommit (after_vote clock (S f1)) (after_vote clock (S f2)).
Proof. intros v s Hs Ht Hr. cbn. unfold vote_added. rewrite Ht. by apply own_precommit_ok. Qed.

Lemma after_prevote_ok f1 f2 :
  own_ok VoteTypePrevote (after_vote clock (S (S f1))) (after_vote clock (S (S f2))).
Proof.
  intros v s Hs Ht Hr. change (ok (vote_added clock (after_vote clock (S f1)) v)
    (vote_added clock (after_vote clock (S f2)) v) s). unfold vote_added. rewrite Ht.
  apply own_prevote_ok; [apply after_precommit_ok|done..].
Qed.

Lemma handle_ok f1 f2 i : agrees (handle clock (S (S f1)) i) (handle clock (S (S f2)) i).
Proof.
  pose proof (after_prevote_ok f1 f2) as Hpv. pose proof (after_precommit_ok (S f1) (S f2)) as Hpc.
  intros s Hs. destruct i; cbn [handle]; [..|by split].
  - unfold handleProposal. apply ok_mget. destruct (_ || _); [by apply ok_ret|].
    destruct (rs_proposal _); [by apply ok_ret|]. destruct (GetProposerForRound _ _); [|by apply ok_ret].
    destruct (negb _); [by apply ok_ret|]. apply ok_try; [|intros; by apply ok_panic]. intros sb _.
    destruct (negb _); [by apply ok_ret|]. apply ok_try; [|intros; by apply ok_ret]. intros _ _.
    eapply ok_framed; [done|apply validate_block_framed|]. intros valid s1 S1 N1.
    apply ok_try; [|intros; by apply ok_ret]. intros _ _.
    eapply ok_framed; [done|apply wal_write_framed|]. intros _ s2 S2 N2. apply ok_put, ok_put. by apply enterPrevote_ok.
  - unfold handleVote. eapply ok_framed; [done|apply (check_evidence_framed clock)|]. intros _ s1 S1 N1.
    eapply ok_framed; [done|apply wal_write_framed|]. intros _ s2 S2 N2.
    apply votes_AddVote_ok; [done|]. intros r s3 N3 _. apply ok_try; [|intros; by apply ok_ret].
    intros [] _; [|by apply ok_ret]. by apply vote_added_ok.
  - unfold handleTimeout. apply ok_get_state.
    repeat (case_match; [|]); first [by apply ok_ret|by apply enterPrevote_ok|by apply enterPrecommit_ok
      |by apply enterNewRound_ok].
Qed.

Lemma Start_fuel_ok f1 f2 h lc : agrees (Start clock (S (S f1)) h lc) (Start clock (S (S f2)) h lc).
Proof.
  intros s Hs. unfold Start. apply ok_mget. destruct (cs_started s); [by apply ok_ret|].
  do 3 apply ok_put. do 2 (apply ok_bind; [by split|]; intros _ ? ?).
  apply ok_bind; [|intros; by apply ok_ret].
  apply enterNewRound_ok; [apply after_prevote_ok|done].
Qed.

(** C11: unless [SkipTimeoutCommit] is set, every handler ends, in a result or a panic: with fuel 2
    or more it does not run out of fuel, and what it does does not depend on the fuel; the
    same for [Start]. *)
Theorem handlers_terminate (fuel : nat) (s : CS) i height lastCommit :
  cf_SkipTimeoutCommit (cs_config s) = false -> (2 <= fuel)%nat ->
  (handle clock fuel i s = handle clock 2 i s /\ handle clock fuel i s <> OutOfFuel) /\
  (Start clock fuel height lastCommit s = Start clock 2 height lastCommit s /\
   Start clock fuel height lastCommit s <> OutOfFuel).
Proof.
  intros Hs Hf. destruct fuel as [|[|f]]; [lia..|].
  destruct (handle_ok f 0 i s Hs) as [E1 P1], (Start_fuel_ok f 0 height lastCommit s Hs) as [E2 P2].
  split; (split; [done|]); intros E; [by rewrite E in P1|by rewrite E in P2].
Qed.
End Termination.

Lemma handlers_terminate_witness :
  (handle clock_5 7 (In_timeout (mkTimeoutInfo 0 1 0 RoundStepPropose)) (start_node Byte.x0b) =
     handle clock_5 2 (In_timeout (mkTimeoutInfo 0 1 0 RoundStepPropose)) (start_node Byte.x0b) /\
   handle clock_5 7 (In_timeout (mkTimeoutInfo 0 1 0 RoundStepPropose)) (start_node Byte.x0b) <> OutOfFuel) /\
  (Start clock_5 7 2 None (start_node Byte.x0b) = Start clock_5 2 2 None (start_node Byte.x0b) /\
   Start clock_5 7 2 None (start_node Byte.x0b) <> OutOfFuel).
Proof. apply (handlers_terminate clock_5 7 (start_node Byte.x0b)); [vm_compute; reflexivity|lia]. Defined.
