(* ===== verification/Runs.v ===== *)
(** * Runs of a node

    What a node does from its creation on, whatever messages and timeouts it receives: the
    theorems on its states, its commits and its locks, and the nodes of the network as
    instances. *)

From S2P Require Export Network Safety.

(** ** Runs of a node

    A node is created, configured and started; then it handles any proposals, votes and
    timeouts, in any order. *)

Section Runs.
Context `{Crypto} `{Cramberry} `{MapOrder}.
Context {PV X W : Type} `{PrivValidator PV} `{!BlockExecutor X} `{WAL W}.
Variables (clock : nat -> Z) (fuel : nat).

Notation CS := (ConsensusState PV X W).

(** A node as [NewConsensusState] and the setters make it. *)
Definition fresh_node (s : CS) (config : Config) (vals : ValidatorSet) : Prop :=
  exists pv wal x onProposal onVote pool,
    s = SetEvidencePool pool (SetBroadcastCallbacks onProposal onVote (NewConsensusState config vals pv wal x)).

Inductive reach (s0 : CS) (h0 : Z) (lastCommit : option Commit) : CS -> Prop :=
| reach_start s : Start clock fuel h0 lastCommit s0 = Done (Ret tt) s -> reach s0 h0 lastCommit s
| reach_step s i s' : reach s0 h0 lastCommit s -> handle clock fuel i s = Done tt s' -> reach s0 h0 lastCommit s'.

(** The states in which a node died, in a panic. *)
Inductive died (s0 : CS) (h0 : Z) (lastCommit : option Commit) : CS -> Prop :=
| died_start msg s : Start clock fuel h0 lastCommit s0 = Panicked msg s -> died s0 h0 lastCommit s
| died_step s i msg s' : reach s0 h0 lastCommit s -> handle clock fuel i s = Panicked msg s' -> died s0 h0 lastCommit s'.

Context `{!ExecutorLaws X}.
Variables (s0 : CS) (config : Config) (vals : ValidatorSet) (h0 : Z) (lastCommit : option Commit).
Hypotheses (Hfresh : fresh_node s0 config vals) (Hvals : ValidatorSet_wf vals).

Notation Inv := (inv (cf_ChainID config) h0).
Notation Dead := (dead (cf_ChainID config) h0).

Lemma Start_post : post (fun _ s => Inv s) Dead (Start clock fuel h0 lastCommit s0).
Proof using Hfresh Hvals ExecutorLaws0.
  destruct Hfresh as (pv & wal & x & onP & onV & pool & ->). unfold Start. rewrite bind_mget. cbn [cs_started].
  change (cs_started _) with false. cbn iota. rewrite !bind_put.
  rewrite !bind_mmodify.
  match goal with |- postF _ _ _ (mbind _ _ ?st) => assert (Hi : Inv st); [|revert Hi; generalize st; intros s Hi] end.
  2: { apply keeps_bind; [apply enterNewRound_0_keeps|intros; apply keeps_ret|done]. intros v. apply after_vote_keeps. }
  split; [done|]. cbn. split; [|apply safe_nil|done|intros ? ? Hin; by apply not_elem_of_nil in Hin].
  split; try done; cbn; lia.
Qed.

Lemma handle_keeps i : keeps (cf_ChainID config) h0 (handle clock fuel i).
Proof using ExecutorLaws0.
  destruct i; cbn; [by apply handleProposal_keeps|by apply handleVote_keeps|by apply handleTimeout_keeps|].
  intros s Hi. exact Hi.
Qed.

Lemma reach_inv s : reach s0 h0 lastCommit s -> Inv s.
Proof using Hfresh Hvals ExecutorLaws0.
  induction 1 as [s Hs|s i s' Hr IH Hs].
  - pose proof Start_post as Hp. by rewrite Hs in Hp.
  - pose proof (handle_keeps i s IH) as Hp. by rewrite Hs in Hp.
Qed.

Lemma reach_safe s : reach s0 h0 lastCommit s \/ died s0 h0 lastCommit s -> safe (cf_ChainID config) h0 (cs_trace s).
Proof using Hfresh Hvals ExecutorLaws0.
  intros [Hr|[msg s' Hs|s1 i msg s' Hr Hs]].
  - eapply inv_dead. by apply reach_inv.
  - pose proof Start_post as Hp. by rewrite Hs in Hp.
  - pose proof (handle_keeps i s1 (reach_inv _ Hr)) as Hp. by rewrite Hs in Hp.
Qed.
End Runs.

(** ** Messages through the channels

    The network adds messages, full channels drop some, and the loop takes them in any order. *)

Section ChannelRuns.
Context `{Crypto} `{Cramberry} `{MapOrder}.
Context {PV X W : Type} `{PrivValidator PV} `{!BlockExecutor X} `{WAL W}.
Variables (clock : nat -> Z) (fuel : nat).

Notation CS := (ConsensusState PV X W).

Inductive node_step : Channels * CS -> Channels * CS -> Prop :=
| node_proposal p ch s : node_step (ch, s) (AddProposal p ch, s)
| node_vote v ch s : node_step (ch, s) (AddVote v ch, s)
| node_ticker t ch s : node_step (ch, s) (ch, with_timeoutTicker t s)
| node_receive r ch s ch' s' :
    receiveRoutine clock fuel r ch s = Some (ch', Done tt s') -> node_step (ch, s) (ch', s').

Lemma node_step_reach s0 h0 lc x y :
  node_step x y -> reach clock fuel s0 h0 lc x.2 -> reach clock fuel s0 h0 lc y.2.
Proof.
  assert (Ht : forall t s, reach clock fuel s0 h0 lc s -> reach clock fuel s0 h0 lc (with_timeoutTicker t s)).
  { intros t s Hr. exact (reach_step clock fuel s0 h0 lc s (In_ticker t) _ Hr eq_refl). }
  destruct 1 as [| |t ch s|r ch s ch' s' Hd]; cbn; auto. intros Hr. unfold receiveRoutine, receive in Hd.
  destruct r.
  - destruct (proposalCh ch) as [|p l]; [done|]. injection Hd as _ Hd.
    exact (reach_step _ _ _ _ _ _ (In_proposal p) _ Hr Hd).
  - destruct (voteCh ch) as [|v l]; [done|]. injection Hd as _ Hd.
    exact (reach_step _ _ _ _ _ _ (In_vote v) _ Hr Hd).
  - destruct (receive_tock _) as [[ti ticker]|]; [|done]. injection Hd as _ Hd.
    exact (reach_step _ _ _ _ _ _ (In_timeout ti) _ (Ht _ _ Hr) Hd).
Qed.

Lemma channels_reach s0 h0 lc x y :
  rtc node_step x y -> reach clock fuel s0 h0 lc x.2 -> reach clock fuel s0 h0 lc y.2.
Proof. induction 1; [done|]. eauto using node_step_reach. Qed.
End ChannelRuns.

(** ** The votes of a trace *)

Definition voted (trace : list event) : list (ValidatorSet * Vote) :=
  omap (fun e => match e with Voted vals v => Some (vals, v) | _ => None end) trace.

Lemma segment_app t u : commits u = [] -> segment (t ++ u) = segment t ++ voted u.
Proof.
  induction u as [|e u IH] using rev_ind; [by rewrite !app_nil_r|].
  rewrite commits_snoc. intros [Hu He]%app_nil. rewrite app_assoc, segment_snoc, IH by done.
  unfold voted. rewrite omap_app. destruct e; cbn; by rewrite ?app_nil_r, <- ?app_assoc.
Qed.

Lemma segment_vote t vals v : segment (t ++ [Voted vals v]) = segment t ++ [(vals, v)].
Proof. by rewrite segment_snoc. Qed.

Section VotesOfTrace.
Context `{Crypto} `{Cramberry}.
Variables (chainID : string) (h0 : Z).

Lemma safe_precommit trace vals v :
  safe chainID h0 trace -> Voted vals v ∈ trace -> for_a_block VoteTypePrecommit v ->
  quorum_for chainID vals VoteTypePrevote (vt_Height v) (vt_Round v) (blockHashKey (vt_BlockHash v)).
Proof.
  intros Hs (t & rest & ->)%list_elem_of_split Hf.
  pose proof (safe_votes _ _ _ Hs (t ++ [Voted vals v]) rest ltac:(by rewrite <- app_assoc)) as Hv.
  rewrite segment_vote in Hv. apply (vr_precommit _ _ Hv); [|done]. apply elem_of_app. right. left.
Qed.

(** Two votes with no commit in between are in the segment of the second one. *)
Lemma safe_pair t1 t2 t3 vals1 v1 vals2 v2 :
  safe chainID h0 (t1 ++ Voted vals1 v1 :: t2 ++ Voted vals2 v2 :: t3) -> commits t2 = [] ->
  exists seg i j, voting_rules chainID seg /\ (i < j)%nat /\
    seg !! i = Some (vals1, v1) /\ seg !! j = Some (vals2, v2).
Proof.
  intros Hs Hc. pose proof (safe_votes _ _ _ Hs (((t1 ++ [Voted vals1 v1]) ++ t2) ++ [Voted vals2 v2]) t3
    ltac:(by rewrite <- !app_assoc)) as Hv.
  rewrite segment_vote, segment_app, segment_vote in Hv by done.
  eexists _, (length (segment t1)), (length ((segment t1 ++ [(vals1, v1)]) ++ voted t2)).
  split_and!; [exact Hv|rewrite !length_app; cbn; lia| |by apply list_lookup_middle].
  rewrite <- !app_assoc. by apply list_lookup_middle.
Qed.

Lemma safe_lock t1 t2 t3 vals1 v1 vals2 v2 :
  safe chainID h0 (t1 ++ Voted vals1 v1 :: t2 ++ Voted vals2 v2 :: t3) -> commits t2 = [] ->
  for_a_block VoteTypePrecommit v1 -> for_a_block VoteTypePrevote v2 -> vt_BlockHash v1 <> vt_BlockHash v2 ->
  moved_on chainID vals1 (vt_Height v1) (vt_Round v1) (vt_Round v2) (blockHashKey (vt_BlockHash v1)).
Proof.
  intros Hs Hc Hf1 Hf2 Hne. destruct (safe_pair _ _ _ _ _ _ _ Hs Hc) as (seg & i & j & Hv & Hij & Hi & Hj).
  by apply (vr_lock _ _ Hv i j vals1 v1 vals2 v2).
Qed.
End VotesOfTrace.

(** ** The nodes of a network *)

Section NetworkRuns.
Context `{Crypto} `{Cramberry} `{MapOrder}.
Context {PV X W : Type} `{PrivValidator PV} `{!BlockExecutor X} `{WAL W}.
Variables (clock : nat -> Z) (fuel : nat) (h0 : Z) (lastCommit : option Commit).

Notation CS := (ConsensusState PV X W).
Notation Reach := (fun s0 s : CS => reach clock fuel s0 h0 lastCommit s).

Lemma run_handler_reach s0 s s' i :
  Reach s0 s -> run_handler (handle clock fuel i) s = Some s' -> Reach s0 s'.
Proof.
  intros Hr. unfold run_handler. destruct (handle clock fuel i s) as [[] s1| |] eqn:E; [|done..].
  intros [= <-]. exact (reach_step _ _ _ _ _ _ i _ Hr E).
Qed.

Lemma node_act_reach a net s0 s s' : Reach s0 s -> node_act clock fuel a net s = Some s' -> Reach s0 s'.
Proof.
  intros Hr. destruct a; cbn.
  - destruct (net !! j); [|done]. cbn. destruct (_ !! k) as [e|]; [|done]. cbn. destruct e; try done.
    + apply (run_handler_reach _ _ _ (In_proposal p) Hr).
    + apply (run_handler_reach _ _ _ (In_vote v) Hr).
  - intros [= <-]. eapply (reach_step _ _ _ _ _ _ (In_ticker _)); [exact Hr|done].
  - intros [= <-]. eapply (reach_step _ _ _ _ _ _ (In_ticker _)); [exact Hr|done].
  - destruct (receive_tock _) as [[ti ticker]|]; [|done]. cbn.
    apply (run_handler_reach _ _ _ (In_timeout ti)).
    eapply (reach_step _ _ _ _ _ _ (In_ticker _)); [exact Hr|done].
Qed.

(** Every node of a network is a run of that node. *)
Lemma net_reach starts net net' :
  Forall2 Reach starts net -> rtc (net_step clock fuel) net net' -> Forall2 Reach starts net'.
Proof.
  intros Hf Hs. induction Hs as [|x y z [a Ha] _ IH]; [done|]. apply IH. clear IH. unfold act in Ha.
  destruct (x !! actor a) as [s|] eqn:Es; [|done]. cbn in Ha.
  destruct (node_act clock fuel a x s) as [s'|] eqn:En; [|done]. cbn in Ha. injection Ha as <-.
  destruct (Forall2_lookup_r _ _ _ _ _ Hf Es) as (s0 & H0s & Hr).
  rewrite <- (list_insert_id starts (actor a) s0 H0s). apply Forall2_insert; [done|]. by eapply node_act_reach.
Qed.
End NetworkRuns.

(** *** The four nodes of the fork *)

#[export] Instance toy_executor_laws : ExecutorLaws unit.
Proof. intros b c x us E u Hu. injection E as <-. by apply not_elem_of_nil in Hu. Qed.

Lemma set_4_wf : ValidatorSet_wf set_4.
Proof.
  apply (NewValidatorSet_wf [val4 "a" Byte.x0a; val4 "b" Byte.x0b; val4 "c" Byte.x0c; val4 "d" Byte.x0d]);
    [|reflexivity].
  repeat constructor; vm_compute; congruence.
Qed.

Lemma new_node_fresh b : fresh_node (new_node b) config_c set_4.
Proof. by exists (Some (node_key b)), (Some tt), (Some tt), true, true, (Some pool_0). Qed.

Definition nodes_4 : list CS4 := new_node <$> [Byte.x0a; Byte.x0b; Byte.x0c; Byte.x0d].

Definition starts (b : byte) : bool :=
  match Start clock_5 2 1 None (new_node b) with Done (Ret _) _ => true | _ => false end.

Lemma start_node_reach b : starts b = true -> reach clock_5 2 (new_node b) 1 None (start_node b).
Proof.
  unfold starts, start_node. intros E. apply reach_start.
  destruct (Start clock_5 2 1 None (new_node b)) as [[[]| |] s| |]; done.
Qed.

Lemma net_4_reach : Forall2 (fun s0 s => reach clock_5 2 s0 1 None s) nodes_4 net_4.
Proof. repeat (constructor; [apply start_node_reach; vm_compute; reflexivity|]). constructor. Qed.

(** A node at the end of the schedule of the fork. *)
Definition fork_node (i : nat) : CS4 :=
  default (new_node Byte.x0a) (run clock_5 2 fork_schedule net_4 ≫= lookup i).

Lemma fork_reach i b :
  [Byte.x0a; Byte.x0b; Byte.x0c; Byte.x0d] !! i = Some b ->
  reach clock_5 2 (new_node b) 1 None (fork_node i).
Proof.
  intros Hb. assert (Hn : nodes_4 !! i = Some (new_node b)) by (unfold nodes_4; by rewrite list_lookup_fmap, Hb).
  unfold fork_node. destruct (run clock_5 2 fork_schedule net_4) as [net|] eqn:E;
    [|pose proof fork_computed as Hf; by rewrite E in Hf].
  apply run_steps, (net_reach clock_5 2 1 None nodes_4 net_4 net net_4_reach) in E.
  destruct (Forall2_lookup_l _ _ _ _ _ E Hn) as (s & Es & Hr). change (_ ≫= _) with (net !! i). by rewrite Es.
Qed.

(** The [k]-th event of a node, a vote. *)
Definition vote_at (k : nat) (s : CS4) : Vote :=
  match cs_trace s !! k with Some (Voted _ v) => v | _ => mkVote 0 0 0 None 0 (NewAccountName "") 0 (mkSignature []) end.

Section SafetyTheorems.
#[local] Set Default Proof Using "Type*".
Context `{Crypto} `{Cramberry} `{MapOrder}.
Context {PV X W : Type} `{PrivValidator PV} `{!BlockExecutor X} `{!ExecutorLaws X} `{WAL W}.

(** C8: in every state a node reaches, whatever proposals, votes and timeouts it receives,
    validator set and votes are well-formed and belong to its height, the round is not
    negative, the step is one of the constants, the proposal is for this height and its block is
    the proposal block, and the locked and the valid block each have a quorum of prevotes of
    their round, which is not above the current one; the height is the starting height plus the number of
    commits. *)
Theorem Consensus_invariant (clock : nat -> Z) (fuel : nat) (s0 s : ConsensusState PV X W) config vals h0 lastCommit :
  fresh_node s0 config vals -> ValidatorSet_wf vals -> reach clock fuel s0 h0 lastCommit s ->
  rs_ok (cf_ChainID config) (cs_state s) /\
  rs_height (cs_state s) = height_after h0 (commits (cs_trace s)).
Proof.
  intros Hf Hv Hr. destruct (reach_inv _ _ _ _ _ _ _ Hf Hv _ Hr) as [_ Hi].
  split; [apply (inv_rs _ _ _ _ Hi)|apply (inv_height _ _ _ _ Hi)].
Qed.

(** C2: the commits of a node: each is of a block with the hash it names, passes
    [VerifyCommit] against the node's validator set of the time, and the heights are
    consecutive from the starting height, also when the node dies in a panic. *)
Theorem commit_safety (clock : nat -> Z) (fuel : nat) (s0 s : ConsensusState PV X W) config vals h0 lastCommit :
  fresh_node s0 config vals -> ValidatorSet_wf vals ->
  reach clock fuel s0 h0 lastCommit s \/ died clock fuel s0 h0 lastCommit s ->
  Forall (commit_valid (cf_ChainID config)) (cs_trace s) /\ heights_from h0 (commits (cs_trace s)).
Proof.
  intros Hf Hv Hr. pose proof (reach_safe _ _ _ _ _ _ _ Hf Hv _ Hr) as Hs.
  split; [apply (safe_commits _ _ _ Hs)|apply (safe_heights _ _ _ Hs)].
Qed.

(** C29: a node precommits a block only with a quorum of prevotes for it in the
    round of the precommit. *)
Theorem precommit_justified (clock : nat -> Z) (fuel : nat) (s0 s : ConsensusState PV X W) config vals h0 lastCommit vs v :
  fresh_node s0 config vals -> ValidatorSet_wf vals ->
  reach clock fuel s0 h0 lastCommit s \/ died clock fuel s0 h0 lastCommit s ->
  Voted vs v ∈ cs_trace s -> for_a_block VoteTypePrecommit v ->
  quorum_for (cf_ChainID config) vs VoteTypePrevote (vt_Height v) (vt_Round v) (blockHashKey (vt_BlockHash v)).
Proof. intros Hf Hv Hr. eapply safe_precommit. by apply (reach_safe _ _ _ _ _ _ _ Hf Hv _ Hr). Qed.

(** C3: the lock: a node that precommitted a block and, before its next commit, prevotes another
    one has, in some round from the one of the precommit to the one before the prevote, a quorum of prevotes for something
    other than the block it precommitted: for another block, or for nil. (The round may be the one of the prevote only where
    a round can start twice: in the round of the precommit, or in the largest round number.) *)
Theorem lock_discipline (clock : nat -> Z) (fuel : nat) (s0 s : ConsensusState PV X W) config vals h0 lastCommit
    t1 t2 t3 vals1 v1 vals2 v2 :
  fresh_node s0 config vals -> ValidatorSet_wf vals ->
  reach clock fuel s0 h0 lastCommit s \/ died clock fuel s0 h0 lastCommit s ->
  cs_trace s = t1 ++ Voted vals1 v1 :: t2 ++ Voted vals2 v2 :: t3 -> commits t2 = [] ->
  for_a_block VoteTypePrecommit v1 -> for_a_block VoteTypePrevote v2 -> vt_BlockHash v1 <> vt_BlockHash v2 ->
  moved_on (cf_ChainID config) vals1 (vt_Height v1) (vt_Round v1) (vt_Round v2) (blockHashKey (vt_BlockHash v1)).
Proof.
  intros Hf Hv Hr Et. pose proof (reach_safe _ _ _ _ _ _ _ Hf Hv _ Hr) as Hs. rewrite Et in Hs.
  by eapply safe_lock.
Qed.
End SafetyTheorems.

Lemma Consensus_invariant_witness :
  rs_ok chain_c (cs_state (fork_node 0)) /\
  rs_height (cs_state (fork_node 0)) = height_after 1 (commits (cs_trace (fork_node 0))).
Proof.
  apply (Consensus_invariant clock_5 2 (new_node Byte.x0a) (fork_node 0) config_c set_4 1 None);
    [apply new_node_fresh|apply set_4_wf|by apply fork_reach].
Defined.

Lemma commit_safety_witness :
  Forall (commit_valid chain_c) (cs_trace (fork_node 2)) /\ heights_from 1 (commits (cs_trace (fork_node 2))).
Proof.
  apply (commit_safety clock_5 2 (new_node Byte.x0c) (fork_node 2) config_c set_4 1 None);
    [apply new_node_fresh|apply set_4_wf|left; by apply fork_reach].
Defined.

Lemma precommit_justified_witness :
  quorum_for chain_c set_4 VoteTypePrevote 1 0 (blockHashKey (vt_BlockHash (vote_at 3 (fork_node 0)))).
Proof.
  apply (precommit_justified clock_5 2 (new_node Byte.x0a) (fork_node 0) config_c set_4 1 None set_4
           (vote_at 3 (fork_node 0)));
    [apply new_node_fresh|apply set_4_wf|left; by apply fork_reach| |vm_compute; by split].
  apply (list_elem_of_lookup_2 _ 3). vm_compute. reflexivity.
Defined.

(** The node that locked the first block of the fork and prevoted the second. *)
Lemma lock_discipline_witness :
  moved_on chain_c set_4 1 0 2 (blockHashKey (vt_BlockHash (vote_at 3 (fork_node 0)))).
Proof.
  apply (lock_discipline clock_5 2 (new_node Byte.x0a) (fork_node 0) config_c set_4 1 None
           (take 3 (cs_trace (fork_node 0))) (take 5 (drop 4 (cs_trace (fork_node 0))))
           (drop 10 (cs_trace (fork_node 0)))
           set_4 (vote_at 3 (fork_node 0)) set_4 (vote_at 9 (fork_node 0)));
    [apply new_node_fresh|apply set_4_wf|left; by apply fork_reach|vm_compute; reflexivity..|
     vm_compute; by split|vm_compute; by split|vm_compute; congruence].
Defined.
