(* ===== verification/Progress.v ===== *)
(** * Progress of a node

    A node that has the block and the prevotes for it precommits it; a node that holds a block
    commits it when the precommits on record for its round become a quorum: provided that what it
    calls works, the encoder, the log, and the executor on this block. Messages of the committed
    height that are still to come change nothing. *)

From S2P Require Export Runs.

(** ** The votes of a round *)

Lemma votesEqual_index a b : votesEqual a b = true -> vt_ValidatorIndex a = vt_ValidatorIndex b.
Proof. unfold votesEqual. destruct (_ || _); [done|]. by destruct (Z.eqb_spec (vt_ValidatorIndex a) (vt_ValidatorIndex b)). Qed.

Section Tally.
Context `{Crypto} `{Cramberry}.

(** [log] is what the vote sets of a height have recorded as votes of a type in a round. *)
Definition tallied (typ : Z) (hvs : HeightVoteSet) (round : Z) (log : list Vote) : Prop :=
  match location hvs typ round with
  | Some l => exists s, hvs_heap hvs !! l = Some s /\ represents s log
  | None => log = []
  end.

(** A vote for a block that a vote set accepts, if the clock agrees. *)
Record good_vote (typ : Z) (chainID : string) (vals : ValidatorSet) (height round : Z) (h : Hash) (v : Vote) : Prop := {
  gv_type : vt_Type v = typ;
  gv_height : vt_Height v = height;
  gv_round : vt_Round v = round;
  gv_block : vt_BlockHash v = Some h;
  gv_ok : vote_ok chainID vals v }.

(** The timestamp is close enough to a reading of the clock. *)
Definition timely (now : Z) (v : Vote) : Prop :=
  now - MaxTimestampDrift <= vt_Timestamp v <= now + MaxTimestampDrift.

Definition voting (typ : Z) : Prop := typ = VoteTypePrevote \/ typ = VoteTypePrecommit.

(** The set that [AddVote] looks up or creates. *)
Definition set_at (hvs : HeightVoteSet) (typ round : Z) : HeightVoteSet * nat :=
  if typ =? VoteTypePrevote then prevotes_at hvs round else precommits_at hvs round.

Lemma set_at_ok hvs typ round : HeightVoteSet_inv False hvs -> HeightVoteSet_inv False (set_at hvs typ round).1.
Proof. intros Hok. unfold set_at. destruct (_ =? _); [by apply prevotes_at_ok|by apply precommits_at_ok]. Qed.

Lemma set_at_static hvs typ round :
  hvs_height (set_at hvs typ round).1 = hvs_height hvs /\ hvs_chainID (set_at hvs typ round).1 = hvs_chainID hvs /\
  hvs_validatorSet (set_at hvs typ round).1 = hvs_validatorSet hvs.
Proof. unfold set_at, prevotes_at, precommits_at. by repeat case_match. Qed.

Lemma set_at_tallied hvs typ round log :
  voting typ -> HeightVoteSet_inv False hvs -> tallied typ hvs round log ->
  exists s, hvs_heap (set_at hvs typ round).1 !! (set_at hvs typ round).2 = Some s /\ represents s log /\
    location (set_at hvs typ round).1 typ round = Some (set_at hvs typ round).2.
Proof.
  intros Htyp Hok Ht. unfold tallied, location, set_at, Prevotes, Precommits, prevotes_at, precommits_at in *.
  destruct Htyp as [-> | ->]; cbn [Z.eqb Pos.eqb VoteTypePrevote VoteTypePrecommit] in *.
  - destruct (hvs_prevotes hvs !! round) as [l|] eqn:E; [destruct Ht as (s & Hs & Hr); by exists s|subst log].
    exists (newVoteSetWithParent hvs round VoteTypePrevote). cbn.
    rewrite list_lookup_middle, lookup_insert_eq by done. split_and!; [done|by eapply new_set_represents|done].
  - destruct (hvs_precommits hvs !! round) as [l|] eqn:E; [destruct Ht as (s & Hs & Hr); by exists s|subst log].
    exists (newVoteSetWithParent hvs round VoteTypePrecommit). cbn.
    rewrite list_lookup_middle, lookup_insert_eq by done. split_and!; [done|by eapply new_set_represents|done].
Qed.

(** The sets of the other type stay as they are. *)
Lemma set_at_other hvs typ typ' round log :
  voting typ -> typ' <> typ -> tallied typ' hvs round log -> tallied typ' (set_at hvs typ round).1 round log.
Proof.
  intros Htyp Hne. unfold tallied, location, set_at, Prevotes, Precommits, prevotes_at, precommits_at.
  assert (Happ : forall l x h, (exists s, hvs_heap hvs !! l = Some s /\ represents s h) ->
    exists s, (hvs_heap hvs ++ [x]) !! l = Some s /\ represents s h).
  { intros l x h (s & Hs & Hr). exists s. split; [by apply lookup_app_l_Some|done]. }
  destruct Htyp as [-> | ->]; cbn [Z.eqb Pos.eqb VoteTypePrevote VoteTypePrecommit].
  - rewrite (proj2 (Z.eqb_neq typ' VoteTypePrevote) Hne).
    destruct (hvs_prevotes hvs !! round); cbn; repeat case_match; eauto.
  - destruct (Z.eqb_spec typ' VoteTypePrecommit) as [|_]; [done|].
    destruct (hvs_precommits hvs !! round); cbn; repeat case_match; eauto.
Qed.

(** The set at a location is the current one of its type and round. *)
Lemma location_current hvs typ round l :
  HeightVoteSet_inv False hvs -> location hvs typ round = Some l ->
  exists s, hvs_heap hvs !! l = Some s /\ set_current hvs typ round s.
Proof.
  intros Hok Hl. unfold location in Hl. destruct (Z.eqb_spec typ VoteTypePrevote) as [-> |]; [by apply (hok_prevotes _ _ Hok)|].
  destruct (Z.eqb_spec typ VoteTypePrecommit) as [-> |]; [by apply (hok_precommits _ _ Hok)|done].
Qed.

(** [AddVote] works on that set. *)
Lemma AddVote_eq now hvs v :
  voting (vt_Type v) -> vt_Height v = hvs_height hvs ->
  HeightVoteSet_AddVote now v hvs =
    call_AddVote now (set_at hvs (vt_Type v) (vt_Round v)).2 v (set_at hvs (vt_Type v) (vt_Round v)).1.
Proof.
  intros Htyp Eh. unfold HeightVoteSet_AddVote, set_at. rewrite Eh, Z.eqb_refl.
  destruct Htyp as [-> | ->]; cbn [negb Z.eqb Pos.eqb VoteTypePrevote VoteTypePrecommit];
    [by destruct (prevotes_at _ _)|by destruct (precommits_at _ _)].
Qed.

Lemma set_at_location hvs typ round :
  voting typ -> location (set_at hvs typ round).1 typ round = Some (set_at hvs typ round).2.
Proof. intros [-> | ->]; [apply prevotes_at_grows|apply precommits_at_grows]. Qed.

(** A call on one set leaves those of the other type. *)
Lemma call_other {A} hvs typ typ' round l (f : VoteSet -> VoteSet * res A) log :
  HeightVoteSet_inv False hvs -> location hvs typ round = Some l -> typ' <> typ ->
  tallied typ' hvs round log -> tallied typ' (call l f hvs).1 round log.
Proof.
  intros Hok Hl Hne Ht. unfold call. destruct (hvs_heap hvs !! l) as [s|] eqn:Hs; [|done].
  destruct (f s) as [s2 r]. unfold tallied in *. cbn.
  change (location (with_heap _ hvs) typ' round) with (location hvs typ' round).
  destruct (location hvs typ' round) as [l'|] eqn:El'; [|done]. destruct Ht as (t & Htl & Htr). exists t. split; [|done].
  rewrite list_lookup_insert_ne; [done|]. intros <-.
  destruct (location_current _ _ _ _ Hok El') as (t1 & T1 & _ & _ & _ & D1 & _).
  destruct (location_current _ _ _ _ Hok Hl) as (t2 & T2 & _ & _ & _ & D2 & _). congruence.
Qed.

Lemma AddVote_other now hvs typ v log :
  voting (vt_Type v) -> vt_Height v = hvs_height hvs -> HeightVoteSet_inv False hvs -> typ <> vt_Type v ->
  tallied typ hvs (vt_Round v) log -> tallied typ (HeightVoteSet_AddVote now v hvs).1 (vt_Round v) log.
Proof.
  intros Htyp Eh Hok Hne Ht. rewrite AddVote_eq by done.
  eapply (call_other _ (vt_Type v)); [by apply set_at_ok|by apply set_at_location|done|by apply set_at_other].
Qed.

Lemma AddVote_no_panic now hvs v msg :
  (forall chainID, exists m, VoteSignBytes chainID (Some v) = Ret m) ->
  voting (vt_Type v) -> vt_Height v = hvs_height hvs -> HeightVoteSet_inv False hvs ->
  (HeightVoteSet_AddVote now v hvs).2 <> Panic msg.
Proof.
  intros Hs Htyp Eh Hok. rewrite AddVote_eq by done.
  destruct (location_current _ _ _ _ (set_at_ok hvs (vt_Type v) (vt_Round v) Hok) (set_at_location hvs _ (vt_Round v) Htyp))
    as (s & El & _).
  unfold call_AddVote, call. rewrite El. unfold VoteSet_AddVote, addVoteInternal.
  destruct (Hs (vset_chainID s)) as [m Hm]. rewrite Hm. by repeat case_match; simplify_eq.
Qed.

(** A good vote of a validator that has not voted yet is recorded. *)
Lemma AddVote_good hvs typ now round h log v :
  voting typ -> HeightVoteSet_inv False hvs -> tallied typ hvs round log ->
  good_vote typ (hvs_chainID hvs) (hvs_validatorSet hvs) (hvs_height hvs) round h v -> timely now v ->
  vt_ValidatorIndex v ∉ vt_ValidatorIndex <$> log ->
  exists hvs', HeightVoteSet_AddVote now v hvs = (hvs', Ret true) /\ tallied typ hvs' round (log ++ [v]) /\
    is_Some (location hvs' typ round).
Proof.
  intros Htyp Hok Ht [Et Eh Er Eb Hv] Hrec Hnew.
  destruct (set_at_tallied hvs typ round log Htyp Hok Ht) as (s & Hs & Hr & Hp).
  destruct (set_at_static hvs typ round) as (Eh' & Ec' & Ev'). pose proof (set_at_ok hvs typ round Hok) as Hok'.
  rewrite AddVote_eq by (by rewrite ?Et). rewrite Et, Er.
  destruct (set_at hvs typ round) as [hvs1 l] eqn:E1. cbn [fst snd] in *.
  destruct (location_current _ _ _ _ Hok' Hp) as (s' & Hs' & C1 & C2 & C3 & C4 & C5 & C6).
  assert (s' = s) as -> by congruence.
  assert (Ha : add_outcome s log v (VoteSet_AddVote now (hvs_generation hvs1) s v)).
  { assert (Est : is_stale (hvs_generation hvs1) s = false)
      by (unfold is_stale; rewrite C6, Z.eqb_refl; apply andb_false_r).
    assert (Em : vote_matches s v = true) by (unfold vote_matches; by rewrite C2, C3, C4, Et, Eh, Er, Eh', !Z.eqb_refl).
    unfold VoteSet_AddVote, timely in *. rewrite Est, Em, Z.gtb_ltb. cbn [negb].
    rewrite (proj2 (Z.ltb_ge _ _)), (proj2 (Z.ltb_ge _ _)) by lia. by apply addVoteInternal_cases. }
  assert (Hok1 : vote_ok (vset_chainID s) (vset_validatorSet s) v) by (by rewrite C1, C5, Ec', Ev').
  unfold call_AddVote, call. rewrite Hs. destruct (VoteSet_AddVote _ _ _ _) as [s2 [[|]|e|msg]]; cbn in Ha.
  - eexists. split; [done|]. unfold tallied.
    change (location (with_heap _ hvs1) typ round) with (location hvs1 typ round). rewrite Hp. split; [|done].
    exists s2. split; [|apply Ha]. apply list_lookup_insert_eq. by eapply lookup_lt_Some.
  - destruct Ha as (_ & old & Hin & He). exfalso. apply Hnew. apply votesEqual_index in He as <-.
    by apply list_elem_of_fmap_2.
  - exfalso. destruct Ha as (_ & [[_ Hu]|[[_ Hn]|(_ & _ & old & Hin & He & _)]]); [|done|].
    + destruct Hok1 as (val & m & Hg & Hn & _). by apply (Hu val).
    + apply Hnew. rewrite <- He. by apply list_elem_of_fmap_2.
  - exfalso. destruct Ha as [_ Ha], Hok1 as (val & m & _ & _ & Hm' & _). congruence.
Qed.

(** A set with a quorum for a block reports the block. *)
Lemma quorum_only vset log d h :
  represents vset log -> IsHashEmpty (Some d) = false -> has_quorum (vset_validatorSet vset) log (blockHashKey (Some d)) ->
  has_quorum (vset_validatorSet vset) log (blockHashKey h) -> h = Some d.
Proof.
  intros Hr Hne Hq Hh. apply blockHashKey_Some; [done|].
  by eapply quorum_unique; [apply (rep_vals _ _ Hr)|apply (rep_distinct _ _ Hr)|..].
Qed.

Lemma quorum_reported vset log d :
  represents vset log -> IsHashEmpty (Some d) = false -> has_quorum (vset_validatorSet vset) log (blockHashKey (Some d)) ->
  VoteSet_TwoThirdsMajority vset = (Some d, true).
Proof.
  intros Hr Hne Hq. pose proof (TwoThirds_cases _ _ Hr) as Hc. destruct (VoteSet_TwoThirdsMajority vset) as [h [|]].
  - f_equal. by eapply quorum_only, Hc.
  - by destruct Hc as [_ Hc]; destruct (Hc _ Hq).
Qed.
End Tally.

(** ** Calls that work *)

Section Progress.
#[local] Set Default Proof Using "Type*".
Context `{Crypto} `{Cramberry} `{MapOrder}.
Context {PV X W : Type} `{PrivValidator PV} `{!BlockExecutor X} `{!ExecutorLaws X} `{WAL W}.
Variables (clock : nat -> Z) (fuel : nat).

Notation CS := (ConsensusState PV X W).

(** What the node needs to decide on a block: votes and states can be encoded, the log takes messages,
    and the executor applies the block, with updates that make up a validator set. *)
Record works (vals : ValidatorSet) (b : Block) : Prop := {
  works_votes : forall v, exists data, marshal_Vote v = Ret data;
  works_state : forall st, exists data, marshal_ConsensusStateData st = Ret data;
  works_evidence : forall d msg, marshal_DuplicateVoteEvidence d <> Panic msg;
  works_Write : forall msg (w : W), (wal_Write msg w).2 = Ret tt;
  works_WriteSync : forall msg (w : W), (wal_WriteSync msg w).2 = Ret tt;
  works_executor : forall c (x : X), exists us, (exec_ApplyBlock b c x).2 = Ret us /\
    (us = [] \/ exists vals', applyValidatorUpdates vals us = Ret vals') }.

(** A computation that ends, without a panic, with a result and a state as described. *)
Definition finishes {A} (Q : A -> CS -> Prop) (o : outcome CS A) : Prop := postF False Q (fun _ => False) o.

(** The fields that the calls of a handler leave alone. *)
Definition kept (s s' : CS) : Prop := same s s' /\ cs_privVal s' = cs_privVal s /\ cs_onVote s' = cs_onVote s.

Lemma kept_trans s1 s2 s3 : kept s1 s2 -> kept s2 s3 -> kept s1 s3.
Proof. intros (S1 & P1 & O1) (S2 & P2 & O2). split_and!; [by eapply same_trans|congruence..]. Qed.

(** A computation that ends and changes none of them. *)
Definition quiet {A} (m : M CS A) (R : CS -> A -> Prop) : Prop :=
  forall s, finishes (fun a s' => kept s s' /\ R s a) (m s).

Lemma finishes_bind {A B} (m : M CS A) (k : A -> M CS B) Q s :
  finishes (fun a s' => finishes Q (k a s')) (m s) -> finishes Q (mbind m k s).
Proof. apply post_bind. Qed.

Lemma finishes_mono {A} (Q Q' : A -> CS -> Prop) o : finishes Q o -> (forall a s, Q a s -> Q' a s) -> finishes Q' o.
Proof. intros Ho Hq. by eapply post_mono. Qed.

Lemma finishes_eq {A} (Q : A -> CS -> Prop) o : finishes Q o <-> exists a s, o = Done a s /\ Q a s.
Proof. destruct o as [a s|msg s|]; cbn; [|split; [done|by intros (? & ? & ? & _)]..]. split; [eauto|by intros (? & ? & [= -> ->] & ?)]. Qed.

Lemma quiet_bind {A B} (m : M CS A) (k : A -> M CS B) R Q s :
  quiet m R -> (forall a s', kept s s' -> R s a -> finishes Q (k a s')) -> finishes Q (mbind m k s).
Proof. intros Hm Hk. apply finishes_bind. eapply finishes_mono; [apply Hm|]. intros a s' [Hs HR]. by apply Hk. Qed.

Lemma time_Now_quiet : quiet (time_Now clock) (fun _ _ => True).
Proof. intros s. by cbn. Qed.

Lemma scheduleTimeout_quiet ti : quiet (scheduleTimeout (PV := PV) (X := X) (W := W) ti) (fun _ _ => True).
Proof. intros s. by cbn. Qed.

Section Working.
Context (vals : ValidatorSet) (b : Block) (Hw : works vals b).

Lemma VoteSignBytes_works chainID v : exists m, VoteSignBytes chainID (Some v) = Ret m.
Proof. unfold VoteSignBytes. destruct (works_votes _ _ Hw (canonical_vote v)) as [data ->]. cbn. eauto. Qed.

Lemma VerifyVoteSignature_works chainID v pk msg : VerifyVoteSignature chainID v pk <> Panic msg.
Proof.
  destruct v as [v|]; [|done]. unfold VerifyVoteSignature. destruct (_ =? 0); [done|]. destruct (negb _); [done|].
  destruct (VoteSignBytes_works chainID v) as [m ->]. cbn. by destruct (negb _).
Qed.

Lemma checked_works chainID r f msg : (forall msg, r <> Panic msg) -> rwrap (unless_empty chainID r) f <> Panic msg.
Proof. intros Hr. unfold rwrap, unless_empty. specialize (Hr msg). destruct (bool_decide _); [done|]. destruct r; congruence. Qed.

Lemma VerifyDuplicateVoteEvidence_works d chainID vs msg : VerifyDuplicateVoteEvidence d chainID vs <> Panic msg.
Proof.
  unfold VerifyDuplicateVoteEvidence. destruct d as [d|]; [|done]. destruct vs as [vs|]; [|done].
  repeat (case_match; [done|]). destruct (GetByName _ _) as [val|]; [|done].
  pose proof (VerifyVoteSignature_works chainID (Some (dve_VoteA d)) (nv_PublicKey val) msg).
  pose proof (VerifyVoteSignature_works chainID (Some (dve_VoteB d)) (nv_PublicKey val) msg).
  destruct (VerifyVoteSignature _ (Some (dve_VoteA _)) _), (VerifyVoteSignature _ (Some (dve_VoteB _)) _); cbn; congruence.
Qed.

Lemma CheckVote_works now v vs chainID pool msg : (CheckVote now v vs chainID pool).2 <> Panic msg.
Proof.
  unfold CheckVote. destruct v as [v|]; [|done]. destruct vs as [vs|]; [|done]. destruct (GetByName _ _) as [val|]; [|done].
  destruct (rwrap _ _) as [[]|e|m] eqn:E; [|done|by apply checked_works in E; [|apply VerifyVoteSignature_works]].
  destruct (_ !! _) as [old|]; [|by repeat case_match]. destruct (votesForSameBlock _ _); [done|]. cbn [snd].
  clear E. generalize (make_evidence now old v vs val). intros ev.
  pose proof (checked_works chainID (VerifyDuplicateVoteEvidence (Some ev) chainID (Some vs))
    (fun e => wrapf e "created invalid evidence: %w") msg (VerifyDuplicateVoteEvidence_works _ _ _)) as Hc.
  unfold rbind. destruct (rwrap _ _) as [[]|e|m]; [done|done|]. by intros [= ->].
Qed.

Lemma AddDuplicateVoteEvidence_works d chainID vs pool msg : (AddDuplicateVoteEvidence d chainID vs pool).2 <> Panic msg.
Proof.
  unfold AddDuplicateVoteEvidence. destruct d as [d|]; [|done].
  destruct (rwrap _ _) as [[]|e|m] eqn:E; [|done|by apply checked_works in E; [|apply VerifyDuplicateVoteEvidence_works]].
  destruct (rwrap (marshal_DuplicateVoteEvidence d) _) as [data|e|m] eqn:E2; [|done|].
  - unfold AddEvidence. by repeat case_match.
  - pose proof (works_evidence _ _ Hw d m). unfold rwrap in E2. destruct (marshal_DuplicateVoteEvidence d); congruence.
Qed.

Lemma check_evidence_quiet v : quiet (check_evidence (PV := PV) (X := X) (W := W) clock v) (fun _ _ => True).
Proof.
  intros s. unfold check_evidence. rewrite bind_mget. destruct (cs_evidencePool s) as [pool|]; [|by cbn].
  eapply quiet_bind; [apply time_Now_quiet|]. intros now s1 S1 _.
  pose proof (CheckVote_works now (Some v) (Some (rs_validatorSet (cs_state s))) (cf_ChainID (cs_config s)) pool) as Hp.
  destruct (CheckVote _ _ _ _ _) as [pool1 r]. cbn in Hp.
  rewrite bind_mmodify. destruct r as [[d|]|e|msg]; [|by split..|by destruct (Hp msg)]. cbn [mtry].
  pose proof (AddDuplicateVoteEvidence_works (Some d) (cf_ChainID (cs_config s)) (Some (rs_validatorSet (cs_state s))) pool1) as Ha.
  destruct (AddDuplicateVoteEvidence _ _ _ _) as [pool2 r]. cbn in Ha. rewrite bind_mmodify.
  destruct r as [[]|e|msg]; [by split..|by destruct (Ha msg)].
Qed.

Lemma wal_write_quiet sync msg e1 e2 :
  (exists m, msg = Ret m) -> quiet (wal_write (PV := PV) (X := X) sync msg e1 e2) (fun _ _ => True).
Proof.
  intros [m ->] s. unfold wal_write. destruct (cs_wal s) as [w|]; [|by cbn].
  pose proof (works_Write _ _ Hw m w). pose proof (works_WriteSync _ _ Hw m w).
  destruct sync; [destruct (wal_WriteSync m w) as [w' r]|destruct (wal_Write m w) as [w' r]]; cbn in *; by subst r.
Qed.

Lemma vote_message_works h r v : exists m, NewVoteMessage h r v = Ret m.
Proof. unfold NewVoteMessage. destruct (works_votes _ _ Hw v) as [data ->]. cbn. eauto. Qed.

(** A state with a lock: the hashes are those of blocks that have one. *)
Lemma writeState_quiet locked d d' :
  BlockHash (Some locked) = Ret d -> BlockHash (Some b) = Ret d' -> forall s,
  rs_lockedBlock (cs_state s) = Some locked -> rs_validBlock (cs_state s) = Some b ->
  finishes (fun _ s' => kept s s') (writeStateLocked (PV := PV) (X := X) (W := W) s).
Proof.
  intros Hd Hd' s El Ev. unfold writeStateLocked. rewrite bind_get_state, bind_mget.
  destruct (cs_wal s) as [w|]; [|by cbn]. rewrite El, Ev. unfold hash_of_block. rewrite Hd, Hd'.
  apply finishes_bind, finishes_bind. cbn [mtry mret finishes postF].
  apply finishes_bind, finishes_bind. cbn [mtry mret finishes postF].
  eapply finishes_mono; [apply wal_write_quiet|by intros ? ? [? _]].
  unfold NewStateMessage. match goal with |- context [marshal_ConsensusStateData ?st] => destruct (works_state _ _ Hw st) as [data ->] end.
  cbn. eauto.
Qed.

Lemma apply_block_quiet c :
  quiet (apply_block (PV := PV) (X := X) (W := W) b c)
    (fun _ us => (forall u, u ∈ us -> in_i64 (vu_VotingPower u)) /\ (us = [] \/ exists vals', applyValidatorUpdates vals us = Ret vals')).
Proof.
  intros s. unfold apply_block. rewrite bind_mget. destruct (cs_blockExecutor s) as [x|] eqn:Ex.
  - apply finishes_bind. unfold exec_call. rewrite Ex. destruct (works_executor _ _ Hw c x) as (us & Hu & Hv).
    pose proof (exec_powers b c x us Hu) as Hp. destruct (exec_ApplyBlock b c x) as [x' r]. cbn in *. by subst r.
  - cbn. split; [done|]. split; [by intros u ?%not_elem_of_nil|by left].
Qed.

Lemma next_validators_quiet us :
  ValidatorSet_wf vals -> (us = [] \/ exists vals', applyValidatorUpdates vals us = Ret vals') ->
  quiet (next_validators (PV := PV) (X := X) (W := W) vals us) (fun _ _ => True).
Proof.
  intros Hv Hu s. unfold next_validators. destruct (Z.ltb_spec 0 (len us)) as [Hl|].
  - destruct Hu as [->|[vals' ->]]; [by cbn in Hl|]. by cbn.
  - rewrite (WithIncrementedPriority_wf _ _ Hv). by cbn.
Qed.
End Working.

Lemma deref_set_quiet {B} l v s (Q : B -> CS -> Prop) (k : VoteSet -> M CS B) :
  hvs_heap (rs_votes (cs_state s)) !! l = Some v -> finishes Q (k v s) -> finishes Q (mbind (deref_set l) k s).
Proof. intros Hl Hk. apply finishes_bind. unfold deref_set. rewrite bind_get_state, Hl. exact Hk. Qed.

(** ** A node that waits for precommits *)

(** The handlers for some messages, one after the other. *)
Fixpoint handle_all (l : list input) : M CS unit :=
  match l with [] => mret tt | i :: l => mbind (handle clock fuel i) (fun _ => handle_all l) end.

Lemma handle_all_app l k (s : CS) (Q : CS -> Prop) :
  finishes (fun _ s' => finishes (fun _ s' => Q s') (handle_all k s')) (handle_all l s) ->
  finishes (fun _ s' => Q s') (handle_all (l ++ k) s).
Proof.
  revert s. induction l as [|i l IH]; intros s; [done|]. cbn [app handle_all]. intros Hf.
  apply finishes_bind. unfold mbind in Hf. destruct (handle clock fuel i s) as [[] s1|msg s1|]; cbn in *.
  all: done || by apply IH.
Qed.

Lemma handle_votes_keep chainID h0 vs : keeps chainID h0 (handle_all (In_vote <$> vs)).
Proof. induction vs as [|v vs IH]; [apply keeps_ret|]. apply keeps_bind; [apply handleVote_keeps|done]. Qed.

(** The timestamp is close enough to the clock at every reading. *)
Definition on_time (v : Vote) : Prop := forall n, timely (clock n) v.

(** A vote that a vote set accepts whenever it arrives. *)
Definition welcome (typ : Z) (chainID : string) (vals : ValidatorSet) (height round : Z) (h : Hash) (v : Vote) : Prop :=
  good_vote typ chainID vals height round h v /\ on_time v.

(** A handler keeps the invariant. *)
Lemma finishes_keeps {A} chainID h0 (m : M CS A) Q s :
  keeps chainID h0 m -> inv chainID h0 s -> finishes Q (m s) -> finishes (fun a s' => Q a s' /\ inv chainID h0 s') (m s).
Proof. intros Hk Hi. specialize (Hk s Hi). by destruct (m s). Qed.

Lemma inv_AddVote chainID h0 (s : CS) n k v hvs r :
  inv chainID h0 s -> HeightVoteSet_AddVote n v (rs_votes (cs_state s)) = (hvs, r) ->
  inv chainID h0 (with_state (set_votes hvs (cs_state s)) (with_ticks k s)).
Proof. intros [Hc Hi] Ea. split; [done|]. pose proof (inv_on_set_votes _ _ _ _ n v Hi) as Hi'. by rewrite Ea in Hi'. Qed.

(** A welcome vote of a validator without one is recorded. *)
Lemma node_AddVote chainID h0 (s : CS) typ n d log v :
  inv chainID h0 s -> voting typ ->
  welcome typ chainID (rs_validatorSet (cs_state s)) (rs_height (cs_state s)) (rs_round (cs_state s)) d v ->
  tallied typ (rs_votes (cs_state s)) (rs_round (cs_state s)) log -> vt_ValidatorIndex v ∉ vt_ValidatorIndex <$> log ->
  exists hvs, HeightVoteSet_AddVote (clock n) v (rs_votes (cs_state s)) = (hvs, Ret true) /\
    tallied typ hvs (rs_round (cs_state s)) (log ++ [v]) /\ is_Some (location hvs typ (rs_round (cs_state s))).
Proof.
  intros [_ Hi] Htyp [Hg Ht] Hl Hnew. pose proof (inv_rs _ _ _ _ Hi) as Hok.
  eapply AddVote_good; [done|apply (rok_votes _ _ Hok)|done| |apply Ht|done].
  by rewrite (rok_chain _ _ Hok), (rok_vset _ _ Hok), (rok_height _ _ Hok).
Qed.

Section Votes.
Context (vals : ValidatorSet) (b : Block) (Hw : works vals b) (chainID : string) (h0 : Z).

(** What is left of the handler when the calls before [AddVote] have worked. *)
Lemma handleVote_then v s Q :
  (forall s' hvs r, kept s s' -> HeightVoteSet_AddVote (clock (cs_ticks s')) v (rs_votes (cs_state s')) = (hvs, r) ->
    finishes Q (mtry r (fun added => if added : bool then vote_added clock (after_vote clock fuel) v else mret tt)
      (fun _ => mret tt) (with_state (set_votes hvs (cs_state s')) (with_ticks (S (cs_ticks s')) s')))) ->
  finishes Q (handleVote clock fuel v s).
Proof.
  intros Hk. unfold handleVote.
  eapply quiet_bind; [by eapply check_evidence_quiet|]. intros _ s1 S1 _.
  eapply quiet_bind; [eapply wal_write_quiet, vote_message_works; done|]. intros _ s2 S2 _.
  specialize (Hk s2). apply finishes_bind.
  unfold votes_AddVote, mbind, time_Now, get_state, put, mmodify, mret. cbn [cs_state cs_ticks with_ticks].
  destruct (HeightVoteSet_AddVote _ _ _) as [hvs r]. cbn [finishes postF]. apply Hk; [by eapply kept_trans|done].
Qed.

(** A vote of another height is not added. *)
Lemma handleVote_ignored s v :
  inv chainID h0 s -> vt_Height v <> rs_height (cs_state s) ->
  finishes (fun _ s' => rs_height (cs_state s') = rs_height (cs_state s) /\ cs_trace s' = cs_trace s) (handleVote clock fuel v s).
Proof.
  intros Hi Hh. apply handleVote_then. intros s2 hvs r [S2 _]. pose proof (inv_same _ _ _ _ S2 Hi) as [_ Hi2].
  destruct S2 as (_ & E2 & T2). unfold HeightVoteSet_AddVote. rewrite (rok_height _ _ (inv_rs _ _ _ _ Hi2)), E2.
  rewrite (proj2 (Z.eqb_neq _ _) Hh). intros [= <- <-]. by cbn.
Qed.

Lemma handle_votes_ignored vs s :
  inv chainID h0 s -> Forall (fun v => vt_Height v <> rs_height (cs_state s)) vs ->
  finishes (fun _ s' => rs_height (cs_state s') = rs_height (cs_state s) /\ cs_trace s' = cs_trace s)
    (handle_all (In_vote <$> vs) s).
Proof.
  revert s. induction vs as [|v vs IH]; intros s Hi Hh; [done|]. apply Forall_cons in Hh as [Hv Hh].
  cbn [fmap list_fmap handle_all handle]. apply finishes_bind.
  eapply finishes_mono; [apply finishes_keeps; [apply handleVote_keeps|exact Hi|by apply handleVote_ignored]|].
  intros [] s' [[Eh Et] Hi']. rewrite <- Eh, <- Et. apply IH; [done|by rewrite Eh].
Qed.
End Votes.

Section Waiting.
Variables (h0 : Z) (s0 : CS) (b : Block) (d : Hash).

Notation rs0 := (cs_state s0).
Notation vals := (rs_validatorSet rs0).
Notation chainID := (cf_ChainID (cs_config s0)).

(** The node [s0], after some precommits: their log, and perhaps another step, but no commit. *)
Record waiting (log : list Vote) (s : CS) : Prop := {
  wt_inv : inv chainID h0 s;
  wt_state : exists hvs step, rs_step rs0 <= step < RoundStepCommit /\ cs_state s = set_step step (set_votes hvs rs0);
  wt_trace : cs_trace s = cs_trace s0;
  wt_config : cs_config s = cs_config s0;
  wt_log : tallied VoteTypePrecommit (rs_votes (cs_state s)) (rs_round rs0) log }.

(** The block is committed, and the node at the next height. *)
Definition moved_up (s : CS) : Prop :=
  rs_height (cs_state s) = wrap64 (rs_height rs0 + 1) /\
  exists c, cm_BlockHash c = d /\ cs_trace s = cs_trace s0 ++ [Committed vals b c].

(** The set behind the log. *)
Lemma waiting_set log s :
  waiting log s -> is_Some (Precommits (rs_votes (cs_state s)) (rs_round rs0)) ->
  exists l vset, Precommits (rs_votes (cs_state s)) (rs_round rs0) = Some l /\
    hvs_heap (rs_votes (cs_state s)) !! l = Some vset /\ represents vset log /\
    vset_voteType vset = VoteTypePrecommit /\ vset_validatorSet vset = vals.
Proof.
  intros [[Hc Hi] (hvs & st & Hst & Es) _ _ Ht] [l Hl]. unfold tallied in Ht.
  change (location ?h VoteTypePrecommit ?r) with (Precommits h r) in Ht. rewrite Hl in Ht.
  destruct Ht as (vset & Hv & Hr). exists l, vset. split_and!; [done..| |].
  - destruct (hok_precommits _ _ (rok_votes _ _ (inv_rs _ _ _ _ Hi)) _ _ Hl) as (v' & Hv' & _ & _ & _ & C4 & _). congruence.
  - destruct (hok_precommits _ _ (rok_votes _ _ (inv_rs _ _ _ _ Hi)) _ _ Hl) as (v' & Hv' & _ & _ & _ & _ & C5 & _).
    assert (v' = vset) as -> by congruence. rewrite C5, (rok_vset _ _ (inv_rs _ _ _ _ Hi)), Es. done.
Qed.

Lemma waiting_same log s s' : kept s s' -> waiting log s -> waiting log s'.
Proof.
  intros [Hs _] [Hi Hst Ht Hc Hl]. pose proof (inv_same _ _ _ _ Hs Hi) as Hi'. destruct Hs as (E1 & E2 & E3).
  split; [done|by rewrite E2|congruence|congruence|by rewrite E2].
Qed.

(** *** No quorum yet *)

Hypotheses (Hw : works vals b) (Hskip : cf_SkipTimeoutCommit (cs_config s0) = false)
  (Hb : block_to_commit rs0 = Some b) (Hd : BlockHash (Some b) = Ret d) (Hne : IsHashEmpty (Some d) = false).

Lemma handlePrecommit_waits after log s v :
  waiting log s -> is_Some (Precommits (rs_votes (cs_state s)) (rs_round rs0)) -> vt_Round v = rs_round rs0 ->
  (forall h, IsHashEmpty h = false -> ~ has_quorum vals log (blockHashKey h)) ->
  finishes (fun _ s' => waiting log s') (handlePrecommitLocked clock after v s).
Proof.
  intros Hwt Hsome Hv Hq. destruct (waiting_set _ _ Hwt Hsome) as (l & vset & Hl & Hh & Hr & _ & Ev).
  unfold handlePrecommitLocked. rewrite bind_get_state, Hv, Hl. apply (deref_set_quiet _ vset); [done|].
  pose proof (TwoThirds_cases _ _ Hr) as Hc. destruct (VoteSet_TwoThirdsMajority vset) as [h ok].
  assert (ok && negb (IsHashEmpty h) = false) as ->.
  { destruct ok; [|done]. destruct Hc as [Hc _]. rewrite Ev in Hc. destruct (IsHashEmpty h) eqn:Eh; [done|]. by destruct (Hq h Eh). }
  destruct (wt_state _ _ Hwt) as (hvs & st & Hst & Es).
  assert (Er : rs_round (cs_state s) = rs_round rs0) by (by rewrite Es). rewrite Er, Z.gtb_ltb, Z.ltb_irrefl. cbn [andb].
  rewrite Z.eqb_refl. destruct (_ && _); [|exact Hwt].
  assert (Hk : forall height round, finishes (fun _ s' => waiting log s') (enterPrecommitWaitLocked height round s)).
  { intros height round. eapply finishes_mono; [apply (finishes_keeps chainID h0 _ (fun _ s' => (exists hvs step, rs_step rs0 <= step < RoundStepCommit /\ cs_state s' = set_step step (set_votes hvs rs0)) /\
      cs_trace s' = cs_trace s0 /\ cs_config s' = cs_config s0 /\ tallied VoteTypePrecommit (rs_votes (cs_state s')) (rs_round rs0) log));
      [apply enterPrecommitWait_keeps|apply Hwt|]|].
    - unfold enterPrecommitWaitLocked. rewrite bind_get_state. destruct (_ || _ || _) eqn:Eg; [by destruct Hwt|].
      rewrite bind_put. cbn. destruct Hwt as [_ _ Ht Hc' Hlg]. split_and!; [|done..]. exists hvs, RoundStepPrecommitWait.
      rewrite Es in *. cbn in Eg. bool_to_prop. split; [unfold RoundStepPrecommitWait, RoundStepCommit in *; lia|done].
    - intros [] s' [(? & ? & ? & ?) ?]. by split. }
  apply Hk.
Qed.
(** *** The quorum *)

(** The set with the quorum reports the block, and makes a commit of it. *)
Lemma quorum_set vset log :
  represents vset log -> vset_voteType vset = VoteTypePrecommit -> vset_validatorSet vset = vals ->
  has_quorum vals log (blockHashKey (Some d)) ->
  VoteSet_TwoThirdsMajority vset = (Some d, true) /\ exists c, MakeCommit vset = Some c /\ cm_BlockHash c = d.
Proof.
  intros Hr Ht Ev Hq. rewrite <- Ev in Hq. split; [by eapply quorum_reported|].
  pose proof (MakeCommit_cases _ _ Hr) as Hc. destruct (MakeCommit vset) as [c|].
  - destruct Hc as (_ & h & _ & Hh & ->). eapply quorum_only in Hh as [= ->]; [by eexists|done..].
  - by destruct (Hc Ht d Hne).
Qed.

Lemma finalize_moves c (s : CS) after :
  inv chainID h0 s -> cs_config s = cs_config s0 -> cs_trace s = cs_trace s0 -> cm_BlockHash c = d ->
  rs_height (cs_state s) = rs_height rs0 -> rs_validatorSet (cs_state s) = vals -> block_to_commit (cs_state s) = Some b ->
  finishes (fun _ s' => moved_up s') (finalizeCommitLocked clock after (rs_height rs0) c s).
Proof.
  intros [_ Hi] Ec Et Ed Eh Ev Eb. pose proof (rok_vals _ _ (inv_rs _ _ _ _ Hi)) as Hvals. rewrite Ev in Hvals.
  unfold finalizeCommitLocked. rewrite bind_get_state, Eb. apply finishes_bind. unfold hash_of_block. rewrite Hd. cbn [mtry mret finishes postF].
  rewrite Ed, HashEqual_refl. cbn [negb].
  eapply quiet_bind; [by eapply apply_block_quiet|]. intros us s1 [(C1 & E1 & T1) _] [_ Hu]. rewrite bind_emit, Ev.
  eapply quiet_bind; [by eapply next_validators_quiet|]. intros vals' s2 [(C2 & E2 & T2) _] _.
  eapply quiet_bind; [by eapply wal_write_quiet; eauto|]. intros _ s3 [(C3 & E3 & T3) _] _.
  rewrite bind_put, bind_mget. cbn [cs_config with_state]. rewrite C3, C2. cbn [cs_config with_trace]. rewrite C1, Ec, Hskip. cbn [negb].
  eapply finishes_mono; [apply scheduleTimeout_quiet|]. intros [] s4 [[(C4 & E4 & T4) _] _]. unfold moved_up. rewrite E4, T4. cbn. split; [done|].
  exists c. split; [done|]. rewrite T3, T2. cbn. by rewrite T1, Et.
Qed.

Lemma handlePrecommit_moves after log s v :
  waiting log s -> is_Some (Precommits (rs_votes (cs_state s)) (rs_round rs0)) -> vt_Round v = rs_round rs0 ->
  has_quorum vals log (blockHashKey (Some d)) -> (forall v, keeps chainID h0 (after v)) ->
  finishes (fun _ s' => moved_up s' /\ inv chainID h0 s') (handlePrecommitLocked clock after v s).
Proof.
  intros Hwt Hsome Hv Hq Hafter. destruct (waiting_set _ _ Hwt Hsome) as (l & vset & Hl & Hh & Hr & Ht & Ev).
  destruct (quorum_set vset log Hr Ht Ev Hq) as (Hmaj & c & Hc & Ed).
  apply finishes_keeps; [by apply handlePrecommit_keeps|apply Hwt|].
  destruct (wt_state _ _ Hwt) as (hvs & st & Hst & Es).
  assert (Er : rs_round (cs_state s) = rs_round rs0) by (by rewrite Es).
  pose proof (rok_round _ _ (inv_rs _ _ _ _ (proj2 (wt_inv _ _ Hwt)))) as Hpos. rewrite Er in Hpos.
  unfold handlePrecommitLocked. rewrite bind_get_state, Hv, Hl. apply (deref_set_quiet _ vset); [done|].
  rewrite Hmaj, Hne, Er, Z.gtb_ltb, Z.ltb_irrefl. cbn [andb negb]. rewrite bind_ret.
  unfold enterCommitLocked. rewrite bind_get_state, Z.eqb_refl. cbn [negb orb].
  assert (Hstep : rs_step (cs_state s) < RoundStepCommit) by (rewrite Es; apply Hst). rewrite Z.geb_leb, (proj2 (Z.leb_gt _ _) Hstep).
  rewrite bind_put. set (s1 := with_state _ s).
  assert (I1 : inv chainID h0 s1).
  { destruct (wt_inv _ _ Hwt) as [Hc1 Hi1]. split; [done|]. apply inv_on_step; [|lia|done]. unfold RoundStepNewHeight, RoundStepCommit. lia. }
  apply finishes_bind. rewrite Er. replace (Z.to_nat (rs_round rs0 + 1)) with (S (Z.to_nat (rs_round rs0))) by lia.
  cbn [find_commit]. rewrite bind_get_state, Z2Nat.id by done.
  change (rs_votes (cs_state s1)) with (rs_votes (cs_state s)). rewrite Hl.
  apply (deref_set_quiet _ vset); [done|]. rewrite Hmaj, Hne, Hc. cbn [andb negb mret finishes postF].
  assert (Ehh : rs_height (cs_state s) = rs_height rs0) by (by rewrite Es). rewrite Ehh.
  apply finalize_moves; [done|apply Hwt|apply Hwt|done|..]; unfold s1; cbn [cs_state with_state]; by rewrite Es.
Qed.

(** *** One vote *)

Notation good := (welcome VoteTypePrecommit chainID vals (rs_height rs0) (rs_round rs0) d).

Lemma handleVote_records log s v Q :
  waiting log s -> good v -> vt_ValidatorIndex v ∉ vt_ValidatorIndex <$> log ->
  (forall s', waiting (log ++ [v]) s' -> is_Some (Precommits (rs_votes (cs_state s')) (rs_round rs0)) ->
     finishes Q (handlePrecommitLocked clock (after_vote clock fuel) v s')) ->
  finishes Q (handleVote clock fuel v s).
Proof.
  intros Hwt Hg Hnew Hk. apply (handleVote_then vals b Hw). intros s2 hvs2 r S2 Ea.
  apply (waiting_same _ _ _ S2) in Hwt. clear S2 s. rename s2 into s.
  pose proof Hwt as [Hi (hvs & st & Hst & Es) Htr Hcf Hlog].
  assert (Er : rs_round (cs_state s) = rs_round rs0) by (by rewrite Es).
  destruct (node_AddVote chainID h0 s VoteTypePrecommit (cs_ticks s) d log v) as (hvs' & Ea' & Ht' & Hsome);
    [done|by right|by rewrite Es|by rewrite Er|done|].
  rewrite Ea' in Ea. injection Ea as <- <-. rewrite Er in Ht', Hsome.
  cbn [mtry]. unfold vote_added. rewrite (gv_type _ _ _ _ _ _ _ (proj1 Hg)).
  change (VoteTypePrecommit =? VoteTypePrevote) with false. change (VoteTypePrecommit =? VoteTypePrecommit) with true. cbn iota.
  apply Hk; [|exact Hsome]. split; [by eapply inv_AddVote| |done|done|done].
  exists hvs', st. split; [done|]. cbn. by rewrite Es.
Qed.

(** *** Many votes *)

Hypothesis (Hheight : 0 <= rs_height rs0 < MaxInt64).

(** Once the block is committed, the rest of the votes changes nothing. *)
Lemma moved_ignores vs s :
  moved_up s -> inv chainID h0 s -> Forall (fun v => vt_Height v = rs_height rs0) vs ->
  finishes (fun _ s' => moved_up s') (handle_all (In_vote <$> vs) s).
Proof.
  intros [Eh (c & Ed & Et)] Hi Hv. eapply finishes_mono; [eapply handle_votes_ignored; [exact Hw|exact Hi|]|].
  - eapply Forall_impl; [exact Hv|]. intros v ->. rewrite Eh, wrap64_small; [lia|].
    unfold in_i64, MinInt64, MaxInt64 in *; lia.
  - intros [] s' [Eh' Et']. split; [congruence|]. exists c. by rewrite Et'.
Qed.

Lemma handle_votes_commit vs log s :
  waiting log s -> Forall good vs -> NoDup (vt_ValidatorIndex <$> log ++ vs) ->
  ~ has_quorum vals log (blockHashKey (Some d)) -> has_quorum vals (log ++ vs) (blockHashKey (Some d)) ->
  finishes (fun _ s' => moved_up s') (handle_all (In_vote <$> vs) s).
Proof.
  revert log s. induction vs as [|v vs IH]; intros log s Hwt Hg Hn Hno Hq; [by rewrite app_nil_r in Hq|].
  apply Forall_cons in Hg as [Hv Hg]. replace (log ++ v :: vs) with ((log ++ [v]) ++ vs) in * by (by rewrite <- (assoc_L (++))).
  pose proof (rok_vals _ _ (inv_rs _ _ _ _ (proj2 (wt_inv _ _ Hwt)))) as Hvals.
  destruct (wt_state _ _ Hwt) as (hvs & st & _ & Es). rewrite Es in Hvals. cbn in Hvals.
  cbn [fmap list_fmap handle_all handle]. apply finishes_bind. apply (handleVote_records log); [done|done| |].
  { rewrite !fmap_app in Hn. apply NoDup_app in Hn as [Hn _]. apply NoDup_app in Hn as (_ & Hn & _).
    intros Hin. apply (Hn _ Hin). by apply list_elem_of_singleton. }
  intros s' Hwt' Hsome. pose proof (gv_round _ _ _ _ _ _ _ (proj1 Hv)) as Er.
  destruct (decide (2 * vals_TotalPower vals < 3 * sumZ (vote_power vals) (same_block (blockHashKey (Some d)) (log ++ [v])))) as [Hq'|Hq'].
  - eapply finishes_mono; [by apply (handlePrecommit_moves _ (log ++ [v])); [..|apply after_vote_keeps]|].
    intros [] s2 [Hm Hi]. apply moved_ignores; [done..|]. eapply Forall_impl; [exact Hg|]. by intros w [[] _].
  - eapply finishes_mono; [apply (handlePrecommit_waits _ (log ++ [v])); [done..|]|].
    + intros h Hh Hqh. apply Hq'. replace (blockHashKey (Some d)) with (blockHashKey h); [done|].
      eapply quorum_unique; [done|exact Hn|apply has_quorum_mono; [by apply wf_core|done]|done].
    + intros [] s2 Hwt2. by apply (IH (log ++ [v])).
Qed.
End Waiting.

(** C9: a node that holds a block commits it once the precommits that reach it for its round, together with
    those on record, are a quorum: it handles all of them, in any order, without a panic, is then at the
    next height, and has committed exactly this block, if the encoder, the log and the executor
    work. The votes may come from any validators, the node itself need not vote. *)
Theorem precommits_commit (start : CS) (config : Config) (vals0 : ValidatorSet) (h0 : Z) (lastCommit : option Commit) (s : CS)
    (b : Block) (d : Hash) (log votes : list Vote) :
  fresh_node start config vals0 -> ValidatorSet_wf vals0 -> reach clock fuel start h0 lastCommit s ->
  let rs := cs_state s in
  works (rs_validatorSet rs) b -> cf_SkipTimeoutCommit (cs_config s) = false ->
  block_to_commit rs = Some b -> BlockHash (Some b) = Ret d -> IsHashEmpty (Some d) = false ->
  0 <= rs_height rs < MaxInt64 -> rs_step rs < RoundStepCommit ->
  tallied VoteTypePrecommit (rs_votes rs) (rs_round rs) log ->
  Forall (welcome VoteTypePrecommit (cf_ChainID config) (rs_validatorSet rs) (rs_height rs) (rs_round rs) d) votes ->
  NoDup (vt_ValidatorIndex <$> log ++ votes) ->
  ~ has_quorum (rs_validatorSet rs) log (blockHashKey (Some d)) ->
  has_quorum (rs_validatorSet rs) (log ++ votes) (blockHashKey (Some d)) ->
  exists s' c, handle_all (In_vote <$> votes) s = Done tt s' /\ rs_height (cs_state s') = rs_height rs + 1 /\
    cm_BlockHash c = d /\ cs_trace s' = cs_trace s ++ [Committed (rs_validatorSet rs) b c].
Proof.
  intros Hf Hv Hr rs Hw Hskip Hb Hd Hne Hh Hst Ht Hg Hn Hno Hq.
  pose proof (reach_inv clock fuel start config vals0 h0 lastCommit Hf Hv s Hr) as Hi.
  pose proof Hi as [Hc _]. rewrite <- Hc in Hg.
  assert (Hwt : waiting h0 s log s).
  { split; [by rewrite Hc|exists (rs_votes rs), (rs_step rs); split; [unfold rs in *; lia|by destruct (cs_state s)]|done..]. }
  assert (Hf' : finishes (fun _ s' => moved_up s b d s') (handle_all (In_vote <$> votes) s)).
  { apply (handle_votes_commit h0 s b d Hw Hskip Hb Hd Hne Hh votes log s); done. }
  apply finishes_eq in Hf' as ([] & s' & E & Eh & c & Ed & Et). exists s', c. split_and!; [done| |done|done].
  rewrite Eh. apply wrap64_small. unfold in_i64, MinInt64, MaxInt64 in *. lia.
Qed.
End Progress.

(** ** An example

    The proposer of the first round holds its block; the precommits of the three others arrive. *)

Definition waiting_node : CS4 := start_node Byte.x0a.
Definition waiting_block : Block := default zeroBlock (block_to_commit (cs_state waiting_node)).
Definition waiting_hash : Hash := match BlockHash (Some waiting_block) with Ret h => h | _ => HashEmpty end.
Definition others_votes (typ : Z) : list Vote :=
  (fun v => vote_of v typ 1 0 (Some waiting_hash)) <$> tail (vals_Validators set_4).

Definition vote_ok_dec (v : Vote) : bool :=
  match GetByIndex set_4 (vt_ValidatorIndex v), VoteSignBytes chain_c (Some v) with
  | Some val, Ret m => bool_decide (nv_Name val = vt_Validator v) && VerifySignature (nv_PublicKey val) m (vt_Signature v)
  | _, _ => false
  end.

Definition welcome_dec (typ : Z) (v : Vote) : bool :=
  (vt_Type v =? typ) && (vt_Height v =? 1) && (vt_Round v =? 0) && bool_decide (vt_BlockHash v = Some waiting_hash) &&
  (vt_Timestamp v =? 5) && vote_ok_dec v.

Lemma welcome_dec_ok typ v : welcome_dec typ v = true -> welcome clock_5 typ chain_c set_4 1 0 waiting_hash v.
Proof.
  unfold welcome_dec, vote_ok_dec. rewrite !andb_true_iff, !Z.eqb_eq, bool_decide_eq_true.
  intros (((((? & ?) & ?) & ?) & Ht) & Hv). split; [split; [done..|]|].
  - destruct (GetByIndex set_4 _) as [val|] eqn:Eg; [|done]. destruct (VoteSignBytes _ _) as [m| |] eqn:Em; [|done..].
    apply andb_true_iff in Hv as [E ?]. apply bool_decide_eq_true in E. by exists val, m.
  - intros n. unfold timely, clock_5, MaxTimestampDrift. rewrite Ht. lia.
Qed.

Lemma others_welcome typ :
  voting typ -> Forall (welcome clock_5 typ chain_c set_4 1 0 waiting_hash) (others_votes typ).
Proof.
  intros Htyp. assert (E : forallb (welcome_dec typ) (others_votes typ) = true)
    by (destruct Htyp as [-> | ->]; vm_compute; reflexivity).
  apply Forall_forall. intros v Hv. apply welcome_dec_ok. rewrite forallb_forall in E. apply E. by apply list_elem_of_In.
Qed.

Lemma precommits_commit_witness :
  exists s' c, handle_all clock_5 2 (In_vote <$> (others_votes VoteTypePrecommit)) waiting_node = Done tt s' /\ rs_height (cs_state s') = 2 /\
    cm_BlockHash c = waiting_hash /\ cs_trace s' = cs_trace waiting_node ++ [Committed (rs_validatorSet (cs_state waiting_node)) waiting_block c].
Proof.
  apply (precommits_commit clock_5 2 (new_node Byte.x0a) config_c set_4 1 None waiting_node waiting_block waiting_hash [] (others_votes VoteTypePrecommit)).
  - apply new_node_fresh.
  - apply set_4_wf.
  - apply start_node_reach. vm_compute. reflexivity.
  - split; [by eexists|by eexists|done|done|done|]. intros c x. exists []. split; [done|by left].
  - vm_compute. reflexivity.
  - vm_compute. reflexivity.
  - vm_compute. reflexivity.
  - vm_compute. reflexivity.
  - vm_compute. split; congruence.
  - vm_compute. reflexivity.
  - vm_compute. reflexivity.
  - assert (E : rs_validatorSet (cs_state waiting_node) = set_4) by (vm_compute; reflexivity).
    assert (Er : rs_round (cs_state waiting_node) = 0) by (vm_compute; reflexivity).
    assert (Eh : rs_height (cs_state waiting_node) = 1) by (vm_compute; reflexivity).
    rewrite E, Er, Eh. apply others_welcome; by right.
  - apply (bool_decide_unpack _). vm_compute. reflexivity.
  - vm_compute. congruence.
  - vm_compute. reflexivity.
Defined.
