(* ===== verification/Polka.v ===== *)
(** * A quorum of prevotes

    A node that waits for prevotes with a block at hand locks the block and precommits it when the
    prevotes for the block become a quorum, and commits it when the precommits of the others make
    up a quorum with its own. *)

From S2P Require Export Progress.

Section Polka.
#[local] Set Default Proof Using "Type*".
Context `{Crypto} `{Cramberry} `{MapOrder}.
Context {PV X W : Type} `{PrivValidator PV} `{!BlockExecutor X} `{!ExecutorLaws X} `{WAL W}.
Variables (clock : nat -> Z) (fuel : nat).

Notation CS := (ConsensusState PV X W).

(** The precommit of a validator at the round of a node. *)
Definition precommit_for (rs : RoundState) (h : Hash) (own : Z) (val : NamedValidator) (now : Z) (sig : Signature) : Vote :=
  {| vt_Type := VoteTypePrecommit;
     vt_Height := rs_height rs;
     vt_Round := rs_round rs;
     vt_BlockHash := Some h;
     vt_Timestamp := now;
     vt_Validator := nv_Name val;
     vt_ValidatorIndex := own;
     vt_Signature := sig |}.

(** The node is the validator [own], and its private validator signs a precommit for the block
    whenever it is asked to, with a signature that the vote sets take. *)
Definition signer (s : CS) (h : Hash) (own : Z) : Prop :=
  let rs := cs_state s in
  exists pv w val, cs_privVal s = Some pv /\
    List.find (fun v => PublicKeyEqual (nv_PublicKey v) (pv_GetPubKey pv)) (vals_Validators (rs_validatorSet rs)) = Some w /\
    nv_Index w = own /\ GetByIndex (rs_validatorSet rs) own = Some val /\
    forall n, exists pv' sig,
      pv_SignVote (cf_ChainID (cs_config s)) (precommit_for rs h own val (clock n) (mkSignature [])) pv = (pv', Ret sig) /\
      welcome clock VoteTypePrecommit (cf_ChainID (cs_config s)) (rs_validatorSet rs) (rs_height rs) (rs_round rs) h
        (precommit_for rs h own val (clock n) sig).

Lemma signer_same (s s' : CS) h own :
  cs_config s' = cs_config s -> cs_privVal s' = cs_privVal s -> rs_height (cs_state s') = rs_height (cs_state s) ->
  rs_round (cs_state s') = rs_round (cs_state s) -> rs_validatorSet (cs_state s') = rs_validatorSet (cs_state s) ->
  signer s h own -> signer s' h own.
Proof. intros Ec Ep Eh Er Ev. unfold signer, precommit_for. by rewrite Ec, Ep, Eh, Er, Ev. Qed.

(** What a node may send after its vote: the vote, or nothing. *)
Definition sendings (l : list event) : Prop := l = [] \/ exists v, l = [Sent_vote v].

Lemma sendings_none l : sendings l -> commits l = [] /\ voted l = [].
Proof. by intros [-> |[v ->]]. Qed.

Lemma sendings_inv chainID h0 (s : CS) l : sendings l -> inv chainID h0 s -> inv chainID h0 (with_trace (cs_trace s ++ l) s).
Proof.
  intros [-> |[v ->]] Hi; [rewrite app_nil_r; by destruct s|].
  by apply (keeps_sent chainID h0 (Sent_vote v) (fun _ => eq_refl) eq_refl I (fun _ => I) s Hi).
Qed.

Lemma bind_time_Now {B} (k : Z -> M CS B) s :
  mbind (time_Now clock) k s = k (clock (cs_ticks s)) (with_ticks (S (cs_ticks s)) s).
Proof. done. Qed.

Lemma bind_priv_call {A B} (f : PV -> PV * res A) (k : res A -> M CS B) s pv pv' r :
  cs_privVal s = Some pv -> f pv = (pv', r) -> mbind (priv_call f) k s = k r (with_privVal (Some pv') s).
Proof. intros Ep Ef. unfold mbind, priv_call. by rewrite Ep, Ef. Qed.

Lemma bind_AddVote {B} v (k : res bool -> M CS B) s hvs r :
  HeightVoteSet_AddVote (clock (cs_ticks s)) v (rs_votes (cs_state s)) = (hvs, r) ->
  mbind (votes_AddVote clock v) k s = k r (with_state (set_votes hvs (cs_state s)) (with_ticks (S (cs_ticks s)) s)).
Proof.
  intros Ea. unfold mbind, votes_AddVote, mbind, time_Now, get_state, put, mmodify, mret.
  cbn [cs_state cs_ticks with_ticks]. by rewrite Ea.
Qed.

(** The node's own precommit: it is logged, recorded and acted upon. *)
Lemma sign_precommit vals b after s h own log h0 (Q : CS -> Prop) :
  let rs := cs_state s in
  works vals b -> inv (cf_ChainID (cs_config s)) h0 s -> signer s h own ->
  vote_allowed (cf_ChainID (cs_config s)) rs (cs_trace s) VoteTypePrecommit (Some h) ->
  tallied VoteTypePrecommit (rs_votes rs) (rs_round rs) log -> own ∉ vt_ValidatorIndex <$> log ->
  (forall v s1, welcome clock VoteTypePrecommit (cf_ChainID (cs_config s)) (rs_validatorSet rs) (rs_height rs) (rs_round rs) h v ->
     vt_ValidatorIndex v = own -> inv (cf_ChainID (cs_config s)) h0 s1 -> (exists hvs, cs_state s1 = set_votes hvs rs) ->
     tallied VoteTypePrecommit (rs_votes (cs_state s1)) (rs_round rs) (log ++ [v]) ->
     is_Some (Precommits (rs_votes (cs_state s1)) (rs_round rs)) ->
     cs_config s1 = cs_config s -> cs_trace s1 = cs_trace s ++ [Voted (rs_validatorSet rs) v] ->
     finishes (fun _ s2 => forall sent, sendings sent -> Q (with_trace (cs_trace s2 ++ sent) s2)) (after v s1)) ->
  finishes (fun _ s' => Q s') (signAndSendVoteLocked clock after VoteTypePrecommit (Some h) s).
Proof.
  intros rs Hw Hi (pv & w & val & Epv & Ew & Eidx & Ev & Hsig) Ha Hl Hnew Hk.
  unfold signAndSendVoteLocked. rewrite bind_mget. subst rs. rewrite Epv, Ew, Eidx, Ev.
  rewrite bind_time_Now. destruct (Hsig (cs_ticks s)) as (pv' & sig & Esig & Hwel).
  set (v := precommit_for _ _ _ _ _ sig) in Hwel.
  erewrite bind_priv_call; [|exact Epv|exact Esig]. cbn [mtry].
  change (with_signature _ sig) with v. set (s1 := with_privVal _ _).
  eapply quiet_bind; [by eapply wal_write_quiet, vote_message_works|]. intros _ s2 [S2 _] _.
  assert (S : same s s2) by exact S2. clearbody s1. clear S2.
  pose proof (inv_same _ _ _ _ S Hi) as Hi2. destruct S as (Sc & Ss & St).
  destruct (node_AddVote clock (cf_ChainID (cs_config s)) h0 s2 VoteTypePrecommit (cs_ticks s2) h log v) as (hvs & Ea & Ht & Hsome);
    [done|by right|by rewrite Ss|by rewrite Ss|done|].
  erewrite bind_AddVote by exact Ea. cbv beta iota. rewrite bind_emit.
  set (s3 := with_trace _ _).
  assert (Hi3 : inv (cf_ChainID (cs_config s)) h0 s3).
  { pose proof (inv_AddVote _ _ _ _ (S (cs_ticks s2)) _ _ _ Hi2 Ea) as [_ Hi3]. destruct Hi2 as [Hc2 Hi2]. split; [done|].
    apply HeightVoteSet_AddVote_adds in Ea as [Hold Hin]. unfold s3. cbn in *. rewrite Ss, St in *.
    apply (inv_on_voted _ _ (cs_state s)); [done..|by eexists|done|done|apply Hwel|apply Hwel]. }
  apply finishes_bind.
  eapply finishes_mono; [apply (Hk v s3); [done|done|done|unfold s3; cbn; rewrite Ss; by eexists|..]|].
  - unfold s3. cbn. by rewrite Ss in Ht.
  - unfold s3. cbn. by rewrite Ss in Hsome.
  - done.
  - unfold s3. cbn. by rewrite St.
  - intros [] s4 Hq. cbn [cs_onVote]. destruct (cs_onVote s); cbn.
    + apply Hq. right. by eexists.
    + specialize (Hq [] (or_introl eq_refl)). rewrite app_nil_r in Hq. by destruct s4.
Qed.

Lemma has_majority vset : HasTwoThirdsMajority vset = (VoteSet_TwoThirdsMajority vset).2.
Proof. unfold HasTwoThirdsMajority, VoteSet_TwoThirdsMajority. by destruct (vset_maj23 vset). Qed.

(** ** A node that waits for prevotes *)

Section Locking.
Variables (h0 : Z) (s0 : CS) (b : Block) (d : Hash) (own : Z) (logc : list Vote).

Notation rs0 := (cs_state s0).
Notation vals := (rs_validatorSet rs0).
Notation chainID := (cf_ChainID (cs_config s0)).

(** The node [s0], after some prevotes: their log, no vote of its own, and perhaps another step. *)
Record prevoting (log : list Vote) (s : CS) : Prop := {
  pr_inv : inv chainID h0 s;
  pr_state : exists hvs step, (step = RoundStepPrevote \/ step = RoundStepPrevoteWait) /\
    cs_state s = set_step step (set_votes hvs rs0);
  pr_trace : cs_trace s = cs_trace s0;
  pr_config : cs_config s = cs_config s0;
  pr_privVal : cs_privVal s = cs_privVal s0;
  pr_log : tallied VoteTypePrevote (rs_votes (cs_state s)) (rs_round rs0) log;
  pr_precommits : tallied VoteTypePrecommit (rs_votes (cs_state s)) (rs_round rs0) logc }.

Lemma prevoting_kept log s s' : kept s s' -> prevoting log s -> prevoting log s'.
Proof.
  intros [Hs [Ep _]] [Hi Hst Ht Hc Hp Hl Hl']. pose proof (inv_same _ _ _ _ Hs Hi) as Hi'. destruct Hs as (E1 & E2 & E3).
  split; [done|by rewrite E2|congruence|congruence|congruence|by rewrite E2..].
Qed.

(** The set behind the log. *)
Lemma prevoting_set log s :
  prevoting log s -> is_Some (Prevotes (rs_votes (cs_state s)) (rs_round rs0)) ->
  exists l vset, Prevotes (rs_votes (cs_state s)) (rs_round rs0) = Some l /\
    hvs_heap (rs_votes (cs_state s)) !! l = Some vset /\ represents vset log /\ vset_validatorSet vset = vals.
Proof.
  intros [[Hc Hi] (hvs & st & Hst & Es) _ _ _ Ht _] [l Hl]. unfold tallied in Ht.
  change (location ?h VoteTypePrevote ?r) with (Prevotes h r) in Ht. rewrite Hl in Ht.
  destruct Ht as (vset & Hv & Hr). exists l, vset. split_and!; [done..|].
  destruct (hok_prevotes _ _ (rok_votes _ _ (inv_rs _ _ _ _ Hi)) _ _ Hl) as (v' & Hv' & _ & _ & _ & _ & C5 & _).
  assert (v' = vset) as -> by congruence. by rewrite C5, (rok_vset _ _ (inv_rs _ _ _ _ Hi)), Es.
Qed.

(** No quorum yet: the node may start to wait. *)
Lemma handlePrevote_waits after log s v :
  prevoting log s -> is_Some (Prevotes (rs_votes (cs_state s)) (rs_round rs0)) -> vt_Round v = rs_round rs0 ->
  (forall h, ~ has_quorum vals log (blockHashKey h)) ->
  finishes (fun _ s' => prevoting log s') (handlePrevoteLocked clock after v s).
Proof.
  intros Hwt Hsome Hv Hq. destruct (prevoting_set _ _ Hwt Hsome) as (l & vset & Hl & Hh & Hr & Ev).
  unfold handlePrevoteLocked. rewrite bind_get_state, Hv, Hl. apply (deref_set_quiet _ vset); [done|].
  assert (HasTwoThirdsMajority vset = false) as ->.
  { rewrite has_majority. pose proof (TwoThirds_cases _ _ Hr) as Hc. destruct (VoteSet_TwoThirdsMajority vset) as [h [|]]; [|done].
    destruct Hc as [Hc _]. rewrite Ev in Hc. by destruct (Hq h). }
  destruct (pr_state _ _ Hwt) as (hvs & st & Hst & Es).
  assert (Er : rs_round (cs_state s) = rs_round rs0) by (by rewrite Es). rewrite Er, Z.gtb_ltb, Z.ltb_irrefl. cbn [andb].
  rewrite Z.eqb_refl. destruct (HasTwoThirdsAny vset); [|exact Hwt]. destruct (_ =? RoundStepPrevote); [|exact Hwt].
  eapply finishes_mono; [apply (finishes_keeps chainID h0 _ (fun _ s' => (exists hvs step, (step = RoundStepPrevote \/ step = RoundStepPrevoteWait) /\
      cs_state s' = set_step step (set_votes hvs rs0)) /\ rs_votes (cs_state s') = rs_votes (cs_state s) /\
      cs_trace s' = cs_trace s /\ cs_config s' = cs_config s /\ cs_privVal s' = cs_privVal s));
    [apply enterPrevoteWait_keeps|apply Hwt|]|].
  - unfold enterPrevoteWaitLocked. rewrite bind_get_state. destruct (_ || _ || _); [split_and!; [apply Hwt|done..]|].
    rewrite bind_put. cbn. split_and!; [|done..]. exists hvs, RoundStepPrevoteWait. rewrite Es. by auto.
  - intros [] s' [(? & Evs & ? & ? & ?) ?]. destruct Hwt. split; [done|done|congruence|congruence|congruence|by rewrite Evs..].
Qed.

(** *** The quorum *)

Hypotheses (Hw : works vals b) (Hskip : cf_SkipTimeoutCommit (cs_config s0) = false)
  (Hb : rs_proposalBlock rs0 = Some b) (Hd : BlockHash (Some b) = Ret d) (Hne : IsHashEmpty (Some d) = false)
  (Hsigner : signer s0 d own) (Hown : own ∉ vt_ValidatorIndex <$> logc).

(** The own precommit cannot turn the precommits on record into a quorum for another block. *)
Hypothesis Honly : forall v h, vt_ValidatorIndex v = own -> vt_BlockHash v = Some d ->
  has_quorum vals (logc ++ [v]) (blockHashKey h) -> h = Some d.

(** The node has locked the block and has cast the precommit [v]. *)
Record locked (v : Vote) (s1 : CS) : Prop := {
  lk_height : rs_height (cs_state s1) = rs_height rs0;
  lk_round : rs_round (cs_state s1) = rs_round rs0;
  lk_vals : rs_validatorSet (cs_state s1) = vals;
  lk_block : rs_lockedBlock (cs_state s1) = Some b;
  lk_step : rs_step (cs_state s1) = RoundStepPrecommit;
  lk_config : cs_config s1 = cs_config s0;
  lk_trace : exists sent, sendings sent /\ cs_trace s1 = cs_trace s0 ++ Voted vals v :: sent }.

(** The block is committed after the precommit [v], and the node is at the next height. *)
Definition decided (v : Vote) (s : CS) : Prop :=
  rs_height (cs_state s) = wrap64 (rs_height rs0 + 1) /\
  exists c new, cm_BlockHash c = d /\ cs_trace s = cs_trace s0 ++ Voted vals v :: new /\
    Committed vals b c ∈ new /\ commits new = [c] /\ voted new = [].

(** After the quorum: an own precommit, and either a commit or a node that waits for precommits. *)
Definition precommitted (s : CS) : Prop :=
  exists v, welcome clock VoteTypePrecommit chainID vals (rs_height rs0) (rs_round rs0) d v /\ vt_ValidatorIndex v = own /\
    ((decided v s /\ inv chainID h0 s) \/
     ~ has_quorum vals (logc ++ [v]) (blockHashKey (Some d)) /\ exists s1, locked v s1 /\ waiting h0 s1 (logc ++ [v]) s).

(** Sending the vote changes nothing else. *)
Lemma waiting_sent v s1 s2 sent :
  locked v s1 -> cs_trace s1 = cs_trace s0 ++ [Voted vals v] -> waiting h0 s1 (logc ++ [v]) s2 -> sendings sent ->
  exists s1', locked v s1' /\ waiting h0 s1' (logc ++ [v]) (with_trace (cs_trace s2 ++ sent) s2).
Proof.
  intros [Eh Er Ev Eb Est Ec _] Et1 [Hi Hst Htr Hc Hl] Hs.
  exists (with_trace (cs_trace s1 ++ sent) s1). split.
  - split; [done..|]. exists sent. split; [done|]. cbn. rewrite Et1. by rewrite <- (assoc_L (++)).
  - split; [by apply sendings_inv|done|cbn; by rewrite Htr|done|done].
Qed.

(** The quorum check after the own precommit. *)
Lemma after_own_precommit v s1 :
  welcome clock VoteTypePrecommit chainID vals (rs_height rs0) (rs_round rs0) d v -> vt_ValidatorIndex v = own ->
  inv chainID h0 s1 -> locked v s1 -> cs_trace s1 = cs_trace s0 ++ [Voted vals v] ->
  tallied VoteTypePrecommit (rs_votes (cs_state s1)) (rs_round rs0) (logc ++ [v]) ->
  is_Some (Precommits (rs_votes (cs_state s1)) (rs_round rs0)) ->
  finishes (fun _ s2 => forall sent, sendings sent -> precommitted (with_trace (cs_trace s2 ++ sent) s2))
    (after_vote clock (S fuel) v s1).
Proof.
  intros Hwel Hidx Hi Hlk Etr Ht Hsome. pose proof Hlk as [Eh Er Ev Eb Est Ec _].
  cbn [after_vote]. unfold vote_added. rewrite (gv_type _ _ _ _ _ _ _ (proj1 Hwel)).
  change (VoteTypePrecommit =? VoteTypePrevote) with false. change (VoteTypePrecommit =? VoteTypePrecommit) with true. cbn iota.
  assert (Hwt : waiting h0 s1 (logc ++ [v]) s1).
  { split; [by rewrite Ec| |done|done|by rewrite Er]. exists (rs_votes (cs_state s1)), (rs_step (cs_state s1)).
    split; [rewrite Est; by unfold RoundStepPrecommit, RoundStepCommit|by destruct (cs_state s1)]. }
  assert (Hbc : block_to_commit (cs_state s1) = Some b) by (unfold block_to_commit; by rewrite Eb).
  pose proof (gv_round _ _ _ _ _ _ _ (proj1 Hwel)) as Erv. pose proof Hw as Hw1. pose proof Hskip as Hskip1.
  rewrite <- Ev in Hw1. rewrite <- Ec in Hskip1. rewrite <- Er in Hsome, Erv.
  destruct (decide (2 * vals_TotalPower vals < 3 * sumZ (vote_power vals) (same_block (blockHashKey (Some d)) (logc ++ [v])))) as [Hq|Hq].
  - eapply finishes_mono.
    { apply (handlePrecommit_moves clock h0 s1 b d Hw1 Hskip1 Hbc Hd Hne _ (logc ++ [v])); [done|done|done| |].
      - by rewrite Ev.
      - rewrite Ec. apply after_vote_keeps. }
    intros [] s2 [[Eh2 (c & Edc & Et2)] Hi2] sent Hs. exists v. split_and!; [done..|]. left. rewrite Ec in Hi2. split.
    + split; [cbn; congruence|]. exists c, (Committed vals b c :: sent).
      destruct (sendings_none _ Hs) as [Hc Hv]. cbn. rewrite Et2, Etr, Ev. rewrite <- !(assoc_L (++)).
      split_and!; [done|done|by left|by f_equal|done].
    + by apply sendings_inv.
  - eapply finishes_mono.
    { apply (handlePrecommit_waits clock h0 s1 b d Hw1 Hskip1 Hbc Hd Hne _ (logc ++ [v])); [done|done|done|].
      intros h Hh Hqh. rewrite Ev in Hqh. apply Hq. by rewrite (Honly _ _ Hidx (gv_block _ _ _ _ _ _ _ (proj1 Hwel)) Hqh) in Hqh. }
    intros [] s2 Hwt2 sent Hs. exists v. split_and!; [done..|]. right. split; [done|]. by apply (waiting_sent v s1).
Qed.

(** The state that is locked, before it votes. *)
Lemma lock_keeps (s : CS) (hvs : HeightVoteSet) step :
  inv chainID h0 s -> cs_state s = set_step step (set_votes hvs rs0) -> step < RoundStepPrecommit ->
  quorum_for chainID vals VoteTypePrevote (rs_height rs0) (rs_round rs0) (blockHashKey (Some d)) ->
  let rs := lock_on (rs_round rs0) b (set_step RoundStepPrecommit (cs_state s)) in
  inv chainID h0 (with_state rs s) /\ vote_allowed chainID rs (cs_trace s) VoteTypePrecommit (Some d).
Proof.
  intros [Hc Hi] Es Hst Hq rs.
  assert (Hi' : inv_on chainID h0 (set_step RoundStepPrecommit (cs_state s)) (cs_trace s)).
  { apply inv_on_step; [by unfold RoundStepNewHeight, RoundStepPrecommit, RoundStepCommit|rewrite Es; cbn; lia|done]. }
  unfold rs. rewrite Es in *. split; [split; [done|]|].
  - by apply (inv_on_lock _ _ _ _ b d Hi').
  - by apply (precommit_allowed chainID (set_step RoundStepPrecommit (set_step step (set_votes hvs rs0))) (cs_trace s) b d).
Qed.

Lemma enterPrecommit_locks log s :
  prevoting log s -> is_Some (Prevotes (rs_votes (cs_state s)) (rs_round rs0)) -> has_quorum vals log (blockHashKey (Some d)) ->
  finishes (fun _ s' => precommitted s')
    (enterPrecommitLocked clock (after_vote clock (S fuel)) (rs_height (cs_state s)) (rs_round (cs_state s)) s).
Proof.
  intros Hwt Hsome Hq. destruct (prevoting_set _ _ Hwt Hsome) as (l & vset & Hl & Hh & Hr & Ev).
  rewrite <- Ev in Hq. pose proof (quorum_reported vset log d Hr Hne Hq) as Hmaj.
  pose proof Hwt as [Hi (hvs & step & Hst & Es) Htr Hcf Hpv _ Hpc].
  assert (Hlt : step < RoundStepPrecommit) by (unfold RoundStepPrevote, RoundStepPrevoteWait, RoundStepPrecommit in *; lia).
  pose proof (prevotes_quorum _ _ _ _ _ _ (inv_rs _ _ _ _ (proj2 Hi)) Hl Hh Hmaj) as Hqf.
  unfold enterPrecommitLocked. rewrite bind_get_state, !Z.eqb_refl. cbn [negb orb].
  assert (rs_step (cs_state s) >=? RoundStepPrecommit = false) as ->.
  { rewrite Z.geb_leb. apply Z.leb_gt. by rewrite Es. }
  rewrite bind_put. assert (Er : rs_round (cs_state s) = rs_round rs0) by (by rewrite Es). rewrite Er, Hl.
  apply (deref_set_quiet _ vset); [done|]. rewrite Hmaj. cbn [negb]. rewrite Hne.
  assert (rs_proposalBlock (cs_state s) = Some b) as -> by (by rewrite Es).
  apply finishes_bind. unfold hash_of_block. rewrite Hd. cbn [mtry mret finishes postF]. rewrite HashEqual_refl, bind_put.
  assert (Hqf' : quorum_for chainID vals VoteTypePrevote (rs_height rs0) (rs_round rs0) (blockHashKey (Some d)))
    by (rewrite Es in Hqf; exact Hqf). clear Hqf.
  destruct (lock_keeps s hvs step Hi Es Hlt Hqf') as [Hi1 Ha].
  set (s1 := with_state (lock_on _ _ _) _). change (with_state _ s) with s1 in Hi1.
  change (vote_allowed chainID (cs_state s1) (cs_trace s) VoteTypePrecommit (Some d)) in Ha.
  apply finishes_bind. eapply finishes_mono; [by apply (writeState_quiet vals b Hw b d d Hd Hd)|].
  intros [] s2 S2. cbv beta. assert (E1 : cs_state s1 = lock_on (rs_round rs0) b (set_step RoundStepPrecommit (set_votes hvs rs0))).
  { unfold s1. cbn. by rewrite Es. }
  pose proof S2 as [(Ec2 & Es2 & Et2) [Ep2 _]].
  assert (Hc : cf_ChainID (cs_config s2) = chainID) by (rewrite Ec2; unfold s1; cbn; by rewrite Hcf).
  apply (sign_precommit vals b _ s2 d own logc h0); [done|..].
  - rewrite Hc. by eapply inv_same; [apply S2|].
  - eapply signer_same; [..|exact Hsigner]; [by rewrite Ec2|by rewrite Ep2|by rewrite Es2, E1..].
  - rewrite Hc, Es2, Et2. exact Ha.
  - rewrite Es2, E1. cbn. rewrite Es in Hpc. exact Hpc.
  - exact Hown.
  - rewrite Hc, Es2, E1. cbn. intros v s3 Hwel Hidx Hi3 [hvs3 Es3] Ht3 Hsome3 Ec3 Et3.
    assert (Etr : cs_trace s3 = cs_trace s0 ++ [Voted vals v]).
    { rewrite Et3, Et2. unfold s1. cbn. by rewrite Htr. }
    assert (Ecf : cs_config s3 = cs_config s0) by (rewrite Ec3, Ec2; exact Hcf).
    apply (after_own_precommit v); [done..| |done|done|done].
    split; [by rewrite Es3..|done|]. exists []. split; [by left|done].
Qed.

Lemma handlePrevote_locks log s v :
  prevoting log s -> is_Some (Prevotes (rs_votes (cs_state s)) (rs_round rs0)) -> vt_Round v = rs_round rs0 ->
  has_quorum vals log (blockHashKey (Some d)) ->
  finishes (fun _ s' => precommitted s') (handlePrevoteLocked clock (after_vote clock (S fuel)) v s).
Proof.
  intros Hwt Hsome Hv Hq. destruct (prevoting_set _ _ Hwt Hsome) as (l & vset & Hl & Hh & Hr & Ev).
  unfold handlePrevoteLocked. rewrite bind_get_state, Hv, Hl. apply (deref_set_quiet _ vset); [done|].
  pose proof Hq as Hq'. rewrite <- Ev in Hq'. rewrite has_majority, (quorum_reported vset log d Hr Hne Hq'). cbn [snd].
  destruct (pr_state _ _ Hwt) as (hvs & st & Hst & Es).
  assert (Er : rs_round (cs_state s) = rs_round rs0) by (by rewrite Es).
  assert (Est : (rs_step (cs_state s) =? RoundStepPrevote) || (rs_step (cs_state s) =? RoundStepPrevoteWait) = true).
  { rewrite Es. cbn. by destruct Hst as [-> | ->]. }
  rewrite <- Er, Z.gtb_ltb, Z.ltb_irrefl. cbn [andb]. rewrite Z.eqb_refl, Est. by apply (enterPrecommit_locks log).
Qed.

(** *** The prevotes *)

Lemma prevote_records log s v Q :
  prevoting log s -> welcome clock VoteTypePrevote chainID vals (rs_height rs0) (rs_round rs0) d v ->
  vt_ValidatorIndex v ∉ vt_ValidatorIndex <$> log ->
  (forall s', prevoting (log ++ [v]) s' -> is_Some (Prevotes (rs_votes (cs_state s')) (rs_round rs0)) ->
     finishes Q (handlePrevoteLocked clock (after_vote clock (S fuel)) v s')) ->
  finishes Q (handleVote clock (S fuel) v s).
Proof.
  intros Hwt Hg Hnew Hk. apply (handleVote_then _ _ vals b Hw). intros s2 hvs2 r S2 Ea.
  apply (prevoting_kept _ _ _ S2) in Hwt. clear S2 s. rename s2 into s.
  pose proof Hwt as [Hi (hvs & st & Hst & Es) Htr Hcf Hpv Hlog Hpc]. pose proof (inv_rs _ _ _ _ (proj2 Hi)) as Hok.
  assert (Er : rs_round (cs_state s) = rs_round rs0) by (by rewrite Es).
  destruct (node_AddVote clock chainID h0 s VoteTypePrevote (cs_ticks s) d log v) as (hvs' & Ea' & Ht' & Hsome);
    [done|by left|by rewrite Es|by rewrite Er|done|].
  pose proof (inv_AddVote _ _ _ _ (S (cs_ticks s)) _ _ _ Hi Ea) as Hi'.
  rewrite Ea' in Ea. injection Ea as <- <-. rewrite Er in Ht', Hsome.
  destruct Hg as [[Et Eh Erd Eb Hvok] _].
  assert (Hpc' : tallied VoteTypePrecommit hvs' (rs_round rs0) logc).
  { change hvs' with (hvs', Ret true : res bool).1. rewrite <- Ea', <- Erd.
    apply AddVote_other; [by left|by rewrite (rok_height _ _ Hok), Eh, Es|apply (rok_votes _ _ Hok)|by rewrite Et|by rewrite Erd]. }
  cbn [mtry]. unfold vote_added. rewrite Et. change (VoteTypePrevote =? VoteTypePrevote) with true. cbn iota.
  apply Hk; [|exact Hsome]. split; [done| |done..].
  exists hvs', st. split; [done|]. cbn. by rewrite Es.
Qed.

(** After the prevote steps, a prevote of the round changes nothing. *)
Lemma handlePrevote_late v (s : CS) (Q : CS -> Prop) :
  inv chainID h0 s -> vt_Round v = rs_round (cs_state s) -> RoundStepPrecommit <= rs_step (cs_state s) -> Q s ->
  finishes (fun _ s' => Q s') (handlePrevoteLocked clock (after_vote clock (S fuel)) v s).
Proof.
  intros [_ Hi] Er Hst HQ. unfold handlePrevoteLocked. rewrite bind_get_state.
  destruct (Prevotes _ _) as [l|] eqn:El; [|exact HQ].
  destruct (hok_prevotes _ _ (rok_votes _ _ (inv_rs _ _ _ _ Hi)) _ _ El) as (vset & Hv & _).
  apply (deref_set_quiet _ vset); [done|]. rewrite Er, Z.gtb_ltb, Z.ltb_irrefl. cbn [andb]. rewrite Z.eqb_refl.
  assert (rs_step (cs_state s) =? RoundStepPrevote = false) as ->
    by (apply Z.eqb_neq; unfold RoundStepPrecommit, RoundStepPrevote in *; lia).
  assert (rs_step (cs_state s) =? RoundStepPrevoteWait = false) as ->
    by (apply Z.eqb_neq; unfold RoundStepPrecommit, RoundStepPrevoteWait in *; lia).
  by repeat case_match.
Qed.

(** A prevote that comes after the lock is recorded at most. *)
Lemma late_prevote v0 s1 log s v :
  locked v0 s1 -> waiting h0 s1 log s -> vt_Type v = VoteTypePrevote -> vt_Height v = rs_height rs0 -> vt_Round v = rs_round rs0 ->
  finishes (fun _ s' => waiting h0 s1 log s') (handleVote clock (S fuel) v s).
Proof.
  intros [Eh1 Er1 Ev1 _ Est1 Ec1 _] Hwt Et Eh Er. apply (handleVote_then _ _ vals b Hw). intros s2 hvs2 r S2 Ea.
  eapply waiting_same in Hwt; [|exact S2]. clear S2 s. rename s2 into s.
  pose proof Hwt as [Hi (hvs & st & Hst & Es) Htr Hcf Hlog]. pose proof (inv_rs _ _ _ _ (proj2 Hi)) as Hok.
  assert (Ehs : vt_Height v = hvs_height (rs_votes (cs_state s))) by (by rewrite (rok_height _ _ Hok), Es, Eh; cbn).
  pose proof (AddVote_other (clock (cs_ticks s)) (rs_votes (cs_state s)) VoteTypePrecommit v log) as Hoth.
  rewrite Ea, Er, Et, Er1 in *. specialize (Hoth (or_introl eq_refl) Ehs (rok_votes _ _ Hok) ltac:(done) Hlog).
  set (s3 := with_state _ _).
  assert (Hwt3 : waiting h0 s1 log s3).
  { split; [by eapply inv_AddVote| |done|done|by rewrite Er1]. exists hvs2, st. split; [done|]. unfold s3. cbn. by rewrite Es. }
  assert (Hnp : forall msg, r <> Panic msg).
  { intros msg. change r with (hvs2, r).2. rewrite <- Ea. apply AddVote_no_panic; [|by left|done|apply (rok_votes _ _ Hok)].
    intros c. by eapply VoteSignBytes_works. }
  destruct r as [[]|e|msg]; [|exact Hwt3..|by destruct (Hnp msg)]. cbn [mtry]. unfold vote_added. rewrite Et.
  change (VoteTypePrevote =? VoteTypePrevote) with true. cbn iota.
  apply (handlePrevote_late v s3 (fun s => waiting h0 s1 log s)); [rewrite <- Ec1; apply Hwt3|..|exact Hwt3];
    unfold s3; cbn; rewrite Es; cbn; [congruence|lia].
Qed.

Hypothesis (Hheight : 0 <= rs_height rs0 < MaxInt64).

(** Once the block is committed, the votes of its height change nothing. *)
Lemma decided_ignores v0 vs s :
  decided v0 s -> inv chainID h0 s -> Forall (fun v => vt_Height v = rs_height rs0) vs ->
  finishes (fun _ s' => decided v0 s') (handle_all clock (S fuel) (In_vote <$> vs) s).
Proof.
  intros [Eh Hd'] Hi Hv. eapply finishes_mono; [eapply handle_votes_ignored; [exact Hw|exact Hi|]|].
  - eapply Forall_impl; [exact Hv|]. intros v ->. rewrite Eh, wrap64_small; [lia|].
    unfold in_i64, MinInt64, MaxInt64 in *; lia.
  - intros [] s' [Eh' Et']. split; [congruence|]. by rewrite Et'.
Qed.

Notation prevote := (welcome clock VoteTypePrevote chainID vals (rs_height rs0) (rs_round rs0) d).
Notation precommit := (welcome clock VoteTypePrecommit chainID vals (rs_height rs0) (rs_round rs0) d).

Lemma late_prevotes vs s : precommitted s -> inv chainID h0 s -> Forall prevote vs ->
  finishes (fun _ s' => precommitted s') (handle_all clock (S fuel) (In_vote <$> vs) s).
Proof.
  intros (v & Hwel & Hidx & [[Hdec Hi]|(Hnq & s1 & Hlk & Hwt)]) Hi' Hg.
  - eapply finishes_mono; [apply (finishes_keeps chainID h0); [apply handle_votes_keep|exact Hi'|apply (decided_ignores v)]|].
    + done.
    + done.
    + eapply Forall_impl; [exact Hg|]. by intros w [[] _].
    + intros [] s' [? ?]. exists v. by auto.
  - revert s Hwt Hi'. induction Hg as [|w vs [[] _] _ IH]; intros s Hwt Hi'.
    { exists v. split_and!; [done..|]. right. split; [done|]. by exists s1. }
    cbn [fmap list_fmap handle_all handle]. apply finishes_bind.
    eapply finishes_mono; [apply (finishes_keeps chainID h0); [apply handleVote_keeps|exact Hi'|by apply (late_prevote v s1)]|].
    intros [] s' [? ?]. by apply IH.
Qed.

Lemma prevotes_lock vs log s :
  prevoting log s -> Forall prevote vs -> NoDup (vt_ValidatorIndex <$> log ++ vs) ->
  ~ has_quorum vals log (blockHashKey (Some d)) -> has_quorum vals (log ++ vs) (blockHashKey (Some d)) ->
  finishes (fun _ s' => precommitted s') (handle_all clock (S fuel) (In_vote <$> vs) s).
Proof.
  revert log s. induction vs as [|v vs IH]; intros log s Hwt Hg Hn Hno Hq; [by rewrite app_nil_r in Hq|].
  apply Forall_cons in Hg as [Hv Hg]. replace (log ++ v :: vs) with ((log ++ [v]) ++ vs) in * by (by rewrite <- (assoc_L (++))).
  pose proof (rok_vals _ _ (inv_rs _ _ _ _ (proj2 (pr_inv _ _ Hwt)))) as Hvals.
  destruct (pr_state _ _ Hwt) as (hvs & st & _ & Es). rewrite Es in Hvals. cbn in Hvals.
  cbn [fmap list_fmap handle_all handle]. apply finishes_bind.
  eapply finishes_mono; [apply (finishes_keeps chainID h0 _ (fun _ s' => precommitted s' \/ prevoting (log ++ [v]) s' /\
      ~ has_quorum vals (log ++ [v]) (blockHashKey (Some d)))); [apply handleVote_keeps|apply Hwt|]|].
  - apply (prevote_records log); [done|done| |].
    { rewrite !fmap_app in Hn. apply NoDup_app in Hn as [Hn _]. apply NoDup_app in Hn as (_ & Hn & _).
      intros Hin. apply (Hn _ Hin). by apply list_elem_of_singleton. }
    intros s' Hwt' Hsome. pose proof (gv_round _ _ _ _ _ _ _ (proj1 Hv)) as Er.
    destruct (decide (2 * vals_TotalPower vals < 3 * sumZ (vote_power vals) (same_block (blockHashKey (Some d)) (log ++ [v])))) as [Hq'|Hq'].
    + eapply finishes_mono; [by apply (handlePrevote_locks (log ++ [v]))|]. by left.
    + eapply finishes_mono; [apply (handlePrevote_waits _ (log ++ [v])); [done..|]|by right].
      intros h Hqh. apply Hq'. replace (blockHashKey (Some d)) with (blockHashKey h); [done|].
      eapply quorum_unique; [done|exact Hn|apply has_quorum_mono; [by apply wf_core|done]|done].
  - intros [] s' [[Hpc|[Hwt' Hq']] Hi']; [by apply late_prevotes|by apply (IH (log ++ [v]))].
Qed.

(** *** The precommits *)

Lemma precommits_decide vs s :
  precommitted s -> inv chainID h0 s -> Forall precommit vs ->
  (forall v, vt_ValidatorIndex v = own -> vt_BlockHash v = Some d -> NoDup (vt_ValidatorIndex <$> (logc ++ [v]) ++ vs) /\
     has_quorum vals ((logc ++ [v]) ++ vs) (blockHashKey (Some d))) ->
  finishes (fun _ s' => exists v, precommit v /\ vt_ValidatorIndex v = own /\ decided v s')
    (handle_all clock (S fuel) (In_vote <$> vs) s).
Proof.
  intros (v & Hwel & Hidx & [[Hdec Hi]|(Hnq & s1 & Hlk & Hwt)]) Hi' Hg Hq.
  - eapply finishes_mono; [apply (decided_ignores v); [done|done|]|by eauto].
    eapply Forall_impl; [exact Hg|]. by intros w [[] _].
  - destruct (Hq v Hidx (gv_block _ _ _ _ _ _ _ (proj1 Hwel))) as [Hn Hqv]. destruct Hlk as [Eh Er Ev Eb Est Ec Etr].
    assert (Hbc : block_to_commit (cs_state s1) = Some b) by (unfold block_to_commit; by rewrite Eb).
    assert (Hw1 : works (rs_validatorSet (cs_state s1)) b) by (by rewrite Ev).
    assert (Hskip1 : cf_SkipTimeoutCommit (cs_config s1) = false) by (by rewrite Ec).
    eapply finishes_mono.
    { apply (handle_votes_commit clock (S fuel) h0 s1 b d Hw1 Hskip1 Hbc Hd Hne) with (log := logc ++ [v]);
        rewrite ?Eh, ?Er, ?Ev, ?Ec; done. }
    intros [] s' [Eh' (c & Edc & Et')]. exists v. split_and!; [done..|]. split; [by rewrite Eh', Eh|].
    destruct Etr as (sent & [Hc1 Hv1]%sendings_none & Etr). exists c, (sent ++ [Committed vals b c]).
    rewrite Et', Etr, Ev. rewrite <- (assoc_L (++)). cbn. split_and!; [done|done|set_solver| |].
    + unfold commits in *. by rewrite omap_app, Hc1.
    + unfold voted in *. by rewrite omap_app, Hv1.
Qed.
End Locking.

(** The power of a validator. *)
Definition power_of (vals : ValidatorSet) (own : Z) : Z :=
  match GetByIndex vals own with Some val => nv_VotingPower val | None => 0 end.

Lemma own_completes vals logc d own vs v :
  NoDup (own :: (vt_ValidatorIndex <$> logc ++ vs)) ->
  2 * vals_TotalPower vals < 3 * (power_of vals own + sumZ (vote_power vals) (same_block (blockHashKey (Some d)) (logc ++ vs))) ->
  vt_ValidatorIndex v = own -> vt_BlockHash v = Some d ->
  NoDup (vt_ValidatorIndex <$> (logc ++ [v]) ++ vs) /\ has_quorum vals ((logc ++ [v]) ++ vs) (blockHashKey (Some d)).
Proof.
  intros Hn Hq <- Hb. assert (Hp : (logc ++ [v]) ++ vs ≡ₚ v :: (logc ++ vs)) by (rewrite <- (assoc_L (++)); cbn; by rewrite Permutation_middle).
  split; [by rewrite Hp|]. unfold has_quorum.
  assert (Hs : same_block (blockHashKey (Some d)) ((logc ++ [v]) ++ vs) ≡ₚ v :: same_block (blockHashKey (Some d)) (logc ++ vs)).
  { unfold same_block. rewrite Hp. rewrite filter_cons_True; [done|by rewrite Hb]. }
  rewrite (sumZ_Permutation _ _ _ Hs). cbn. exact Hq.
Qed.

(** C4: a round that goes well: a node that waits for prevotes with the block at hand, and whose private
    validator signs, handles the prevotes that become a quorum for the block and then the precommits
    of the others, in any order and without a panic; it casts one vote, a precommit for the block, and
    once the precommits are a quorum together with its own, it has committed exactly this block, once,
    and is at the next height. *)
Theorem round_decides (start : CS) (config : Config) (vals0 : ValidatorSet) (h0 : Z) (lastCommit : option Commit) (s : CS)
    (b : Block) (d : Hash) (own : Z) (logv logc prevotes precommits : list Vote) :
  fresh_node start config vals0 -> ValidatorSet_wf vals0 -> reach clock (S fuel) start h0 lastCommit s ->
  let rs := cs_state s in
  works (rs_validatorSet rs) b -> cf_SkipTimeoutCommit (cs_config s) = false ->
  rs_step rs = RoundStepPrevote \/ rs_step rs = RoundStepPrevoteWait ->
  rs_proposalBlock rs = Some b -> BlockHash (Some b) = Ret d -> IsHashEmpty (Some d) = false ->
  0 <= rs_height rs < MaxInt64 -> signer s d own ->
  tallied VoteTypePrevote (rs_votes rs) (rs_round rs) logv -> tallied VoteTypePrecommit (rs_votes rs) (rs_round rs) logc ->
  Forall (welcome clock VoteTypePrevote (cf_ChainID config) (rs_validatorSet rs) (rs_height rs) (rs_round rs) d) prevotes ->
  Forall (welcome clock VoteTypePrecommit (cf_ChainID config) (rs_validatorSet rs) (rs_height rs) (rs_round rs) d) precommits ->
  NoDup (vt_ValidatorIndex <$> logv ++ prevotes) -> NoDup (own :: (vt_ValidatorIndex <$> logc ++ precommits)) ->
  ~ has_quorum (rs_validatorSet rs) logv (blockHashKey (Some d)) ->
  has_quorum (rs_validatorSet rs) (logv ++ prevotes) (blockHashKey (Some d)) ->
  2 * vals_TotalPower (rs_validatorSet rs) < 3 * (power_of (rs_validatorSet rs) own +
    sumZ (vote_power (rs_validatorSet rs)) (same_block (blockHashKey (Some d)) (logc ++ precommits))) ->
  exists s' v c new, handle_all clock (S fuel) ((In_vote <$> prevotes) ++ (In_vote <$> precommits)) s = Done tt s' /\
    rs_height (cs_state s') = rs_height rs + 1 /\
    vt_Type v = VoteTypePrecommit /\ vt_BlockHash v = Some d /\ vt_ValidatorIndex v = own /\ cm_BlockHash c = d /\
    cs_trace s' = cs_trace s ++ Voted (rs_validatorSet rs) v :: new /\ Committed (rs_validatorSet rs) b c ∈ new /\
    commits new = [c] /\ voted new = [].
Proof.
  intros Hf Hv Hr rs Hw Hskip Hst Hb Hd Hne Hh Hsig Hlv Hlc Hgv Hgc Hnv Hnc Hno Hq Hpow.
  pose proof (reach_inv clock (S fuel) start config vals0 h0 lastCommit Hf Hv s Hr) as Hi.
  pose proof Hi as [Hc Hi']. rewrite <- Hc in Hgv, Hgc.
  assert (Hvals : ValidatorSet_wf (rs_validatorSet rs)) by apply (rok_vals _ _ (inv_rs _ _ _ _ Hi')).
  pose proof (fun v => own_completes (rs_validatorSet rs) logc d own precommits v Hnc Hpow) as Hown.
  assert (Honly : forall v h, vt_ValidatorIndex v = own -> vt_BlockHash v = Some d ->
    has_quorum (rs_validatorSet rs) (logc ++ [v]) (blockHashKey h) -> h = Some d).
  { intros v h E1 E2 Hh1. destruct (Hown v E1 E2) as [Hn Hq1]. apply blockHashKey_Some; [done|].
    eapply quorum_unique; [done|exact Hn|apply has_quorum_mono; [by apply wf_core|done]|done]. }
  assert (Hnew : own ∉ vt_ValidatorIndex <$> logc).
  { apply NoDup_cons in Hnc as [Hnc _]. rewrite fmap_app in Hnc. set_solver. }
  assert (Hp : prevoting h0 s logc logv s).
  { split; [by rewrite Hc| |done..]. exists (rs_votes rs), (rs_step rs). split; [done|by destruct (cs_state s)]. }
  assert (Hfin : finishes (fun _ s' => exists v, welcome clock VoteTypePrecommit (cf_ChainID (cs_config s)) (rs_validatorSet rs)
      (rs_height rs) (rs_round rs) d v /\ vt_ValidatorIndex v = own /\ decided s b d v s')
      (handle_all clock (S fuel) ((In_vote <$> prevotes) ++ (In_vote <$> precommits)) s)).
  { apply handle_all_app. eapply finishes_mono.
    - apply (finishes_keeps (cf_ChainID (cs_config s)) h0); [apply handle_votes_keep|by rewrite Hc|].
      by apply (prevotes_lock h0 s b d own logc Hw Hskip Hb Hd Hne Hsig Hnew Honly Hh prevotes logv).
    - intros [] s1 [Hpc Hi1]. apply (precommits_decide h0 s b d own logc Hw Hskip Hb Hd Hne Hsig Hnew Honly Hh); [done..|exact Hown]. }
  apply finishes_eq in Hfin as ([] & s' & E & v & [Hwel _] & Hidx & Eh & c & new & Ed & Et & Hin & Ec & Ev).
  exists s', v, c, new. split_and!; [done| |apply Hwel|apply Hwel|done..].
  rewrite Eh. apply wrap64_small. unfold in_i64, MinInt64, MaxInt64 in *. lia.
Qed.
End Polka.

(** ** An example

    The proposer of the first round holds its block and has prevoted it; the prevotes and then the
    precommits of the others arrive. *)

Definition own_prevote : Vote := default zeroVote (snd <$> hd_error (voted (cs_trace waiting_node))).
Definition empty_prevotes : VoteSet := newVoteSetWithParent (rs_votes (cs_state waiting_node)) 0 VoteTypePrevote.

Lemma own_prevote_tallied : tallied VoteTypePrevote (rs_votes (cs_state waiting_node)) 0 [own_prevote].
Proof.
  assert (Hi : inv chain_c 1 waiting_node).
  { apply (reach_inv clock_5 2 (new_node Byte.x0a) config_c set_4 1 None (new_node_fresh _) set_4_wf).
    apply start_node_reach. vm_compute. reflexivity. }
  pose proof (rok_votes _ _ (inv_rs _ _ _ _ (proj2 Hi))) as Hok.
  pose proof (addVoteInternal_cases empty_prevotes [] own_prevote (new_set_represents _ _ _ _ Hok) ltac:(vm_compute; reflexivity)) as Ha.
  assert (El : location (rs_votes (cs_state waiting_node)) VoteTypePrevote 0 = Some 0%nat) by (vm_compute; reflexivity).
  assert (Es : hvs_heap (rs_votes (cs_state waiting_node)) !! 0%nat = Some (addVoteInternal empty_prevotes own_prevote).1)
    by (vm_compute; reflexivity).
  assert (Er : (addVoteInternal empty_prevotes own_prevote).2 = Ret true) by (vm_compute; reflexivity).
  unfold tallied. rewrite El. exists (addVoteInternal empty_prevotes own_prevote).1. split; [exact Es|].
  destruct (addVoteInternal empty_prevotes own_prevote) as [vset r]. cbn [fst snd] in *. subst r. apply Ha.
Qed.

Definition signer_dec (s : CS4) (own : Z) : bool :=
  let rs := cs_state s in
  match cs_privVal s, GetByIndex (rs_validatorSet rs) own with
  | Some pv, Some val =>
      bool_decide (nv_Index <$> List.find (fun v => PublicKeyEqual (nv_PublicKey v) (pv_GetPubKey pv)) (vals_Validators (rs_validatorSet rs)) = Some own) &&
      match pv_SignVote (cf_ChainID (cs_config s)) (precommit_for rs waiting_hash own val 5 (mkSignature [])) pv with
      | (_, Ret sig) => welcome_dec VoteTypePrecommit (precommit_for rs waiting_hash own val 5 sig)
      | _ => false
      end
  | _, _ => false
  end.

Lemma signer_dec_ok (s : CS4) own :
  signer_dec s own = true -> cf_ChainID (cs_config s) = chain_c -> rs_validatorSet (cs_state s) = set_4 ->
  rs_height (cs_state s) = 1 -> rs_round (cs_state s) = 0 -> signer clock_5 s waiting_hash own.
Proof.
  unfold signer_dec, signer. intros E Ec Ev Eh Er.
  destruct (cs_privVal s) as [pv|]; [|done]. destruct (GetByIndex _ own) as [val|] eqn:Eg; [|done].
  apply andb_true_iff in E as [Ef E]. apply bool_decide_eq_true in Ef.
  destruct (List.find _ _) as [w|] eqn:Ew; [|done]. injection Ef as Ef.
  exists pv, w, val. split_and!; [done..|]. intros n. change (clock_5 n) with 5.
  destruct (pv_SignVote _ _ _) as [pv' [sig| |]] eqn:Es; [|done..]. exists pv', sig. split; [done|].
  rewrite Ec, Ev, Eh, Er. by apply welcome_dec_ok.
Qed.

Lemma waiting_signer : signer clock_5 waiting_node waiting_hash 0.
Proof. apply signer_dec_ok; vm_compute; reflexivity. Qed.

Lemma round_decides_witness :
  exists s' v c new, handle_all clock_5 2 ((In_vote <$> others_votes VoteTypePrevote) ++ (In_vote <$> others_votes VoteTypePrecommit))
      waiting_node = Done tt s' /\ rs_height (cs_state s') = 2 /\
    vt_Type v = VoteTypePrecommit /\ vt_BlockHash v = Some waiting_hash /\ vt_ValidatorIndex v = 0 /\ cm_BlockHash c = waiting_hash /\
    cs_trace s' = cs_trace waiting_node ++ Voted (rs_validatorSet (cs_state waiting_node)) v :: new /\
    Committed (rs_validatorSet (cs_state waiting_node)) waiting_block c ∈ new /\ commits new = [c] /\ voted new = [].
Proof.
  assert (E : rs_validatorSet (cs_state waiting_node) = set_4) by (vm_compute; reflexivity).
  assert (Er : rs_round (cs_state waiting_node) = 0) by (vm_compute; reflexivity).
  assert (Eh : rs_height (cs_state waiting_node) = 1) by (vm_compute; reflexivity).
  apply (round_decides clock_5 1 (new_node Byte.x0a) config_c set_4 1 None waiting_node waiting_block waiting_hash 0
    [own_prevote] [] (others_votes VoteTypePrevote) (others_votes VoteTypePrecommit)).
  - apply new_node_fresh.
  - apply set_4_wf.
  - apply start_node_reach. vm_compute. reflexivity.
  - split; [by eexists|by eexists|done|done|done|]. intros c x. exists []. split; [done|by left].
  - vm_compute. reflexivity.
  - left. vm_compute. reflexivity.
  - vm_compute. reflexivity.
  - vm_compute. reflexivity.
  - vm_compute. reflexivity.
  - vm_compute. split; congruence.
  - apply waiting_signer.
  - rewrite Er. apply own_prevote_tallied.
  - vm_compute. reflexivity.
  - rewrite E, Er, Eh. apply others_welcome. by left.
  - rewrite E, Er, Eh. apply others_welcome. by right.
  - apply (bool_decide_unpack _). vm_compute. reflexivity.
  - apply (bool_decide_unpack _). vm_compute. reflexivity.
  - vm_compute. congruence.
  - vm_compute. reflexivity.
  - vm_compute. reflexivity.
Defined.
