(* ===== verification/Agreement.v ===== *)
(** * Agreement between nodes

    What the nodes of a network agree on, as far as the code guarantees it: quorums of more than
    two thirds of the power meet in a correct validator, which casts one vote of a type in a
    round and keeps to its lock. So two commits of a height are for the same block, unless a
    later round has a quorum of nil prevotes, the one way to make a correct node give up its
    lock. Faulty validators are not modelled by steps: they may send any vote that verifies. *)

From S2P Require Export Runs.

(** ** Traces *)

Lemma list_two {A} (l : list A) x y :
  x ∈ l -> y ∈ l ->
  x = y \/ (exists l1 l2 l3, l = l1 ++ x :: l2 ++ y :: l3) \/ (exists l1 l2 l3, l = l1 ++ y :: l2 ++ x :: l3).
Proof.
  intros (l1 & l2 & ->)%list_elem_of_split [Hy|[->|Hy]%elem_of_cons]%elem_of_app; [|by left|].
  - apply list_elem_of_split in Hy as (k1 & k2 & ->). right. right. exists k1, k2, l2. by rewrite <- app_assoc.
  - apply list_elem_of_split in Hy as (k1 & k2 & ->). right. left. by exists l1, k1, k2.
Qed.

(** Heights that do not reach the largest one do not wrap around. *)
Lemma height_after_len h cs : 0 <= h -> h + len cs <= MaxInt64 -> height_after h cs = h + len cs.
Proof.
  intros H0h. induction cs as [|c cs IH] using rev_ind; intros Hle; [unfold len; cbn; lia|].
  rewrite height_after_snoc. unfold len in *. rewrite length_app in *. cbn [length] in *.
  rewrite IH by lia. rewrite wrap64_small; [lia|]. unfold in_i64, MinInt64, MaxInt64 in *. lia.
Qed.

Section Traces.
Context `{Crypto} `{Cramberry}.
Variables (chainID : string) (h0 : Z) (trace : list event).
Hypotheses (Hsafe : safe chainID h0 trace) (Hstart : 0 <= h0) (Hend : h0 + len (commits trace) <= MaxInt64).

(** No commit between two votes of a height. *)
Lemma no_commit_between t1 vals1 v1 t2 vals2 v2 t3 :
  trace = t1 ++ Voted vals1 v1 :: t2 ++ Voted vals2 v2 :: t3 -> vt_Height v1 = vt_Height v2 -> commits t2 = [].
Proof using Hsafe Hstart Hend.
  intros E Eh. pose proof (safe_vote_heights _ _ _ Hsafe t1 vals1 v1 _ E) as E1.
  pose proof (safe_vote_heights _ _ _ Hsafe (t1 ++ Voted vals1 v1 :: t2) vals2 v2 t3
    ltac:(by rewrite E, <- app_assoc)) as E2.
  assert (Ec : commits trace = commits t1 ++ commits t2 ++ commits t3).
  { rewrite E. unfold commits. rewrite omap_app. cbn. by rewrite omap_app. }
  assert (Ec2 : commits (t1 ++ Voted vals1 v1 :: t2) = commits t1 ++ commits t2) by (unfold commits; by rewrite omap_app).
  rewrite Ec2 in E2. rewrite Ec in Hend. unfold len in Hend. rewrite !length_app in Hend.
  rewrite height_after_len in E1, E2; [|done|unfold len; rewrite ?length_app; lia..].
  unfold len in *. rewrite length_app in E2. apply length_zero_iff_nil. lia.
Qed.

(** A validator casts one vote of a type in a round of a height. *)
Lemma trace_once vals1 v1 vals2 v2 :
  Voted vals1 v1 ∈ trace -> Voted vals2 v2 ∈ trace -> vt_Height v1 = vt_Height v2 ->
  vt_Type v1 = vt_Type v2 -> vt_Round v1 = vt_Round v2 -> vt_ValidatorIndex v1 = vt_ValidatorIndex v2 -> v1 = v2.
Proof using Hsafe Hstart Hend.
  intros H1 H2 Eh Et Er Ei. destruct (list_two _ _ _ H1 H2) as [[= -> ->]|[(a & b & c & E)|(a & b & c & E)]];
    [done|exfalso..].
  - pose proof (no_commit_between _ _ _ _ _ _ _ E Eh) as Hc. pose proof Hsafe as Hs. rewrite E in Hs.
    destruct (safe_pair _ _ _ _ _ _ _ _ _ Hs Hc) as (seg & i & j & Hv & Hij & Hi & Hj).
    by apply (vr_once _ _ Hv i j vals1 v1 vals2 v2).
  - pose proof (no_commit_between _ _ _ _ _ _ _ E (eq_sym Eh)) as Hc. pose proof Hsafe as Hs. rewrite E in Hs.
    destruct (safe_pair _ _ _ _ _ _ _ _ _ Hs Hc) as (seg & i & j & Hv & Hij & Hi & Hj).
    by apply (vr_once _ _ Hv i j vals2 v2 vals1 v1).
Qed.

(** A prevote of a later round than a precommit for another block comes after it, with a
    quorum of prevotes in between. *)
Lemma trace_lock vals1 v1 vals2 v2 :
  Voted vals1 v1 ∈ trace -> Voted vals2 v2 ∈ trace -> vt_Height v1 = vt_Height v2 -> vt_Round v1 < vt_Round v2 ->
  for_a_block VoteTypePrecommit v1 -> for_a_block VoteTypePrevote v2 -> vt_BlockHash v1 <> vt_BlockHash v2 ->
  moved_on chainID vals1 (vt_Height v1) (vt_Round v1) (vt_Round v2) (blockHashKey (vt_BlockHash v1)).
Proof using Hsafe Hstart Hend.
  intros H1 H2 Eh Hr F1 F2 Hne. destruct (list_two _ _ _ H1 H2) as [[= -> ->]|[(a & b & c & E)|(a & b & c & E)]];
    [lia|..]; pose proof Hsafe as Hs; rewrite E in Hs.
  - apply (safe_lock chainID h0 a b c vals1 v1 vals2 v2); [done| |done..]. by apply (no_commit_between _ _ _ _ _ _ _ E).
  - pose proof (no_commit_between _ _ _ _ _ _ _ E (eq_sym Eh)) as Hc.
    destruct (safe_pair _ _ _ _ _ _ _ _ _ Hs Hc) as (seg & i & j & Hv & Hij & Hi & Hj).
    pose proof (vr_rounds _ _ Hv i j vals2 v2 vals1 v1 Hij Hi Hj). lia.
Qed.
End Traces.

(** ** Correct validators *)

(** The power of the validators that are not known to be correct. *)
Definition faulty_power (vals : ValidatorSet) (correct : gset Z) : Z :=
  sumZ nv_VotingPower (filter (fun v => nv_Index v ∉ correct) (vals_Validators vals)).

Section Correct.
Context `{Crypto} `{Cramberry}.
Variables (chainID : string) (vals : ValidatorSet) (h : Z).

(** Validator [i] is a node with this trace, which started at height [h0]. Nobody else signs with
    its key: what verifies under it, at the height, it has voted. Its validator set of the
    height is [vals], and its height has not reached the largest integer. *)
Record correct_validator (h0 : Z) (i : Z) (trace : list event) : Prop := {
  cv_unforged : forall val v, GetByIndex vals i = Some val -> vt_ValidatorIndex v = i -> vt_Height v = h ->
    VerifyVoteSignature chainID (Some v) (nv_PublicKey val) = Ret tt ->
    exists vs v', Voted vs v' ∈ trace /\ canonical_vote v' = canonical_vote v;
  cv_vals : forall vs v, Voted vs v ∈ trace -> vt_Height v = h -> vs = vals;
  cv_start : 0 <= h0;
  cv_end : h0 + len (commits trace) <= MaxInt64 }.

Variables (correct : gset Z) (start : Z -> Z) (trace : Z -> list event).
Hypotheses (Hw : ValidatorSet_wf vals)
  (Hsafe : forall i, i ∈ correct -> safe chainID (start i) (trace i))
  (Hcorrect : forall i, i ∈ correct -> correct_validator (start i) i (trace i))
  (Hfaulty : 3 * faulty_power vals correct <= vals_TotalPower vals).
#[local] Set Default Proof Using "Type*".

(** Quorums meet in a correct validator. *)
Lemma quorums_meet log1 log2 k1 k2 :
  NoDup (vt_ValidatorIndex <$> log1) -> NoDup (vt_ValidatorIndex <$> log2) ->
  has_quorum vals log1 k1 -> has_quorum vals log2 k2 ->
  exists v1 v2, v1 ∈ same_block k1 log1 /\ v2 ∈ same_block k2 log2 /\
    vt_ValidatorIndex v1 = vt_ValidatorIndex v2 /\ vt_ValidatorIndex v1 ∈ correct.
Proof.
  intros N1 N2 Q1 Q2. pose proof (wf_core _ Hw) as Hc. unfold has_quorum in *. rewrite vote_power_signers in Q1, Q2.
  pose proof (signers_overlap vals (commit_sig_of <$> same_block k1 log1) (commit_sig_of <$> same_block k2 log2) Hc)
    as Ho. rewrite !commit_sig_indices in Ho.
  specialize (Ho (same_block_NoDup _ _ N1) (same_block_NoDup _ _ N2) Q1 Q2).
  set (both := filter _ _) in Ho.
  destruct (decide (Exists (fun v => nv_Index v ∈ correct) both)) as [He|He].
  - apply Exists_exists in He as (w & Hw' & Hi). unfold both in Hw'. apply list_elem_of_filter in Hw' as [H2 H1].
    apply signers_elem in H1 as (s1 & (v1 & -> & Hv1)%list_elem_of_fmap & G1).
    apply signers_elem in H2 as (s2 & (v2 & -> & Hv2)%list_elem_of_fmap & G2).
    apply (GetByIndex_Some _ _ _ Hc) in G1 as (_ & E1 & _), G2 as (_ & E2 & _). cbn in E1, E2.
    exists v1, v2. split_and!; [done|done|congruence|congruence].
  - exfalso. assert (Hle : sumZ nv_VotingPower both <= faulty_power vals correct); [|lia].
    apply sumZ_subset.
    + intros v [_ Hv]%list_elem_of_filter. pose proof (core_positive _ _ Hc Hv). lia.
    + apply NoDup_filter, signers_NoDup; [done|]. rewrite commit_sig_indices. by apply same_block_NoDup.
    + intros v Hv. apply list_elem_of_filter. split.
      * intros Hi. apply He, Exists_exists. eauto.
      * apply list_elem_of_filter in Hv as [_ Hv]. by eapply signers_subset.
Qed.

(** A vote of a quorum by a correct validator is one it has cast. *)
Lemma quorum_vote typ r v :
  vt_Type v = typ /\ vt_Height v = h /\ vt_Round v = r /\ vote_signed chainID vals v ->
  vt_ValidatorIndex v ∈ correct ->
  exists w, Voted vals w ∈ trace (vt_ValidatorIndex v) /\ vt_Type w = typ /\ vt_Height w = h /\ vt_Round w = r /\
    vt_ValidatorIndex w = vt_ValidatorIndex v /\ vt_BlockHash w = vt_BlockHash v.
Proof.
  intros (Et & Eh & Er & (val & Hg & _ & Hs)) Hi. pose proof (Hcorrect _ Hi) as Hcv.
  destruct (cv_unforged _ _ _ Hcv val v Hg eq_refl Eh Hs) as (vs & w & Hin & Ec).
  injection Ec as E1 E2 E3 E4 E5 E6 E7. assert (vs = vals) as -> by (apply (cv_vals _ _ _ Hcv _ _ Hin); congruence).
  exists w. split_and!; congruence.
Qed.

(** Two quorums meet in a validator that has cast a vote of each. *)
Lemma quorums_voted t1 t2 r1 r2 k1 k2 :
  quorum_for chainID vals t1 h r1 k1 -> quorum_for chainID vals t2 h r2 k2 ->
  exists i w1 w2, i ∈ correct /\ Voted vals w1 ∈ trace i /\ Voted vals w2 ∈ trace i /\
    (vt_Type w1 = t1 /\ vt_Height w1 = h /\ vt_Round w1 = r1 /\ blockHashKey (vt_BlockHash w1) = k1) /\
    (vt_Type w2 = t2 /\ vt_Height w2 = h /\ vt_Round w2 = r2 /\ blockHashKey (vt_BlockHash w2) = k2) /\
    vt_ValidatorIndex w1 = vt_ValidatorIndex w2.
Proof.
  intros (log1 & N1 & Q1 & V1) (log2 & N2 & Q2 & V2).
  destruct (quorums_meet log1 log2 k1 k2 N1 N2 Q1 Q2) as (v1 & v2 & H1 & H2 & Ei & Hi).
  apply same_block_elem in H1 as [K1 H1], H2 as [K2 H2].
  destruct (quorum_vote t1 r1 v1 (V1 _ H1) Hi) as (w1 & W1 & ? & ? & ? & I1 & B1).
  rewrite Ei in Hi. destruct (quorum_vote t2 r2 v2 (V2 _ H2) Hi) as (w2 & W2 & ? & ? & ? & I2 & B2).
  rewrite Ei in W1. exists (vt_ValidatorIndex v2), w1, w2. split_and!; congruence.
Qed.

(** One quorum of a type in a round. *)
Lemma one_quorum typ r k1 k2 :
  quorum_for chainID vals typ h r k1 -> quorum_for chainID vals typ h r k2 -> k1 = k2.
Proof.
  intros Q1 Q2. destruct (quorums_voted _ _ _ _ _ _ Q1 Q2) as (i & w1 & w2 & Hi & W1 & W2 & F1 & F2 & Ei).
  pose proof (Hcorrect i Hi) as [_ _ Hs He]. destruct F1 as (? & ? & ? & <-), F2 as (? & ? & ? & <-).
  by rewrite (trace_once _ _ _ (Hsafe i Hi) Hs He _ w1 _ w2 W1 W2) by congruence.
Qed.

(** A quorum of precommits for a block has one of prevotes. *)
Lemma precommits_prevotes r k :
  quorum_for chainID vals VoteTypePrecommit h r k -> k <> "nil" -> quorum_for chainID vals VoteTypePrevote h r k.
Proof.
  intros Q Hk. destruct (quorums_voted _ _ _ _ _ _ Q Q) as (i & w & _ & Hi & W & _ & (Et & Eh & <- & <-) & _).
  rewrite <- Eh. apply (safe_precommit _ _ _ _ _ (Hsafe i Hi) W). split; [done|].
  apply not_true_iff_false. by rewrite <- blockHashKey_nil.
Qed.

(** After precommits for a block, a quorum of prevotes for another one has an earlier one. *)
Lemma quorum_before r1 r2 k1 k2 :
  quorum_for chainID vals VoteTypePrecommit h r1 k1 -> quorum_for chainID vals VoteTypePrevote h r2 k2 ->
  k1 <> "nil" -> k2 <> "nil" -> k2 <> k1 -> r1 < r2 < MaxInt32 ->
  exists r k, r1 <= r < r2 /\ k <> k1 /\ quorum_for chainID vals VoteTypePrevote h r k.
Proof.
  intros Q1 Q2 N1 N2 Hne Hr. destruct (quorums_voted _ _ _ _ _ _ Q1 Q2) as (i & w1 & w2 & Hi & W1 & W2 & F1 & F2 & _).
  destruct F1 as (T1 & E1 & R1 & K1), F2 as (T2 & E2 & R2 & K2). pose proof (Hcorrect i Hi) as [_ _ Hs He].
  assert (Hm : moved_on chainID vals (vt_Height w1) (vt_Round w1) (vt_Round w2) (blockHashKey (vt_BlockHash w1))).
  { apply (trace_lock _ _ _ (Hsafe i Hi) Hs He vals w1 vals w2 W1 W2); [congruence|lia|split; [done|]..|congruence];
      apply not_true_iff_false; rewrite <- blockHashKey_nil; congruence. }
  destruct Hm as (r & k & Hle & Hlt & Hk & Q). rewrite E1, R1, R2, K1 in *. exists r, k. split_and!; [lia|lia|done|done].
Qed.

(** So the first one is of nil prevotes. *)
Lemma nil_quorum_between r1 r2 k1 k2 :
  quorum_for chainID vals VoteTypePrecommit h r1 k1 -> k1 <> "nil" -> r1 <= r2 < MaxInt32 ->
  quorum_for chainID vals VoteTypePrevote h r2 k2 -> k2 <> k1 ->
  exists r, r1 < r <= r2 /\ quorum_for chainID vals VoteTypePrevote h r "nil".
Proof.
  intros Q1 N1 [Hle Hlt]. revert r2 Hle Hlt k2. refine (Zlt_lower_bound_ind _ r1 _).
  intros r2 IH Hle Hlt k2 Q2 Hne. destruct (decide (r1 = r2)) as [<-|Hr].
  { destruct Hne. by apply (one_quorum _ _ _ _ Q2), precommits_prevotes. }
  destruct (decide (k2 = "nil")) as [->|N2]; [exists r2; split; [lia|done]|].
  destruct (quorum_before r1 r2 k1 k2 Q1 Q2 N1 N2 Hne ltac:(lia)) as (r & k & Hr' & Hk & Q).
  destruct (IH r ltac:(lia) ltac:(lia) k Q Hk) as (r' & ? & ?). exists r'. split; [lia|done].
Qed.

(** The precommits behind the entries of a certificate. *)
Definition certificate_votes (c : Commit) (sigs : list CommitSig) : list Vote :=
  omap (fun s => commit_vote c s <$> GetByIndex vals (cs_ValidatorIndex s)) sigs.

Lemma certificate_votes_elem c sigs v :
  v ∈ certificate_votes c sigs <->
  exists s val, s ∈ sigs /\ GetByIndex vals (cs_ValidatorIndex s) = Some val /\ v = commit_vote c s val.
Proof.
  unfold certificate_votes. rewrite list_elem_of_omap. split.
  - intros (s & Hs & (val & Hg & ->)%fmap_Some). eauto.
  - intros (s & val & Hs & Hg & ->). exists s. by rewrite Hg.
Qed.

Lemma certificate_votes_power c sigs :
  sumZ (vote_power vals) (certificate_votes c sigs) = sumZ nv_VotingPower (signers vals sigs).
Proof.
  unfold certificate_votes, signers, vote_power. induction sigs as [|s sigs IH]; [done|]. csimpl.
  destruct (GetByIndex vals (cs_ValidatorIndex s)) as [val|] eqn:E; cbn; [|done]. by rewrite E, IH.
Qed.

Lemma certificate_votes_NoDup c sigs :
  NoDup (cs_ValidatorIndex <$> sigs) -> NoDup (vt_ValidatorIndex <$> certificate_votes c sigs).
Proof.
  unfold certificate_votes. induction sigs as [|s sigs IH]; csimpl; [constructor|].
  intros [Hn Hd]%NoDup_cons. destruct (GetByIndex vals (cs_ValidatorIndex s)) as [val|]; cbn; [|auto].
  apply NoDup_cons. split; [|auto]. intros (v & Ev & (s' & w & Hs & _ & ->)%certificate_votes_elem)%list_elem_of_fmap.
  apply Hn. rewrite Ev. by apply (list_elem_of_fmap_2 cs_ValidatorIndex).
Qed.

(** A certificate is a quorum of precommits. *)
Lemma certificate_quorum hash c :
  VerifyCommit chainID (Some vals) hash h (Some c) = Ret tt ->
  IsHashEmpty (Some hash) = false /\
  quorum_for chainID vals VoteTypePrecommit h (cm_Round c) (blockHashKey (Some hash)).
Proof.
  intros [Hh _ Hn Hv Hp]%VerifyCommit_ok; [|done]. set (sigs := counted hash (cm_Signatures c)) in *.
  assert (Hf : forall s, s ∈ sigs -> cs_BlockHash s = Some hash /\ IsHashEmpty (Some hash) = false).
  { intros s [[Hb _] _]%list_elem_of_filter. unfold for_block in Hb. destruct (cs_BlockHash s) as [d|]; [|done].
    apply andb_prop in Hb as [He ->%HashEqual_true]. by apply negb_true_iff in He. }
  split.
  - destruct sigs as [|s sigs']; [|by apply (Hf s); left]. cbn in Hp. pose proof (wf_total_pos _ Hw). lia.
  - exists (certificate_votes c sigs). split_and!; [by apply certificate_votes_NoDup, counted_NoDup| |].
    + unfold has_quorum, same_block. rewrite list_filter_all, certificate_votes_power; [done|].
      intros v (s & val & Hs & _ & ->)%certificate_votes_elem. cbn. by destruct (Hf s Hs) as [-> _].
    + intros v (s & val & Hs & Hg & ->)%certificate_votes_elem. split_and!; [done|done|done|].
      destruct (Hv s Hs) as (val' & Hg' & Hsig). assert (val' = val) as -> by congruence.
      exists val. by split_and!.
Qed.

Lemma commits_agree c1 c2 :
  VerifyCommit chainID (Some vals) (cm_BlockHash c1) h (Some c1) = Ret tt ->
  VerifyCommit chainID (Some vals) (cm_BlockHash c2) h (Some c2) = Ret tt ->
  cm_Round c1 <= cm_Round c2 < MaxInt32 ->
  cm_BlockHash c1 = cm_BlockHash c2 \/
  exists r, cm_Round c1 < r <= cm_Round c2 /\ quorum_for chainID vals VoteTypePrevote h r "nil".
Proof.
  intros [N1 Q1]%certificate_quorum [N2 Q2]%certificate_quorum Hr.
  assert (Hnil : forall d, IsHashEmpty (Some d) = false -> blockHashKey (Some d) <> "nil")
    by (intros d Hd E%blockHashKey_nil; congruence).
  destruct (decide (cm_BlockHash c1 = cm_BlockHash c2)) as [|Hne]; [by left|right].
  apply (nil_quorum_between (cm_Round c1) (cm_Round c2) _ (blockHashKey (Some (cm_BlockHash c2))) Q1 (Hnil _ N1) Hr).
  - apply precommits_prevotes; auto.
  - rewrite blockHashKey_Some by done. congruence.
Qed.
End Correct.

(** ** The nodes *)

Section Agreement.
#[local] Set Default Proof Using "Type*".
Context `{Crypto} `{Cramberry} `{MapOrder}.
Context {PV X W : Type} `{PrivValidator PV} `{!BlockExecutor X} `{!ExecutorLaws X} `{WAL W}.

(** Validator [i] is a node that follows the code, in some state it reaches or has died in. *)
Definition correct_node (clock : nat -> Z) (fuel : nat) (config : Config) (vals : ValidatorSet) (h i h0 : Z)
    (s : ConsensusState PV X W) : Prop :=
  exists s0 vals0 lastCommit, fresh_node s0 config vals0 /\ ValidatorSet_wf vals0 /\
    (reach clock fuel s0 h0 lastCommit s \/ died clock fuel s0 h0 lastCommit s) /\
    correct_validator (cf_ChainID config) vals h h0 i (cs_trace s).

(** C1: agreement, up to quorums of nil prevotes: if the validators that do not follow the code have at most a
    third of the power, two certificates for a height, by whomever they are made, are for the same
    block, or there is a quorum of nil prevotes in a round above the lower of their rounds and not
    above the higher one. Each correct validator is a node in any reachable or final state, with
    its own clock and schedule of messages and timeouts; the faulty ones and the network are not restricted, but
    signatures are not forged. *)
Theorem agreement_unless_nil (clock : Z -> nat -> Z) (fuel : nat) (config : Config) (vals : ValidatorSet)
    (correct : gset Z) (h0 : Z -> Z) (node : Z -> ConsensusState PV X W) (h : Z) (c1 c2 : Commit) :
  ValidatorSet_wf vals ->
  (forall i, i ∈ correct -> correct_node (clock i) fuel config vals h i (h0 i) (node i)) ->
  3 * faulty_power vals correct <= vals_TotalPower vals ->
  VerifyCommit (cf_ChainID config) (Some vals) (cm_BlockHash c1) h (Some c1) = Ret tt ->
  VerifyCommit (cf_ChainID config) (Some vals) (cm_BlockHash c2) h (Some c2) = Ret tt ->
  cm_Round c1 < MaxInt32 -> cm_Round c2 < MaxInt32 ->
  cm_BlockHash c1 = cm_BlockHash c2 \/
  exists r, Z.min (cm_Round c1) (cm_Round c2) < r <= Z.max (cm_Round c1) (cm_Round c2) /\
    quorum_for (cf_ChainID config) vals VoteTypePrevote h r "nil".
Proof.
  intros Hw Hn Hf V1 V2 R1 R2.
  assert (Hs : forall i, i ∈ correct -> safe (cf_ChainID config) (h0 i) (cs_trace (node i))).
  { intros i Hi. destruct (Hn i Hi) as (s0 & vals0 & lc & Hfr & Hv & Hr & _). by eapply reach_safe. }
  assert (Hc : forall i, i ∈ correct -> correct_validator (cf_ChainID config) vals h (h0 i) i (cs_trace (node i))).
  { intros i Hi. by destruct (Hn i Hi) as (s0 & vals0 & lc & _ & _ & _ & ?). }
  pose proof (commits_agree (cf_ChainID config) vals h correct h0 (fun i => cs_trace (node i)) Hw Hs Hc Hf) as Ha.
  destruct (Z.le_ge_cases (cm_Round c1) (cm_Round c2)).
  - destruct (Ha c1 c2 V1 V2 ltac:(lia)) as [|(r & ? & ?)]; [by left|right]. exists r. split; [lia|done].
  - destruct (Ha c2 c1 V2 V1 ltac:(lia)) as [|(r & ? & ?)]; [by left|right]. exists r. split; [lia|done].
Qed.
End Agreement.

(** ** Example: the fork again

    The schedule of the fork with signatures that nobody can forge: a key verifies the votes
    that its node casts in that run, and no others. The fourth validator is counted as faulty. *)

#[local] Instance byte_countable : Countable byte :=
  inj_countable' Byte.to_N (fun n => default Byte.x00 (Byte.of_N n)) ltac:(by intros []).

Fixpoint bits_of (p : positive) : bytes :=
  match p with xH => [Byte.x02] | xO p => Byte.x00 :: bits_of p | xI p => Byte.x01 :: bits_of p end.

Lemma bits_of_inj p q : bits_of p = bits_of q -> p = q.
Proof. revert q. induction p as [p IH|p IH|]; intros [q|q|] E; try done; f_equal; apply IH; by injection E. Qed.

Definition vote_code (v : Vote) : bytes :=
  bits_of (encode ([vt_Type v; vt_Height v; vt_Round v; vt_Timestamp v; vt_ValidatorIndex v],
    h_Data <$> vt_BlockHash v, an_Name (vt_Validator v), sig_Data (vt_Signature v))).

Lemma vote_code_inj v w : vote_code v = vote_code w -> v = w.
Proof.
  intros E%bits_of_inj%(inj encode). destruct v as [? ? ? b ? [n] ? [s]], w as [? ? ? b' ? [n'] ? [s']].
  cbn in E. injection E as -> -> -> -> -> Eb -> ->. f_equal. destruct b as [[]|], b' as [[]|]; cbn in Eb; congruence.
Qed.

#[local] Instance coded_cramberry : Cramberry := {|
  marshal_BlockHeader := fun h => Ret (put_header h);
  marshal_Block := fun b => Ret (put_block b);
  marshal_Commit := fun c => Ret (put_commit c);
  marshal_Vote := fun v => Ret (vote_code v);
  marshal_Proposal := fun p => Ret (Byte.x03 :: put_proposal p);
  marshal_ValidatorSetData := fun _ => Err (errorf "not used");
  marshal_DuplicateVoteEvidence := fun _ => Err (errorf "not used");
  marshal_ConsensusStateData := fun _ => Ret [];
  unmarshal_Block := fun _ => Err (errorf "not used");
  unmarshal_Vote := fun _ => Err (errorf "not used");
  unmarshal_Proposal := fun _ => Err (errorf "not used") |}.

(** The nodes at the end of the schedule, with some signature scheme. *)
Definition start_with (cr : Crypto) (b : byte) : CS4 :=
  match Start clock_5 2 1 None (new_node b) with Done _ s => s | _ => new_node b end.

Definition fork_with (cr : Crypto) : list CS4 :=
  default [] (run clock_5 2 fork_schedule (start_with cr <$> [Byte.x0a; Byte.x0b; Byte.x0c; Byte.x0d])).

(** The votes of that run, with the keys. *)
Definition cast_votes : list (bytes * Vote) :=
  concat (zip_with (fun b s => (fun p : ValidatorSet * Vote => (replicate 32 b, canonical_vote p.2)) <$> voted (cs_trace s))
            [Byte.x0a; Byte.x0b; Byte.x0c; Byte.x0d] (fork_with toy_crypto)).

Definition seals : list (bytes * bytes) :=
  Eval vm_compute in (fun p => (p.1, bytes_of_string chain_c ++ vote_code p.2)) <$> cast_votes.

#[local] Instance sealed_crypto : Crypto := {|
  sha256_Sum256 := pad 32;
  ed25519_Sign := toy_sign;
  ed25519_Verify := fun pk m s =>
    match m with
    | _ :: Byte.x03 :: _ => bool_decide (s = toy_sign pk m)
    | _ => bool_decide ((pk, m) ∈ seals)
    end |}.

Definition bytes_4 : list byte := [Byte.x0a; Byte.x0b; Byte.x0c; Byte.x0d].

Definition sealed_node (i : Z) : CS4 := default (new_node Byte.x0a) (fork_with sealed_crypto !! Z.to_nat i).

Definition sealed_votes (i : Z) : list (ValidatorSet * Vote) := voted (cs_trace (sealed_node i)).

Lemma voted_elem trace vals v : Voted vals v ∈ trace <-> (vals, v) ∈ voted trace.
Proof.
  unfold voted. rewrite list_elem_of_omap. split; [by exists (Voted vals v)|].
  intros (e & He & E). destruct e; simplify_eq. done.
Qed.

(** The votes of a key that a node has cast. *)
Definition all_cast (b : byte) (votes : list (ValidatorSet * Vote)) (cast : list (bytes * Vote)) : bool :=
  forallb (fun p => negb (bool_decide (p.1 = replicate 32 b)) ||
                    bool_decide (p.2 ∈ canonical_vote <$> votes.*2)) cast.

Lemma sealed_voted i vs v : Voted vs v ∈ cs_trace (sealed_node i) <-> (vs, v) ∈ sealed_votes i.
Proof. apply voted_elem. Qed.

(** What has to be computed of the run. *)
Definition starts_ok (b : byte) : bool :=
  match Start clock_5 2 1 None (new_node b) with Done (Ret _) _ => true | _ => false end.

Definition sealed_ok (i : Z) (b : byte) : bool :=
  all_cast b (sealed_votes i) cast_votes &&
  bool_decide (pk_Data <$> (nv_PublicKey <$> GetByIndex set_4 i) = Some (replicate 32 b)) &&
  (len (commits (cs_trace (sealed_node i))) <? 100).

Lemma sealed_ok_spec i b :
  sealed_ok i b = true ->
  all_cast b (sealed_votes i) cast_votes = true /\
  (forall val, GetByIndex set_4 i = Some val -> pk_Data (nv_PublicKey val) = replicate 32 b) /\
  len (commits (cs_trace (sealed_node i))) < 100.
Proof.
  unfold sealed_ok. generalize (all_cast b (sealed_votes i) cast_votes) (len (commits (cs_trace (sealed_node i)))).
  intros c l Hb. bool_to_prop. split_and!; [done| |done]. intros val Hg. rewrite Hg in *. cbn in *. congruence.
Qed.

Lemma sealed_computed : forallb (fun p => sealed_ok p.1 p.2) (zip [0; 1; 2; 3] bytes_4) = true.
Proof. vm_compute. reflexivity. Qed.

Lemma sealed_vals i : i ∈ [0; 1; 2] -> forall vs v, (vs, v) ∈ sealed_votes i -> vt_Height v = 1 -> vs = set_4.
Proof.
  assert (Hc : forall i, i ∈ [0; 1; 2] -> (filter (fun p => vt_Height p.2 = 1) (sealed_votes i)).*1 =
      replicate (length (filter (fun p => vt_Height p.2 = 1) (sealed_votes i))) set_4).
  { apply Forall_forall. repeat (constructor; [vm_compute; reflexivity|]). constructor. }
  intros Hi vs v Hv Hh. assert (Hin : vs ∈ (filter (fun p => vt_Height p.2 = 1) (sealed_votes i)).*1).
  { apply list_elem_of_fmap. exists (vs, v). split; [done|]. by apply list_elem_of_filter. }
  rewrite (Hc i Hi) in Hin. by apply elem_of_replicate in Hin as [-> _].
Qed.

Lemma seals_cast pk m : (pk, m) ∈ seals -> exists w, (pk, w) ∈ cast_votes /\ m = bytes_of_string chain_c ++ vote_code w.
Proof.
  change seals with ((fun p : bytes * Vote => (p.1, bytes_of_string chain_c ++ vote_code p.2)) <$> cast_votes).
  intros ([pk' w] & [= -> ->] & Hw)%list_elem_of_fmap. eauto.
Qed.

Lemma sealed_Verify pk w s :
  ed25519_Verify pk (bytes_of_string chain_c ++ vote_code w) s = true -> (pk, w) ∈ cast_votes.
Proof.
  intros E. assert (Hin : (pk, bytes_of_string chain_c ++ vote_code w) ∈ seals).
  { revert E. unfold vote_code. change (bytes_of_string chain_c) with [Byte.x63].
    destruct (encode _); cbn [ed25519_Verify sealed_crypto app bits_of]; by intros ?%bool_decide_eq_true. }
  apply seals_cast in Hin as (w' & Hw & E'%app_inv_head). by apply vote_code_inj in E' as <-.
Qed.

Lemma all_cast_elem b votes cast w :
  all_cast b votes cast = true -> (replicate 32 b, w) ∈ cast ->
  exists vs v', (vs, v') ∈ votes /\ canonical_vote v' = w.
Proof.
  unfold all_cast. rewrite forallb_forall. intros Hc Hw%list_elem_of_In. specialize (Hc _ Hw). cbn [fst snd] in Hc.
  rewrite bool_decide_true in Hc by done. apply bool_decide_eq_true in Hc.
  apply list_elem_of_fmap in Hc as (v' & -> & ([vs u] & -> & Hu)%list_elem_of_fmap). by exists vs, u.
Qed.

Lemma sealed_signed pk v :
  VerifyVoteSignature chain_c (Some v) pk = Ret tt -> (pk_Data pk, canonical_vote v) ∈ cast_votes.
Proof.
  intros Hv. unfold VerifyVoteSignature in Hv. destruct (_ =? 0); [done|]. destruct (negb _); [done|].
  change (VoteSignBytes chain_c (Some v)) with (Ret (bytes_of_string chain_c ++ vote_code (canonical_vote v))) in Hv.
  cbn [rbind] in Hv. destruct (ed25519_Verify _ _ _) eqn:E; [|done]. by apply sealed_Verify in E.
Qed.

Lemma sealed_unforged i b val v :
  sealed_ok i b = true -> GetByIndex set_4 i = Some val ->
  VerifyVoteSignature chain_c (Some v) (nv_PublicKey val) = Ret tt ->
  exists vs v', (vs, v') ∈ sealed_votes i /\ canonical_vote v' = canonical_vote v.
Proof.
  intros (Hc & Hk & _)%sealed_ok_spec Hg Hv%sealed_signed. rewrite (Hk _ Hg) in Hv. exact (all_cast_elem b _ _ _ Hc Hv).
Qed.

Lemma sealed_start b :
  starts_ok b = true -> reach clock_5 2 (new_node b) 1 None (start_with sealed_crypto b).
Proof.
  unfold starts_ok, start_with. intros E. apply reach_start.
  destruct (Start clock_5 2 1 None (new_node b)) as [[[]| |] s| |]; done.
Qed.

Lemma sealed_ok_at i b : zip [0; 1; 2; 3] bytes_4 !! i = Some (Z.of_nat i, b) -> sealed_ok (Z.of_nat i) b = true.
Proof.
  intros Hi. pose proof sealed_computed as Hc. rewrite forallb_forall in Hc.
  apply list_elem_of_lookup_2, list_elem_of_In in Hi. by apply Hc in Hi.
Qed.

Lemma sealed_starts : Forall2 (fun s0 s => reach clock_5 2 s0 1 None s) nodes_4 (start_with sealed_crypto <$> bytes_4).
Proof.
  repeat (constructor; [apply sealed_start; vm_compute; reflexivity|]). constructor.
Qed.

Lemma sealed_run_ends : bool_decide (is_Some (run clock_5 2 fork_schedule (start_with sealed_crypto <$> bytes_4))) = true.
Proof. vm_compute. reflexivity. Qed.

Lemma sealed_reach i b : bytes_4 !! i = Some b -> reach clock_5 2 (new_node b) 1 None (sealed_node (Z.of_nat i)).
Proof.
  intros Hb. pose proof sealed_run_ends as Hd. apply bool_decide_eq_true in Hd as [net E]. assert (Hn : sealed_node (Z.of_nat i) = default (new_node Byte.x0a) (net !! i)).
  { unfold sealed_node, fork_with. rewrite Nat2Z.id. change [Byte.x0a; Byte.x0b; Byte.x0c; Byte.x0d] with bytes_4.
    by rewrite E. }
  apply run_steps, (net_reach clock_5 2 1 None nodes_4 _ net sealed_starts) in E.
  assert (Hn4 : nodes_4 !! i = Some (new_node b)) by (unfold nodes_4; rewrite list_lookup_fmap; unfold bytes_4 in Hb; by rewrite Hb).
  destruct (Forall2_lookup_l _ _ _ _ _ E Hn4) as (s & Es & Hr).
  assert (Hs : sealed_node (Z.of_nat i) = s) by (rewrite Hn; exact (f_equal (default (new_node Byte.x0a)) Es)).
  rewrite Hs. exact Hr.
Qed.

Lemma sealed_correct i : i ∈ ({[0; 1; 2]} : gset Z) -> correct_node clock_5 2 config_c set_4 1 i 1 (sealed_node i).
Proof.
  intros Hi. assert (Hz : exists k b, i = Z.of_nat k /\ zip [0; 1; 2; 3] bytes_4 !! k = Some (Z.of_nat k, b) /\
      bytes_4 !! k = Some b /\ i ∈ [0; 1; 2]).
  { assert (i = 0 \/ i = 1 \/ i = 2) as [->|[->| ->]] by set_solver;
      [exists 0%nat|exists 1%nat|exists 2%nat]; eexists; (split_and!; [done|reflexivity|reflexivity|]); set_solver. }
  destruct Hz as (k & b & -> & Hk & Hb & Hin). pose proof (sealed_ok_at k b Hk) as Hok.
  exists (new_node b), set_4, None. split_and!; [apply new_node_fresh|apply set_4_wf|left; by apply sealed_reach|].
  split.
  - intros val v Hg _ _ Hv. destruct (sealed_unforged _ b val v Hok Hg Hv) as (vs & w & Hw & E).
    exists vs, w. split; [by apply sealed_voted|exact E].
  - intros vs v Hv%sealed_voted. by apply (sealed_vals _ Hin).
  - done.
  - destruct (sealed_ok_spec _ _ Hok) as (_ & _ & Hl). revert Hl. generalize (len (commits (cs_trace (sealed_node (Z.of_nat k))))).
    unfold MaxInt64. lia.
Qed.

(** The commits of the fork, made by node 1 in round 0 and by node 2 in round 2: the nil prevotes of round 1. *)
Definition sealed_commit (i : Z) : Commit :=
  default (mkCommit 0 0 HashEmpty []) (head (commits (cs_trace (sealed_node i)))).

Lemma agreement_unless_nil_witness :
  exists r, Z.min (cm_Round (sealed_commit 1)) (cm_Round (sealed_commit 2)) < r <=
              Z.max (cm_Round (sealed_commit 1)) (cm_Round (sealed_commit 2)) /\
    quorum_for chain_c set_4 VoteTypePrevote 1 r "nil".
Proof.
  destruct (agreement_unless_nil (fun _ => clock_5) 2 config_c set_4 {[0; 1; 2]} (fun _ => 1) sealed_node 1
              (sealed_commit 1) (sealed_commit 2)) as [E|(r & Hr & Hq)];
    [apply set_4_wf|apply sealed_correct|vm_compute; done|vm_compute; reflexivity..| |].
  - exfalso. revert E. vm_compute. congruence.
  - exists r. exact (conj Hr Hq).
Defined.
