(* ===== verification/Replay.v ===== *)
(** * Replay of the write-ahead log (src/engine/replay.go)

    [ReplayWAL] collects what the log has of a height; [ReplayCatchup] makes it the state of the
    node. The log is any implementation of [WAL]. *)

From S2P Require Export WalTheorems Consensus.

(** ** Definitions *)

Definition ErrReplayFailed : error := sentinel "engine.ErrReplayFailed".
Definition ErrNoWAL : error := sentinel "engine.ErrNoWAL".
Definition engine_ErrWALCorrupted : error := sentinel "engine.ErrWALCorrupted".
Definition ErrInvalidWALHeight : error := sentinel "engine.ErrInvalidWALHeight".

Record WALReplayResult := mkWALReplayResult {
  rr_Height : Z;
  rr_Round : Z;
  rr_Step : Z;
  rr_MessagesReplayed : Z;
  rr_Proposal : option Proposal;
  rr_Votes : list Vote;
  rr_FoundEndHeight : bool;
  rr_LockedRound : Z;
  rr_LockedBlockHash : option Hash;
  rr_ValidRound : Z;
  rr_ValidBlockHash : option Hash }.

(** [&WALReplayResult{Height: targetHeight}] *)
Definition new_result (targetHeight : Z) : WALReplayResult :=
  mkWALReplayResult targetHeight 0 0 0 None [] false 0 None 0 None.

Section Replay.
Context `{Crypto} `{Cramberry} `{WalCodec} `{MapOrder}.

(** *** Messages *)

Definition replayProposal (msg : Message) (r : WALReplayResult) : res WALReplayResult :=
  let! proposal := rwrap (DecodeProposal (msg_Data msg)) (fun e => wrapf e "failed to decode proposal: %w") in
  Ret (mkWALReplayResult (rr_Height r) (msg_Round msg) (rr_Step r) (rr_MessagesReplayed r) (Some proposal)
         (rr_Votes r) (rr_FoundEndHeight r) (rr_LockedRound r) (rr_LockedBlockHash r) (rr_ValidRound r)
         (rr_ValidBlockHash r)).

Definition replayVote (msg : Message) (r : WALReplayResult) : res WALReplayResult :=
  let! vote := rwrap (DecodeVote (msg_Data msg)) (fun e => wrapf e "failed to decode vote: %w") in
  Ret (mkWALReplayResult (rr_Height r) (msg_Round msg) (rr_Step r) (rr_MessagesReplayed r) (rr_Proposal r)
         (rr_Votes r ++ [vote]) (rr_FoundEndHeight r) (rr_LockedRound r) (rr_LockedBlockHash r) (rr_ValidRound r)
         (rr_ValidBlockHash r)).

Definition replayState (msg : Message) (r : WALReplayResult) : res WALReplayResult :=
  let! state := rwrap (DecodeState (msg_Data msg)) (fun e => wrapf e "failed to decode state: %w") in
  Ret (mkWALReplayResult (csd_Height state) (csd_Round state) (csd_Step state) (rr_MessagesReplayed r) (rr_Proposal r)
         (rr_Votes r) (rr_FoundEndHeight r) (csd_LockedRound state) (CopyHash (csd_LockedBlockHash state))
         (csd_ValidRound state) (CopyHash (csd_ValidBlockHash state))).

Definition replayMessage (msg : Message) (r : WALReplayResult) : res WALReplayResult :=
  if msg_Type msg =? MsgTypeProposal then replayProposal msg r
  else if msg_Type msg =? MsgTypeVote then replayVote msg r
  else if msg_Type msg =? MsgTypeState then replayState msg r
  else Ret r.

(** [result.MessagesReplayed++], and [FoundEndHeight] at the end of the height. *)
Definition count_message (msg : Message) (r : WALReplayResult) : WALReplayResult :=
  mkWALReplayResult (rr_Height r) (rr_Round r) (rr_Step r) (wrap64 (rr_MessagesReplayed r + 1)) (rr_Proposal r)
    (rr_Votes r) (rr_FoundEndHeight r || (msg_Type msg =? MsgTypeEndHeight)) (rr_LockedRound r)
    (rr_LockedBlockHash r) (rr_ValidRound r) (rr_ValidBlockHash r).

(** *** ReplayWAL *)

Context {PV X W : Type} `{PrivValidator PV} `{BlockExecutor X} {LW : WAL W}.

(** The loop over the messages of the reader. The code has no bound; on a log that works, fuel for its messages is enough ([ReplayWAL_reads_log]). *)
Fixpoint replay_loop (fuel : nat) (targetHeight : Z) (reader : wal_Reader (WAL := LW)) (r : WALReplayResult)
    : res WALReplayResult :=
  match fuel with
  | O => Panic "out of fuel"
  | S fuel =>
      match reader_Read reader with
      | (_, Err e) => if bool_decide (e = io_EOF) then Ret r else Err (wrapf e "failed to read WAL: %w")
      | (_, Panic m) => Panic m
      | (reader, Ret msg) =>
          if! negb (msg_Height msg =? targetHeight) return replay_loop fuel targetHeight reader r in
          let! r := rwrap (replayMessage msg r) (fun e => wrapf e "failed to replay message: %w") in
          let r := count_message msg r in
          if! msg_Type msg =? MsgTypeEndHeight return Ret r in
          replay_loop fuel targetHeight reader r
      end
  end.

Notation CS := (ConsensusState PV X W).

Definition ReplayWAL (fuel : nat) (targetHeight : Z) : M CS (res WALReplayResult) := fun s =>
  match cs_wal s with
  | None => Done (Err ErrNoWAL) s
  | Some w =>
      let '(w, r) := wal_SearchForEndHeight (wrap64 (targetHeight - 1)) w in
      let s := with_wal (Some w) s in
      match r with
      | Err e => Done (Err (wrapf e "failed to search WAL: %w")) s
      | Panic m => Panicked m s
      | Ret None => Done (Ret (new_result targetHeight)) s
      | Ret (Some reader) =>
          match replay_loop fuel targetHeight reader (new_result targetHeight) with
          | Panic m => Panicked m s
          | r => Done r s
          end
      end
  end.

(** *** ReplayCatchup *)

(** [votes_nil]: [Start] has not created [cs.votes] yet. The outcome of the vote set is only
    logged. *)
Definition addVoteNoLock (votes_nil : bool) (vote : Vote) : M CS unit :=
  if! votes_nil return mret tt in
  let* rs := get_state in
  let '(votes, r) := AddVoteForReplay vote (rs_votes rs) in
  put (set_votes votes) ;;
  mtry r (fun _ => mret tt) (fun _ => mret tt).

Fixpoint add_votes (votes_nil : bool) (votes : list Vote) : M CS unit :=
  match votes with
  | [] => mret tt
  | vote :: votes => addVoteNoLock votes_nil vote ;; add_votes votes_nil votes
  end.

(** The fields that a result sets, apart from the proposal. *)
Definition restore_round (r : WALReplayResult) (rs : RoundState) : RoundState :=
  set_validRound (rr_ValidRound r) (set_lockedRound (rr_LockedRound r)
    (set_step (rr_Step r) (set_round (rr_Round r) (set_height (rr_Height r) rs)))).

(** [hash != nil && HashEqual(proposalHash, *hash)] *)
Definition same_hash (h : Hash) (o : option Hash) : bool :=
  match o with Some h' => HashEqual h h' | None => false end.

Definition restore_proposal (r : WALReplayResult) (proposal : Proposal) (proposalHash : Hash) (rs : RoundState) : RoundState :=
  let rs := set_proposalBlock (CopyBlock (Some (p_Block proposal))) (set_proposal (CopyProposal (Some proposal)) rs) in
  let rs := if same_hash proposalHash (rr_LockedBlockHash r) then set_lockedBlock (CopyBlock (Some (p_Block proposal))) rs else rs in
  if same_hash proposalHash (rr_ValidBlockHash r) then set_validBlock (CopyBlock (Some (p_Block proposal))) rs else rs.

Definition ReplayCatchup (fuel : nat) (votes_nil : bool) (targetHeight : Z) : M CS (res unit) :=
  let* r := ReplayWAL fuel targetHeight in
  mtry r (fun r =>
    if! rr_MessagesReplayed r =? 0 return mret (Ret tt) in
    put (restore_round r) ;;
    match rr_Proposal r with
    | None => mret tt
    | Some proposal =>
        let* proposalHash := hash_of_block (p_Block proposal) in
        put (restore_proposal r proposal proposalHash)
    end ;;
    add_votes votes_nil (rr_Votes r) ;;
    mret (Ret tt))
  (fun e => mret (Err e)).
End Replay.

(** ** WALWriter *)

Section WALWriter.
Context `{Cramberry} {W : Type} `{WAL W}.

(** A write of a message whose construction may fail. *)
Definition write_new (msg : res Message) (w : W) : W * res unit :=
  match msg with Ret msg => wal_WriteSync msg w | Err e => (w, Err e) | Panic m => (w, Panic m) end.

Definition WriteProposal (height round : Z) (proposal : Proposal) : W -> W * res unit :=
  write_new (NewProposalMessage height round proposal).
Definition WriteVote (height round : Z) (vote : Vote) : W -> W * res unit :=
  write_new (NewVoteMessage height round vote).
Definition WriteEndHeight (height : Z) : W -> W * res unit := wal_WriteSync (NewEndHeightMessage height).
Definition WriteState (state : ConsensusStateData) : W -> W * res unit := write_new (NewStateMessage state).
Definition WALWriter_Flush : W -> W * res unit := wal_FlushAndSync.
End WALWriter.
