(* ===== verification/ReplayTheorems.v ===== *)
(** * What a replay restores

    [ReplayWAL] reads the messages of a height behind the end of the one before, and ends.
    [ReplayCatchup] restores the lock of a node if the last proposal of the log is the locked
    one, and otherwise forgets it. *)

From S2P Require Export Replay.

Section Reading.
Context `{Crypto} `{Cramberry} `{WalCodec} `{MapOrder}.
Context {W : Type} {LW : WAL W}.

(** ** The loop over the messages *)

(** The reader returns the messages, and then the end of the file. *)
Inductive reads : wal_Reader (WAL := LW) -> list Message -> Prop :=
| reads_end r r' : reader_Read r = (r', Err io_EOF) -> reads r []
| reads_message r r' m l : reader_Read r = (r', Ret m) -> reads r' l -> reads r (m :: l).

(** The loop without a reader. *)
Fixpoint replay_all (targetHeight : Z) (msgs : list Message) (r : WALReplayResult) : res WALReplayResult :=
  match msgs with
  | [] => Ret r
  | msg :: msgs =>
      if negb (msg_Height msg =? targetHeight) then replay_all targetHeight msgs r else
      let! r := rwrap (replayMessage msg r) (fun e => wrapf e "failed to replay message: %w") in
      let r := count_message msg r in
      if msg_Type msg =? MsgTypeEndHeight then Ret r else replay_all targetHeight msgs r
  end.

Lemma replay_loop_reads fuel h reader msgs r :
  reads reader msgs -> (length msgs < fuel)%nat -> replay_loop (LW := LW) fuel h reader r = replay_all h msgs r.
Proof.
  intros Hr. revert fuel r. induction Hr as [x x' Hx|x x' m l Hx Hr IH]; intros fuel r Hf;
    (destruct fuel as [|fuel]; [cbn in Hf; lia|]); cbn [replay_loop replay_all]; rewrite Hx.
  - by rewrite bool_decide_eq_true_2.
  - cbn in Hf. case_match; [apply IH; lia|]. destruct (rwrap _ _); cbn [rbind]; [|done|done]. case_match; [done|]. apply IH. lia.
Qed.

(** ** What a replay collects *)

(** The messages of a type that belong to the height, decoded. *)
Definition logged {A} (typ : Z) (decode : bytes -> res A) (h : Z) (msgs : list Message) : list A :=
  omap (fun m => if bool_decide (msg_Type m = typ /\ msg_Height m = h)
                 then match decode (msg_Data m) with Ret a => Some a | _ => None end else None) msgs.

Definition logged_states : Z -> list Message -> list ConsensusStateData := logged MsgTypeState DecodeState.
Definition logged_proposals : Z -> list Message -> list Proposal := logged MsgTypeProposal DecodeProposal.
Definition logged_votes : Z -> list Message -> list Vote := logged MsgTypeVote DecodeVote.

(** The decoders accept the message. *)
Definition decodable (m : Message) : Prop :=
  (msg_Type m = MsgTypeProposal -> is_Ret (DecodeProposal (msg_Data m)) = true) /\
  (msg_Type m = MsgTypeVote -> is_Ret (DecodeVote (msg_Data m)) = true) /\
  (msg_Type m = MsgTypeState -> is_Ret (DecodeState (msg_Data m)) = true).

Definition of_height (h : Z) (msgs : list Message) : list Message := List.filter (fun m => msg_Height m =? h) msgs.

(** The lock a result carries. *)
Definition lock_of (r : WALReplayResult) : Z * option Hash * Z * option Hash :=
  (rr_LockedRound r, rr_LockedBlockHash r, rr_ValidRound r, rr_ValidBlockHash r).
Definition state_lock (st : ConsensusStateData) : Z * option Hash * Z * option Hash :=
  (csd_LockedRound st, csd_LockedBlockHash st, csd_ValidRound st, csd_ValidBlockHash st).

(** What one message adds to a result. *)
Lemma replayMessage_decodable h m r :
  decodable m -> msg_Height m = h ->
  exists r', replayMessage m r = Ret r' /\ rr_MessagesReplayed r' = rr_MessagesReplayed r /\
    rr_Proposal r' = default (rr_Proposal r) (Some <$> last (logged_proposals h [m])) /\
    rr_Votes r' = rr_Votes r ++ logged_votes h [m] /\
    lock_of r' = default (lock_of r) (state_lock <$> last (logged_states h [m])).
Proof.
  intros (Hp & Hv & Hs) Hh. unfold logged_proposals, logged_votes, logged_states, logged, replayMessage. cbn.
  destruct (Z.eqb_spec (msg_Type m) MsgTypeProposal) as [E|N1].
  { rewrite bool_decide_eq_true_2, !bool_decide_eq_false_2 by (first [by split|by rewrite E; intros []]). specialize (Hp E).
    unfold replayProposal. destruct (DecodeProposal (msg_Data m)) as [p|e|msg]; [|done|done]. cbn. eexists. split; [reflexivity|].
    cbn. by rewrite app_nil_r. }
  destruct (Z.eqb_spec (msg_Type m) MsgTypeVote) as [E|N2].
  { rewrite (bool_decide_eq_true_2 (_ = MsgTypeVote /\ _)), !bool_decide_eq_false_2 by (first [by split|by rewrite E; intros []]). specialize (Hv E).
    unfold replayVote. destruct (DecodeVote (msg_Data m)) as [p|e|msg]; [|done|done]. cbn. eexists. split; [reflexivity|]. done. }
  destruct (Z.eqb_spec (msg_Type m) MsgTypeState) as [E|N3].
  { rewrite (bool_decide_eq_true_2 (_ = MsgTypeState /\ _)), !bool_decide_eq_false_2 by (first [by split|by rewrite E; intros []]). specialize (Hs E).
    unfold replayState. destruct (DecodeState (msg_Data m)) as [p|e|msg]; [|done|done]. cbn. eexists. split; [reflexivity|].
    cbn. rewrite app_nil_r. unfold lock_of, state_lock. cbn. by rewrite !CopyHash_id. }
  rewrite !bool_decide_eq_false_2 by tauto. cbn. eexists. split; [reflexivity|]. by rewrite app_nil_r.
Qed.

Lemma logged_cons {A} typ (decode : bytes -> res A) h m l :
  logged typ decode h (m :: l) = logged typ decode h [m] ++ logged typ decode h l.
Proof. unfold logged. cbn. by case_match. Qed.

Lemma last_app_default {A B} (l k : list A) (x : B) (f : A -> B) :
  default (default x (f <$> last l)) (f <$> last k) = default x (f <$> last (l ++ k)).
Proof. rewrite last_app. by destruct (last k). Qed.

Lemma logged_other {A} typ (decode : bytes -> res A) h m : msg_Height m <> h -> logged typ decode h [m] = [].
Proof. intros Hne. unfold logged. cbn. by rewrite bool_decide_eq_false_2 by tauto. Qed.

(** The last proposal, the last lock and all votes of a height that has not ended. *)
Lemma replay_all_collects h msgs r :
  Forall decodable msgs -> Forall (fun m => ~ ends_height h m) msgs -> 0 <= rr_MessagesReplayed r ->
  rr_MessagesReplayed r + len msgs <= MaxInt64 ->
  exists r', replay_all h msgs r = Ret r' /\
    rr_MessagesReplayed r' = rr_MessagesReplayed r + len (of_height h msgs) /\
    rr_Proposal r' = default (rr_Proposal r) (Some <$> last (logged_proposals h msgs)) /\
    rr_Votes r' = rr_Votes r ++ logged_votes h msgs /\
    lock_of r' = default (lock_of r) (state_lock <$> last (logged_states h msgs)).
Proof.
  intros Hd. revert r. induction Hd as [|m msgs Hm Hd IH]; intros r Hend Hpos Hlen.
  { exists r. cbn. unfold len. cbn. by rewrite app_nil_r, Z.add_0_r. }
  inversion Hend as [|?? Hm' Hend']; subst. unfold len in Hlen. cbn [length] in Hlen.
  cbn [replay_all of_height List.filter]. unfold logged_proposals, logged_votes, logged_states. rewrite !(logged_cons _ _ h m msgs).
  destruct (Z.eqb_spec (msg_Height m) h) as [Eh|Eh]; cbn [negb].
  2: { rewrite !(logged_other _ _ h m) by done. apply IH; [done|done|unfold len; lia]. }
  destruct (replayMessage_decodable h m r Hm Eh) as (r1 & -> & Hc & Hp & Hv & Hl). cbn [rwrap rbind].
  destruct (Z.eqb_spec (msg_Type m) MsgTypeEndHeight) as [Et|_]; [by destruct Hm'|].
  assert (Hw : wrap64 (rr_MessagesReplayed r1 + 1) = rr_MessagesReplayed r + 1).
  { rewrite Hc. apply wrap64_small. unfold in_i64, MinInt64, MaxInt64 in *. lia. }
  destruct (IH (count_message m r1) Hend') as (r' & E & Hc' & Hp' & Hv' & Hl'); [cbn; lia|cbn; unfold len; lia|].
  exists r'. split; [exact E|]. rewrite Hc', Hp', Hv', Hl'. cbn [count_message rr_MessagesReplayed rr_Proposal rr_Votes].
  rewrite Hw. change (lock_of (count_message m r1)) with (lock_of r1). rewrite Hp, Hv, Hl, !last_app_default, <- app_assoc.
  split_and!; [|done..]. unfold len. cbn [length]. fold (of_height h msgs). lia.
Qed.
End Reading.

(** ** What a replay restores *)

(** The encoder of votes accepts every vote. *)
Definition marshals_votes `{Cramberry} : Prop := forall v, exists b, marshal_Vote v = Ret b.

Section Votes.
Context `{Crypto} `{Cramberry}.

Lemma VoteSignBytes_total chainID v : marshals_votes -> exists b, VoteSignBytes chainID (Some v) = Ret b.
Proof. intros Hm. unfold VoteSignBytes. destruct (Hm (canonical_vote v)) as [b ->]. by eexists. Qed.

Lemma call_replay_total gens hvs l s vote :
  HeightVoteSet_inv gens hvs -> marshals_votes -> hvs_heap hvs !! l = Some s ->
  forall m, (call l (fun s => addVoteForReplay (hvs_generation hvs) s vote) hvs).2 <> Panic m.
Proof.
  intros Hok Hmar Hl m. unfold call. rewrite Hl. unfold addVoteForReplay. destruct (is_stale _ _); [done|].
  destruct (vote_matches s vote) eqn:Hv; cbn [negb]; [|done].
  destruct (hok_heap _ _ Hok _ _ Hl) as ([log Hlog] & _). pose proof (addVoteInternal_cases s log vote Hlog Hv) as Hc.
  unfold add_outcome in Hc. destruct (addVoteInternal s vote) as [s' [b|e|m']]; [done|done|]. destruct Hc as [_ Hc].
  destruct (VoteSignBytes_total (vset_chainID s) vote Hmar) as [b Hb]. congruence.
Qed.

Lemma AddVoteForReplay_total gens hvs vote m :
  HeightVoteSet_inv gens hvs -> marshals_votes -> (AddVoteForReplay vote hvs).2 <> Panic m.
Proof.
  intros Hok Hmar. unfold AddVoteForReplay. case_match; [done|].
  pose proof (prevotes_at_ok gens _ (vt_Round vote) Hok) as Hp. pose proof (precommits_at_ok gens _ (vt_Round vote) Hok) as Hc.
  case_match.
  { destruct (prevotes_at hvs (vt_Round vote)) as [hvs' l] eqn:E. cbn in Hp.
    assert (Hl : hvs_prevotes hvs' !! vt_Round vote = Some l).
    { unfold prevotes_at in E. case_match; [by simplify_eq|]. injection E as <- <-. cbn. by rewrite lookup_insert_eq. }
    destruct (hok_prevotes _ _ Hp _ _ Hl) as (s & Hs & _).
    by apply (call_replay_total gens hvs' l s). }
  case_match; [|done].
  destruct (precommits_at hvs (vt_Round vote)) as [hvs' l] eqn:E. cbn in Hc.
  assert (Hl : hvs_precommits hvs' !! vt_Round vote = Some l).
  { unfold precommits_at in E. case_match; [by simplify_eq|]. injection E as <- <-. cbn. by rewrite lookup_insert_eq. }
  destruct (hok_precommits _ _ Hc _ _ Hl) as (s & Hs & _).
  by apply (call_replay_total gens hvs' l s).
Qed.
End Votes.

Section Catchup.
Context `{Crypto} `{Cramberry} `{WalCodec} `{MapOrder}.
Context {PV X W : Type} `{PrivValidator PV} `{BlockExecutor X} {LW : WAL W}.
Notation CS := (ConsensusState PV X W).
Implicit Types (s : CS).

(** The votes can be added: before [Start] they are not added at all. *)
Definition can_add (votes_nil : bool) (s : CS) : Prop :=
  votes_nil = true \/ (HeightVoteSet_inv False (rs_votes (cs_state s)) /\ marshals_votes).

Lemma add_votes_done votes_nil votes s :
  can_add votes_nil s ->
  exists hvs, add_votes votes_nil votes s = Done tt (with_state (set_votes hvs (cs_state s)) s).
Proof.
  revert s. induction votes as [|vote votes IH]; intros s Hs.
  { exists (rs_votes (cs_state s)). destruct s as [? [] ? ? ? ? ? ? ? ? ? ?]. reflexivity. }
  cbn [add_votes]. unfold addVoteNoLock. destruct votes_nil.
  { unfold mbind, mret. cbn. by apply IH. }
  destruct Hs as [Hs|[Hok Hmar]]; [done|]. unfold mbind, get_state, put, mmodify, mret. cbn -[add_votes AddVoteForReplay].
  pose proof (fun m => AddVoteForReplay_total False (rs_votes (cs_state s)) vote m Hok Hmar) as Htot.
  pose proof (hvs_step_ok False _ _ Hok (step_AddVoteForReplay vote (rs_votes (cs_state s)))) as Hok'.
  destruct (AddVoteForReplay vote (rs_votes (cs_state s))) as [hvs r]. cbn [fst snd] in *.
  destruct (IH (with_state (set_votes hvs (cs_state s)) s)) as [hvs' E]; [by right|].
  exists hvs'. destruct r as [b|e|m]; [..|by destruct (Htot m)]; cbn [mtry]; exact E.
Qed.

(** What the log has for a replay of height [h], which has not ended. *)
Record replayable (w : W) (h : Z) (msgs : list Message) : Prop := mkReplayable {
  rp_search : exists w' reader, wal_SearchForEndHeight (wrap64 (h - 1)) w = (w', Ret (Some reader)) /\ reads reader msgs;
  rp_decodable : Forall decodable msgs;
  rp_open : Forall (fun m => ~ ends_height h m) msgs;
  rp_length : len msgs <= MaxInt64;
  rp_some : of_height h msgs <> [] }.

Lemma ReplayWAL_collects fuel h s w msgs :
  cs_wal s = Some w -> replayable w h msgs -> (length msgs < fuel)%nat ->
  exists w' r, ReplayWAL fuel h s = Done (Ret r) (with_wal (Some w') s) /\ replay_all h msgs (new_result h) = Ret r /\
    rr_MessagesReplayed r <> 0 /\
    rr_Proposal r = last (logged_proposals h msgs) /\ rr_Votes r = logged_votes h msgs /\
    lock_of r = default (0, None, 0, None) (state_lock <$> last (logged_states h msgs)).
Proof.
  intros Hw [(w' & reader & Hs & Hr) Hd Ho Hl Hn] Hf.
  destruct (replay_all_collects h msgs (new_result h) Hd Ho) as (r & E & Hc & Hp & Hv & Hlock); [done|done|].
  exists w', r. split_and!; [|done| |..].
  - unfold ReplayWAL. by rewrite Hw, Hs, (replay_loop_reads fuel h reader msgs), E by done.
  - rewrite Hc. destruct (of_height h msgs) eqn:Eo; [done|]. cbn. unfold len. cbn. lia.
  - rewrite Hp. cbn. by destruct (last _).
  - done.
  - done.
Qed.

Lemma ReplayCatchup_restores fuel votes_nil h s w msgs p hash :
  cs_wal s = Some w -> replayable w h msgs -> (length msgs < fuel)%nat -> can_add votes_nil s ->
  last (logged_proposals h msgs) = Some p -> BlockHash (Some (p_Block p)) = Ret hash ->
  exists r s' hvs, ReplayCatchup fuel votes_nil h s = Done (Ret tt) s' /\
    lock_of r = default (0, None, 0, None) (state_lock <$> last (logged_states h msgs)) /\
    cs_state s' = set_votes hvs (restore_proposal r p hash (restore_round r (cs_state s))).
Proof.
  intros Hw Hr Hf Ha Hp Hh. destruct (ReplayWAL_collects fuel h s w msgs Hw Hr Hf) as (w' & r & E & _ & Hc & Hp' & Hv & Hl).
  assert (Ha' : can_add votes_nil (with_state (restore_proposal r p hash (restore_round r (cs_state s))) (with_wal (Some w') s))).
  { destruct Ha as [|[? ?]]; [by left|]. right. split; [|done]. cbn.
    unfold restore_proposal. by repeat case_match. }
  destruct (add_votes_done votes_nil (rr_Votes r) _ Ha') as [hvs Hadd].
  eexists r, _, hvs. split_and!; [|done|].
  - unfold ReplayCatchup, mbind at 1. rewrite E. cbn [mtry]. rewrite (proj2 (Z.eqb_neq _ _) Hc).
    rewrite Hp', Hp. unfold mbind, put, mmodify, hash_of_block, mret. cbn -[add_votes BlockHash restore_proposal]. rewrite Hh. cbn -[add_votes restore_proposal].
    change (with_state _ (with_state _ ?x)) with (with_state (restore_proposal r p hash (restore_round r (cs_state s))) x).
    rewrite Hadd. reflexivity.
  - reflexivity.
Qed.
End Catchup.

(** ** Properties *)

(** C27: the lock of a node survives a restart under these conditions: the log can be searched, the
    records behind the end of the previous height can be read, some are of the height, and it
    has not ended; the fuel is enough and the votes can be added; and the last proposal that the
    log has of the height is for the block that the last state has both as locked and as valid.
    Then a replay restores the lock, the valid block and the proposal. Without the last
    condition it does not ([ReplayCatchup_forgets_lock]). *)
Theorem ReplayCatchup_restores_lock `{Crypto} `{Cramberry} `{WalCodec} {PV X W : Type} {LW : WAL W}
    (fuel : nat) (votes_nil : bool) (h : Z) (s : ConsensusState PV X W) (w : W) (msgs : list Message)
    (p : Proposal) (st : ConsensusStateData) (hash : Hash)
    (Hw : cs_wal s = Some w) (Hr : replayable w h msgs) (Hf : (length msgs < fuel)%nat) (Ha : can_add votes_nil s)
    (Hp : last (logged_proposals h msgs) = Some p) (Hs : last (logged_states h msgs) = Some st)
    (Hh : BlockHash (Some (p_Block p)) = Ret hash)
    (Hlock : csd_LockedBlockHash st = Some hash) (Hvalid : csd_ValidBlockHash st = Some hash) :
  exists s', ReplayCatchup fuel votes_nil h s = Done (Ret tt) s' /\
    rs_lockedRound (cs_state s') = csd_LockedRound st /\ rs_lockedBlock (cs_state s') = Some (p_Block p) /\
    rs_validRound (cs_state s') = csd_ValidRound st /\ rs_validBlock (cs_state s') = Some (p_Block p) /\
    rs_proposal (cs_state s') = Some p.
Proof.
  destruct (ReplayCatchup_restores fuel votes_nil h s w msgs p hash Hw Hr Hf Ha Hp Hh) as (r & s' & hvs & E & Hl & Es).
  exists s'. split; [exact E|]. rewrite Es. rewrite Hs in Hl. unfold lock_of, state_lock in Hl. cbn in Hl.
  injection Hl as L1 L2 L3 L4. rewrite Hlock in L2. rewrite Hvalid in L4.
  unfold restore_proposal. rewrite L2, L4, CopyBlock_id, CopyProposal_id. cbn [same_hash].
  by rewrite HashEqual_refl.
Qed.

(** If a later proposal of the height is for another block, a replay forgets the lock: the
    node then prevotes for that block, although it is locked on another one and has not seen a
    proof of lock. *)
Theorem ReplayCatchup_forgets_lock `{Crypto} `{Cramberry} `{WalCodec} {PV X W : Type} {LW : WAL W}
    (fuel : nat) (votes_nil : bool) (h : Z) (s : ConsensusState PV X W) (w : W) (msgs : list Message)
    (p : Proposal) (st : ConsensusStateData) (hash locked : Hash)
    (Hw : cs_wal s = Some w) (Hr : replayable w h msgs) (Hf : (length msgs < fuel)%nat) (Ha : can_add votes_nil s)
    (Hp : last (logged_proposals h msgs) = Some p) (Hs : last (logged_states h msgs) = Some st)
    (Hh : BlockHash (Some (p_Block p)) = Ret hash)
    (Hlock : csd_LockedBlockHash st = Some locked) (Hne : hash <> locked) (Hfresh : rs_lockedBlock (cs_state s) = None) :
  exists s', ReplayCatchup fuel votes_nil h s = Done (Ret tt) s' /\
    rs_lockedRound (cs_state s') = csd_LockedRound st /\
    decidePrevote (cf_ChainID (cs_config s')) (cs_state s') = Ret (Some hash, false).
Proof.
  destruct (ReplayCatchup_restores fuel votes_nil h s w msgs p hash Hw Hr Hf Ha Hp Hh) as (r & s' & hvs & E & Hl & Es).
  exists s'. split; [exact E|]. rewrite Es. rewrite Hs in Hl. unfold lock_of, state_lock in Hl. cbn in Hl.
  injection Hl as L1 L2 L3 L4. rewrite Hlock in L2.
  assert (Hd : HashEqual hash locked = false).
  { destruct (HashEqual hash locked) eqn:He; [|done]. by apply HashEqual_true in He. }
  unfold restore_proposal. rewrite L2, CopyBlock_id. cbn [same_hash]. rewrite Hd. split; [case_match; exact L1|].
  unfold decidePrevote. replace (rs_lockedBlock _) with (@None Block) by (case_match; cbn; by rewrite Hfresh).
  replace (rs_proposalBlock _) with (Some (p_Block p)) by (by case_match).
  by rewrite Hh.
Qed.

(** *** Witnesses: a log that is a list, with one proposal and one state *)

Definition list_wal : WAL (list Message) := {|
  wal_Write := fun m w => (w ++ [m], Ret tt);
  wal_WriteSync := fun m w => (w ++ [m], Ret tt);
  wal_FlushAndSync := fun w => (w, Ret tt);
  wal_Reader := list Message;
  wal_SearchForEndHeight := fun _ w => (w, Ret (Some w));
  reader_Read := fun r => match r with [] => ([], Err io_EOF) | m :: r => (r, Ret m) end;
  wal_Start := fun w => (w, Ret tt);
  wal_Stop := fun w => (w, Ret tt);
  wal_Group := fun _ => None |}.

Lemma list_wal_reads msgs : reads (LW := list_wal) msgs msgs.
Proof. induction msgs; [by eapply reads_end|by eapply reads_message]. Qed.

(** The block of the proposal, at height 1, and its hash. *)
Definition block_1 : Block :=
  mkBlock (mkBlockHeader "c" 1 0 None None None None None 0 [] (mkAccountName (Some "a"))) (mkBlockData []) None None.
Definition proposal_1 : Proposal := mkProposal 1 0 0 block_1 (-1) [] (mkAccountName (Some "a")) (mkSignature []).
Definition hash_block_1 : Hash := mkHash (pad 32 (put_header (b_Header block_1))).
Definition state_1 (h : Hash) : ConsensusStateData := mkConsensusStateData 1 0 RoundStepPrecommit 0 (Some h) 0 (Some h).

Definition proposal_cramberry : Cramberry := {|
  marshal_BlockHeader := marshal_BlockHeader;
  marshal_Block := marshal_Block;
  marshal_Commit := marshal_Commit;
  marshal_Vote := marshal_Vote;
  marshal_Proposal := marshal_Proposal;
  marshal_ValidatorSetData := marshal_ValidatorSetData;
  marshal_DuplicateVoteEvidence := marshal_DuplicateVoteEvidence;
  marshal_ConsensusStateData := marshal_ConsensusStateData;
  unmarshal_Block := fun _ => Err (errorf "not used");
  unmarshal_Vote := fun _ => Err (errorf "not used");
  unmarshal_Proposal := fun _ => Ret proposal_1 |}.

Definition state_codec (h : Hash) : WalCodec := {|
  marshal_Walmessage := fun _ => Err (errorf "not used");
  unmarshal_Walmessage := fun _ => Err (errorf "not used");
  marshal_TimeoutMessage := fun _ => Err (errorf "not used");
  unmarshal_TimeoutMessage := fun _ => Err (errorf "not used");
  unmarshal_Commit := fun _ => Err (errorf "not used");
  unmarshal_ConsensusStateData := fun _ => Ret (state_1 h) |}.

Definition replay_log : list Message := [mkMessage MsgTypeState 1 0 []; mkMessage MsgTypeProposal 1 0 []].

Definition replay_node : ConsensusState unit unit (list Message) :=
  NewConsensusState (mkConfig "c" DefaultTimeoutConfig "" true 0 true 0 false) set_ab None (Some replay_log) None.

Lemma replay_log_replayable h :
  replayable (H0 := proposal_cramberry) (H1 := state_codec h) (LW := list_wal) replay_log 1 replay_log.
Proof.
  split.
  - exists replay_log, replay_log. split; [reflexivity|apply list_wal_reads].
  - repeat constructor; done.
  - repeat constructor; intros [? ?]; done.
  - done.
  - done.
Qed.

Lemma ReplayCatchup_restores_lock_witness :
  exists s', ReplayCatchup (H0 := proposal_cramberry) (H1 := state_codec hash_block_1) (LW := list_wal) 3 true 1 replay_node = Done (Ret tt) s' /\
    rs_lockedRound (cs_state s') = 0 /\ rs_lockedBlock (cs_state s') = Some block_1 /\
    rs_validRound (cs_state s') = 0 /\ rs_validBlock (cs_state s') = Some block_1 /\
    rs_proposal (cs_state s') = Some proposal_1.
Proof.
  apply (ReplayCatchup_restores_lock (H0 := proposal_cramberry) (H1 := state_codec hash_block_1) (LW := list_wal)
    3 true 1 replay_node replay_log replay_log proposal_1 (state_1 hash_block_1) hash_block_1);
    [reflexivity|apply replay_log_replayable|cbn; lia|by left|vm_compute; reflexivity..].
Defined.

Lemma ReplayCatchup_forgets_lock_witness :
  exists s', ReplayCatchup (H0 := proposal_cramberry) (H1 := state_codec hash_1) (LW := list_wal) 3 true 1 replay_node = Done (Ret tt) s' /\
    rs_lockedRound (cs_state s') = 0 /\
    decidePrevote (H0 := proposal_cramberry) (cf_ChainID (cs_config s')) (cs_state s') = Ret (Some hash_block_1, false).
Proof.
  apply (ReplayCatchup_forgets_lock (H0 := proposal_cramberry) (H1 := state_codec hash_1) (LW := list_wal)
    3 true 1 replay_node replay_log replay_log proposal_1 (state_1 hash_1) hash_block_1 hash_1);
    [reflexivity|apply replay_log_replayable|cbn; lia|by left|vm_compute; reflexivity..|vm_compute; congruence|reflexivity].
Defined.

(** ** Replay of a file log *)

Lemma reads_recs `{WalCodec} fl l : Forall storable l -> reads (LW := FileWAL_WAL fl) (recs l) l.
Proof.
  induction 1 as [|m l Hm Hl IH].
  - by eapply reads_end.
  - rewrite recs_cons. eapply reads_message; [|exact IH]. by apply Decode_rec.
Qed.

(** C31: on a log that works, [ReplayWAL] ends, with fuel for the messages of the log; it replays
    what comes behind the end of the previous height in its segment, and nothing if the log does
    not have that. *)
Theorem ReplayWAL_reads_log `{Crypto} `{Cramberry} `{WalCodec} {PV X : Type}
    (old : list (list Message)) (cur : list Message) (k : nat) (w : FileWAL) (d : Dir)
    (s : ConsensusState PV X (FileWAL * Dir)) (h : Z) (fuel : nat)
    (HL : LogInv old cur k (w, d)) (He : fw_err w = None) (Hc : fw_closed w = false) (Hw : fw_started w = true)
    (Hs : cs_wal s = Some (w, d)) (Hh : MinInt64 < h <= MaxInt64) (Hf : (length (concat old ++ cur) < fuel)%nat) :
  exists w', let s' := with_wal (Some w') s in
    (Forall (fun m => ~ ends_height (h - 1) m) (concat old ++ cur) /\
     ReplayWAL (LW := FileWAL_WAL no_faults) fuel h s = Done (Ret (new_result h)) s') \/
    exists pre m rest, pre ++ m :: rest ∈ old ++ [cur] /\ ends_height (h - 1) m /\
      ReplayWAL (LW := FileWAL_WAL no_faults) fuel h s =
        match replay_all h rest (new_result h) with Panic msg => Panicked msg s' | r => Done r s' end.
Proof.
  assert (Hwrap : wrap64 (h - 1) = h - 1) by (apply wrap64_small; unfold in_i64; lia).
  destruct (SearchForEndHeight_settled old cur k w d (h - 1) HL He Hc Hw) as (w' & r & E & Hr). exists w'.
  assert (Hcat : concat (old ++ [cur]) = concat old ++ cur) by (rewrite concat_app; cbn; by rewrite app_nil_r).
  unfold ReplayWAL. rewrite Hs, Hwrap. cbn [wal_SearchForEndHeight FileWAL_WAL]. rewrite E.
  destruct r as [b|]; [right|left; by rewrite <- Hcat].
  destruct Hr as (pre & m & rest & Hin & Hm & ->). exists pre, m, rest. split_and!; [done..|].
  pose proof (li_storable _ _ _ _ HL) as Hst. rewrite <- Hcat in Hst, Hf.
  apply list_elem_of_split in Hin as (l1 & l2 & Hl). rewrite Hl, concat_app in Hst, Hf. cbn [concat] in Hst, Hf.
  apply Forall_app in Hst as [_ [[_ Hst]%Forall_app _]%Forall_app]. apply Forall_cons in Hst as [_ Hst].
  rewrite !length_app in Hf. cbn [length] in Hf.
  rewrite (replay_loop_reads (LW := FileWAL_WAL no_faults) fuel h (recs rest) rest) by (by apply reads_recs || lia).
  by destruct (replay_all _ _ _).
Qed.

Lemma ReplayWAL_reads_log_witness :
  let cur := [NewEndHeightMessage 4; mkMessage MsgTypeCommit 5 0 []] in
  let w := mkFileWAL "/wal" [] None false 0 0 true 0 24 100 ∅ in
  let d := mkDir None {[0 := durable_file (H := short_codec) cur]} in
  let s : ConsensusState unit unit (FileWAL * Dir) :=
    NewConsensusState (mkConfig "c" DefaultTimeoutConfig "" true 0 true 0 false) set_ab None (Some (w, d)) None in
  exists w', let s' := with_wal (Some w') s in
    (Forall (fun m => ~ ends_height 4 m) (concat [] ++ cur) /\
     ReplayWAL (H1 := short_codec) (LW := FileWAL_WAL (H := short_codec) no_faults) 3 5 s = Done (Ret (new_result 5)) s') \/
    exists pre m rest, pre ++ m :: rest ∈ [] ++ [cur] /\ ends_height 4 m /\
      ReplayWAL (H1 := short_codec) (LW := FileWAL_WAL (H := short_codec) no_faults) 3 5 s =
        match replay_all (H1 := short_codec) 5 rest (new_result 5) with Panic msg => Panicked msg s' | r => Done r s' end.
Proof.
  intros cur w d s. apply (ReplayWAL_reads_log (H1 := short_codec) [] cur 2 w d s 5 3); [|reflexivity..|done|cbn; lia].
  apply LogInv_single; [|reflexivity..]. repeat apply Forall_cons_2; [| |apply Forall_nil_2];
    (eexists; apply short_storable; [by vm_compute..|reflexivity]).
Defined.

(** The reader of a search ends with the segment: messages of the height that went into the next
    segment are not replayed, although a reader of the whole log returns them. *)
Theorem ReplayWAL_misses_next_segment :
  let x := run_session (H := short_codec) no_faults small_log empty_dir []
             [(no_faults, OWriteSync (NewEndHeightMessage 1)); (no_faults, OWriteSync (mkMessage MsgTypeCommit 2 0 []));
              (no_faults, OWriteSync (mkMessage MsgTypeCommit 2 1 []))] in
  let s : ConsensusState unit unit (FileWAL * Dir) :=
    NewConsensusState (mkConfig "c" DefaultTimeoutConfig "" true 0 true 0 false) set_ab None (Some (se_state x)) None in
  read_log (H := short_codec) (se_state x).2 =
    Ret ([NewEndHeightMessage 1; mkMessage MsgTypeCommit 2 0 []; mkMessage MsgTypeCommit 2 1 []], Err io_EOF) /\
  exists r s', ReplayWAL (H1 := short_codec) (LW := FileWAL_WAL (H := short_codec) no_faults) 10 2 s = Done (Ret r) s' /\
    rr_MessagesReplayed r = 1.
Proof. split; [by vm_compute|]. do 2 eexists. by vm_compute. Qed.
