(* ===== verification/Engine.v ===== *)
(** * The engine (src/engine/engine.go)

    The engine owns a consensus node, from its start on, and the log, the private validator and the
    executor, which it shares with the node: while there is a node, its fields hold their
    states. A lock is held for the whole of a method. *)

From S2P Require Export Runs.

Definition ConsensusMessageTypeProposal : Z := 1.
Definition ConsensusMessageTypeVote : Z := 2.

Definition ErrNotInitialized : error := sentinel "engine.ErrNotInitialized".
Definition ErrInvalidMessage : error := sentinel "engine.ErrInvalidMessage".
Definition ErrUnknownMessageType : error := sentinel "engine.ErrUnknownMessageType".

(** [en_channels] are the channels of the node. The broadcasters are set or not; [en_broadcasts] is
    not in the code: it records the calls of [BroadcastProposal] and [BroadcastVote] that reach
    one. *)
Record Engine (PV X W : Type) := mkEngine {
  en_config : Config;
  en_state : option (ConsensusState PV X W);
  en_channels : Channels;
  en_wal : option W;
  en_privVal : option PV;
  en_executor : option X;
  en_validatorSet : option ValidatorSet;
  en_proposalBroadcast : bool;
  en_voteBroadcast : bool;
  en_started : bool;
  en_broadcasts : list event }.
Arguments mkEngine {PV X W}.
Arguments en_config {PV X W}.
Arguments en_state {PV X W}.
Arguments en_channels {PV X W}.
Arguments en_wal {PV X W}.
Arguments en_privVal {PV X W}.
Arguments en_executor {PV X W}.
Arguments en_validatorSet {PV X W}.
Arguments en_proposalBroadcast {PV X W}.
Arguments en_voteBroadcast {PV X W}.
Arguments en_started {PV X W}.
Arguments en_broadcasts {PV X W}.

Definition new_channels : Channels := mkChannels [] [] 0 0.

Record Metrics := mkMetrics {
  mt_Height : Z;
  mt_Round : Z;
  mt_Step : string;
  mt_Validators : Z;
  mt_TotalVotingPower : Z;
  mt_IsValidator : bool;
  mt_ProposerName : string }.

Section Engine.
Context `{Crypto} `{Cramberry} `{MapOrder}.
Context {PV X W : Type} `{PrivValidator PV} `{BlockExecutor X} `{WAL W}.
Variables (clock : nat -> Z) (fuel : nat).
Notation EN := (Engine PV X W).
Notation CS := (ConsensusState PV X W).
Notation M := (Consensus.M EN).

Definition NewEngine (config : Config) (valSet : option ValidatorSet) (pv : option PV) (w : option W) (executor : option X) : EN :=
  mkEngine config None new_channels w pv executor valSet false false false [].

(** *** Field updates *)

Definition with_node (s : CS) (ch : Channels) (started : bool) (e : EN) : EN :=
  mkEngine (en_config e) (Some s) ch (en_wal e) (en_privVal e) (en_executor e) (en_validatorSet e)
    (en_proposalBroadcast e) (en_voteBroadcast e) started (en_broadcasts e).
Definition with_channels (ch : Channels) (e : EN) : EN :=
  mkEngine (en_config e) (en_state e) ch (en_wal e) (en_privVal e) (en_executor e) (en_validatorSet e)
    (en_proposalBroadcast e) (en_voteBroadcast e) (en_started e) (en_broadcasts e).
Definition with_validators (vs : option ValidatorSet) (e : EN) : EN :=
  mkEngine (en_config e) (en_state e) (en_channels e) (en_wal e) (en_privVal e) (en_executor e) vs
    (en_proposalBroadcast e) (en_voteBroadcast e) (en_started e) (en_broadcasts e).
Definition with_broadcasters (p v : bool) (e : EN) : EN :=
  mkEngine (en_config e) (en_state e) (en_channels e) (en_wal e) (en_privVal e) (en_executor e) (en_validatorSet e)
    p v (en_started e) (en_broadcasts e).
Definition add_broadcast (ev : event) (e : EN) : EN :=
  mkEngine (en_config e) (en_state e) (en_channels e) (en_wal e) (en_privVal e) (en_executor e) (en_validatorSet e)
    (en_proposalBroadcast e) (en_voteBroadcast e) (en_started e) (en_broadcasts e ++ [ev]).
Definition with_engine_wal (w : option W) (e : EN) : EN :=
  match en_state e with
  | Some s => mkEngine (en_config e) (Some (with_wal w s)) (en_channels e) (en_wal e) (en_privVal e) (en_executor e)
                (en_validatorSet e) (en_proposalBroadcast e) (en_voteBroadcast e) (en_started e) (en_broadcasts e)
  | None => mkEngine (en_config e) None (en_channels e) w (en_privVal e) (en_executor e)
              (en_validatorSet e) (en_proposalBroadcast e) (en_voteBroadcast e) (en_started e) (en_broadcasts e)
  end.

(** The objects shared with the node. *)
Definition the_wal (e : EN) : option W := match en_state e with Some s => cs_wal s | None => en_wal e end.
Definition the_privVal (e : EN) : option PV := match en_state e with Some s => cs_privVal s | None => en_privVal e end.
Definition the_executor (e : EN) : option X := match en_state e with Some s => cs_blockExecutor s | None => en_executor e end.

Definition SetProposalBroadcaster (set : bool) (e : EN) : EN := with_broadcasters set (en_voteBroadcast e) e.
Definition SetVoteBroadcaster (set : bool) (e : EN) : EN := with_broadcasters (en_proposalBroadcast e) set e.

(** *** Life cycle *)

(** The node that [Start] creates. *)
Definition new_node (vs : ValidatorSet) (e : EN) : CS :=
  SetBroadcastCallbacks (en_proposalBroadcast e) (en_voteBroadcast e)
    (NewConsensusState (en_config e) vs (the_privVal e) (the_wal e) (the_executor e)).

(** A nil validator set is dereferenced by the node. *)
Definition start_node (height : Z) (lastCommit : option Commit) : M (res unit) := fun e =>
  match en_validatorSet e with
  | None => Panicked "invalid memory address or nil pointer dereference" e
  | Some vs =>
      match Start clock fuel height lastCommit (new_node vs e) with
      | Done (Ret _) s => Done (Ret tt) (with_node s new_channels true e)
      | Done (Err err) s => Done (Err (wrapf err "failed to start consensus state: %w")) (with_node s new_channels false e)
      | Done (Panic m) s => Panicked m (with_node s new_channels false e)
      | Panicked m s => Panicked m (with_node s new_channels false e)
      | OutOfFuel => OutOfFuel
      end
  end.

Definition Engine_Start (height : Z) (lastCommit : option Commit) : M (res unit) := fun e =>
  if! en_started e return Done (Err ErrAlreadyStarted) e in
  match the_wal e with
  | None => start_node height lastCommit e
  | Some w =>
      let '(w, r) := wal_Start w in
      let e := with_engine_wal (Some w) e in
      match r with
      | Err err => Done (Err (wrapf err "failed to start WAL: %w")) e
      | Panic m => Panicked m e
      | Ret _ => start_node height lastCommit e
      end
  end.

Definition stop_wal : M (res unit) := fun e =>
  match the_wal e with
  | None => Done (Ret tt) e
  | Some w =>
      let '(w, r) := wal_Stop w in
      let e := with_engine_wal (Some w) e in
      match r with
      | Err err => Done (Err (wrapf err "failed to stop WAL: %w")) e
      | Panic m => Panicked m e
      | Ret _ => Done (Ret tt) e
      end
  end.

Definition set_started (b : bool) (e : EN) : EN :=
  mkEngine (en_config e) (en_state e) (en_channels e) (en_wal e) (en_privVal e) (en_executor e) (en_validatorSet e)
    (en_proposalBroadcast e) (en_voteBroadcast e) b (en_broadcasts e).

Definition Engine_Stop : M (res unit) := fun e =>
  if! negb (en_started e) return Done (Err ErrNotStarted) e in
  let e := set_started false e in
  match en_state e with
  | None => stop_wal e
  | Some s =>
      match Stop s with
      | Done (Ret _) s => stop_wal (with_node s (en_channels e) false e)
      | Done (Err err) s => Done (Err (wrapf err "failed to stop consensus state: %w")) (with_node s (en_channels e) false e)
      | Done (Panic m) s => Panicked m (with_node s (en_channels e) false e)
      | Panicked m s => Panicked m (with_node s (en_channels e) false e)
      | OutOfFuel => OutOfFuel
      end
  end.

(** *** Messages *)

Definition Engine_AddProposal (p : Proposal) (e : EN) : EN * res unit :=
  if! negb (en_started e) return (e, Err ErrNotStarted) in
  (with_channels (AddProposal p (en_channels e)) e, Ret tt).

Definition Engine_AddVote (v : Vote) (e : EN) : EN * res unit :=
  if! negb (en_started e) return (e, Err ErrNotStarted) in
  (with_channels (AddVote v (en_channels e)) e, Ret tt).

(** The payload of a message: not empty, and accepted by the decoder. *)
Definition decode_payload {A} (decode : bytes -> res A) (empty failed : string) (payload : bytes) : res A :=
  if! bool_decide (payload = []) return Err (wrapf ErrInvalidMessage empty) in
  rwrap (decode payload) (fun _ => wrapf ErrInvalidMessage failed).

Definition HandleConsensusMessage (peerID : string) (data : bytes) (e : EN) : EN * res unit :=
  match data with
  | [] => (e, Err ErrInvalidMessage)
  | msgType :: payload =>
      if byte_val msgType =? ConsensusMessageTypeProposal then
        match decode_payload unmarshal_Proposal "%w: empty proposal payload" "%w: failed to unmarshal proposal: %v" payload with
        | Ret proposal => Engine_AddProposal proposal e
        | Err err => (e, Err err)
        | Panic m => (e, Panic m)
        end
      else if byte_val msgType =? ConsensusMessageTypeVote then
        match decode_payload unmarshal_Vote "%w: empty vote payload" "%w: failed to unmarshal vote: %v" payload with
        | Ret vote => Engine_AddVote vote e
        | Err err => (e, Err err)
        | Panic m => (e, Panic m)
        end
      else (e, Err (wrapf ErrUnknownMessageType "%w: %d"))
  end.

Definition EncodeProposalMessage (p : Proposal) : res bytes :=
  let! payload := marshal_Proposal p in Ret (byte_of_Z ConsensusMessageTypeProposal :: payload).

Definition EncodeVoteMessage (v : Vote) : res bytes :=
  let! payload := marshal_Vote v in Ret (byte_of_Z ConsensusMessageTypeVote :: payload).

Definition BroadcastProposal (p : Proposal) (e : EN) : EN :=
  if en_proposalBroadcast e then add_broadcast (Sent_proposal p) e else e.

Definition BroadcastVote (v : Vote) (e : EN) : EN :=
  if en_voteBroadcast e then add_broadcast (Sent_vote v) e else e.

(** *** Queries *)

(** A started engine has a node. *)
Definition Engine_GetState (e : EN) : res (Z * Z * Z) :=
  if! negb (en_started e) return Err ErrNotStarted in
  match en_state e with
  | Some s => Ret (GetState s)
  | None => Panic "invalid memory address or nil pointer dereference"
  end.

Definition Engine_GetValidatorSet (e : EN) : option ValidatorSet :=
  match en_validatorSet e with
  | None => None
  | Some vs => match ValidatorSet_Copy vs with Ret vs => Some vs | _ => None end
  end.

Definition Engine_UpdateValidatorSet (valSet : option ValidatorSet) (e : EN) : EN :=
  match valSet with
  | None => e
  | Some vs => match ValidatorSet_Copy vs with Ret vs => with_validators (Some vs) e | _ => e end
  end.

Definition isValidatorLocked (e : EN) : bool :=
  match the_privVal e, en_validatorSet e with
  | Some pv, Some vs => existsb (fun v => PublicKeyEqual (nv_PublicKey v) (pv_GetPubKey pv)) (vals_Validators vs)
  | _, _ => false
  end.

Definition IsValidator (e : EN) : bool := isValidatorLocked e.

Definition GetProposer (e : EN) : option NamedValidator :=
  match en_validatorSet e with
  | None => None
  | Some vs => CopyValidator (deref vs (vals_Proposer vs))
  end.

Definition ChainID (e : EN) : string := cf_ChainID (en_config e).

Definition GetMetrics (e : EN) : res Metrics :=
  if! negb (en_started e) return Err ErrNotStarted in
  match en_validatorSet e with
  | None => Err ErrNotInitialized
  | Some vs =>
      match en_state e with
      | None => Panic "invalid memory address or nil pointer dereference"
      | Some s =>
          let '(height, round, step) := GetState s in
          let proposerName := match deref vs (vals_Proposer vs) with None => "" | Some p => AccountNameString (nv_Name p) end in
          Ret (mkMetrics height round (StepString step) (vals_Size vs) (vals_TotalPower vs) (isValidatorLocked e) proposerName)
      end
  end.

(** *** The node at work *)

(** An iteration of the loop of the node, while the engine is started. *)
Definition engine_receive (r : ready) (e : EN) : option (outcome EN unit) :=
  if! negb (en_started e) return None in
  match en_state e with
  | None => None
  | Some s =>
      match receiveRoutine clock fuel r (en_channels e) s with
      | None => None
      | Some (ch, Done _ s) => Some (Done tt (with_node s ch true e))
      | Some (ch, Panicked m s) => Some (Panicked m (with_node s ch true e))
      | Some (ch, OutOfFuel) => Some OutOfFuel
      end
  end.
End Engine.

(** ** Runs of an engine *)

Section EngineRuns.
Context `{Crypto} `{Cramberry} `{MapOrder}.
Context {PV X W : Type} `{PrivValidator PV} `{!BlockExecutor X} `{WAL W}.
Variables (clock : nat -> Z) (fuel : nat).
Notation EN := (Engine PV X W).

(** What happens to a started engine: messages from peers, iterations of the loop of the node, its
    ticker, a new validator set, and broadcasts. *)
Inductive engine_step : EN -> EN -> Prop :=
| es_message peerID data e : engine_step e (HandleConsensusMessage peerID data e).1
| es_proposal p e : engine_step e (Engine_AddProposal p e).1
| es_vote v e : engine_step e (Engine_AddVote v e).1
| es_receive r e e' : engine_receive clock fuel r e = Some (Done tt e') -> engine_step e e'
| es_ticker t s e : en_started e = true -> en_state e = Some s -> engine_step e (with_node (with_timeoutTicker t s) (en_channels e) true e)
| es_validators vs e : engine_step e (Engine_UpdateValidatorSet vs e)
| es_broadcasters p v e : engine_step e (with_broadcasters p v e)
| es_broadcast_proposal p e : engine_step e (BroadcastProposal p e)
| es_broadcast_vote v e : engine_step e (BroadcastVote v e).

(** The node of a started engine. *)
Definition runs_node (P : ConsensusState PV X W -> Prop) (e : EN) : Prop :=
  en_started e = true /\ exists s, en_state e = Some s /\ P s.

(** Only the channels change, or not even they. *)
Lemma runs_channels P ch e : runs_node P e -> runs_node P (with_channels ch e).
Proof. intros [Hs Hn]. by split. Qed.

Lemma AddProposal_runs P p e : runs_node P e -> runs_node P (Engine_AddProposal p e).1.
Proof. intros Hr. unfold Engine_AddProposal. case_match; [done|]. by apply runs_channels. Qed.

Lemma AddVote_runs P v e : runs_node P e -> runs_node P (Engine_AddVote v e).1.
Proof. intros Hr. unfold Engine_AddVote. case_match; [done|]. by apply runs_channels. Qed.

Lemma engine_step_runs s0 h lc e e' :
  engine_step e e' -> runs_node (reach clock fuel s0 h lc) e -> runs_node (reach clock fuel s0 h lc) e'.
Proof.
  destruct 1 as [peerID data e|p e|v e|r e e' E|t s e Hs Es|vs e|p v e|p e|v e]; intros Hr.
  - unfold HandleConsensusMessage. destruct data as [|t payload]; [done|]. case_match.
    { destruct (decode_payload _ _ _ _); [by apply AddProposal_runs|done|done]. }
    case_match; [|done]. destruct (decode_payload _ _ _ _); [by apply AddVote_runs|done|done].
  - by apply AddProposal_runs.
  - by apply AddVote_runs.
  - unfold engine_receive in E. case_match; [done|]. destruct Hr as [_ (s & Es & Hr)]. rewrite Es in E.
    destruct (receiveRoutine clock fuel r (en_channels e) s) as [[ch [[] s'|m s'|]]|] eqn:Er; [|done..].
    injection E as <-. split; [done|]. exists s'. split; [done|].
    apply (node_step_reach clock fuel s0 h lc (en_channels e, s) (ch, s')); [by eapply node_receive|done].
  - destruct Hr as [_ (s' & Es' & Hr)]. simplify_eq. split; [done|]. eexists. split; [done|].
    apply (node_step_reach clock fuel s0 h lc (en_channels e, s) (en_channels e, with_timeoutTicker t s)); [by apply node_ticker|done].
  - unfold Engine_UpdateValidatorSet. destruct vs as [vs|]; [|done]. destruct (ValidatorSet_Copy vs); [|done|done]. by destruct Hr.
  - by destruct Hr.
  - unfold BroadcastProposal. case_match; [|done]. by destruct Hr.
  - unfold BroadcastVote. case_match; [|done]. by destruct Hr.
Qed.

(** A start that succeeds makes a node and starts it. *)
Lemma Engine_Start_runs h lc vs e e' :
  Engine_Start clock fuel h lc e = Done (Ret tt) e' -> en_validatorSet e = Some vs ->
  exists s0, fresh_node s0 (en_config e) vs /\ runs_node (reach clock fuel s0 h lc) e'.
Proof.
  unfold Engine_Start. case_match; [done|].
  assert (Hnode : forall e1, start_node clock fuel h lc e1 = Done (Ret tt) e' -> en_validatorSet e1 = Some vs ->
    exists s0, fresh_node s0 (en_config e1) vs /\ runs_node (reach clock fuel s0 h lc) e').
  { intros e1 E1 Ev. unfold start_node in E1. rewrite Ev in E1.
    destruct (Start clock fuel h lc (new_node vs e1)) as [[[]|err|m] s|m s|] eqn:Es; try done. injection E1 as <-.
    exists (new_node vs e1). split; [|split; [done|]; exists s; split; [done|by apply reach_start]].
    exists (the_privVal e1), (the_wal e1), (the_executor e1), (en_proposalBroadcast e1), (en_voteBroadcast e1), None.
    reflexivity. }
  destruct (the_wal e) as [w|]; [|by apply Hnode]. destruct (wal_Start w) as [w' [[]|err|m]]; [|done|done].
  intros E Ev. assert (Ev' : en_validatorSet (with_engine_wal (Some w') e) = Some vs) by (unfold with_engine_wal; by destruct (en_state e)).
  destruct (Hnode _ E Ev') as (s0 & Hf & Hr). exists s0. split; [|done].
  unfold with_engine_wal in Hf. by destruct (en_state e).
Qed.
End EngineRuns.

(** ** Properties *)

(** C12: the node of an engine that has been started with a valid validator set, whatever its peers
    send: it is a run of the consensus state machine from a new node, so that all its votes and
    commits follow the rules of the protocol. *)
Theorem Engine_runs_safely `{Crypto} `{Cramberry} `{MapOrder} {PV X W : Type} `{PrivValidator PV} `{!BlockExecutor X}
    `{!ExecutorLaws X} `{WAL W} (clock : nat -> Z) (fuel : nat)
    (e0 e1 e : Engine PV X W) (vs : ValidatorSet) (h : Z) (lc : option Commit)
    (Hvs : en_validatorSet e0 = Some vs) (Hwf : ValidatorSet_wf vs)
    (Hstart : Engine_Start clock fuel h lc e0 = Done (Ret tt) e1) (Hr : rtc (engine_step clock fuel) e1 e) :
  en_started e = true /\ exists s s0, en_state e = Some s /\ fresh_node s0 (en_config e0) vs /\
    reach clock fuel s0 h lc s /\ safe (cf_ChainID (en_config e0)) h (cs_trace s).
Proof.
  destruct (Engine_Start_runs clock fuel h lc vs e0 e1 Hstart Hvs) as (s0 & Hf & Hn).
  assert (He : runs_node (reach clock fuel s0 h lc) e).
  { clear Hstart. induction Hr as [|x y z Hs _ IH]; [done|]. apply IH. by eapply engine_step_runs. }
  destruct He as [Hs (s & Es & Hreach)]. split; [done|]. exists s, s0. split_and!; [done..|].
  apply (reach_safe clock fuel s0 (en_config e0) vs h lc Hf Hwf). by left.
Qed.

(** A proposal or a vote that one engine encodes is what another one takes out of the message,
    if the generated encoding round-trips on it. *)
Theorem Engine_messages_roundtrip `{Cramberry} {PV X W : Type}
    (peerID : string) (p : Proposal) (v : Vote) (bp bv : bytes) (e : Engine PV X W)
    (Hp : marshal_Proposal p = Ret bp) (Hp' : unmarshal_Proposal bp = Ret p) (Hnp : bp <> [])
    (Hv : marshal_Vote v = Ret bv) (Hv' : unmarshal_Vote bv = Ret v) (Hnv : bv <> []) :
  exists mp mv, EncodeProposalMessage p = Ret mp /\ EncodeVoteMessage v = Ret mv /\
    HandleConsensusMessage peerID mp e = Engine_AddProposal p e /\
    HandleConsensusMessage peerID mv e = Engine_AddVote v e.
Proof.
  unfold EncodeProposalMessage, EncodeVoteMessage. rewrite Hp, Hv. do 2 eexists. split_and!; [done..| |].
  - unfold HandleConsensusMessage, decode_payload. cbn. by rewrite bool_decide_eq_false_2, Hp' by done.
  - unfold HandleConsensusMessage, decode_payload. cbn. by rewrite bool_decide_eq_false_2, Hv' by done.
Qed.

(** A message that is refused leaves the engine as it is, and the error tells why: it is
    malformed, of an unknown type, or the engine is not started. *)
Theorem HandleConsensusMessage_refuses `{Cramberry} {PV X W : Type}
    (peerID : string) (data : bytes) (e e' : Engine PV X W) (err : error)
    (E : HandleConsensusMessage peerID data e = (e', Err err)) :
  e' = e /\ (errors_Is err ErrInvalidMessage = true \/ errors_Is err ErrUnknownMessageType = true \/
             (err = ErrNotStarted /\ en_started e = false)).
Proof.
  assert (Hd : forall A (decode : bytes -> res A) a b payload x, decode_payload decode a b payload = Err x -> errors_Is x ErrInvalidMessage = true).
  { intros A decode a b payload x. unfold decode_payload. case_match; [by intros [= <-]|]. destruct (decode payload); [done| |done].
    by intros [= <-]. }
  destruct data as [|t payload]; cbn in E; [injection E as <- <-; auto|]. case_match.
  { destruct (decode_payload _ _ _ _) as [p|x|m] eqn:Ed; [|injection E as <- <-; eauto|done].
    unfold Engine_AddProposal in E. case_match eqn:Es; [|done]. injection E as <- <-. apply negb_true_iff in Es. auto. }
  case_match; [|injection E as <- <-; auto].
  destruct (decode_payload _ _ _ _) as [p|x|m] eqn:Ed; [|injection E as <- <-; eauto|done].
  unfold Engine_AddVote in E. case_match eqn:Es; [|done]. injection E as <- <-. apply negb_true_iff in Es. auto.
Qed.

(** ** Examples *)

(** An engine on the keys of the first of the four validators; it starts and takes a vote. *)
Definition engine_4 : Engine (FilePV * disk) unit unit :=
  SetVoteBroadcaster true (NewEngine config_c (Some set_4) (Some (node_key Byte.x0a)) (Some tt) (Some tt)).

Definition engine_started : Engine (FilePV * disk) unit unit :=
  match Engine_Start clock_5 2 1 None engine_4 with Done _ e => e | _ => engine_4 end.

Definition vote_4 : Vote := vote_of (stored 1 (val4 "b" Byte.x0b)) VoteTypePrevote 1 0 None.

Definition engine_moved : Engine (FilePV * disk) unit unit :=
  match engine_receive clock_5 2 Vote_ready (Engine_AddVote vote_4 engine_started).1 with
  | Some (Done _ e) => e
  | _ => engine_started
  end.

Lemma Engine_runs_safely_witness :
  en_started engine_moved = true /\ exists s s0, en_state engine_moved = Some s /\ fresh_node s0 config_c set_4 /\
    reach clock_5 2 s0 1 None s /\ safe chain_c 1 (cs_trace s).
Proof.
  apply (Engine_runs_safely clock_5 2 engine_4 engine_started engine_moved set_4 1 None);
    [reflexivity|apply set_4_wf|vm_compute; reflexivity|].
  eapply rtc_l; [apply (es_vote clock_5 2 vote_4)|]. apply rtc_once, (es_receive clock_5 2 Vote_ready).
  vm_compute. reflexivity.
Defined.

Definition proposal_4 : Proposal :=
  mkProposal 1 0 5 (mkBlock (mkBlockHeader chain_c 1 5 None None None None None 0 [] (NewAccountName "b")) (mkBlockData []) None None)
    (-1) [] (NewAccountName "b") (mkSignature []).

(** Reads the two messages, and nothing else. *)
Definition message_cramberry : Cramberry := {|
  marshal_BlockHeader := marshal_BlockHeader;
  marshal_Block := marshal_Block;
  marshal_Commit := marshal_Commit;
  marshal_Vote := marshal_Vote;
  marshal_Proposal := marshal_Proposal;
  marshal_ValidatorSetData := marshal_ValidatorSetData;
  marshal_DuplicateVoteEvidence := marshal_DuplicateVoteEvidence;
  marshal_ConsensusStateData := marshal_ConsensusStateData;
  unmarshal_Block := fun _ => Err (errorf "not used");
  unmarshal_Vote := fun b => if bool_decide (b = put_vote vote_4) then Ret vote_4 else Err (errorf "not a vote");
  unmarshal_Proposal := fun b => if bool_decide (b = put_proposal proposal_4) then Ret proposal_4 else Err (errorf "not a proposal") |}.

Lemma Engine_messages_roundtrip_witness :
  exists mp mv, EncodeProposalMessage (H0 := message_cramberry) proposal_4 = Ret mp /\ EncodeVoteMessage (H0 := message_cramberry) vote_4 = Ret mv /\
    HandleConsensusMessage (H0 := message_cramberry) "peer" mp engine_started = Engine_AddProposal proposal_4 engine_started /\
    HandleConsensusMessage (H0 := message_cramberry) "peer" mv engine_started = Engine_AddVote vote_4 engine_started.
Proof.
  apply (Engine_messages_roundtrip (H := message_cramberry) "peer" proposal_4 vote_4 (put_proposal proposal_4) (put_vote vote_4) engine_started);
    [reflexivity|vm_compute; reflexivity|vm_compute; congruence|reflexivity|vm_compute; reflexivity|vm_compute; congruence].
Defined.

Definition unknown_type : error := wrapf ErrUnknownMessageType "%w: %d".

Lemma HandleConsensusMessage_refuses_witness :
  engine_4 = engine_4 /\ (errors_Is unknown_type ErrInvalidMessage = true \/ errors_Is unknown_type ErrUnknownMessageType = true \/
    (unknown_type = ErrNotStarted /\ en_started engine_4 = false)).
Proof. apply (HandleConsensusMessage_refuses "peer" [Byte.x03] engine_4). reflexivity. Defined.
