(* ===== verification/Schema.v ===== *)
(** * The rest of the generated code (src/types/generated)

    The records that no component of the engine writes: accounts, authorizations and transactions, the
    end-of-height record, the sign state, timestamps; the names of the enumerations, the
    [Validate] methods, and the interface of the consensus messages. *)

From S2P Require Export Codec Auth Privval.

(** ** Data *)

Record Timestamp := mkTimestamp { tsp_Nanos : Z }.

Record EndHeightMessage := mkEndHeightMessage { ehm_Height : Z }.

Record Transaction := mkTransaction {
  tx_Payload : bytes;
  tx_Account : AccountName;
  tx_Authorization : Authorization;
  tx_Nonce : Z;
  tx_Expiration : Z }.

(** The messages that implement the interface; a nil interface is [None]. *)
Inductive ConsensusMessage :=
| Message_Proposal (p : Proposal)
| Message_Vote (v : Vote)
| Message_Commit (c : Commit).

Definition ConsensusMessageTypeID (v : option ConsensusMessage) : Z :=
  match v with
  | Some (Message_Proposal _) => 128
  | Some (Message_Vote _) => 129
  | Some (Message_Commit _) => 130
  | None => 0
  end.

(** ** Enumerations *)

Definition VoteType_String (e : Z) : string :=
  match e with
  | 0 => "VOTE_TYPE_UNKNOWN"
  | 1 => "VOTE_TYPE_PREVOTE"
  | 2 => "VOTE_TYPE_PRECOMMIT"
  | _ => "UNKNOWN"
  end.

Definition VoteType_IsValid (e : Z) : bool := match e with 0 | 1 | 2 => true | _ => false end.

Definition EvidenceType_String (e : Z) : string :=
  match e with
  | 0 => "EVIDENCE_TYPE_UNKNOWN"
  | 1 => "EVIDENCE_TYPE_DUPLICATE_VOTE"
  | 2 => "EVIDENCE_TYPE_LIGHT_CLIENT_ATTACK"
  | _ => "UNKNOWN"
  end.

Definition EvidenceType_IsValid (e : Z) : bool := match e with 0 | 1 | 2 => true | _ => false end.

Definition WalmsgType_String (e : Z) : string :=
  match e with
  | 0 => "WAL_MSG_UNKNOWN"
  | 1 => "WAL_MSG_PROPOSAL"
  | 2 => "WAL_MSG_VOTE"
  | 3 => "WAL_MSG_COMMIT"
  | 4 => "WAL_MSG_END_HEIGHT"
  | 5 => "WAL_MSG_STATE"
  | 6 => "WAL_MSG_TIMEOUT"
  | _ => "UNKNOWN"
  end.

Definition WalmsgType_IsValid (e : Z) : bool :=
  match e with 0 | 1 | 2 | 3 | 4 | 5 | 6 => true | _ => false end.

Definition RoundStepType_String (e : Z) : string :=
  match e with
  | 0 => "ROUND_STEP_NEW_HEIGHT"
  | 1 => "ROUND_STEP_NEW_ROUND"
  | 2 => "ROUND_STEP_PROPOSE"
  | 3 => "ROUND_STEP_PREVOTE"
  | 4 => "ROUND_STEP_PREVOTE_WAIT"
  | 5 => "ROUND_STEP_PRECOMMIT"
  | 6 => "ROUND_STEP_PRECOMMIT_WAIT"
  | 7 => "ROUND_STEP_COMMIT"
  | _ => "UNKNOWN"
  end.

Definition RoundStepType_IsValid (e : Z) : bool :=
  match e with 0 | 1 | 2 | 3 | 4 | 5 | 6 | 7 => true | _ => false end.

(** ** Validate

    Only the name of an account is looked at; the other methods accept every message. *)

Definition AccountName_Validate (m : AccountName) : res unit :=
  match an_Name m with
  | None => Err (errorf "AccountName: name: required field is missing")
  | Some _ => Ret tt
  end.

Definition Hash_Validate (m : Hash) : res unit := Ret tt.
Definition Signature_Validate (m : Signature) : res unit := Ret tt.
Definition PublicKey_Validate (m : PublicKey) : res unit := Ret tt.
Definition Vote_Validate (m : Vote) : res unit := Ret tt.
Definition Commit_Validate (m : Commit) : res unit := Ret tt.
Definition BatchCertRef_Validate (m : BatchCertRef) : res unit := Ret tt.
Definition BlockHeader_Validate (m : BlockHeader) : res unit := Ret tt.
Definition Block_Validate (m : Block) : res unit := Ret tt.
Definition Proposal_Validate (m : Proposal) : res unit := Ret tt.
Definition NamedValidator_Validate (m : NamedValidator) : res unit := Ret tt.
Definition DuplicateVoteEvidence_Validate (m : DuplicateVoteEvidence) : res unit := Ret tt.
Definition KeyWeight_Validate (m : KeyWeight) : res unit := Ret tt.
Definition AccountWeight_Validate (m : AccountWeight) : res unit := Ret tt.
Definition Account_Validate (m : Account) : res unit := Ret tt.
Definition SignatureProof_Validate (m : SignatureProof) : res unit := Ret tt.
Definition AccountAuthorization_Validate (m : AccountAuthorization) : res unit := Ret tt.
Definition Transaction_Validate (m : Transaction) : res unit := Ret tt.

Section Schema.
Context `{Runtime}.

#[local] Notation "a ';>' b" := (wop_seq a b) (at level 60, right associativity).
#[local] Notation "'let^' x ':=' m 'in' k" := (rm_bind m (fun x => k)) (at level 10, x pattern, m at level 100, k at level 200).

(** ** Encoding *)

Definition Timestamp_EncodeTo (m : Timestamp) : WOp :=
  write_nonzero 1 WireTypeV2SVarint WriteInt64 (tsp_Nanos m) ;> WriteEndMarker.

Definition EndHeightMessage_EncodeTo (m : EndHeightMessage) : WOp :=
  write_nonzero 1 WireTypeV2SVarint WriteInt64 (ehm_Height m) ;> WriteEndMarker.

Definition LastSignState_EncodeTo (m : gen_LastSignState) : WOp :=
  write_nonzero 1 WireTypeV2SVarint WriteInt64 (glss_Height m) ;>
  write_nonzero 2 WireTypeV2SVarint WriteInt32 (glss_Round m) ;>
  write_nonzero 3 WireTypeV2SVarint WriteInt8 (glss_Step m) ;>
  write_pointer 4 Hash_EncodeTo (glss_BlockHash m) ;>
  write_field 5 WireTypeV2Bytes (Signature_EncodeTo (glss_Signature m)) ;>
  WriteEndMarker.

Definition KeyWeight_EncodeTo (m : KeyWeight) : WOp :=
  write_field 1 WireTypeV2Bytes (PublicKey_EncodeTo (kw_PublicKey m)) ;>
  write_nonzero 2 WireTypeV2Varint WriteUint32 (kw_Weight m) ;>
  WriteEndMarker.

Definition AccountWeight_EncodeTo (m : AccountWeight) : WOp :=
  write_field 1 WireTypeV2Bytes (AccountName_EncodeTo (aw_Account m)) ;>
  write_nonzero 2 WireTypeV2Varint WriteUint32 (aw_Weight m) ;>
  WriteEndMarker.

Definition Authority_EncodeTo (m : Authority) : WOp :=
  write_nonzero 1 WireTypeV2Varint WriteUint32 (au_Threshold m) ;>
  write_slice 2 KeyWeight_EncodeTo (au_Keys m) ;>
  write_slice 3 AccountWeight_EncodeTo (au_Accounts m) ;>
  WriteEndMarker.

(** The order in which the loop over the metadata takes the entries. *)
Variable metadata_order : gmap string bytes -> list (string * bytes).

Definition write_entry (e : string * bytes) : WOp := WriteString e.1 ;> WriteBytes e.2.

Definition write_metadata (m : gmap string bytes) : WOp :=
  WriteUvarint (Z.of_nat (size m)) ;> write_each write_entry (metadata_order m).

Definition Account_EncodeTo (m : Account) : WOp :=
  write_field 1 WireTypeV2Bytes (AccountName_EncodeTo (ac_Name m)) ;>
  write_nonzero 2 WireTypeV2Varint WriteUint64 (ac_Id m) ;>
  write_field 3 WireTypeV2Bytes (Authority_EncodeTo (ac_Authority m)) ;>
  write_nonzero 4 WireTypeV2SVarint WriteInt64 (ac_CreatedAt m) ;>
  write_nonzero 5 WireTypeV2SVarint WriteInt64 (ac_UpdatedAt m) ;>
  write_pointer 6 write_metadata (ac_Metadata m) ;>
  WriteEndMarker.

Definition SignatureProof_EncodeTo (m : SignatureProof) : WOp :=
  write_field 1 WireTypeV2Bytes (PublicKey_EncodeTo (sp_PublicKey m)) ;>
  write_field 2 WireTypeV2Bytes (Signature_EncodeTo (sp_Signature m)) ;>
  WriteEndMarker.

(** An authorization holds those of other accounts: the method of one type is an argument of the other's. *)
Definition AccountAuthorization_encode (authorization : Authorization -> WOp) (m : AccountAuthorization) : WOp :=
  let 'mkAccountAuthorization a z := m in
  write_field 1 WireTypeV2Bytes (AccountName_EncodeTo a) ;>
  write_field 2 WireTypeV2Bytes (authorization z) ;>
  WriteEndMarker.

Fixpoint Authorization_EncodeTo (m : Authorization) {struct m} : WOp :=
  let 'mkAuthorization s a := m in
  write_slice 1 SignatureProof_EncodeTo s ;>
  write_slice 2 (fun v => AccountAuthorization_encode Authorization_EncodeTo v) a ;>
  WriteEndMarker.

Definition AccountAuthorization_EncodeTo (m : AccountAuthorization) : WOp :=
  AccountAuthorization_encode Authorization_EncodeTo m.

Definition Transaction_EncodeTo (m : Transaction) : WOp :=
  write_bytes 1 (tx_Payload m) ;>
  write_field 2 WireTypeV2Bytes (AccountName_EncodeTo (tx_Account m)) ;>
  write_field 3 WireTypeV2Bytes (Authorization_EncodeTo (tx_Authorization m)) ;>
  write_nonzero 4 WireTypeV2Varint WriteUint64 (tx_Nonce m) ;>
  write_nonzero 5 WireTypeV2SVarint WriteInt64 (tx_Expiration m) ;>
  WriteEndMarker.

(** *** MarshalCramberry *)

Definition Timestamp_MarshalCramberry : Timestamp -> res bytes := Marshal Timestamp_EncodeTo.
Definition EndHeightMessage_MarshalCramberry : EndHeightMessage -> res bytes := Marshal EndHeightMessage_EncodeTo.
Definition LastSignState_MarshalCramberry : gen_LastSignState -> res bytes := Marshal LastSignState_EncodeTo.
Definition KeyWeight_MarshalCramberry : KeyWeight -> res bytes := Marshal KeyWeight_EncodeTo.
Definition AccountWeight_MarshalCramberry : AccountWeight -> res bytes := Marshal AccountWeight_EncodeTo.
Definition Authority_MarshalCramberry : Authority -> res bytes := Marshal Authority_EncodeTo.
Definition Account_MarshalCramberry : Account -> res bytes := Marshal Account_EncodeTo.
Definition SignatureProof_MarshalCramberry : SignatureProof -> res bytes := Marshal SignatureProof_EncodeTo.
Definition AccountAuthorization_MarshalCramberry : AccountAuthorization -> res bytes := Marshal AccountAuthorization_EncodeTo.
Definition Authorization_MarshalCramberry : Authorization -> res bytes := Marshal Authorization_EncodeTo.
Definition Transaction_MarshalCramberry : Transaction -> res bytes := Marshal Transaction_EncodeTo.

(** ** Decoding *)

Variable fuel : nat.

Definition Timestamp_field (n : Z) (m : Timestamp) : option (RM Timestamp) :=
  match n with 1 => Some (let^ x := read_int64 in rm_ret (mkTimestamp x)) | _ => None end.
Definition Timestamp_DecodeFrom (m : Timestamp) : RM Timestamp := decode_loop Timestamp_field fuel m.
Definition zero_Timestamp : Timestamp := mkTimestamp 0.

Definition EndHeightMessage_field (n : Z) (m : EndHeightMessage) : option (RM EndHeightMessage) :=
  match n with 1 => Some (let^ x := read_int64 in rm_ret (mkEndHeightMessage x)) | _ => None end.
Definition EndHeightMessage_DecodeFrom (m : EndHeightMessage) : RM EndHeightMessage := decode_loop EndHeightMessage_field fuel m.
Definition zero_EndHeightMessage : EndHeightMessage := mkEndHeightMessage 0.

Definition LastSignState_field (n : Z) (m : gen_LastSignState) : option (RM gen_LastSignState) :=
  let 'mkGenLastSignState h rd s b sg := m in
  match n with
  | 1 => Some (let^ x := read_int64 in rm_ret (mkGenLastSignState x rd s b sg))
  | 2 => Some (let^ x := read_int32 in rm_ret (mkGenLastSignState h x s b sg))
  | 3 => Some (let^ x := read_int8 in rm_ret (mkGenLastSignState h rd x b sg))
  | 4 => Some (let^ x := read_hash fuel in rm_ret (mkGenLastSignState h rd s x sg))
  | 5 => Some (let^ x := Signature_DecodeFrom fuel sg in rm_ret (mkGenLastSignState h rd s b x))
  | _ => None
  end.
Definition LastSignState_DecodeFrom (m : gen_LastSignState) : RM gen_LastSignState := decode_loop LastSignState_field fuel m.
Definition zero_LastSignState : gen_LastSignState := mkGenLastSignState 0 0 0 None zero_Signature.

Definition KeyWeight_field (n : Z) (m : KeyWeight) : option (RM KeyWeight) :=
  let 'mkKeyWeight k w := m in
  match n with
  | 1 => Some (let^ x := PublicKey_DecodeFrom fuel k in rm_ret (mkKeyWeight x w))
  | 2 => Some (let^ x := read_uint32 in rm_ret (mkKeyWeight k x))
  | _ => None
  end.
Definition KeyWeight_DecodeFrom (m : KeyWeight) : RM KeyWeight := decode_loop KeyWeight_field fuel m.
Definition zero_KeyWeight : KeyWeight := mkKeyWeight zero_PublicKey 0.

Definition AccountWeight_field (n : Z) (m : AccountWeight) : option (RM AccountWeight) :=
  let 'mkAccountWeight a w := m in
  match n with
  | 1 => Some (let^ x := AccountName_DecodeFrom fuel a in rm_ret (mkAccountWeight x w))
  | 2 => Some (let^ x := read_uint32 in rm_ret (mkAccountWeight a x))
  | _ => None
  end.
Definition AccountWeight_DecodeFrom (m : AccountWeight) : RM AccountWeight := decode_loop AccountWeight_field fuel m.
Definition zero_AccountWeight : AccountWeight := mkAccountWeight zero_AccountName 0.

Definition Authority_field (n : Z) (m : Authority) : option (RM Authority) :=
  let 'mkAuthority t k a := m in
  match n with
  | 1 => Some (let^ x := read_uint32 in rm_ret (mkAuthority x k a))
  | 2 => Some (let^ x := read_slice sizeof_KeyWeight (KeyWeight_DecodeFrom zero_KeyWeight) in rm_ret (mkAuthority t x a))
  | 3 => Some (let^ x := read_slice sizeof_AccountWeight (AccountWeight_DecodeFrom zero_AccountWeight) in rm_ret (mkAuthority t k x))
  | _ => None
  end.
Definition Authority_DecodeFrom (m : Authority) : RM Authority := decode_loop Authority_field fuel m.
Definition zero_Authority : Authority := mkAuthority 0 [] [].

Definition read_entry : RM (string * bytes) := let^ k := read_string in let^ v := read_bytes in rm_ret (k, v).

Definition map_of_entries (l : list (string * bytes)) : gmap string bytes := foldl (fun m e => <[e.1 := e.2]> m) ∅ l.

(** The count is only a hint to [make]: a negative one gives an empty map. *)
Definition read_metadata : RM (gmap string bytes) :=
  let^ n := rm_lift ReadUvarint in
  let^ l := read_each (Z.to_nat (wrap64 n)) read_entry in rm_ret (map_of_entries l).

Definition Account_field (n : Z) (m : Account) : option (RM Account) :=
  let 'mkAccount a i au c u md := m in
  match n with
  | 1 => Some (let^ x := AccountName_DecodeFrom fuel a in rm_ret (mkAccount x i au c u md))
  | 2 => Some (let^ x := read_uint64 in rm_ret (mkAccount a x au c u md))
  | 3 => Some (let^ x := Authority_DecodeFrom au in rm_ret (mkAccount a i x c u md))
  | 4 => Some (let^ x := read_int64 in rm_ret (mkAccount a i au x u md))
  | 5 => Some (let^ x := read_int64 in rm_ret (mkAccount a i au c x md))
  | 6 => Some (let^ x := read_pointer (fun _ => read_metadata) ∅ in rm_ret (mkAccount a i au c u x))
  | _ => None
  end.
Definition Account_DecodeFrom (m : Account) : RM Account := decode_loop Account_field fuel m.
Definition zero_Account : Account := mkAccount zero_AccountName 0 zero_Authority 0 0 None.

Definition SignatureProof_field (n : Z) (m : SignatureProof) : option (RM SignatureProof) :=
  let 'mkSignatureProof k s := m in
  match n with
  | 1 => Some (let^ x := PublicKey_DecodeFrom fuel k in rm_ret (mkSignatureProof x s))
  | 2 => Some (let^ x := Signature_DecodeFrom fuel s in rm_ret (mkSignatureProof k x))
  | _ => None
  end.
Definition SignatureProof_DecodeFrom (m : SignatureProof) : RM SignatureProof := decode_loop SignatureProof_field fuel m.
Definition zero_SignatureProof : SignatureProof := mkSignatureProof zero_PublicKey zero_Signature.

(** The decoders of the two types call each other; [depth] bounds the nesting. *)
Section Nested.
Variable authorization : Authorization -> RM Authorization.

Definition AccountAuthorization_field (n : Z) (m : AccountAuthorization) : option (RM AccountAuthorization) :=
  let 'mkAccountAuthorization a z := m in
  match n with
  | 1 => Some (let^ x := AccountName_DecodeFrom fuel a in rm_ret (mkAccountAuthorization x z))
  | 2 => Some (let^ x := authorization z in rm_ret (mkAccountAuthorization a x))
  | _ => None
  end.
End Nested.

Definition zero_Authorization : Authorization := mkAuthorization [] [].
Definition zero_AccountAuthorization : AccountAuthorization := mkAccountAuthorization zero_AccountName zero_Authorization.

Section Nesting.
Variable account_authorization : AccountAuthorization -> RM AccountAuthorization.

Definition Authorization_field (n : Z) (m : Authorization) : option (RM Authorization) :=
  let 'mkAuthorization s a := m in
  match n with
  | 1 => Some (let^ x := read_slice sizeof_SignatureProof (SignatureProof_DecodeFrom zero_SignatureProof) in rm_ret (mkAuthorization x a))
  | 2 => Some (let^ x := read_slice sizeof_AccountAuthorization (account_authorization zero_AccountAuthorization) in rm_ret (mkAuthorization s x))
  | _ => None
  end.
End Nesting.

Fixpoint Authorization_DecodeFrom (depth : nat) (m : Authorization) : RM Authorization :=
  match depth with
  | O => fun r => (r, Panic "out of fuel")
  | S depth =>
      decode_loop (Authorization_field
        (decode_loop (AccountAuthorization_field (Authorization_DecodeFrom depth)) fuel)) fuel m
  end.

Definition AccountAuthorization_DecodeFrom (depth : nat) (m : AccountAuthorization) : RM AccountAuthorization :=
  decode_loop (AccountAuthorization_field (Authorization_DecodeFrom depth)) fuel m.

Definition Transaction_field (n : Z) (m : Transaction) : option (RM Transaction) :=
  let 'mkTransaction p a z nc e := m in
  match n with
  | 1 => Some (let^ x := read_bytes in rm_ret (mkTransaction x a z nc e))
  | 2 => Some (let^ x := AccountName_DecodeFrom fuel a in rm_ret (mkTransaction p x z nc e))
  | 3 => Some (let^ x := Authorization_DecodeFrom fuel z in rm_ret (mkTransaction p a x nc e))
  | 4 => Some (let^ x := read_uint64 in rm_ret (mkTransaction p a z x e))
  | 5 => Some (let^ x := read_int64 in rm_ret (mkTransaction p a z nc x))
  | _ => None
  end.
Definition Transaction_DecodeFrom (m : Transaction) : RM Transaction := decode_loop Transaction_field fuel m.
Definition zero_Transaction : Transaction := mkTransaction [] zero_AccountName zero_Authorization 0 0.

(** *** UnmarshalCramberry *)

Definition Timestamp_UnmarshalCramberry : Timestamp -> bytes -> res Timestamp := Unmarshal Timestamp_DecodeFrom.
Definition EndHeightMessage_UnmarshalCramberry : EndHeightMessage -> bytes -> res EndHeightMessage := Unmarshal EndHeightMessage_DecodeFrom.
Definition LastSignState_UnmarshalCramberry : gen_LastSignState -> bytes -> res gen_LastSignState := Unmarshal LastSignState_DecodeFrom.
Definition KeyWeight_UnmarshalCramberry : KeyWeight -> bytes -> res KeyWeight := Unmarshal KeyWeight_DecodeFrom.
Definition AccountWeight_UnmarshalCramberry : AccountWeight -> bytes -> res AccountWeight := Unmarshal AccountWeight_DecodeFrom.
Definition Authority_UnmarshalCramberry : Authority -> bytes -> res Authority := Unmarshal Authority_DecodeFrom.
Definition Account_UnmarshalCramberry : Account -> bytes -> res Account := Unmarshal Account_DecodeFrom.
Definition SignatureProof_UnmarshalCramberry : SignatureProof -> bytes -> res SignatureProof := Unmarshal SignatureProof_DecodeFrom.
Definition AccountAuthorization_UnmarshalCramberry : AccountAuthorization -> bytes -> res AccountAuthorization := Unmarshal (AccountAuthorization_DecodeFrom fuel).
Definition Authorization_UnmarshalCramberry : Authorization -> bytes -> res Authorization := Unmarshal (Authorization_DecodeFrom fuel).
Definition Transaction_UnmarshalCramberry : Transaction -> bytes -> res Transaction := Unmarshal Transaction_DecodeFrom.
End Schema.
