(* ===== verification/CodecLaws.v ===== *)
(** * What the runtime promises to the encoders

    A message is written as a sequence of tokens: tags, values, end markers. [RuntimeLaws]: the
    runtime reads back each token that it has written; [encodes] and [decodes] carry this from tokens to
    messages. [RuntimeProgress]: reading consumes the input; [ends] carries this from reads to decoders. *)

From S2P Require Export Codec.

(** ** Tokens *)

Inductive token :=
| TTag (n wt : Z)
| TEnd
| TInt8 (z : Z)
| TInt32 (z : Z)
| TInt64 (z : Z)
| TUint16 (z : Z)
| TUint32 (z : Z)
| TUint64 (z : Z)
| TUvarint (z : Z)
| TBytes (b : bytes)
| TString (s : string).

Section Tokens.
Context `{Runtime}.

Definition write_token (t : token) : WOp :=
  match t with
  | TTag n wt => WriteCompactTag n wt
  | TEnd => WriteEndMarker
  | TInt8 z => WriteInt8 z
  | TInt32 z => WriteInt32 z
  | TInt64 z => WriteInt64 z
  | TUint16 z => WriteUint16 z
  | TUint32 z => WriteUint32 z
  | TUint64 z => WriteUint64 z
  | TUvarint z => WriteUvarint z
  | TBytes b => WriteBytes b
  | TString s => WriteString s
  end.

(** The reader returns the token, and goes on to [r']. *)
Definition reads_token (t : token) (r r' : Reader) : Prop :=
  match t with
  | TTag n wt => ReadCompactTag r = (r', (n, wt))
  | TEnd => exists wt, ReadCompactTag r = (r', (0, wt))
  | TInt8 z => ReadInt8 r = (r', z)
  | TInt32 z => ReadInt32 r = (r', z)
  | TInt64 z => ReadInt64 r = (r', z)
  | TUint16 z => ReadUint16 r = (r', z)
  | TUint32 z => ReadUint32 r = (r', z)
  | TUint64 z => ReadUint64 r = (r', z)
  | TUvarint z => ReadUvarint r = (r', z)
  | TBytes b => ReadBytes r = (r', b)
  | TString s => ReadString r = (r', s)
  end.

Definition write_tokens (l : list token) : WOp := fun w => foldl (fun w t => write_token t w) w l.

(** *** The tokens of a message *)

Definition nonzero_tokens (n wt : Z) (t : Z -> token) (z : Z) : list token :=
  if negb (z =? 0) then [TTag n wt; t z] else [].
Definition bytes_tokens (n : Z) (b : bytes) : list token :=
  if 0 <? len b then [TTag n WireTypeV2Bytes; TBytes b] else [].
Definition string_tokens (n : Z) (s : string) : list token :=
  if bool_decide (s <> "") then [TTag n WireTypeV2Bytes; TString s] else [].
Definition field_tokens (n : Z) (l : list token) : list token := TTag n WireTypeV2Bytes :: l.
Definition pointer_tokens {A} (n : Z) (toks : A -> list token) (o : option A) : list token :=
  match o with Some a => TTag n WireTypeV2Bytes :: toks a | None => [] end.
Definition slice_tokens {A} (n : Z) (toks : A -> list token) (l : list A) : list token :=
  if 0 <? len l then TTag n WireTypeV2Bytes :: TUvarint (len l) :: (l ≫= toks) else [].

End Tokens.

(** ** Laws of the runtime *)

(** What is written can be read back: each token has an encoding, which the writer appends, and
    the reader removes. [fits] holds of the tokens, and [fits_msg] of the inputs, that are
    within the limits of the runtime. [reading r b]: the reader is at [b], without an error. *)
Class RuntimeLaws `{Runtime} := {
  enc : token -> bytes;
  fits : token -> Prop;
  fits_msg : bytes -> Prop;
  reading : Reader -> bytes -> Prop;
  law_GetWriter : w_Err GetWriter = None /\ BytesCopy GetWriter = [];
  law_write : forall t w, fits t -> w_Err w = None ->
    w_Err (write_token t w) = None /\ BytesCopy (write_token t w) = BytesCopy w ++ enc t;
  law_new : forall b, fits_msg b -> reading (NewReaderWithOptions b) b;
  law_reading : forall r b, reading r b -> r_Err r = None;
  law_read : forall t r rest, fits t -> reading r (enc t ++ rest) -> exists r', reads_token t r r' /\ reading r' rest }.

(** Reading consumes the input, and its errors stick. *)
Class RuntimeProgress `{Runtime} := {
  unread : Reader -> nat;
  advances (r r' : Reader) : Prop := r_Err r' = None -> r_Err r = None /\ (unread r' <= unread r)%nat;
  unread_new : forall b, (unread (NewReaderWithOptions b) <= length b)%nat;
  tag_advances : forall r, advances r (ReadCompactTag r).1;
  tag_progress : forall r, (ReadCompactTag r).2.1 <> 0 -> r_Err (ReadCompactTag r).1 = None ->
    (unread (ReadCompactTag r).1 < unread r)%nat;
  skip_advances : forall wt r, advances r (SkipValueV2 wt r);
  int8_advances : forall r, advances r (ReadInt8 r).1;
  int32_advances : forall r, advances r (ReadInt32 r).1;
  int64_advances : forall r, advances r (ReadInt64 r).1;
  uint16_advances : forall r, advances r (ReadUint16 r).1;
  uint32_advances : forall r, advances r (ReadUint32 r).1;
  uint64_advances : forall r, advances r (ReadUint64 r).1;
  uvarint_advances : forall r, advances r (ReadUvarint r).1;
  bytes_advances : forall r, advances r (ReadBytes r).1;
  string_advances : forall r, advances r (ReadString r).1 }.

(** A tag that could not be read is zero. The nested decoders of authorizations rely on it. *)
Definition failed_tag_zero `{Runtime} : Prop := forall r, r_Err (ReadCompactTag r).1 <> None -> (ReadCompactTag r).2.1 = 0.

(** ** Encoding writes the tokens *)

Section Encoding.
Context `{Runtime}.

Definition encodes (op : WOp) (l : list token) : Prop := forall w, op w = write_tokens l w.

Lemma encodes_seq a b l l' : encodes a l -> encodes b l' -> encodes (wop_seq a b) (l ++ l').
Proof. intros Ha Hb w. unfold wop_seq, write_tokens. by rewrite foldl_app, Ha, Hb. Qed.

Lemma encodes_token t : encodes (write_token t) [t].
Proof. done. Qed.

Lemma encodes_field n op l : encodes op l -> encodes (write_field n WireTypeV2Bytes op) (field_tokens n l).
Proof. intros Ho. apply (encodes_seq _ _ [TTag n WireTypeV2Bytes]); [by apply (encodes_token (TTag _ _))|done]. Qed.

Lemma encodes_nonzero n wt write t z :
  (forall z, encodes (write z) [t z]) -> encodes (write_nonzero n wt write z) (nonzero_tokens n wt t z).
Proof.
  intros Hw. unfold write_nonzero, nonzero_tokens. destruct (negb _); [|done].
  apply (encodes_seq _ _ [TTag n wt]); [by apply (encodes_token (TTag _ _))|done].
Qed.

Lemma encodes_bytes n b : encodes (write_bytes n b) (bytes_tokens n b).
Proof. unfold write_bytes, bytes_tokens. destruct (0 <? _); [|done]. by apply encodes_field. Qed.

Lemma encodes_string n s : encodes (write_string n s) (string_tokens n s).
Proof. unfold write_string, string_tokens. destruct (bool_decide _); [|done]. by apply encodes_field. Qed.

Lemma encodes_pointer {A} n enc (toks : A -> list token) o :
  (forall a, encodes (enc a) (toks a)) -> encodes (write_pointer n enc o) (pointer_tokens n toks o).
Proof. intros He. destruct o; [|done]. by apply encodes_field. Qed.

Lemma encodes_each_forall {A} enc (toks : A -> list token) l :
  Forall (fun a => encodes (enc a) (toks a)) l -> encodes (write_each enc l) (l ≫= toks).
Proof. induction 1 as [|a l Ha _ IH]; [done|]. by apply encodes_seq. Qed.

Lemma encodes_slice_forall {A} n enc (toks : A -> list token) l :
  Forall (fun a => encodes (enc a) (toks a)) l -> encodes (write_slice n enc l) (slice_tokens n toks l).
Proof.
  intros He. unfold write_slice, slice_tokens. destruct (0 <? _); [|done]. apply encodes_field.
  apply (encodes_seq _ _ [TUvarint (len l)]); [by apply (encodes_token (TUvarint _))|by apply encodes_each_forall].
Qed.

Lemma encodes_each {A} enc (toks : A -> list token) l :
  (forall a, encodes (enc a) (toks a)) -> encodes (write_each enc l) (l ≫= toks).
Proof. intros He. by apply encodes_each_forall, Forall_true. Qed.

Lemma encodes_slice {A} n enc (toks : A -> list token) l :
  (forall a, encodes (enc a) (toks a)) -> encodes (write_slice n enc l) (slice_tokens n toks l).
Proof. intros He. by apply encodes_slice_forall, Forall_true. Qed.
End Encoding.

Create HintDb codec.
#[export] Hint Resolve encodes_seq encodes_field encodes_nonzero encodes_bytes encodes_string encodes_pointer encodes_slice : codec.
#[export] Hint Extern 2 (encodes WriteEndMarker [TEnd]) => exact (encodes_token TEnd) : codec.
#[export] Hint Extern 2 (encodes (?w ?x) [?t ?x]) => exact (encodes_token (t x)) : codec.

(** ** Decoding restores the message *)

Section Decoding.
Context `{RuntimeLaws}.

Definition encs (l : list token) : bytes := l ≫= enc.

(** The reader takes the tokens of [a], and nothing else. *)
Definition decodes {A} (d : RM A) (l : list token) (a : A) : Prop :=
  forall r rest, Forall fits l -> reading r (encs l ++ rest) -> exists r', d r = (r', Ret a) /\ reading r' rest.

Lemma encs_app l l' : encs (l ++ l') = encs l ++ encs l'.
Proof. apply bind_app. Qed.

Lemma encs_cons t l rest : encs (t :: l) ++ rest = enc t ++ encs l ++ rest.
Proof. unfold encs. cbn. by rewrite <- (assoc_L (++)). Qed.

Lemma decodes_ret {A} (a : A) : decodes (rm_ret a) [] a.
Proof. intros r rest _ Hr. by exists r. Qed.

Lemma decodes_bind {A B} (d : RM A) (k : A -> RM B) l l' a b :
  decodes d l a -> decodes (k a) l' b -> decodes (rm_bind d k) (l ++ l') b.
Proof.
  intros Hd Hk r rest [Hl Hl']%Forall_app Hr. rewrite encs_app, <- (assoc_L (++)) in Hr.
  destruct (Hd _ _ Hl Hr) as (r1 & E & Hr1). unfold rm_bind. rewrite E. by apply Hk.
Qed.

Lemma decodes_map {A B} (d : RM A) (f : A -> B) l a :
  decodes d l a -> decodes (rm_bind d (fun x => rm_ret (f x))) l (f a).
Proof. intros Hd. rewrite <- (app_nil_r l). eapply decodes_bind; [done|apply decodes_ret]. Qed.

Lemma decodes_token {A} (read : Reader -> Reader * A) t a :
  (forall r r', reads_token t r r' -> read r = (r', a)) -> decodes (rm_lift read) [t] a.
Proof.
  intros Hr r rest Hl Hd. rewrite encs_cons in Hd.
  apply Forall_cons in Hl as [Hl _]. destruct (law_read t r rest Hl Hd) as (r' & Ht & Hr').
  exists r'. split; [|done]. unfold rm_lift. by rewrite (Hr _ _ Ht).
Qed.

Lemma decodes_int8 z : decodes read_int8 [TInt8 z] z.
Proof. by apply decodes_token. Qed.
Lemma decodes_int32 z : decodes read_int32 [TInt32 z] z.
Proof. by apply decodes_token. Qed.
Lemma decodes_int64 z : decodes read_int64 [TInt64 z] z.
Proof. by apply decodes_token. Qed.
Lemma decodes_uint16 z : decodes read_uint16 [TUint16 z] z.
Proof. by apply decodes_token. Qed.
Lemma decodes_uint32 z : decodes read_uint32 [TUint32 z] z.
Proof. by apply decodes_token. Qed.
Lemma decodes_uint64 z : decodes read_uint64 [TUint64 z] z.
Proof. by apply decodes_token. Qed.
Lemma decodes_bytes b : decodes read_bytes [TBytes b] b.
Proof. by apply decodes_token. Qed.
Lemma decodes_string s : decodes read_string [TString s] s.
Proof. by apply decodes_token. Qed.

Lemma decodes_pointer {A} (dec : A -> RM A) zero l a : decodes (dec zero) l a -> decodes (read_pointer dec zero) l (Some a).
Proof. apply decodes_map. Qed.

Lemma decodes_each {A} (read : RM A) toks (l : list A) :
  Forall (fun a => decodes read (toks a) a) l -> decodes (read_each (length l) read) (l ≫= toks) l.
Proof.
  induction 1 as [|a l Ha _ IH]; [apply decodes_ret|]. cbn [read_each length mbind list_bind].
  eapply decodes_bind; [done|]. by apply decodes_map.
Qed.

Lemma maxSliceLen_le size : maxSliceLen size <= 2 ^ 48.
Proof.
  unfold maxSliceLen. destruct (Z.leb_spec size 0) as [Hs|Hs]; [|apply Z.div_le_upper_bound; nia].
  destruct (decide (size = 0)) as [->|]; [by rewrite Zdiv_0_r|].
  enough (2 ^ 48 / size <= 0) by lia. Z.to_euclidean_division_equations. nia.
Qed.

Lemma decodes_slice {A} size (read : RM A) toks (l : list A) :
  Forall (fun a => decodes read (toks a) a) l -> len l <= maxSliceLen size ->
  decodes (read_slice size read) (TUvarint (len l) :: (l ≫= toks)) l.
Proof.
  intros Hl Hm. unfold read_slice. apply (decodes_bind _ _ [TUvarint (len l)] _ (len l)); [by apply decodes_token|].
  assert (0 <= len l) by (unfold len; lia). pose proof (maxSliceLen_le size).
  rewrite wrap64_small by (unfold in_i64, MinInt64, MaxInt64 in *; lia).
  replace (_ || _) with false by (symmetry; apply orb_false_iff; lia).
  unfold len. rewrite Nat2Z.id. by apply decodes_each.
Qed.

(** *** The loop over the fields *)

(** A field, which may have been left out, is decoded in at most one iteration. *)
Definition field_step {A} (field : Z -> A -> option (RM A)) (l : list token) (m m' : A) : Prop :=
  exists k, (k <= 1)%nat /\ forall fuel r rest, Forall fits l -> reading r (encs l ++ rest) ->
    exists r', reading r' rest /\ decode_loop field (k + fuel) m r = decode_loop field fuel m' r'.

Definition loops {A} (field : Z -> A -> option (RM A)) (n : nat) (m : A) (l : list token) (m' : A) : Prop :=
  forall fuel, (n <= fuel)%nat -> decodes (decode_loop field fuel m) l m'.

Lemma loops_end {A} field (m : A) : loops field 1 m [TEnd] m.
Proof.
  intros [|fuel] Hn r rest Hl Hr; [lia|]. rewrite encs_cons in Hr.
  apply Forall_cons in Hl as [Hl _]. destruct (law_read TEnd r rest Hl Hr) as (r' & [wt Ht] & Hr').
  exists r'. cbn. by rewrite Ht.
Qed.

Lemma loops_step {A} field n (m m1 m' : A) l l' :
  field_step field l m m1 -> loops field n m1 l' m' -> loops field (S n) m (l ++ l') m'.
Proof.
  intros (k & Hk & Hs) Hn fuel Hf r rest [Hl Hl']%Forall_app Hr. rewrite encs_app, <- (assoc_L (++)) in Hr.
  replace fuel with (k + (fuel - k))%nat by lia. destruct (Hs (fuel - k)%nat r _ Hl Hr) as (r1 & Hr1 & ->).
  apply Hn; [lia|done..].
Qed.

Lemma step_none {A} field (m : A) : field_step field [] m m.
Proof. exists 0%nat. split; [lia|]. intros fuel r rest _ Hr. by exists r. Qed.

Lemma step_some {A} (field : Z -> A -> option (RM A)) n wt l m m' d :
  n <> 0 -> field n m = Some d -> decodes d l m' -> field_step field (TTag n wt :: l) m m'.
Proof.
  intros Hn Hf Hd. exists 1%nat. split; [lia|]. intros fuel r rest [Ht Hl]%Forall_cons Hr.
  rewrite encs_cons in Hr.
  destruct (law_read _ _ _ Ht Hr) as (r1 & E1 & Hr1). cbn in E1. destruct (Hd _ _ Hl Hr1) as (r2 & E2 & Hr2).
  exists r2. split; [done|]. cbn [decode_loop Nat.add]. rewrite E1, Hf, E2, (law_reading _ _ Hr2).
  by rewrite (proj2 (Z.eqb_neq n 0) Hn).
Qed.

Lemma step_field {A B} field n (read : RM B) (f : B -> A) m l b :
  n <> 0 -> field n m = Some (rm_bind read (fun x => rm_ret (f x))) -> decodes read l b ->
  field_step field (field_tokens n l) m (f b).
Proof. intros Hn Hf Hr. eapply step_some; [done..|]. by apply decodes_map. Qed.

Lemma step_nonzero {A} field n wt t read (f : Z -> A) m z :
  n <> 0 -> field n m = Some (rm_bind read (fun x => rm_ret (f x))) -> (forall z, decodes read [t z] z) -> f 0 = m ->
  field_step field (nonzero_tokens n wt t z) m (f z).
Proof.
  intros Hn Hf Hr Hm. unfold nonzero_tokens. destruct (Z.eqb_spec z 0) as [->|Hz]; cbn [negb].
  - rewrite Hm. apply step_none.
  - eapply step_some; [done..|]. by apply decodes_map.
Qed.

Lemma step_bytes {A} field n (f : bytes -> A) m b :
  n <> 0 -> field n m = Some (rm_bind read_bytes (fun x => rm_ret (f x))) -> f [] = m ->
  field_step field (bytes_tokens n b) m (f b).
Proof.
  intros Hn Hf Hm. unfold bytes_tokens. destruct (Z.ltb_spec 0 (len b)) as [Hb|Hb].
  - eapply step_some; [done..|]. apply decodes_map, decodes_bytes.
  - destruct b; [|unfold len in Hb; cbn in Hb; lia]. rewrite Hm. apply step_none.
Qed.

Lemma step_string {A} field n (f : string -> A) m s :
  n <> 0 -> field n m = Some (rm_bind read_string (fun x => rm_ret (f x))) -> f "" = m ->
  field_step field (string_tokens n s) m (f s).
Proof.
  intros Hn Hf Hm. unfold string_tokens. case_bool_decide as Hs.
  - eapply step_some; [done..|]. apply decodes_map, decodes_string.
  - subst s. rewrite Hm. apply step_none.
Qed.

Lemma step_pointer {A B} field n (read : RM (option B)) toks (f : option B -> A) m o :
  n <> 0 -> field n m = Some (rm_bind read (fun x => rm_ret (f x))) -> (forall b, o = Some b -> decodes read (toks b) (Some b)) -> f None = m ->
  field_step field (pointer_tokens n toks o) m (f o).
Proof.
  intros Hn Hf Hr Hm. destruct o as [b|]; cbn; [|rewrite Hm; apply step_none].
  eapply step_some; [done..|]. by apply decodes_map, Hr.
Qed.

Lemma step_slice {A B} field n size (read : RM B) toks (f : list B -> A) m l :
  n <> 0 -> field n m = Some (rm_bind (read_slice size read) (fun x => rm_ret (f x))) ->
  Forall (fun b => decodes read (toks b) b) l -> len l <= maxSliceLen size -> f [] = m ->
  field_step field (slice_tokens n toks l) m (f l).
Proof.
  intros Hn Hf Hl Hm Hz. unfold slice_tokens. destruct (Z.ltb_spec 0 (len l)) as [Hb|Hb].
  - eapply step_some; [done..|]. by apply decodes_map, decodes_slice.
  - destruct l; [|unfold len in Hb; cbn in Hb; lia]. rewrite Hz. apply step_none.
Qed.

(** A slice that may be nil, but not empty. *)
Lemma step_nil_slice {A B} field n size (read : RM B) toks (f : option (list B) -> A) m o :
  n <> 0 -> field n m = Some (rm_bind (read_slice size read) (fun x => rm_ret (f (Some x)))) ->
  (forall b, decodes read (toks b) b) -> len (default [] o) <= maxSliceLen size -> o <> Some [] -> f None = m ->
  field_step field (slice_tokens n toks (default [] o)) m (f o).
Proof.
  intros Hn Hf Hl Hm Ho Hz. destruct o as [l|]; cbn [default from_option] in *; [|rewrite Hz; apply step_none].
  unfold id in *. unfold slice_tokens. destruct (Z.ltb_spec 0 (len l)) as [Hb|Hb].
  - eapply step_some; [done..|]. apply (decodes_map _ (fun x => f (Some x))), decodes_slice; [by apply Forall_true|done].
  - destruct l; [by destruct Ho|unfold len in Hb; cbn in Hb; lia].
Qed.
End Decoding.

(** One field of a message; its reader is known to the hint database. *)
Ltac codec_field :=
  match goal with
  | |- field_step _ (field_tokens _ _) _ _ => eapply step_field
  | |- field_step _ (nonzero_tokens _ _ _ _) _ _ => eapply step_nonzero
  | |- field_step _ (bytes_tokens _ _) _ _ => eapply step_bytes
  | |- field_step _ (string_tokens _ _) _ _ => eapply step_string
  | |- field_step _ (pointer_tokens _ _ _) _ _ => eapply step_pointer
  | |- field_step _ (slice_tokens _ _ _) _ _ => eapply step_slice
  end; [done|reflexivity|..]; try solve [reflexivity|eauto with codec].
Ltac codec_message := repeat (eapply loops_step; [codec_field|]); apply loops_end.

#[export] Hint Resolve decodes_int8 decodes_int32 decodes_int64 decodes_uint16 decodes_uint32 decodes_uint64 decodes_bytes decodes_string decodes_pointer : codec.

Lemma decodes_all `{RuntimeLaws} {A} (read : RM A) toks l : (forall a, decodes read (toks a) a) -> Forall (fun a => decodes read (toks a) a) l.
Proof. intros Hr. by apply Forall_true. Qed.
#[export] Hint Resolve decodes_all : codec.

(** ** Marshalling *)

Section Marshalling.
Context `{RuntimeLaws}.

(** Tokens within the limits of the runtime, one by one and together. *)
Definition sendable (l : list token) : Prop := Forall fits l /\ fits_msg (encs l).

Lemma write_tokens_encs l w :
  Forall fits l -> w_Err w = None -> w_Err (write_tokens l w) = None /\ BytesCopy (write_tokens l w) = BytesCopy w ++ encs l.
Proof.
  intros Hl. revert w. induction Hl as [|t l Ht Hl IH]; intros w Hw; [by rewrite app_nil_r|].
  destruct (law_write t w Ht Hw) as [He Eb]. destruct (IH _ He) as [He' Eb']. split; [done|].
  change (BytesCopy (write_tokens l (write_token t w)) = BytesCopy w ++ (enc t ++ encs l)).
  by rewrite Eb', Eb, (assoc_L (++)).
Qed.

Lemma Marshal_encs {A} (enc : A -> WOp) m l : encodes (enc m) l -> Forall fits l -> Marshal enc m = Ret (encs l).
Proof.
  intros He Hl. destruct law_GetWriter as [Hw Hb]. unfold Marshal. cbv zeta. rewrite !He.
  destruct (write_tokens_encs l GetWriter Hl Hw) as [-> ->]. by rewrite Hb.
Qed.

Lemma Unmarshal_encs {A} (dec : A -> RM A) zero m l :
  decodes (dec zero) l m -> sendable l -> Unmarshal dec zero (encs l) = Ret m.
Proof.
  intros Hd [Hl Hm]. unfold Unmarshal. pose proof (law_new _ Hm) as Hr. rewrite <- (app_nil_r (encs l)) in Hr at 2.
  destruct (Hd _ _ Hl Hr) as (r' & -> & Hr'). cbn. by rewrite (law_reading _ _ Hr').
Qed.

Lemma Marshal_Unmarshal {A} (enc : A -> WOp) (dec : A -> RM A) zero m l :
  encodes (enc m) l -> decodes (dec zero) l m -> sendable l ->
  exists b, Marshal enc m = Ret b /\ Unmarshal dec zero b = Ret m.
Proof. intros He Hd Hl. exists (encs l). split; [apply Marshal_encs; [done|apply Hl]|by apply Unmarshal_encs]. Qed.

(** The bytes determine the message. *)
Lemma encs_inj {A} (dec : A -> RM A) zero m m' l l' :
  decodes (dec zero) l m -> decodes (dec zero) l' m' -> sendable l -> sendable l' -> encs l = encs l' -> m = m'.
Proof.
  intros Hd Hd' Hl Hl' E. pose proof (Unmarshal_encs dec zero m l Hd Hl) as E1.
  rewrite E, (Unmarshal_encs dec zero m' l' Hd' Hl') in E1. by injection E1.
Qed.

(** The first tag of a message can be read. *)
Lemma first_tag n wt l : sendable (TTag n wt :: l) -> (ReadCompactTag (NewReaderWithOptions (encs (TTag n wt :: l)))).2 = (n, wt).
Proof.
  intros [[Ht Hl]%Forall_cons Hm]. pose proof (law_new _ Hm) as Hr. rewrite <- (app_nil_r (encs _)) in Hr at 2.
  rewrite encs_cons in Hr. destruct (law_read _ _ _ Ht Hr) as (r' & E & _).
  by apply (f_equal snd) in E.
Qed.
End Marshalling.

(** ** Decoding ends *)

Section Ending.
Context `{RuntimeProgress}.

(** A decoder, called with fuel for the input, does not run out of it. *)
Definition ends {A} (fuel : nat) (d : RM A) : Prop := forall r,
  (r_Err r = None -> (unread r < fuel)%nat) -> (d r).2 <> Panic "out of fuel" /\ advances r (d r).1.

Variable fuel : nat.

Lemma advances_refl r : advances r r.
Proof. done. Qed.
Lemma advances_trans r1 r2 r3 : advances r1 r2 -> advances r2 r3 -> advances r1 r3.
Proof. intros H12 H23 H3. destruct (H23 H3) as [H2 ?]. destruct (H12 H2). split; [done|lia]. Qed.

Lemma ends_ret {A} (a : A) : ends fuel (rm_ret a).
Proof. by intros r Hr. Qed.

Lemma ends_bind {A B} (d : RM A) (k : A -> RM B) : ends fuel d -> (forall a, ends fuel (k a)) -> ends fuel (rm_bind d k).
Proof.
  intros Hd Hk r Hr. destruct (Hd r Hr) as [Hp Ha]. unfold rm_bind. destruct (d r) as [r1 [a|e|msg]]; cbn in *; [|done|].
  - destruct (Hk a r1) as [Hp' Ha']; [|split; [done|by eapply advances_trans]].
    intros E. destruct (Ha E) as [E' Hle]. specialize (Hr E'). lia.
  - split; [congruence|done].
Qed.

Lemma ends_lift {A} (read : Reader -> Reader * A) : (forall r, advances r (read r).1) -> ends fuel (rm_lift read).
Proof. intros Ha r _. specialize (Ha r). unfold rm_lift. by destruct (read r). Qed.

Lemma ends_each {A} (d : RM A) n : ends fuel d -> ends fuel (read_each n d).
Proof. intros Hd. induction n as [|n IH]; [apply ends_ret|]. cbn. repeat (apply ends_bind; [done|intros ?]). apply ends_ret. Qed.

Lemma ends_slice {A} size (d : RM A) : ends fuel d -> ends fuel (read_slice size d).
Proof.
  intros Hd. apply ends_bind; [apply ends_lift, uvarint_advances|]. intros n. cbv zeta.
  case_match; [by intros r _|by apply ends_each].
Qed.

Lemma ends_mono {A} (k k' : nat) (d : RM A) : (k <= k')%nat -> ends k' d -> ends k d.
Proof using Type. intros Hk Hd r Hr. apply Hd. intros E. specialize (Hr E). lia. Qed.

(** A loop with fuel for the input ends if the fields end after their tag. *)
Lemma ends_loop_after {A} (field : Z -> A -> option (RM A)) (k : nat) m :
  (0 < fuel)%nat -> (k <= fuel)%nat ->
  (forall n m d r0 r, field n m = Some d -> n <> 0 -> (exists wt, ReadCompactTag r0 = (r, (n, wt))) ->
     (r_Err r = None -> (S (unread r) < k)%nat) -> (d r).2 <> Panic "out of fuel" /\ advances r (d r).1) ->
  ends k (decode_loop field fuel m).
Proof using Type.
  intros Hf Hk Hd r Hr.
  enough (Hl : forall j m r, (0 < j)%nat -> (r_Err r = None -> (unread r < j /\ unread r < k)%nat) ->
    (decode_loop field j m r).2 <> Panic "out of fuel" /\ advances r (decode_loop field j m r).1).
  { apply Hl; [done|]. intros E. specialize (Hr E). lia. }
  clear m r Hr. induction j as [|j IH]; intros m r Hj Hr; [lia|]. cbn [decode_loop].
  pose proof (tag_advances r) as Ha. pose proof (tag_progress r) as Hp.
  destruct (ReadCompactTag r) as [r1 [n wt]] eqn:Et. cbn in Ha, Hp. destruct (Z.eqb_spec n 0) as [->|Hn]; [done|].
  assert (H1 : r_Err r1 = None -> (unread r1 < unread r /\ unread r < S j /\ unread r < k)%nat).
  { intros E. destruct (Ha E) as [E0 _]. specialize (Hp Hn E). specialize (Hr E0). lia. }
  set (p := match field n m with Some d => d r1 | None => (SkipValueV2 wt r1, Ret m) end).
  assert (Hs : p.2 <> Panic "out of fuel" /\ advances r1 p.1).
  { unfold p. destruct (field n m) as [d|] eqn:E; [|split; [done|apply skip_advances]].
    apply (Hd _ _ _ r _ E Hn); [by exists wt|]. intros E1. specialize (H1 E1). lia. }
  destruct p as [r2 [m'|e|msg]]; cbn in Hs; destruct Hs as [Hp2 Ha2]; [|split; [done|by eapply advances_trans]|].
  - destruct (r_Err r2) eqn:E2; [split; [done|by eapply advances_trans]|].
    destruct (Ha2 E2) as [E1 Hle]. specialize (H1 E1).
    destruct (IH m' r2) as [? Ha3]; [lia|intros _; lia|]. split; [done|]. eapply advances_trans; [|done]. by eapply advances_trans.
  - split; [cbn; congruence|by eapply advances_trans].
Qed.

Lemma ends_loop {A} (field : Z -> A -> option (RM A)) m :
  (0 < fuel)%nat -> (forall n m d, field n m = Some d -> ends fuel d) -> ends fuel (decode_loop field fuel m).
Proof using Type.
  intros Hf Hd. apply ends_loop_after; [done|lia|]. intros n m' d r0 r E _ _ Hr. apply (Hd _ _ _ E).
  intros E1. specialize (Hr E1). lia.
Qed.

(** A loop around a decoder that calls it: less input is left for a field. *)
Lemma ends_loop_nested {A} (field : Z -> A -> option (RM A)) (k : nat) m :
  failed_tag_zero -> (0 < fuel)%nat -> (k <= fuel)%nat ->
  ((1 < k)%nat -> forall n m d, field n m = Some d -> ends (k - 1) d) -> ends k (decode_loop field fuel m).
Proof using Type.
  intros Hz Hf Hk Hd. apply ends_loop_after; [done..|]. intros n m' d r0 r E Hn [wt Et] Hr.
  assert (E1 : r_Err r = None).
  { destruct (r_Err r) eqn:E1; [|done]. destruct Hn. specialize (Hz r0). rewrite Et in Hz. apply Hz. cbn. congruence. }
  specialize (Hr E1). apply (Hd ltac:(lia) _ _ _ E). intros _. lia.
Qed.
End Ending.

(** The fields of a message end, and so does its loop. *)
Ltac head_of t := lazymatch t with ?f _ => head_of f | _ => t end.
Ltac ends_message :=
  apply ends_loop; [done|];
  let m := fresh in let E := fresh in intros ? m ? E; destruct m;
  lazymatch type of E with ?l = _ => let f := head_of l in unfold f in E end;
  repeat case_match; simplify_eq; (apply ends_bind; [|intros; apply ends_ret]); eauto with ends.

Create HintDb ends.
#[export] Hint Resolve ends_ret ends_bind ends_slice : ends.
#[export] Hint Extern 1 (ends _ read_int8) => apply ends_lift, int8_advances : ends.
#[export] Hint Extern 1 (ends _ read_int32) => apply ends_lift, int32_advances : ends.
#[export] Hint Extern 1 (ends _ VoteType_DecodeFrom) => apply ends_lift, int32_advances : ends.
#[export] Hint Extern 1 (ends _ RoundStepType_DecodeFrom) => apply ends_lift, int32_advances : ends.
#[export] Hint Extern 1 (ends _ EvidenceType_DecodeFrom) => apply ends_lift, int32_advances : ends.
#[export] Hint Extern 1 (ends _ WalmsgType_DecodeFrom) => apply ends_lift, int32_advances : ends.
#[export] Hint Extern 1 (ends _ read_int64) => apply ends_lift, int64_advances : ends.
#[export] Hint Extern 1 (ends _ read_uint16) => apply ends_lift, uint16_advances : ends.
#[export] Hint Extern 1 (ends _ read_uint32) => apply ends_lift, uint32_advances : ends.
#[export] Hint Extern 1 (ends _ read_uint64) => apply ends_lift, uint64_advances : ends.
#[export] Hint Extern 1 (ends _ read_bytes) => apply ends_lift, bytes_advances : ends.
#[export] Hint Extern 1 (ends _ read_string) => apply ends_lift, string_advances : ends.

Lemma Unmarshal_ends `{RuntimeProgress} {A} fuel (dec : A -> RM A) zero data :
  (length data < fuel)%nat -> ends fuel (dec zero) -> Unmarshal dec zero data <> Panic "out of fuel".
Proof.
  intros Hl Hd. destruct (Hd (NewReaderWithOptions data)) as [Hp _]; [pose proof (unread_new data); lia|].
  unfold Unmarshal. destruct (dec zero _) as [r [a|e|msg]]; cbn in *; [by destruct (r_Err r)|done|congruence].
Qed.

(** A count that is negative as an [int]. *)
Lemma read_slice_panics `{Runtime} {A} size (read : RM A) n r r' :
  2 ^ 63 <= n < 2 ^ 64 -> ReadUvarint r = (r', n) ->
  read_slice size read r = (r', Panic "runtime error: makeslice: len out of range").
Proof.
  intros Hn E. unfold read_slice, rm_bind, rm_lift. rewrite E. cbv zeta.
  assert (Hw : wrap64 n = n - 2 ^ 64).
  { unfold wrap64. replace (n + 2 ^ 63) with (n - 2 ^ 63 + 1 * 2 ^ 64) by lia. rewrite Z.mod_add, Z.mod_small; lia. }
  by rewrite Hw, (proj2 (Z.ltb_lt _ 0)) by lia.
Qed.
