(* ===== verification/CodecMessages.v ===== *)
(** * The messages of the engine, token by token

    The tokens of each message of [Codec]; that its encoder writes them, that its decoder restores the
    message from them, and that its decoder ends on every input. *)

From S2P Require Export CodecLaws.

(** ** Tokens *)

Section Tokens.
Context `{Runtime}.

Definition Hash_tokens (m : Hash) := bytes_tokens 1 (h_Data m) ++ [TEnd].
Definition Signature_tokens (m : Signature) := bytes_tokens 1 (sig_Data m) ++ [TEnd].
Definition PublicKey_tokens (m : PublicKey) := bytes_tokens 1 (pk_Data m) ++ [TEnd].
Definition AccountName_tokens (m : AccountName) := pointer_tokens 1 (fun s => [TString s]) (an_Name m) ++ [TEnd].

Definition Vote_tokens (m : Vote) :=
  field_tokens 1 [TInt32 (vt_Type m)] ++
  nonzero_tokens 2 WireTypeV2SVarint TInt64 (vt_Height m) ++
  nonzero_tokens 3 WireTypeV2SVarint TInt32 (vt_Round m) ++
  pointer_tokens 4 Hash_tokens (vt_BlockHash m) ++
  nonzero_tokens 5 WireTypeV2SVarint TInt64 (vt_Timestamp m) ++
  field_tokens 6 (AccountName_tokens (vt_Validator m)) ++
  nonzero_tokens 7 WireTypeV2Varint TUint16 (vt_ValidatorIndex m) ++
  field_tokens 8 (Signature_tokens (vt_Signature m)) ++ [TEnd].

Definition CommitSig_tokens (m : CommitSig) :=
  nonzero_tokens 1 WireTypeV2Varint TUint16 (cs_ValidatorIndex m) ++
  field_tokens 2 (Signature_tokens (cs_Signature m)) ++
  nonzero_tokens 3 WireTypeV2SVarint TInt64 (cs_Timestamp m) ++
  pointer_tokens 4 Hash_tokens (cs_BlockHash m) ++ [TEnd].

Definition Commit_tokens (m : Commit) :=
  nonzero_tokens 1 WireTypeV2SVarint TInt64 (cm_Height m) ++
  nonzero_tokens 2 WireTypeV2SVarint TInt32 (cm_Round m) ++
  field_tokens 3 (Hash_tokens (cm_BlockHash m)) ++
  slice_tokens 4 CommitSig_tokens (cm_Signatures m) ++ [TEnd].

Definition BatchCertRef_tokens (m : BatchCertRef) :=
  field_tokens 1 (Hash_tokens (bcr_CertificateDigest m)) ++
  nonzero_tokens 2 WireTypeV2Varint TUint64 (bcr_Round m) ++
  field_tokens 3 (AccountName_tokens (bcr_Validator m)) ++ [TEnd].

Definition BlockHeader_tokens (m : BlockHeader) :=
  string_tokens 1 (bh_ChainId m) ++
  nonzero_tokens 2 WireTypeV2SVarint TInt64 (bh_Height m) ++
  nonzero_tokens 3 WireTypeV2SVarint TInt64 (bh_Time m) ++
  pointer_tokens 4 Hash_tokens (bh_LastBlockHash m) ++
  pointer_tokens 5 Hash_tokens (bh_LastCommitHash m) ++
  pointer_tokens 6 Hash_tokens (bh_ValidatorsHash m) ++
  pointer_tokens 7 Hash_tokens (bh_AppHash m) ++
  pointer_tokens 8 Hash_tokens (bh_ConsensusHash m) ++
  nonzero_tokens 9 WireTypeV2Varint TUint64 (bh_DagRound m) ++
  slice_tokens 10 BatchCertRef_tokens (bh_BatchCertRefs m) ++
  field_tokens 11 (AccountName_tokens (bh_Proposer m)) ++ [TEnd].

Definition BlockData_tokens (m : BlockData) := slice_tokens 1 Hash_tokens (bd_BatchDigests m) ++ [TEnd].

Definition Block_tokens (m : Block) :=
  field_tokens 1 (BlockHeader_tokens (b_Header m)) ++
  field_tokens 2 (BlockData_tokens (b_Data m)) ++
  slice_tokens 3 (fun b => [TBytes b]) (default [] (b_Evidence m)) ++
  pointer_tokens 4 Commit_tokens (b_LastCommit m) ++ [TEnd].

Definition Proposal_tokens (m : Proposal) :=
  nonzero_tokens 1 WireTypeV2SVarint TInt64 (p_Height m) ++
  nonzero_tokens 2 WireTypeV2SVarint TInt32 (p_Round m) ++
  nonzero_tokens 3 WireTypeV2SVarint TInt64 (p_Timestamp m) ++
  field_tokens 4 (Block_tokens (p_Block m)) ++
  nonzero_tokens 5 WireTypeV2SVarint TInt32 (p_PolRound m) ++
  slice_tokens 6 Vote_tokens (p_PolVotes m) ++
  field_tokens 7 (AccountName_tokens (p_Proposer m)) ++
  field_tokens 8 (Signature_tokens (p_Signature m)) ++ [TEnd].

Definition NamedValidator_tokens (m : NamedValidator) :=
  field_tokens 1 (AccountName_tokens (nv_Name m)) ++
  nonzero_tokens 2 WireTypeV2Varint TUint16 (nv_Index m) ++
  field_tokens 3 (PublicKey_tokens (nv_PublicKey m)) ++
  nonzero_tokens 4 WireTypeV2SVarint TInt64 (nv_VotingPower m) ++
  nonzero_tokens 5 WireTypeV2SVarint TInt64 (nv_ProposerPriority m) ++ [TEnd].

Definition ValidatorSetData_tokens (m : ValidatorSetData) :=
  slice_tokens 1 NamedValidator_tokens (vsd_Validators m) ++
  nonzero_tokens 2 WireTypeV2Varint TUint16 (vsd_ProposerIndex m) ++
  nonzero_tokens 3 WireTypeV2SVarint TInt64 (vsd_TotalPower m) ++ [TEnd].

Definition DuplicateVoteEvidence_tokens (m : DuplicateVoteEvidence) :=
  field_tokens 1 (Vote_tokens (dve_VoteA m)) ++
  field_tokens 2 (Vote_tokens (dve_VoteB m)) ++
  nonzero_tokens 3 WireTypeV2SVarint TInt64 (dve_TotalVotingPower m) ++
  nonzero_tokens 4 WireTypeV2SVarint TInt64 (dve_ValidatorPower m) ++
  nonzero_tokens 5 WireTypeV2SVarint TInt64 (dve_Timestamp m) ++ [TEnd].

Definition Evidence_tokens (m : Evidence) :=
  field_tokens 1 [TInt32 (ev_Type m)] ++
  nonzero_tokens 2 WireTypeV2SVarint TInt64 (ev_Height m) ++
  nonzero_tokens 3 WireTypeV2SVarint TInt64 (ev_Time m) ++
  bytes_tokens 4 (ev_Data m) ++ [TEnd].

Definition TimeoutMessage_tokens (m : TimeoutMessage) :=
  nonzero_tokens 1 WireTypeV2SVarint TInt64 (tm_Height m) ++
  nonzero_tokens 2 WireTypeV2SVarint TInt32 (tm_Round m) ++
  field_tokens 3 [TInt32 (tm_Step m)] ++ [TEnd].

Definition Walmessage_tokens (m : Walmessage) :=
  field_tokens 1 [TInt32 (wm_Type m)] ++
  nonzero_tokens 2 WireTypeV2SVarint TInt64 (wm_Height m) ++
  nonzero_tokens 3 WireTypeV2SVarint TInt32 (wm_Round m) ++
  bytes_tokens 4 (wm_Data m) ++ [TEnd].

Definition ConsensusStateData_tokens (m : ConsensusStateData) :=
  nonzero_tokens 1 WireTypeV2SVarint TInt64 (csd_Height m) ++
  nonzero_tokens 2 WireTypeV2SVarint TInt32 (csd_Round m) ++
  field_tokens 3 [TInt32 (csd_Step m)] ++
  nonzero_tokens 4 WireTypeV2SVarint TInt32 (csd_LockedRound m) ++
  pointer_tokens 5 Hash_tokens (csd_LockedBlockHash m) ++
  nonzero_tokens 6 WireTypeV2SVarint TInt32 (csd_ValidRound m) ++
  pointer_tokens 7 Hash_tokens (csd_ValidBlockHash m) ++ [TEnd].
End Tokens.

(** ** Encoding *)

Section Messages.
Context `{Runtime}.

Lemma Hash_encodes m : encodes (Hash_EncodeTo m) (Hash_tokens m).
Proof. unfold Hash_EncodeTo, Hash_tokens. auto with codec. Qed.
Lemma Signature_encodes m : encodes (Signature_EncodeTo m) (Signature_tokens m).
Proof. unfold Signature_EncodeTo, Signature_tokens. auto with codec. Qed.
Lemma AccountName_encodes m : encodes (AccountName_EncodeTo m) (AccountName_tokens m).
Proof. unfold AccountName_EncodeTo, AccountName_tokens. auto 10 with codec. Qed.
Lemma PublicKey_encodes m : encodes (PublicKey_EncodeTo m) (PublicKey_tokens m).
Proof. unfold PublicKey_EncodeTo, PublicKey_tokens. auto with codec. Qed.
#[local] Hint Resolve Hash_encodes Signature_encodes AccountName_encodes PublicKey_encodes : codec.

Lemma Vote_encodes m : encodes (Vote_EncodeTo m) (Vote_tokens m).
Proof. unfold Vote_EncodeTo, Vote_tokens, VoteType_EncodeTo. auto 20 with codec. Qed.
Lemma CommitSig_encodes m : encodes (CommitSig_EncodeTo m) (CommitSig_tokens m).
Proof. unfold CommitSig_EncodeTo, CommitSig_tokens. auto 20 with codec. Qed.
#[local] Hint Resolve Vote_encodes CommitSig_encodes : codec.
Lemma Commit_encodes m : encodes (Commit_EncodeTo m) (Commit_tokens m).
Proof. unfold Commit_EncodeTo, Commit_tokens. auto 20 with codec. Qed.
Lemma BatchCertRef_encodes m : encodes (BatchCertRef_EncodeTo m) (BatchCertRef_tokens m).
Proof. unfold BatchCertRef_EncodeTo, BatchCertRef_tokens. auto 20 with codec. Qed.
#[local] Hint Resolve Commit_encodes BatchCertRef_encodes : codec.
Lemma BlockHeader_encodes m : encodes (BlockHeader_EncodeTo m) (BlockHeader_tokens m).
Proof. unfold BlockHeader_EncodeTo, BlockHeader_tokens. auto 20 with codec. Qed.
Lemma BlockData_encodes m : encodes (BlockData_EncodeTo m) (BlockData_tokens m).
Proof. unfold BlockData_EncodeTo, BlockData_tokens. auto 20 with codec. Qed.
#[local] Hint Resolve BlockHeader_encodes BlockData_encodes : codec.
Lemma Block_encodes m : encodes (Block_EncodeTo m) (Block_tokens m).
Proof. unfold Block_EncodeTo, Block_tokens. auto 20 with codec. Qed.
#[local] Hint Resolve Block_encodes : codec.
Lemma Proposal_encodes m : encodes (Proposal_EncodeTo m) (Proposal_tokens m).
Proof. unfold Proposal_EncodeTo, Proposal_tokens. auto 20 with codec. Qed.
Lemma NamedValidator_encodes m : encodes (NamedValidator_EncodeTo m) (NamedValidator_tokens m).
Proof. unfold NamedValidator_EncodeTo, NamedValidator_tokens. auto 20 with codec. Qed.
#[local] Hint Resolve NamedValidator_encodes : codec.
Lemma ValidatorSetData_encodes m : encodes (ValidatorSetData_EncodeTo m) (ValidatorSetData_tokens m).
Proof. unfold ValidatorSetData_EncodeTo, ValidatorSetData_tokens. auto 20 with codec. Qed.
Lemma DuplicateVoteEvidence_encodes m : encodes (DuplicateVoteEvidence_EncodeTo m) (DuplicateVoteEvidence_tokens m).
Proof. unfold DuplicateVoteEvidence_EncodeTo, DuplicateVoteEvidence_tokens. auto 20 with codec. Qed.
Lemma Evidence_encodes m : encodes (Evidence_EncodeTo m) (Evidence_tokens m).
Proof. unfold Evidence_EncodeTo, Evidence_tokens, EvidenceType_EncodeTo. auto 20 with codec. Qed.
Lemma TimeoutMessage_encodes m : encodes (TimeoutMessage_EncodeTo m) (TimeoutMessage_tokens m).
Proof. unfold TimeoutMessage_EncodeTo, TimeoutMessage_tokens, RoundStepType_EncodeTo. auto 20 with codec. Qed.
Lemma Walmessage_encodes m : encodes (Walmessage_EncodeTo m) (Walmessage_tokens m).
Proof. unfold Walmessage_EncodeTo, Walmessage_tokens, WalmsgType_EncodeTo. auto 20 with codec. Qed.
Lemma ConsensusStateData_encodes m : encodes (ConsensusStateData_EncodeTo m) (ConsensusStateData_tokens m).
Proof. unfold ConsensusStateData_EncodeTo, ConsensusStateData_tokens, RoundStepType_EncodeTo. auto 20 with codec. Qed.
End Messages.
#[export] Hint Resolve Hash_encodes Signature_encodes AccountName_encodes PublicKey_encodes Vote_encodes CommitSig_encodes Commit_encodes
  BatchCertRef_encodes BlockHeader_encodes BlockData_encodes Block_encodes Proposal_encodes NamedValidator_encodes ValidatorSetData_encodes
  DuplicateVoteEvidence_encodes Evidence_encodes TimeoutMessage_encodes Walmessage_encodes ConsensusStateData_encodes : codec.

(** ** Decoding *)

(** Slices that Go can make; and no slice of evidence that is empty, but not nil: it is decoded as nil. *)
Definition Commit_short (c : Commit) : Prop := len (cm_Signatures c) <= maxSliceLen sizeof_CommitSig.
Definition Block_short (b : Block) : Prop :=
  len (bh_BatchCertRefs (b_Header b)) <= maxSliceLen sizeof_BatchCertRef /\ len (bd_BatchDigests (b_Data b)) <= maxSliceLen sizeof_Hash /\
  len (default [] (b_Evidence b)) <= maxSliceLen sizeof_bytes /\ b_Evidence b <> Some [] /\
  forall c, b_LastCommit b = Some c -> Commit_short c.
Definition Proposal_short (p : Proposal) : Prop := Block_short (p_Block p) /\ len (p_PolVotes p) <= maxSliceLen sizeof_Vote.

(** [n] fields are enough for the loop of a message. *)
Section MessageDecoding.
Context `{RuntimeLaws}.
Variable fuel : nat.
Hypothesis Hfuel : (12 <= fuel)%nat.

Lemma decodes_loops {A} field n (m m' : A) l : loops field n m l m' -> (n <= 12)%nat -> decodes (decode_loop field fuel m) l m'.
Proof using Hfuel. intros Hl Hn. apply Hl. lia. Qed.

Lemma Hash_decodes m : decodes (Hash_DecodeFrom fuel zero_Hash) (Hash_tokens m) m.
Proof using Hfuel. destruct m. eapply decodes_loops; [codec_message|lia]. Qed.
Lemma Signature_decodes m : decodes (Signature_DecodeFrom fuel zero_Signature) (Signature_tokens m) m.
Proof using Hfuel. destruct m. eapply decodes_loops; [codec_message|lia]. Qed.
Lemma AccountName_decodes m : decodes (AccountName_DecodeFrom fuel zero_AccountName) (AccountName_tokens m) m.
Proof using Hfuel. destruct m. eapply decodes_loops; [codec_message|lia]. Qed.
Lemma PublicKey_decodes m : decodes (PublicKey_DecodeFrom fuel zero_PublicKey) (PublicKey_tokens m) m.
Proof using Hfuel. destruct m. eapply decodes_loops; [codec_message|lia]. Qed.
#[local] Hint Resolve Hash_decodes Signature_decodes AccountName_decodes PublicKey_decodes : codec.

Lemma read_hash_decodes m : decodes (read_hash fuel) (Hash_tokens m) (Some m).
Proof using Hfuel. apply (decodes_pointer (Hash_DecodeFrom fuel)), Hash_decodes. Qed.
#[local] Hint Resolve read_hash_decodes : codec.

Lemma Vote_decodes m : decodes (Vote_DecodeFrom fuel zero_Vote) (Vote_tokens m) m.
Proof using Hfuel. destruct m. eapply decodes_loops; [codec_message|lia]. Qed.
Lemma CommitSig_decodes m : decodes (CommitSig_DecodeFrom fuel zero_CommitSig) (CommitSig_tokens m) m.
Proof using Hfuel. destruct m. eapply decodes_loops; [codec_message|lia]. Qed.
Lemma BatchCertRef_decodes m : decodes (BatchCertRef_DecodeFrom fuel zero_BatchCertRef) (BatchCertRef_tokens m) m.
Proof using Hfuel. destruct m. eapply decodes_loops; [codec_message|lia]. Qed.
Lemma NamedValidator_decodes m : decodes (NamedValidator_DecodeFrom fuel zero_NamedValidator) (NamedValidator_tokens m) m.
Proof using Hfuel. destruct m. eapply decodes_loops; [codec_message|lia]. Qed.
Lemma Evidence_decodes m : decodes (Evidence_DecodeFrom fuel zero_Evidence) (Evidence_tokens m) m.
Proof using Hfuel. destruct m. eapply decodes_loops; [codec_message|lia]. Qed.
Lemma TimeoutMessage_decodes m : decodes (TimeoutMessage_DecodeFrom fuel zero_TimeoutMessage) (TimeoutMessage_tokens m) m.
Proof using Hfuel. destruct m. eapply decodes_loops; [codec_message|lia]. Qed.
Lemma Walmessage_decodes m : decodes (Walmessage_DecodeFrom fuel zero_Walmessage) (Walmessage_tokens m) m.
Proof using Hfuel. destruct m. eapply decodes_loops; [codec_message|lia]. Qed.
Lemma ConsensusStateData_decodes m : decodes (ConsensusStateData_DecodeFrom fuel zero_ConsensusStateData) (ConsensusStateData_tokens m) m.
Proof using Hfuel. destruct m. eapply decodes_loops; [codec_message|lia]. Qed.
#[local] Hint Resolve Vote_decodes CommitSig_decodes BatchCertRef_decodes NamedValidator_decodes : codec.
Lemma DuplicateVoteEvidence_decodes m : decodes (DuplicateVoteEvidence_DecodeFrom fuel zero_DuplicateVoteEvidence) (DuplicateVoteEvidence_tokens m) m.
Proof using Hfuel. destruct m. eapply decodes_loops; [codec_message|lia]. Qed.
Lemma ValidatorSetData_decodes m : len (vsd_Validators m) <= maxSliceLen sizeof_NamedValidator ->
  decodes (ValidatorSetData_DecodeFrom fuel zero_ValidatorSetData) (ValidatorSetData_tokens m) m.
Proof using Hfuel. intros Hs. destruct m. eapply decodes_loops; [codec_message|lia]. Qed.

Lemma Commit_decodes m : Commit_short m -> decodes (Commit_DecodeFrom fuel zero_Commit) (Commit_tokens m) m.
Proof using Hfuel. intros Hs. destruct m. eapply decodes_loops; [codec_message|lia]. Qed.
Lemma BlockHeader_decodes m : len (bh_BatchCertRefs m) <= maxSliceLen sizeof_BatchCertRef ->
  decodes (BlockHeader_DecodeFrom fuel zero_BlockHeader) (BlockHeader_tokens m) m.
Proof using Hfuel. intros Hs. destruct m. eapply decodes_loops; [codec_message|lia]. Qed.
Lemma BlockData_decodes m : len (bd_BatchDigests m) <= maxSliceLen sizeof_Hash ->
  decodes (BlockData_DecodeFrom fuel zero_BlockData) (BlockData_tokens m) m.
Proof using Hfuel. intros Hs. destruct m. eapply decodes_loops; [codec_message|lia]. Qed.
#[local] Hint Resolve Commit_decodes BlockHeader_decodes BlockData_decodes : codec.

Lemma Block_decodes m : Block_short m -> decodes (Block_DecodeFrom fuel zero_Block) (Block_tokens m) m.
Proof using Hfuel.
  intros (Hh & Hd & He & Hn & Hc). destruct m as [h d e c]. eapply decodes_loops.
  - do 2 (eapply loops_step; [codec_field|]). eapply loops_step.
    { apply (step_nil_slice (Block_field fuel) 3 sizeof_bytes read_bytes (fun b => [TBytes b]) (fun x => mkBlock h d x None) (mkBlock h d None None) e);
        [done|reflexivity|apply decodes_bytes|done..]. }
    eapply loops_step; [codec_field|]. apply loops_end.
  - lia.
Qed.
#[local] Hint Resolve Block_decodes : codec.

Lemma Proposal_decodes m : Proposal_short m -> decodes (Proposal_DecodeFrom fuel zero_Proposal) (Proposal_tokens m) m.
Proof using Hfuel. intros [Hb Hv]. destruct m. eapply decodes_loops; [codec_message|lia]. Qed.
End MessageDecoding.
#[export] Hint Resolve Hash_decodes Signature_decodes AccountName_decodes PublicKey_decodes read_hash_decodes Vote_decodes CommitSig_decodes
  Commit_decodes BatchCertRef_decodes BlockHeader_decodes BlockData_decodes Block_decodes Proposal_decodes NamedValidator_decodes
  ValidatorSetData_decodes DuplicateVoteEvidence_decodes Evidence_decodes TimeoutMessage_decodes Walmessage_decodes
  ConsensusStateData_decodes : codec.


(** ** Ending *)

Section MessagesEnd.
Context `{RuntimeProgress}.
Variable fuel : nat.
Hypothesis Hfuel : (0 < fuel)%nat.

Lemma ends_pointer {A} (dec : A -> RM A) zero : ends fuel (dec zero) -> ends fuel (read_pointer dec zero).
Proof. intros Hd. apply ends_bind; [done|]. intros a. apply ends_ret. Qed.
#[local] Hint Resolve ends_pointer : ends.

Lemma Hash_ends m : ends fuel (Hash_DecodeFrom fuel m).
Proof using Hfuel. ends_message. Qed.
Lemma Signature_ends m : ends fuel (Signature_DecodeFrom fuel m).
Proof using Hfuel. ends_message. Qed.
Lemma AccountName_ends m : ends fuel (AccountName_DecodeFrom fuel m).
Proof using Hfuel. ends_message. Qed.
Lemma read_hash_ends : ends fuel (read_hash fuel).
Proof using Hfuel. apply ends_pointer, Hash_ends. Qed.
Lemma PublicKey_ends m : ends fuel (PublicKey_DecodeFrom fuel m).
Proof using Hfuel. ends_message. Qed.
#[local] Hint Resolve Hash_ends Signature_ends AccountName_ends PublicKey_ends read_hash_ends : ends.
Lemma Vote_ends m : ends fuel (Vote_DecodeFrom fuel m).
Proof using Hfuel. ends_message. Qed.
Lemma CommitSig_ends m : ends fuel (CommitSig_DecodeFrom fuel m).
Proof using Hfuel. ends_message. Qed.
Lemma BatchCertRef_ends m : ends fuel (BatchCertRef_DecodeFrom fuel m).
Proof using Hfuel. ends_message. Qed.
#[local] Hint Resolve Vote_ends CommitSig_ends BatchCertRef_ends : ends.
Lemma Commit_ends m : ends fuel (Commit_DecodeFrom fuel m).
Proof using Hfuel. ends_message. Qed.
Lemma BlockHeader_ends m : ends fuel (BlockHeader_DecodeFrom fuel m).
Proof using Hfuel. ends_message. Qed.
Lemma BlockData_ends m : ends fuel (BlockData_DecodeFrom fuel m).
Proof using Hfuel. ends_message. Qed.
#[local] Hint Resolve Commit_ends BlockHeader_ends BlockData_ends : ends.
Lemma Block_ends m : ends fuel (Block_DecodeFrom fuel m).
Proof using Hfuel. ends_message. Qed.
#[local] Hint Resolve Block_ends : ends.
Lemma Proposal_ends m : ends fuel (Proposal_DecodeFrom fuel m).
Proof using Hfuel. ends_message. Qed.
Lemma NamedValidator_ends m : ends fuel (NamedValidator_DecodeFrom fuel m).
Proof using Hfuel. ends_message. Qed.
#[local] Hint Resolve NamedValidator_ends : ends.
Lemma ValidatorSetData_ends m : ends fuel (ValidatorSetData_DecodeFrom fuel m).
Proof using Hfuel. ends_message. Qed.
Lemma DuplicateVoteEvidence_ends m : ends fuel (DuplicateVoteEvidence_DecodeFrom fuel m).
Proof using Hfuel. ends_message. Qed.
Lemma Evidence_ends m : ends fuel (Evidence_DecodeFrom fuel m).
Proof using Hfuel. ends_message. Qed.
Lemma TimeoutMessage_ends m : ends fuel (TimeoutMessage_DecodeFrom fuel m).
Proof using Hfuel. ends_message. Qed.
Lemma Walmessage_ends m : ends fuel (Walmessage_DecodeFrom fuel m).
Proof using Hfuel. ends_message. Qed.
Lemma ConsensusStateData_ends m : ends fuel (ConsensusStateData_DecodeFrom fuel m).
Proof using Hfuel. ends_message. Qed.
End MessagesEnd.
#[export] Hint Resolve ends_pointer Hash_ends Signature_ends AccountName_ends PublicKey_ends read_hash_ends Vote_ends CommitSig_ends Commit_ends
  BatchCertRef_ends BlockHeader_ends BlockData_ends Block_ends Proposal_ends NamedValidator_ends ValidatorSetData_ends
  DuplicateVoteEvidence_ends Evidence_ends TimeoutMessage_ends Walmessage_ends ConsensusStateData_ends : ends.
