(* ===== verification/SchemaMessages.v ===== *)
(** * Accounts, authorizations and transactions, token by token

    As in [CodecMessages]. The metadata of an account may be written in any order; authorizations
    nest, and so do their encoder and decoder. *)

From S2P Require Export CodecMessages Schema.

(** ** Tokens *)

Section Tokens.
Context `{Runtime}.

Definition Timestamp_tokens (m : Timestamp) := nonzero_tokens 1 WireTypeV2SVarint TInt64 (tsp_Nanos m) ++ [TEnd].
Definition EndHeightMessage_tokens (m : EndHeightMessage) := nonzero_tokens 1 WireTypeV2SVarint TInt64 (ehm_Height m) ++ [TEnd].

Definition LastSignState_tokens (m : gen_LastSignState) :=
  nonzero_tokens 1 WireTypeV2SVarint TInt64 (glss_Height m) ++
  nonzero_tokens 2 WireTypeV2SVarint TInt32 (glss_Round m) ++
  nonzero_tokens 3 WireTypeV2SVarint TInt8 (glss_Step m) ++
  pointer_tokens 4 Hash_tokens (glss_BlockHash m) ++
  field_tokens 5 (Signature_tokens (glss_Signature m)) ++ [TEnd].

Definition KeyWeight_tokens (m : KeyWeight) :=
  field_tokens 1 (PublicKey_tokens (kw_PublicKey m)) ++ nonzero_tokens 2 WireTypeV2Varint TUint32 (kw_Weight m) ++ [TEnd].
Definition AccountWeight_tokens (m : AccountWeight) :=
  field_tokens 1 (AccountName_tokens (aw_Account m)) ++ nonzero_tokens 2 WireTypeV2Varint TUint32 (aw_Weight m) ++ [TEnd].
Definition Authority_tokens (m : Authority) :=
  nonzero_tokens 1 WireTypeV2Varint TUint32 (au_Threshold m) ++
  slice_tokens 2 KeyWeight_tokens (au_Keys m) ++
  slice_tokens 3 AccountWeight_tokens (au_Accounts m) ++ [TEnd].

Definition entry_tokens (e : string * bytes) : list token := [TString e.1] ++ [TBytes e.2].
(** The metadata in an order of its entries. *)
Definition metadata_tokens (order : gmap string bytes -> list (string * bytes)) (m : gmap string bytes) : list token :=
  [TUvarint (Z.of_nat (size m))] ++ (order m ≫= entry_tokens).

Definition Account_tokens (order : gmap string bytes -> list (string * bytes)) (m : Account) :=
  field_tokens 1 (AccountName_tokens (ac_Name m)) ++
  nonzero_tokens 2 WireTypeV2Varint TUint64 (ac_Id m) ++
  field_tokens 3 (Authority_tokens (ac_Authority m)) ++
  nonzero_tokens 4 WireTypeV2SVarint TInt64 (ac_CreatedAt m) ++
  nonzero_tokens 5 WireTypeV2SVarint TInt64 (ac_UpdatedAt m) ++
  pointer_tokens 6 (metadata_tokens order) (ac_Metadata m) ++ [TEnd].

Definition SignatureProof_tokens (m : SignatureProof) :=
  field_tokens 1 (PublicKey_tokens (sp_PublicKey m)) ++ field_tokens 2 (Signature_tokens (sp_Signature m)) ++ [TEnd].

Definition delegation_tokens (authorization : Authorization -> list token) (m : AccountAuthorization) : list token :=
  let 'mkAccountAuthorization a z := m in
  field_tokens 1 (AccountName_tokens a) ++ field_tokens 2 (authorization z) ++ [TEnd].
Fixpoint Authorization_tokens (m : Authorization) {struct m} : list token :=
  let 'mkAuthorization s a := m in
  slice_tokens 1 SignatureProof_tokens s ++
  slice_tokens 2 (fun v => delegation_tokens Authorization_tokens v) a ++ [TEnd].
Definition AccountAuthorization_tokens (m : AccountAuthorization) : list token := delegation_tokens Authorization_tokens m.

Definition Transaction_tokens (m : Transaction) :=
  bytes_tokens 1 (tx_Payload m) ++
  field_tokens 2 (AccountName_tokens (tx_Account m)) ++
  field_tokens 3 (Authorization_tokens (tx_Authorization m)) ++
  nonzero_tokens 4 WireTypeV2Varint TUint64 (tx_Nonce m) ++
  nonzero_tokens 5 WireTypeV2SVarint TInt64 (tx_Expiration m) ++ [TEnd].
End Tokens.

(** Induction on an authorization, down to those of its delegations. *)
Lemma Authorization_nested_ind (P : Authorization -> Prop) :
  (forall s a, Forall (fun x => P (aa_Authorization x)) a -> P (mkAuthorization s a)) -> forall z, P z.
Proof.
  intros Hs. fix IH 1. intros [s a]. apply Hs. induction a as [|[n z] a IHa]; constructor; [apply IH|done].
Qed.

(** ** Encoding *)

Section Encoding.
Context `{Runtime}.

Lemma Timestamp_encodes m : encodes (Timestamp_EncodeTo m) (Timestamp_tokens m).
Proof. unfold Timestamp_EncodeTo, Timestamp_tokens. auto 20 with codec. Qed.
Lemma EndHeightMessage_encodes m : encodes (EndHeightMessage_EncodeTo m) (EndHeightMessage_tokens m).
Proof. unfold EndHeightMessage_EncodeTo, EndHeightMessage_tokens. auto 20 with codec. Qed.
Lemma LastSignState_encodes m : encodes (LastSignState_EncodeTo m) (LastSignState_tokens m).
Proof. unfold LastSignState_EncodeTo, LastSignState_tokens. auto 20 with codec. Qed.
Lemma KeyWeight_encodes m : encodes (KeyWeight_EncodeTo m) (KeyWeight_tokens m).
Proof. unfold KeyWeight_EncodeTo, KeyWeight_tokens. auto 20 with codec. Qed.
Lemma AccountWeight_encodes m : encodes (AccountWeight_EncodeTo m) (AccountWeight_tokens m).
Proof. unfold AccountWeight_EncodeTo, AccountWeight_tokens. auto 20 with codec. Qed.
#[local] Hint Resolve KeyWeight_encodes AccountWeight_encodes : codec.
Lemma Authority_encodes m : encodes (Authority_EncodeTo m) (Authority_tokens m).
Proof. unfold Authority_EncodeTo, Authority_tokens. auto 20 with codec. Qed.
Lemma SignatureProof_encodes m : encodes (SignatureProof_EncodeTo m) (SignatureProof_tokens m).
Proof. unfold SignatureProof_EncodeTo, SignatureProof_tokens. auto 20 with codec. Qed.
#[local] Hint Resolve Authority_encodes SignatureProof_encodes : codec.

Lemma metadata_encodes order m : encodes (write_metadata order m) (metadata_tokens order m).
Proof.
  apply encodes_seq; [by apply (encodes_token (TUvarint _))|]. apply encodes_each. intros e.
  by apply encodes_seq; [apply (encodes_token (TString _))|apply (encodes_token (TBytes _))].
Qed.
#[local] Hint Resolve metadata_encodes : codec.
Lemma Account_encodes order m : encodes (Account_EncodeTo order m) (Account_tokens order m).
Proof. unfold Account_EncodeTo, Account_tokens. auto 20 with codec. Qed.

Lemma Authorization_encodes m : encodes (Authorization_EncodeTo m) (Authorization_tokens m).
Proof.
  induction m as [s a IH] using Authorization_nested_ind. cbn [Authorization_EncodeTo Authorization_tokens].
  apply encodes_seq; [auto with codec|]. apply encodes_seq; [|auto with codec]. apply encodes_slice_forall.
  eapply Forall_impl; [done|]. intros [n z] Hz.
  cbn [aa_Authorization AccountAuthorization_encode delegation_tokens] in *. auto 10 with codec.
Qed.
#[local] Hint Resolve Authorization_encodes : codec.
Lemma AccountAuthorization_encodes m : encodes (AccountAuthorization_EncodeTo m) (AccountAuthorization_tokens m).
Proof. destruct m. cbn [AccountAuthorization_tokens AccountAuthorization_EncodeTo AccountAuthorization_encode delegation_tokens]. auto 10 with codec. Qed.
Lemma Transaction_encodes m : encodes (Transaction_EncodeTo m) (Transaction_tokens m).
Proof. unfold Transaction_EncodeTo, Transaction_tokens. auto 20 with codec. Qed.
End Encoding.
#[export] Hint Resolve Timestamp_encodes EndHeightMessage_encodes LastSignState_encodes KeyWeight_encodes AccountWeight_encodes Authority_encodes
  SignatureProof_encodes Account_encodes Authorization_encodes AccountAuthorization_encodes Transaction_encodes : codec.

(** ** Messages that can be decoded *)

Definition Authority_short (a : Authority) : Prop := len (au_Keys a) <= maxSliceLen sizeof_KeyWeight /\ len (au_Accounts a) <= maxSliceLen sizeof_AccountWeight.
(** The length of a map is an [int]. *)
Definition Account_short (a : Account) : Prop :=
  Authority_short (ac_Authority a) /\ forall md, ac_Metadata a = Some md -> Z.of_nat (size md) <= MaxInt64.

(** How deep the authorizations of the delegations are nested, and the lengths of all slices. *)
Fixpoint Authorization_depth (z : Authorization) : nat :=
  let 'mkAuthorization _ a := z in
  S (foldr (fun x d => (let 'mkAccountAuthorization _ z := x in Authorization_depth z) `max` d)%nat 0%nat a).
Fixpoint Authorization_short (z : Authorization) : Prop :=
  let 'mkAuthorization s a := z in
  len s <= maxSliceLen sizeof_SignatureProof /\ len a <= maxSliceLen sizeof_AccountAuthorization /\
  foldr (fun x P => (let 'mkAccountAuthorization _ z := x in Authorization_short z) /\ P) True a.

Lemma Authorization_depth_le s a d :
  (Authorization_depth (mkAuthorization s a) <= S d)%nat <-> Forall (fun x => (Authorization_depth (aa_Authorization x) <= d)%nat) a.
Proof.
  cbn [Authorization_depth]. rewrite <- Nat.succ_le_mono. induction a as [|[n z] a IH]; cbn [foldr].
  - split; [done|lia].
  - rewrite Forall_cons, <- IH. cbn [aa_Authorization]. lia.
Qed.

Lemma Authorization_short_iff s a :
  Authorization_short (mkAuthorization s a) <->
  len s <= maxSliceLen sizeof_SignatureProof /\ len a <= maxSliceLen sizeof_AccountAuthorization /\ Forall (fun x => Authorization_short (aa_Authorization x)) a.
Proof.
  cbn [Authorization_short]. do 2 f_equiv. induction a as [|[n z] a IH]; cbn [foldr]; [by rewrite Forall_nil|].
  by rewrite Forall_cons, IH.
Qed.

(** Entries with distinct keys make up the same map in every order. *)
Lemma map_of_entries_perm (l : list (string * bytes)) m : l ≡ₚ map_to_list m -> map_of_entries l = m.
Proof.
  intros Hl. assert (E : map_of_entries l = list_to_map (reverse l)).
  { clear Hl. induction l as [|e l IH] using rev_ind; [done|]. unfold map_of_entries in *.
    by rewrite foldl_snoc, reverse_snoc, IH. }
  rewrite E, <- (list_to_map_to_list m). symmetry. apply list_to_map_proper; [apply NoDup_fst_map_to_list|].
  by rewrite reverse_Permutation.
Qed.

(** ** Decoding *)

Ltac decodes_message := eapply decodes_loops; [done|codec_message|lia].

Section Decoding.
Context `{RuntimeLaws}.
Variable fuel : nat.
Hypothesis Hfuel : (12 <= fuel)%nat.

Lemma Timestamp_decodes m : decodes (Timestamp_DecodeFrom fuel zero_Timestamp) (Timestamp_tokens m) m.
Proof using Hfuel. destruct m. decodes_message. Qed.
Lemma EndHeightMessage_decodes m : decodes (EndHeightMessage_DecodeFrom fuel zero_EndHeightMessage) (EndHeightMessage_tokens m) m.
Proof using Hfuel. destruct m. decodes_message. Qed.
Lemma LastSignState_decodes m : decodes (LastSignState_DecodeFrom fuel zero_LastSignState) (LastSignState_tokens m) m.
Proof using Hfuel. destruct m. decodes_message. Qed.
Lemma KeyWeight_decodes m : decodes (KeyWeight_DecodeFrom fuel zero_KeyWeight) (KeyWeight_tokens m) m.
Proof using Hfuel. destruct m. decodes_message. Qed.
Lemma AccountWeight_decodes m : decodes (AccountWeight_DecodeFrom fuel zero_AccountWeight) (AccountWeight_tokens m) m.
Proof using Hfuel. destruct m. decodes_message. Qed.
Lemma SignatureProof_decodes m : decodes (SignatureProof_DecodeFrom fuel zero_SignatureProof) (SignatureProof_tokens m) m.
Proof using Hfuel. destruct m. decodes_message. Qed.
#[local] Hint Resolve KeyWeight_decodes AccountWeight_decodes SignatureProof_decodes : codec.
Lemma Authority_decodes m : Authority_short m -> decodes (Authority_DecodeFrom fuel zero_Authority) (Authority_tokens m) m.
Proof using Hfuel. intros [Hk Ha]. destruct m. decodes_message. Qed.
#[local] Hint Resolve Authority_decodes : codec.

Lemma metadata_decodes order m :
  order m ≡ₚ map_to_list m -> Z.of_nat (size m) <= MaxInt64 -> decodes read_metadata (metadata_tokens order m) m.
Proof using Type.
  clear Hfuel. intros Ho Hs. apply (decodes_bind _ _ [TUvarint _] _ (Z.of_nat (size m))); [by apply decodes_token|]. cbv beta.
  rewrite wrap64_small by (unfold in_i64, MinInt64, MaxInt64 in *; lia). rewrite Nat2Z.id.
  assert (El : length (order m) = size m) by (rewrite <- length_map_to_list; by apply Permutation_length).
  rewrite <- El. cut (decodes (read_each (length (order m)) read_entry) (order m ≫= entry_tokens) (order m)).
  { intros Hd. pose proof (decodes_map _ map_of_entries _ _ Hd) as Hd'. by rewrite (map_of_entries_perm _ _ Ho) in Hd'. }
  apply decodes_each, Forall_true. intros [k v]. apply (decodes_bind _ _ [TString k] [TBytes v] k); [apply decodes_string|].
  apply decodes_map, decodes_bytes.
Qed.

Lemma Account_decodes order m : (forall md, order md ≡ₚ map_to_list md) -> Account_short m ->
  decodes (Account_DecodeFrom fuel zero_Account) (Account_tokens order m) m.
Proof using Hfuel.
  intros Ho [Ha Hm]. destruct m as [n i au c u md]. eapply decodes_loops.
  - done.
  - do 5 (eapply loops_step; [codec_field|]). eapply loops_step; [|apply loops_end].
    eapply step_pointer; [done|reflexivity| |reflexivity]. intros b ->. apply decodes_pointer, metadata_decodes; auto.
  - lia.
Qed.

Lemma AccountAuthorization_decodes_nested authorization m :
  decodes (authorization zero_Authorization) (Authorization_tokens (aa_Authorization m)) (aa_Authorization m) ->
  decodes (decode_loop (AccountAuthorization_field fuel authorization) fuel zero_AccountAuthorization) (AccountAuthorization_tokens m) m.
Proof using Hfuel. intros Hz. destruct m. decodes_message. Qed.

Lemma Authorization_decodes depth m : (Authorization_depth m <= depth)%nat -> Authorization_short m ->
  decodes (Authorization_DecodeFrom fuel depth zero_Authorization) (Authorization_tokens m) m.
Proof using Hfuel.
  revert depth. induction m as [s a IH] using Authorization_nested_ind. intros [|depth] Hd; [cbn in Hd; lia|].
  rewrite Authorization_short_iff. intros (Hs & Ha & Hz). apply Authorization_depth_le in Hd.
  cbn [Authorization_DecodeFrom]. apply (decodes_loops _ Hfuel _ 3); [|lia].
  eapply loops_step; [codec_field|]. eapply loops_step; [|apply loops_end].
  eapply step_slice; [done|reflexivity| |done|reflexivity].
  rewrite Forall_forall in *. intros x Hx. apply AccountAuthorization_decodes_nested, IH; auto.
Qed.

Lemma AccountAuthorization_decodes m : (Authorization_depth (aa_Authorization m) <= fuel)%nat -> Authorization_short (aa_Authorization m) ->
  decodes (AccountAuthorization_DecodeFrom fuel fuel zero_AccountAuthorization) (AccountAuthorization_tokens m) m.
Proof using Hfuel. intros Hd Hs. by apply AccountAuthorization_decodes_nested, Authorization_decodes. Qed.
#[local] Hint Resolve Authorization_decodes : codec.

Lemma Transaction_decodes m : (Authorization_depth (tx_Authorization m) <= fuel)%nat -> Authorization_short (tx_Authorization m) ->
  decodes (Transaction_DecodeFrom fuel zero_Transaction) (Transaction_tokens m) m.
Proof using Hfuel. intros Hd Hs. destruct m. decodes_message. Qed.
End Decoding.
#[export] Hint Resolve Timestamp_decodes EndHeightMessage_decodes LastSignState_decodes KeyWeight_decodes AccountWeight_decodes Authority_decodes
  SignatureProof_decodes Account_decodes Authorization_decodes AccountAuthorization_decodes Transaction_decodes : codec.

(** ** Ending *)

Section Ending.
Context `{RuntimeProgress}.
Variable fuel : nat.
Hypothesis Hfuel : (0 < fuel)%nat.

Lemma Timestamp_ends m : ends fuel (Timestamp_DecodeFrom fuel m).
Proof using Hfuel. ends_message. Qed.
Lemma EndHeightMessage_ends m : ends fuel (EndHeightMessage_DecodeFrom fuel m).
Proof using Hfuel. ends_message. Qed.
Lemma LastSignState_ends m : ends fuel (LastSignState_DecodeFrom fuel m).
Proof using Hfuel. ends_message. Qed.
Lemma KeyWeight_ends m : ends fuel (KeyWeight_DecodeFrom fuel m).
Proof using Hfuel. ends_message. Qed.
Lemma AccountWeight_ends m : ends fuel (AccountWeight_DecodeFrom fuel m).
Proof using Hfuel. ends_message. Qed.
Lemma SignatureProof_ends m : ends fuel (SignatureProof_DecodeFrom fuel m).
Proof using Hfuel. ends_message. Qed.
#[local] Hint Resolve KeyWeight_ends AccountWeight_ends SignatureProof_ends : ends.
Lemma Authority_ends m : ends fuel (Authority_DecodeFrom fuel m).
Proof using Hfuel. ends_message. Qed.
#[local] Hint Resolve Authority_ends : ends.

Lemma metadata_ends : ends fuel read_metadata.
Proof using Type.
  apply ends_bind; [apply ends_lift, uvarint_advances|]. intros n. apply ends_bind; [|intros; apply ends_ret].
  apply ends_each. repeat (apply ends_bind; [auto with ends|intros ?]). apply ends_ret.
Qed.
#[local] Hint Extern 1 (ends _ (read_pointer (fun _ => read_metadata) _)) => apply ends_pointer, metadata_ends : ends.
Lemma Account_ends m : ends fuel (Account_DecodeFrom fuel m).
Proof using Hfuel. ends_message. Qed.

(** Each level of nesting has tags of its own, so that the depth needs no more than the input. *)
Lemma Authorization_ends_nested depth m : failed_tag_zero -> (0 < depth <= fuel)%nat -> ends depth (Authorization_DecodeFrom fuel depth m).
Proof using Hfuel.
  intros Hz. revert m. induction depth as [|depth IH]; intros m Hd; [lia|]. cbn [Authorization_DecodeFrom].
  apply ends_loop_nested; [done|lia|lia|]. intros Hk n [s a] d E. replace (S depth - 1)%nat with depth in * by lia.
  unfold Authorization_field in E. repeat case_match; simplify_eq; (apply ends_bind; [|intros; apply ends_ret]); apply ends_slice.
  - apply ends_loop_nested; [done|lia|lia|]. intros Hk' n' [n0 z] d' E'.
    unfold AccountAuthorization_field in E'. repeat case_match; simplify_eq; (apply ends_bind; [|intros; apply ends_ret]).
    + eapply ends_mono; [|apply IH; lia]. lia.
    + eapply ends_mono; [|by apply AccountName_ends]. lia.
  - eapply ends_mono; [|by apply SignatureProof_ends]. lia.
Qed.

Lemma Authorization_ends m : failed_tag_zero -> ends fuel (Authorization_DecodeFrom fuel fuel m).
Proof using Hfuel. intros Hz. apply Authorization_ends_nested; [done|lia]. Qed.
#[local] Hint Resolve Authorization_ends : ends.

Lemma AccountAuthorization_ends m : failed_tag_zero -> ends fuel (AccountAuthorization_DecodeFrom fuel fuel m).
Proof using Hfuel. intros Hz. unfold AccountAuthorization_DecodeFrom. ends_message. Qed.
Lemma Transaction_ends m : failed_tag_zero -> ends fuel (Transaction_DecodeFrom fuel m).
Proof using Hfuel. intros Hz. ends_message. Qed.
End Ending.
#[export] Hint Resolve Timestamp_ends EndHeightMessage_ends LastSignState_ends KeyWeight_ends AccountWeight_ends Authority_ends
  SignatureProof_ends Account_ends Authorization_ends AccountAuthorization_ends Transaction_ends : ends.
