(* ===== verification/CodecRuntime.v ===== *)
(** * A runtime that satisfies the laws

    Tags of two bytes, integers of eight, little endian; a reader that has failed is [None]. *)

From S2P Require Export CodecLaws.

Fixpoint le_bytes (n : nat) (z : Z) : bytes :=
  match n with O => [] | S n => byte_of_Z z :: le_bytes n (z / 256) end.
Fixpoint le_value (b : bytes) : Z :=
  match b with [] => 0 | x :: b => byte_val x + 256 * le_value b end.

Lemma le_value_bytes n z : le_value (le_bytes n z) = z `mod` 256 ^ Z.of_nat n.
Proof.
  revert z. induction n as [|n IH]; intros z; [by rewrite Z.mod_1_r|]. cbn [le_bytes le_value].
  rewrite IH, byte_val_of_Z, Nat2Z.inj_succ, Z.pow_succ_r by lia. rewrite (Z.rem_mul_r z 256) by lia. lia.
Qed.

Lemma length_le_bytes n z : length (le_bytes n z) = n.
Proof. revert z. induction n as [|n IH]; intros z; cbn; [done|]. by rewrite IH. Qed.

Definition toy_take (n : nat) (r : option bytes) : option bytes * bytes :=
  match r with
  | Some b => if (n <=? length b)%nat then (Some (drop n b), take n b) else (None, [])
  | None => (None, [])
  end.
Definition toy_uint (r : option bytes) : option bytes * Z := let '(r, b) := toy_take 8 r in (r, le_value b).
Definition toy_int (r : option bytes) : option bytes * Z := let '(r, z) := toy_uint r in (r, wrap64 z).
Definition toy_bytes (r : option bytes) : option bytes * bytes := let '(r, n) := toy_uint r in toy_take (Z.to_nat n) r.
Definition toy_tag (r : option bytes) : option bytes * (Z * Z) :=
  match r with Some (n :: wt :: b) => (Some b, (byte_val n, byte_val wt)) | _ => (None, (0, 0)) end.
Definition toy_append (b w : bytes) : bytes := w ++ b.
Definition toy_block (b : bytes) : bytes := le_bytes 8 (len b) ++ b.

#[local] Instance toy_runtime : Runtime := {|
  Writer := bytes;
  Reader := option bytes;
  WireTypeV2Varint := 0;
  WireTypeV2SVarint := 1;
  WireTypeV2Bytes := 2;
  GetWriter := [];
  w_Err := fun _ => None;
  BytesCopy := fun w => w;
  WriteCompactTag := fun n wt => toy_append [byte_of_Z n; byte_of_Z wt];
  WriteEndMarker := toy_append [Byte.x00; Byte.x00];
  WriteInt8 := fun z => toy_append (le_bytes 8 z);
  WriteInt32 := fun z => toy_append (le_bytes 8 z);
  WriteInt64 := fun z => toy_append (le_bytes 8 z);
  WriteUint16 := fun z => toy_append (le_bytes 8 z);
  WriteUint32 := fun z => toy_append (le_bytes 8 z);
  WriteUint64 := fun z => toy_append (le_bytes 8 z);
  WriteUvarint := fun z => toy_append (le_bytes 8 z);
  WriteBytes := fun b => toy_append (toy_block b);
  WriteString := fun s => toy_append (toy_block (bytes_of_string s));
  NewReaderWithOptions := Some;
  r_Err := fun r => match r with Some _ => None | None => Some (errorf "unexpected end of data") end;
  ReadCompactTag := toy_tag;
  SkipValueV2 := fun _ r => (toy_bytes r).1;
  ReadInt8 := toy_int;
  ReadInt32 := toy_int;
  ReadInt64 := toy_int;
  ReadUint16 := toy_uint;
  ReadUint32 := toy_uint;
  ReadUint64 := toy_uint;
  ReadUvarint := toy_uint;
  ReadBytes := toy_bytes;
  ReadString := fun r => let '(r, b) := toy_bytes r in (r, string_of_bytes b) |}.

Definition toy_enc (t : token) : bytes :=
  match t with
  | TTag n wt => [byte_of_Z n; byte_of_Z wt]
  | TEnd => [Byte.x00; Byte.x00]
  | TInt8 z | TInt32 z | TInt64 z | TUint16 z | TUint32 z | TUint64 z | TUvarint z => le_bytes 8 z
  | TBytes b => toy_block b
  | TString s => toy_block (bytes_of_string s)
  end.

Definition toy_fits (t : token) : Prop :=
  match t with
  | TTag n wt => 0 <= n < 256 /\ 0 <= wt < 256
  | TEnd => True
  | TInt8 z | TInt32 z | TInt64 z => in_i64 z
  | TUint16 z | TUint32 z | TUint64 z | TUvarint z => 0 <= z < 2 ^ 64
  | TBytes b => len b < 2 ^ 64
  | TString s => len (bytes_of_string s) < 2 ^ 64
  end.

Lemma toy_take_app n b rest : length b = n -> toy_take n (Some (b ++ rest)) = (Some rest, b).
Proof.
  intros <-. unfold toy_take. rewrite (proj2 (Nat.leb_le _ _)) by (rewrite length_app; lia).
  by rewrite drop_app_length, take_app_length.
Qed.

Lemma toy_uint_app z rest : toy_uint (Some (le_bytes 8 z ++ rest)) = (Some rest, z `mod` 2 ^ 64).
Proof. unfold toy_uint. rewrite toy_take_app by apply length_le_bytes. by rewrite le_value_bytes. Qed.

Lemma toy_int_app z rest : in_i64 z -> toy_int (Some (le_bytes 8 z ++ rest)) = (Some rest, z).
Proof.
  intros Hz. unfold toy_int. rewrite toy_uint_app. f_equal. unfold wrap64, in_i64, MinInt64, MaxInt64 in *.
  rewrite Z.add_mod_idemp_l by lia. rewrite Z.mod_small; lia.
Qed.

Lemma toy_bytes_app b rest : len b < 2 ^ 64 -> toy_bytes (Some (toy_block b ++ rest)) = (Some rest, b).
Proof.
  intros Hb. unfold toy_bytes, toy_block. rewrite <- (assoc_L (++)), toy_uint_app.
  rewrite Z.mod_small by (unfold len in *; lia). apply toy_take_app. unfold len. lia.
Qed.

Lemma toy_uint_fits z rest : 0 <= z < 2 ^ 64 -> toy_uint (Some (le_bytes 8 z ++ rest)) = (Some rest, z).
Proof. intros Hz. by rewrite toy_uint_app, Z.mod_small. Qed.

Lemma toy_string_app s rest :
  len (bytes_of_string s) < 2 ^ 64 -> ReadString (Some (toy_block (bytes_of_string s) ++ rest)) = (Some rest, s).
Proof.
  intros Hs. cbn [ReadString toy_runtime]. rewrite toy_bytes_app by done. unfold string_of_bytes, bytes_of_string.
  by rewrite String.string_of_list_byte_of_string.
Qed.

#[local] Instance toy_laws : RuntimeLaws.
Proof.
  refine {| enc := toy_enc; fits := toy_fits; fits_msg := fun _ => True; reading := fun r b => r = Some b |}.
  - done.
  - by intros [] w.
  - done.
  - by intros r b ->.
  - intros t r rest Ht ->. exists (Some rest). split; [|done].
    destruct t as [n wt| |z|z|z|z|z|z|z|b|str]; cbn [toy_fits] in Ht.
    + destruct Ht. cbn. by rewrite !byte_val_of_Z, !Z.mod_small by lia.
    + by exists 0.
    + by apply toy_int_app.
    + by apply toy_int_app.
    + by apply toy_int_app.
    + by apply toy_uint_fits.
    + by apply toy_uint_fits.
    + by apply toy_uint_fits.
    + by apply toy_uint_fits.
    + by apply toy_bytes_app.
    + by apply toy_string_app.
Defined.

Lemma toy_take_shrinks n r b : (toy_take n r).1 = Some b -> exists b0, r = Some b0 /\ (length b <= length b0)%nat.
Proof.
  unfold toy_take. destruct r as [b0|]; [|done]. case_match; [|done]. intros [= <-]. exists b0. split; [done|].
  rewrite length_drop. lia.
Qed.

Lemma toy_tag_shrinks r b : (toy_tag r).1 = Some b -> exists b0, r = Some b0 /\ (length b < length b0)%nat.
Proof. destruct r as [[|x [|y b0]]|]; [done..| |done]. intros [= <-]. eexists. split; [done|]. cbn. lia. Qed.

Lemma toy_bytes_shrinks r b : (toy_bytes r).1 = Some b -> exists b0, r = Some b0 /\ (length b <= length b0)%nat.
Proof.
  unfold toy_bytes, toy_uint. destruct (toy_take 8 r) as [r1 x] eqn:E. intros (b1 & -> & Hb)%toy_take_shrinks.
  destruct (toy_take_shrinks 8 r b1) as (b0 & -> & Hb0); [by rewrite E|]. exists b0. split; [done|lia].
Qed.

(** A function of the reader that shortens what is left. *)
Lemma toy_advances (r r' : option bytes) :
  (forall b, r' = Some b -> exists b0, r = Some b0 /\ (length b <= length b0)%nat) ->
  (match r' with Some _ => None | None => Some (errorf "unexpected end of data") end = None ->
   match r with Some _ => None | None => Some (errorf "unexpected end of data") end = None /\
   (length (default [] r') <= length (default [] r))%nat).
Proof. intros Hr. destruct r' as [b|]; [|done]. intros _. by destruct (Hr b) as (b0 & -> & Hb). Qed.

#[local] Instance toy_progress : RuntimeProgress.
Proof.
  assert (Hu : forall r b, (toy_uint r).1 = Some b -> exists b0, r = Some b0 /\ (length b <= length b0)%nat).
  { intros r b Hb. unfold toy_uint in Hb. destruct (toy_take 8 r) as [r1 x] eqn:E. cbn in Hb. subst r1.
    apply (toy_take_shrinks 8). by rewrite E. }
  assert (Hi : forall r b, (toy_int r).1 = Some b -> exists b0, r = Some b0 /\ (length b <= length b0)%nat).
  { intros r b Hb. apply Hu. unfold toy_int in Hb. by destruct (toy_uint r). }
  refine {| unread := fun r => length (default [] r) |}; try (intros r; apply toy_advances, Hi); try (intros r; apply toy_advances, Hu).
  - done.
  - intros r. apply toy_advances. intros b (b0 & -> & Hb)%toy_tag_shrinks. exists b0. split; [done|lia].
  - intros r _ E. destruct (ReadCompactTag r).1 as [b|] eqn:Et; [|done]. by apply toy_tag_shrinks in Et as (b0 & -> & Hb).
  - intros wt r. apply toy_advances, toy_bytes_shrinks.
  - intros r. apply toy_advances, toy_bytes_shrinks.
  - intros r. apply toy_advances. intros b Hb. apply toy_bytes_shrinks. cbn in Hb. by destruct (toy_bytes r).
Defined.

Lemma toy_failed_tag_zero : failed_tag_zero.
Proof. by intros [[|x [|y b]]|] Hr. Qed.
