(* ===== verification/CodecTheorems.v ===== *)
(** * What the generated encoders promise

    Over a runtime that reads back what it writes, the decoders restore each message, and what is
    signed determines the message. If reading consumes the input, decoding ends on every input; but a
    count in the input can make it panic. *)

From S2P Require Export SchemaMessages CodecRuntime Engine.

(** The first tokens of a vote and of a proposal. *)
Lemma Vote_first `{Runtime} v : exists l, Vote_tokens v = TTag 1 WireTypeV2Bytes :: l.
Proof. by eexists. Qed.

Lemma Proposal_first `{Runtime} p : p_Height p <> 0 -> exists l, Proposal_tokens p = TTag 1 WireTypeV2SVarint :: l.
Proof. intros Hh. eexists. unfold Proposal_tokens, nonzero_tokens at 1. by rewrite (proj2 (Z.eqb_neq _ 0) Hh). Qed.

(** A message whose tokens are within the limits of the runtime survives a round trip. *)
Definition restored `{RuntimeLaws} {A} (marshal : A -> res bytes) (unmarshal : bytes -> res A) (tokens : A -> list token) (m : A) : Prop :=
  sendable (tokens m) -> exists b, marshal m = Ret b /\ unmarshal b = Ret m.

(** ** Properties *)

(** C17: the methods of every generated message round-trip, over a runtime that reads back what it
    writes: every field survives, also the metadata of an account, in whatever order the map yields it, and
    authorizations nested as deep as the fuel. Slices must be of a length that Go can make; only
    an empty slice of evidence becomes nil. *)
Theorem generated_roundtrip `{RuntimeLaws} (fuel : nat) (order : gmap string bytes -> list (string * bytes)) (Hfuel : (12 <= fuel)%nat)
    (Horder : forall md, order md ≡ₚ map_to_list md) :
  let nested_short z := (Authorization_depth z <= fuel)%nat /\ Authorization_short z in
  (forall m, restored Hash_MarshalCramberry (Hash_UnmarshalCramberry fuel zero_Hash) Hash_tokens m) /\
  (forall m, restored Signature_MarshalCramberry (Signature_UnmarshalCramberry fuel zero_Signature) Signature_tokens m) /\
  (forall m, restored PublicKey_MarshalCramberry (PublicKey_UnmarshalCramberry fuel zero_PublicKey) PublicKey_tokens m) /\
  (forall m, restored AccountName_MarshalCramberry (AccountName_UnmarshalCramberry fuel zero_AccountName) AccountName_tokens m) /\
  (forall m, restored Vote_MarshalCramberry (Vote_UnmarshalCramberry fuel zero_Vote) Vote_tokens m) /\
  (forall m, restored CommitSig_MarshalCramberry (CommitSig_UnmarshalCramberry fuel zero_CommitSig) CommitSig_tokens m) /\
  (forall m, Commit_short m -> restored Commit_MarshalCramberry (Commit_UnmarshalCramberry fuel zero_Commit) Commit_tokens m) /\
  (forall m, restored BatchCertRef_MarshalCramberry (BatchCertRef_UnmarshalCramberry fuel zero_BatchCertRef) BatchCertRef_tokens m) /\
  (forall m, len (bh_BatchCertRefs m) <= maxSliceLen sizeof_BatchCertRef -> restored BlockHeader_MarshalCramberry (BlockHeader_UnmarshalCramberry fuel zero_BlockHeader) BlockHeader_tokens m) /\
  (forall m, len (bd_BatchDigests m) <= maxSliceLen sizeof_Hash -> restored BlockData_MarshalCramberry (BlockData_UnmarshalCramberry fuel zero_BlockData) BlockData_tokens m) /\
  (forall m, Block_short m -> restored Block_MarshalCramberry (Block_UnmarshalCramberry fuel zero_Block) Block_tokens m) /\
  (forall m, Proposal_short m -> restored Proposal_MarshalCramberry (Proposal_UnmarshalCramberry fuel zero_Proposal) Proposal_tokens m) /\
  (forall m, restored NamedValidator_MarshalCramberry (NamedValidator_UnmarshalCramberry fuel zero_NamedValidator) NamedValidator_tokens m) /\
  (forall m, len (vsd_Validators m) <= maxSliceLen sizeof_NamedValidator -> restored ValidatorSetData_MarshalCramberry (ValidatorSetData_UnmarshalCramberry fuel zero_ValidatorSetData) ValidatorSetData_tokens m) /\
  (forall m, restored DuplicateVoteEvidence_MarshalCramberry (DuplicateVoteEvidence_UnmarshalCramberry fuel zero_DuplicateVoteEvidence) DuplicateVoteEvidence_tokens m) /\
  (forall m, restored Evidence_MarshalCramberry (Evidence_UnmarshalCramberry fuel zero_Evidence) Evidence_tokens m) /\
  (forall m, restored Walmessage_MarshalCramberry (Walmessage_UnmarshalCramberry fuel zero_Walmessage) Walmessage_tokens m) /\
  (forall m, restored TimeoutMessage_MarshalCramberry (TimeoutMessage_UnmarshalCramberry fuel zero_TimeoutMessage) TimeoutMessage_tokens m) /\
  (forall m, restored ConsensusStateData_MarshalCramberry (ConsensusStateData_UnmarshalCramberry fuel zero_ConsensusStateData) ConsensusStateData_tokens m) /\
  (forall m, restored Timestamp_MarshalCramberry (Timestamp_UnmarshalCramberry fuel zero_Timestamp) Timestamp_tokens m) /\
  (forall m, restored EndHeightMessage_MarshalCramberry (EndHeightMessage_UnmarshalCramberry fuel zero_EndHeightMessage) EndHeightMessage_tokens m) /\
  (forall m, restored LastSignState_MarshalCramberry (LastSignState_UnmarshalCramberry fuel zero_LastSignState) LastSignState_tokens m) /\
  (forall m, restored KeyWeight_MarshalCramberry (KeyWeight_UnmarshalCramberry fuel zero_KeyWeight) KeyWeight_tokens m) /\
  (forall m, restored AccountWeight_MarshalCramberry (AccountWeight_UnmarshalCramberry fuel zero_AccountWeight) AccountWeight_tokens m) /\
  (forall m, Authority_short m -> restored Authority_MarshalCramberry (Authority_UnmarshalCramberry fuel zero_Authority) Authority_tokens m) /\
  (forall m, Account_short m -> restored (Account_MarshalCramberry order) (Account_UnmarshalCramberry fuel zero_Account) (Account_tokens order) m) /\
  (forall m, restored SignatureProof_MarshalCramberry (SignatureProof_UnmarshalCramberry fuel zero_SignatureProof) SignatureProof_tokens m) /\
  (forall m, nested_short (aa_Authorization m) -> restored AccountAuthorization_MarshalCramberry (AccountAuthorization_UnmarshalCramberry fuel zero_AccountAuthorization) AccountAuthorization_tokens m) /\
  (forall m, nested_short m -> restored Authorization_MarshalCramberry (Authorization_UnmarshalCramberry fuel zero_Authorization) Authorization_tokens m) /\
  (forall m, nested_short (tx_Authorization m) -> restored Transaction_MarshalCramberry (Transaction_UnmarshalCramberry fuel zero_Transaction) Transaction_tokens m) /\
  (forall m, restored Message_MarshalCramberry (Message_UnmarshalCramberry fuel)
     (fun m => Walmessage_tokens (mkWalmessage (msg_Type m) (msg_Height m) (msg_Round m) (msg_Data m))) m).
Proof.
  intros nested_short.
  assert (Hw : forall m, restored Walmessage_MarshalCramberry (Walmessage_UnmarshalCramberry fuel zero_Walmessage) Walmessage_tokens m).
  { intros m Hm. eapply Marshal_Unmarshal; [eauto with codec..|exact Hm]. }
  split_and!; [..|intros [] Hm; destruct (Hw _ Hm) as (b & Eb & Eu); exists b; split; [done|];
    unfold Message_UnmarshalCramberry; by rewrite Eu]; intros m; intros; intros Hm; repeat match goal with Hn : nested_short _ |- _ => destruct Hn end;
    (eapply Marshal_Unmarshal; [eauto with codec..|exact Hm]).
Qed.

(** C16: what is signed determines what is voted for and proposed: on one chain, the bytes of a vote
    fix all of it but the signature, so do those of a proposal, and the bytes of a vote are
    never those of a proposal of a height other than zero. *)
Theorem sign_bytes_bind `{RuntimeLaws} (fuel : nat) (chainID : string) (b : bytes) (Hfuel : (12 <= fuel)%nat)
    (Hwt : WireTypeV2Bytes <> WireTypeV2SVarint) :
  let C := generated_Cramberry fuel in
  let vote_signs v := sendable (Vote_tokens (canonical_vote v)) /\ VoteSignBytes chainID (Some v) = Ret b in
  let proposal_signs p := Proposal_short p /\ sendable (Proposal_tokens (canonical_proposal p)) /\ ProposalSignBytes chainID (Some p) = Ret b in
  (forall v v', vote_signs v -> vote_signs v' -> canonical_vote v = canonical_vote v') /\
  (forall p p', proposal_signs p -> proposal_signs p' -> canonical_proposal p = canonical_proposal p') /\
  (forall v p, vote_signs v -> proposal_signs p -> p_Height p = 0).
Proof.
  intros C vote_signs proposal_signs.
  assert (Hv : forall v, vote_signs v -> b = bytes_of_string chainID ++ encs (Vote_tokens (canonical_vote v))).
  { intros v [Hs E]. unfold VoteSignBytes in E. cbn in E. unfold Vote_MarshalCramberry in E.
    rewrite (Marshal_encs _ _ _ (Vote_encodes _) (proj1 Hs)) in E. by injection E. }
  assert (Hp : forall p, proposal_signs p -> b = bytes_of_string chainID ++ encs (Proposal_tokens (canonical_proposal p))).
  { intros p (_ & Hs & E). unfold ProposalSignBytes in E. cbn in E. unfold Proposal_MarshalCramberry in E.
    rewrite (Marshal_encs _ _ _ (Proposal_encodes _) (proj1 Hs)) in E. by injection E. }
  split_and!.
  - intros v v' H1 H2. pose proof (Hv v H1) as E. rewrite (Hv v' H2) in E. apply app_inj_1 in E as [_ E]; [|done].
    symmetry. by eapply (encs_inj (Vote_DecodeFrom fuel) zero_Vote); [apply Vote_decodes|apply Vote_decodes|apply H2|apply H1|].
  - intros p p' H1 H2. pose proof (Hp p H1) as E. rewrite (Hp p' H2) in E. apply app_inj_1 in E as [_ E]; [|done]. symmetry.
    by eapply (encs_inj (Proposal_DecodeFrom fuel) zero_Proposal);
      [apply Proposal_decodes; [done|apply H2]|apply Proposal_decodes; [done|apply H1]|apply H2|apply H1|].
  - intros v p H1 H2. pose proof (Hv v H1) as E. rewrite (Hp p H2) in E. apply app_inj_1 in E as [_ E]; [|done].
    destruct (Z.eq_dec (p_Height p) 0) as [|Hz]; [done|exfalso]. destruct H1 as [H1 _], H2 as (_ & H2 & _).
    destruct (Proposal_first (canonical_proposal p) Hz) as [l2 E2], (Vote_first (canonical_vote v)) as [l1 E1].
    rewrite E1 in H1, E. rewrite E2 in H2, E. apply first_tag in H1, H2. rewrite E in H2. congruence.
Qed.

(** C35: decoding ends on every input, with fuel for its length: the loops over the fields make
    progress on whatever a peer sends, or a damaged log holds. *)
Theorem decoding_ends `{RuntimeProgress} (fuel : nat) (data : bytes) (Hl : (length data < fuel)%nat) :
  let ends_for A (unmarshal : A -> bytes -> res A) := forall m, unmarshal m data <> Panic "out of fuel" in
  ends_for Hash (Hash_UnmarshalCramberry fuel) /\
  ends_for Signature (Signature_UnmarshalCramberry fuel) /\
  ends_for PublicKey (PublicKey_UnmarshalCramberry fuel) /\
  ends_for AccountName (AccountName_UnmarshalCramberry fuel) /\
  ends_for Vote (Vote_UnmarshalCramberry fuel) /\
  ends_for CommitSig (CommitSig_UnmarshalCramberry fuel) /\
  ends_for Commit (Commit_UnmarshalCramberry fuel) /\
  ends_for BatchCertRef (BatchCertRef_UnmarshalCramberry fuel) /\
  ends_for BlockHeader (BlockHeader_UnmarshalCramberry fuel) /\
  ends_for BlockData (BlockData_UnmarshalCramberry fuel) /\
  ends_for Block (Block_UnmarshalCramberry fuel) /\
  ends_for Proposal (Proposal_UnmarshalCramberry fuel) /\
  ends_for NamedValidator (NamedValidator_UnmarshalCramberry fuel) /\
  ends_for ValidatorSetData (ValidatorSetData_UnmarshalCramberry fuel) /\
  ends_for DuplicateVoteEvidence (DuplicateVoteEvidence_UnmarshalCramberry fuel) /\
  ends_for Evidence (Evidence_UnmarshalCramberry fuel) /\
  ends_for Walmessage (Walmessage_UnmarshalCramberry fuel) /\
  ends_for TimeoutMessage (TimeoutMessage_UnmarshalCramberry fuel) /\
  ends_for ConsensusStateData (ConsensusStateData_UnmarshalCramberry fuel) /\
  ends_for Timestamp (Timestamp_UnmarshalCramberry fuel) /\
  ends_for EndHeightMessage (EndHeightMessage_UnmarshalCramberry fuel) /\
  ends_for gen_LastSignState (LastSignState_UnmarshalCramberry fuel) /\
  ends_for KeyWeight (KeyWeight_UnmarshalCramberry fuel) /\
  ends_for AccountWeight (AccountWeight_UnmarshalCramberry fuel) /\
  ends_for Authority (Authority_UnmarshalCramberry fuel) /\
  ends_for Account (Account_UnmarshalCramberry fuel) /\
  ends_for SignatureProof (SignatureProof_UnmarshalCramberry fuel) /\
  (failed_tag_zero -> ends_for AccountAuthorization (AccountAuthorization_UnmarshalCramberry fuel)) /\
  (failed_tag_zero -> ends_for Authorization (Authorization_UnmarshalCramberry fuel)) /\
  (failed_tag_zero -> ends_for Transaction (Transaction_UnmarshalCramberry fuel)).
Proof.
  assert (0 < fuel)%nat by lia. intros ends_for. split_and!; intros; intros m; apply (Unmarshal_ends fuel); eauto with ends.
Qed.

(** C36: a peer can make a node panic: a proposal whose count of votes is negative as an [int] is
    not an error, but a panic in [HandleConsensusMessage], also if the engine has not been started. *)
Theorem oversized_count_panics `{RuntimeLaws} {PV X W : Type} (fuel : nat) (peerID : string) (n : Z) (e : Engine PV X W)
    (Hfuel : (0 < fuel)%nat) (Hn : 2 ^ 63 <= n < 2 ^ 64) (Hs : sendable [TTag 6 WireTypeV2Bytes; TUvarint n])
    (Hne : encs [TTag 6 WireTypeV2Bytes; TUvarint n] <> []) :
  HandleConsensusMessage (H0 := generated_Cramberry fuel) peerID (Byte.x01 :: encs [TTag 6 WireTypeV2Bytes; TUvarint n]) e =
    (e, Panic "runtime error: makeslice: len out of range").
Proof.
  destruct Hs as [[Ht [Hu _]%Forall_cons]%Forall_cons Hm]. pose proof (law_new _ Hm) as Hr.
  unfold HandleConsensusMessage, decode_payload. cbn [byte_val]. rewrite bool_decide_eq_false_2 by done.
  rewrite <- (app_nil_r (encs _)) in Hr at 2. rewrite !encs_cons in Hr.
  destruct (law_read _ _ _ Ht Hr) as (r1 & E1 & Hr1), (law_read _ _ _ Hu Hr1) as (r2 & E2 & _).
  assert (E : unmarshal_Proposal (Cramberry := generated_Cramberry fuel) (encs [TTag 6 WireTypeV2Bytes; TUvarint n]) =
    Panic "runtime error: makeslice: len out of range"); [|by rewrite E].
  cbn [unmarshal_Proposal generated_Cramberry]. unfold Proposal_UnmarshalCramberry, Unmarshal, Proposal_DecodeFrom. destruct fuel as [|k]; [lia|].
  cbn [decode_loop]. unfold reads_token in E1. rewrite E1. cbn [Z.eqb Proposal_field zero_Proposal]. unfold rm_bind at 1.
  by rewrite (read_slice_panics _ _ _ _ _ Hn E2).
Qed.


(** ** Examples *)

#[local] Existing Instance toy_runtime.
#[local] Existing Instance toy_laws.
#[local] Existing Instance toy_progress.

Ltac toy_sendable := split; [cbn; repeat constructor; vm_compute; intuition congruence|done].

(** Entries in the order of the map, from the last to the first. *)
Definition reverse_order (md : gmap string bytes) : list (string * bytes) := reverse (map_to_list md).
Definition account_4 : Account :=
  mkAccount (NewAccountName "alice") 4 (mkAuthority 1 [mkKeyWeight zero_PublicKey 1] [mkAccountWeight (NewAccountName "bob") 1]) 7 (-7)
    (Some (<["a" := [Byte.x01]]> (<["b" := []]> ∅))).
Definition transaction_4 : Transaction :=
  mkTransaction [Byte.x01] (NewAccountName "alice")
    (mkAuthorization [mkSignatureProof zero_PublicKey zero_Signature]
       [mkAccountAuthorization (NewAccountName "bob") (mkAuthorization [] [mkAccountAuthorization (NewAccountName "carol") zero_Authorization])]) 5 (-1).

Lemma generated_roundtrip_witness :
  (exists b, Proposal_MarshalCramberry proposal_4 = Ret b /\ Proposal_UnmarshalCramberry 12 zero_Proposal b = Ret proposal_4) /\
  (exists b, Account_MarshalCramberry reverse_order account_4 = Ret b /\ Account_UnmarshalCramberry 12 zero_Account b = Ret account_4) /\
  (exists b, Transaction_MarshalCramberry transaction_4 = Ret b /\ Transaction_UnmarshalCramberry 12 zero_Transaction b = Ret transaction_4).
Proof.
  destruct (generated_roundtrip 12 reverse_order (Nat.le_refl 12)) as
    (_ & _ & _ & _ & _ & _ & _ & _ & _ & _ & _ & Hp & _ & _ & _ & _ & _ & _ & _ & _ & _ & _ & _ & _ & _ & Ha & _ & _ & _ & Ht & _).
  { intros md. apply reverse_Permutation. }
  split_and!.
  - apply Hp; [|toy_sendable]. split; [|vm_compute; congruence]. split_and!; [vm_compute; congruence..|done|done].
  - apply Ha; [|toy_sendable]. split; [split; vm_compute; congruence|]. intros md [= <-]. vm_compute. congruence.
  - apply Ht; [|toy_sendable]. split; [cbn; lia|]. vm_compute. repeat split; congruence.
Defined.

(** The bytes of an account depend on the order in which the map yields its metadata. *)
Lemma metadata_order_shows : Account_MarshalCramberry reverse_order account_4 <> Account_MarshalCramberry map_to_list account_4.
Proof. vm_compute. congruence. Qed.

Definition unsigned_4 : Vote := canonical_vote vote_4.

Lemma sign_bytes_bind_witness : canonical_vote vote_4 = canonical_vote unsigned_4.
Proof.
  destruct (VoteSignBytes (H0 := generated_Cramberry 12) chain_c (Some vote_4)) as [b|e|m] eqn:E; [|vm_compute in E; congruence..].
  destruct (sign_bytes_bind 12 chain_c b (Nat.le_refl 12)) as [Hv _]; [vm_compute; congruence|].
  apply Hv; (split; [toy_sendable|done]).
Defined.

Lemma decoding_ends_witness :
  Proposal_UnmarshalCramberry 2 proposal_4 [Byte.x01] <> Panic "out of fuel" /\
  Transaction_UnmarshalCramberry 2 zero_Transaction [Byte.x01] <> Panic "out of fuel".
Proof.
  destruct (decoding_ends 2 [Byte.x01]) as
    (_ & _ & _ & _ & _ & _ & _ & _ & _ & _ & _ & Hp & _ & _ & _ & _ & _ & _ & _ & _ & _ & _ & _ & _ & _ & _ & _ & _ & _ & Ht);
    [cbn; lia|]. split; [apply Hp|apply Ht, toy_failed_tag_zero].
Defined.

Lemma oversized_count_panics_witness :
  HandleConsensusMessage (H0 := generated_Cramberry 1) "peer" (Byte.x01 :: encs [TTag 6 WireTypeV2Bytes; TUvarint (2 ^ 63)]) engine_4 =
    (engine_4, Panic "runtime error: makeslice: len out of range").
Proof. apply (oversized_count_panics 1 "peer" (2 ^ 63) engine_4); [lia|lia|toy_sendable|vm_compute; congruence]. Defined.
